(** * Mucgly: the input/output stacks and the macro parser of mucgly_mod.c

    A shallow embedding of [src/src/mucgly_mod.c] (data model of
    [src/include/mucgly_mod.h]) and the properties of its push-back input
    stack, its hook configuration, the match probe and the parser loop.

    Modelling conventions.
    - A [gchar] is a byte ([Byte.byte]); the [int] a read returns is a [Z],
      with [EOF = -1].  [fgetc] delivers a byte as the [int] 0..255
      ([int_of_char]).  Where the code itself converts a [gchar] to [int] (a
      byte of the put-back buffer, the first byte of a hook or of the eater
      used as an index or compared with an [int]) the byte is sign-extended
      ([int_of_gchar], -128..127): [gchar] is the plain [char] of C, which
      gcc and clang take as signed on x86, and the build ([mrbgem.rake],
      [-std=gnu11]) passes no flag that changes it.  An index before the
      first slot of a table is out of range.
    - A [char*] argument is the list of the bytes it points to; the string
      functions of C ([strlen], [g_strdup], [g_strcmp0], ...) see it up to
      its first NUL ([cstr]).  A [GString] is the list of its [len] bytes.
    - An [int] counter is a [Z] kept in the 32-bit two's-complement range by
      [wrap] after every increment and decrement.
    - A [FILE*] opened for reading is the list of the bytes not read yet; one
      opened for writing is the list of the bytes written so far.
    - Code that can leave through [exit()] or can dereference a NULL, freed or
      out-of-range pointer returns a [result]: [Ok], [Exit] with what was
      printed, or [Undef]. *)

From Stdlib Require Import ZArith List Lia Bool Strings.String Strings.Byte.
From stdpp Require Import base list.
Import ListNotations.
Local Open Scope Z_scope.

Ltac Zify.zify_post_hook ::= Z.div_mod_to_equations.

(** ** Bytes, C strings and C ints *)

Definition EOF : Z := -1.

Definition int_of_char (c : byte) : Z := Z.of_N (Byte.to_N c).

(** A [gchar] converted to [int]. *)
Definition int_of_gchar (c : byte) : Z :=
  if int_of_char c <? 128 then int_of_char c else int_of_char c - 256.

Definition char_of_int (c : Z) : byte :=
  match Byte.of_N (Z.to_N (c mod 256)) with
  | Some b => b
  | None => x00
  end.

(** Slot of a byte in a 256-entry table. *)
Definition idx (c : byte) : nat := N.to_nat (Byte.to_N c).

(** The bytes of a string literal. *)
Definition bs (s : string) : list byte := list_byte_of_string s.

(** What the C string functions see of the bytes at a [char*]. *)
Fixpoint cstr (s : list byte) : list byte :=
  match s with
  | [] => []
  | c :: r => if Byte.eqb c x00 then [] else c :: cstr r
  end.

Definition strlen (s : list byte) : Z := Z.of_nat (length (cstr s)).

Definition g_strdup (s : list byte) : list byte := cstr s.

(** [s[0]]: the first byte, or the terminating NUL of an empty string. *)
Definition str0 (s : list byte) : byte := hd x00 s.

Fixpoint bytes_eqb (a b : list byte) : bool :=
  match a, b with
  | [], [] => true
  | x :: a', y :: b' => Byte.eqb x y && bytes_eqb a' b'
  | _, _ => false
  end.

(** [!g_strcmp0( a, b )] for two non-NULL strings. *)
Definition g_strcmp0_eq (a b : list byte) : bool := bytes_eqb (cstr a) (cstr b).

Fixpoint is_prefix (p s : list byte) : bool :=
  match p, s with
  | [] , _ => true
  | x :: p', y :: s' => Byte.eqb x y && is_prefix p' s'
  | _ :: _, [] => false
  end.

(** [len_str_cmp( str1, str2 )]: [strlen str1] when [str2] starts with
    [str1], else 0. *)
Definition len_str_cmp (str1 str2 : list byte) : Z :=
  if is_prefix (cstr str1) (cstr str2) then strlen str1 else 0.

Definition wrap (z : Z) : Z := (z + 2147483648) mod 4294967296 - 2147483648.
Definition int_incr (z : Z) : Z := wrap (z + 1).
Definition int_decr (z : Z) : Z := wrap (z - 1).
Definition int_range (z : Z) : Prop := -2147483648 <= z <= 2147483647.

(** ** Diagnostics and termination *)

Inductive message : Type :=
| msg_cant_open (name : list byte)
| msg_eof_in_macro
| msg_macro_status
| msg_unknown_command (cmd : list byte)
| msg_script (inspect : list byte)
| msg_esc_matches_multihook
| msg_too_many_multihooks.

(** [mucgly_user_info] prints the severity word [infotype], the place
    (file, line+1, column+1) when a stackfile is given, and the message;
    [g_print] prints the message alone. *)
Inductive diag : Type :=
| user_info (infotype : string) (place : option (list byte * Z * Z)) (msg : message)
| g_print (msg : message).

Inductive result (E A : Type) : Type :=
| Ok (a : A)
| Exit (e : E)
| Undef.
Arguments Ok {E A} a.
Arguments Exit {E A} e.
Arguments Undef {E A}.

Definition bind {E A B} (m : result E A) (f : A -> result E B) : result E B :=
  match m with
  | Ok a => f a
  | Exit e => Exit e
  | Undef => Undef
  end.

Notation "'do' x <- m ; k" := (bind m (fun x => k))
  (at level 10, x name, m at level 100, k at level 200).
Notation "'do' ' p <- m ; k" := (bind m (fun p => k))
  (at level 10, p pattern, m at level 100, k at level 200).

(** ** Data model (mucgly_mod.h) *)

Record hookpair : Type := {
  beg : list byte;
  end_ : list byte;
  susp : option (list byte)
}.

Definition hookpair_cpy (from : hookpair) : hookpair :=
  {| beg := g_strdup (beg from); end_ := g_strdup (end_ from);
     susp := option_map g_strdup (susp from) |}.

Definition MULTI_LIMIT : Z := 128.

(** The pointer [multi]: NULL, the array of [MULTI_LIMIT] pairs (a zeroed
    pair is [None]), or the stale pointer left by [g_free]. *)
Inductive multi_ptr : Type :=
| multi_null
| multi_arr (slots : list (option hookpair))
| multi_freed.

Definition multi_is_null (m : multi_ptr) : bool :=
  match m with multi_null => true | _ => false end.

Record stackfile : Type := {
  filename : list byte;
  fh : list byte;
  buf : list byte;
  lineno : Z;
  column : Z;
  old_column : Z;
  macro : bool;
  macro_line : Z;
  macro_col : Z;
  eat_tail : bool;
  hook : hookpair;
  hookesc : list byte;
  eater : option (list byte);
  multi : multi_ptr;
  multi_cnt : Z;
  curhook : list hookpair;
  hook_esc_eq_beg : bool;
  hook_esc_eq_end : bool;
  hook_1st_chars : list Z
}.

Definition set_stream (sf : stackfile) (fh' buf' : list byte) : stackfile :=
  {| filename := filename sf; fh := fh'; buf := buf';
     lineno := lineno sf; column := column sf; old_column := old_column sf;
     macro := macro sf; macro_line := macro_line sf; macro_col := macro_col sf;
     eat_tail := eat_tail sf; hook := hook sf; hookesc := hookesc sf;
     eater := eater sf; multi := multi sf; multi_cnt := multi_cnt sf;
     curhook := curhook sf; hook_esc_eq_beg := hook_esc_eq_beg sf;
     hook_esc_eq_end := hook_esc_eq_end sf; hook_1st_chars := hook_1st_chars sf |}.

Definition set_pos (sf : stackfile) (l c o : Z) : stackfile :=
  {| filename := filename sf; fh := fh sf; buf := buf sf;
     lineno := l; column := c; old_column := o;
     macro := macro sf; macro_line := macro_line sf; macro_col := macro_col sf;
     eat_tail := eat_tail sf; hook := hook sf; hookesc := hookesc sf;
     eater := eater sf; multi := multi sf; multi_cnt := multi_cnt sf;
     curhook := curhook sf; hook_esc_eq_beg := hook_esc_eq_beg sf;
     hook_esc_eq_end := hook_esc_eq_end sf; hook_1st_chars := hook_1st_chars sf |}.

Definition set_macro (sf : stackfile) (m : bool) (l c : Z) : stackfile :=
  {| filename := filename sf; fh := fh sf; buf := buf sf;
     lineno := lineno sf; column := column sf; old_column := old_column sf;
     macro := m; macro_line := l; macro_col := c;
     eat_tail := eat_tail sf; hook := hook sf; hookesc := hookesc sf;
     eater := eater sf; multi := multi sf; multi_cnt := multi_cnt sf;
     curhook := curhook sf; hook_esc_eq_beg := hook_esc_eq_beg sf;
     hook_esc_eq_end := hook_esc_eq_end sf; hook_1st_chars := hook_1st_chars sf |}.

Definition set_eat_tail (sf : stackfile) (e : bool) : stackfile :=
  {| filename := filename sf; fh := fh sf; buf := buf sf;
     lineno := lineno sf; column := column sf; old_column := old_column sf;
     macro := macro sf; macro_line := macro_line sf; macro_col := macro_col sf;
     eat_tail := e; hook := hook sf; hookesc := hookesc sf;
     eater := eater sf; multi := multi sf; multi_cnt := multi_cnt sf;
     curhook := curhook sf; hook_esc_eq_beg := hook_esc_eq_beg sf;
     hook_esc_eq_end := hook_esc_eq_end sf; hook_1st_chars := hook_1st_chars sf |}.

Definition set_hooks (sf : stackfile) (h : hookpair) (esc : list byte)
    (e : option (list byte)) : stackfile :=
  {| filename := filename sf; fh := fh sf; buf := buf sf;
     lineno := lineno sf; column := column sf; old_column := old_column sf;
     macro := macro sf; macro_line := macro_line sf; macro_col := macro_col sf;
     eat_tail := eat_tail sf; hook := h; hookesc := esc;
     eater := e; multi := multi sf; multi_cnt := multi_cnt sf;
     curhook := curhook sf; hook_esc_eq_beg := hook_esc_eq_beg sf;
     hook_esc_eq_end := hook_esc_eq_end sf; hook_1st_chars := hook_1st_chars sf |}.

Definition set_multi (sf : stackfile) (m : multi_ptr) (cnt : Z) : stackfile :=
  {| filename := filename sf; fh := fh sf; buf := buf sf;
     lineno := lineno sf; column := column sf; old_column := old_column sf;
     macro := macro sf; macro_line := macro_line sf; macro_col := macro_col sf;
     eat_tail := eat_tail sf; hook := hook sf; hookesc := hookesc sf;
     eater := eater sf; multi := m; multi_cnt := cnt;
     curhook := curhook sf; hook_esc_eq_beg := hook_esc_eq_beg sf;
     hook_esc_eq_end := hook_esc_eq_end sf; hook_1st_chars := hook_1st_chars sf |}.

Definition set_curhook (sf : stackfile) (ch : list hookpair) : stackfile :=
  {| filename := filename sf; fh := fh sf; buf := buf sf;
     lineno := lineno sf; column := column sf; old_column := old_column sf;
     macro := macro sf; macro_line := macro_line sf; macro_col := macro_col sf;
     eat_tail := eat_tail sf; hook := hook sf; hookesc := hookesc sf;
     eater := eater sf; multi := multi sf; multi_cnt := multi_cnt sf;
     curhook := ch; hook_esc_eq_beg := hook_esc_eq_beg sf;
     hook_esc_eq_end := hook_esc_eq_end sf; hook_1st_chars := hook_1st_chars sf |}.

Definition set_cache (sf : stackfile) (eb ee : bool) (t : list Z) : stackfile :=
  {| filename := filename sf; fh := fh sf; buf := buf sf;
     lineno := lineno sf; column := column sf; old_column := old_column sf;
     macro := macro sf; macro_line := macro_line sf; macro_col := macro_col sf;
     eat_tail := eat_tail sf; hook := hook sf; hookesc := hookesc sf;
     eater := eater sf; multi := multi sf; multi_cnt := multi_cnt sf;
     curhook := curhook sf; hook_esc_eq_beg := eb;
     hook_esc_eq_end := ee; hook_1st_chars := t |}.

(** ** Stackfile: reading and putting back (sf_get, sf_put) *)

Definition sf_mark_macro (sf : stackfile) : stackfile :=
  set_macro sf true (lineno sf) (column sf).

Definition sf_unmark_macro (sf : stackfile) : stackfile :=
  set_macro sf false (macro_line sf) (macro_col sf).

(** One pass of [sf_get] from the label [re_read] down to the update of the
    file point: the last byte of the put-back buffer, a [gchar] assigned to
    the [int ret], else [fgetc]. *)
Definition sf_read (sf : stackfile) : Z * stackfile :=
  let '(ret, sf1) :=
    match rev (buf sf) with
    | c :: r => (int_of_gchar c, set_stream sf (fh sf) (rev r))
    | [] =>
        match fh sf with
        | c :: rest => (int_of_char c, set_stream sf rest (buf sf))
        | [] => (EOF, sf)
        end
    end in
  if negb (ret =? EOF) then
    if ret =? int_of_char x0a then
      (ret, set_pos sf1 (int_incr (lineno sf1)) 0 (column sf1))
    else
      (ret, set_pos sf1 (lineno sf1) (int_incr (column sf1)) (old_column sf1))
  else (ret, sf1).

(** [sf_get]: when [eat_tail] is set it is cleared and, unless the byte is
    EOF, control jumps back to [re_read]; the flag being clear by then, the
    second pass returns its byte. *)
Definition sf_get (sf : stackfile) : Z * stackfile :=
  let '(ret, sf1) := sf_read sf in
  if eat_tail sf1 then
    let sf2 := set_eat_tail sf1 false in
    if negb (ret =? EOF) then sf_read sf2 else (ret, sf2)
  else (ret, sf1).

Definition sf_put (sf : stackfile) (c : byte) : stackfile :=
  let sf1 :=
    if Byte.eqb c x0a then
      set_pos sf (int_decr (lineno sf)) (old_column sf) 0
    else
      set_pos sf (lineno sf) (int_decr (column sf)) (old_column sf) in
  set_stream sf1 (fh sf1) (buf sf1 ++ [c]).

(** ** Hook configuration (sf_update_hook_cache, sf_set_hook, sf_set_eater,
       sf_multi_hook) *)

Inductive hook_t : Type := hook_none | hook_end | hook_beg | hook_esc.

Definition is_hook_esc (h : hook_t) : bool :=
  match h with hook_esc => true | _ => false end.

(** [hook_1st_chars[ c ] = v] for a [gchar] [c]: the index is the signed
    value of the byte, and a negative one lies before the table. *)
Definition tbl_put (t : list Z) (c : byte) (v : Z) : result diag (list Z) :=
  if int_of_gchar c <? 0 then Undef
  else Ok (<[ Z.to_nat (int_of_gchar c) := v ]> t).

(** [memset( hook_1st_chars, 0, 256 )]. *)
Definition tbl_zero : list Z := replicate 256 0.

Definition sf_update_hook_cache (sf : stackfile) : result diag stackfile :=
  match multi sf with
  | multi_null =>
      let eb := g_strcmp0_eq (hookesc sf) (beg (hook sf)) in
      let ee := g_strcmp0_eq (hookesc sf) (end_ (hook sf)) in
      do t1 <- tbl_put tbl_zero (str0 (beg (hook sf))) 1;
      do t2 <- tbl_put t1 (str0 (end_ (hook sf))) 1;
      do t3 <- tbl_put t2 (str0 (hookesc sf)) 1;
      Ok (set_cache sf eb ee t3)
  | multi_arr slots =>
      (* only multi[ multi_cnt-1 ], the latest addition, is entered *)
      if multi_cnt sf - 1 <? 0 then Undef
      else
        match slots !! Z.to_nat (multi_cnt sf - 1) with
        | Some (Some hp) =>
            do t1 <- tbl_put (hook_1st_chars sf) (str0 (beg hp)) 1;
            do t2 <- tbl_put t1 (str0 (end_ hp)) 1;
            do t3 <- match susp hp with
                     | Some s => tbl_put t2 (str0 s) 1
                     | None => Ok t2
                     end;
            do t4 <- tbl_put t3 (str0 (hookesc sf)) 1;
            Ok (set_cache sf false false t4)
        | _ => Undef
        end
  | multi_freed => Undef
  end.

Definition sf_set_hook (sf : stackfile) (hk : hook_t) (value : list byte)
  : result diag stackfile :=
  do sf1 <-
    (if negb (multi_is_null (multi sf)) && negb (is_hook_esc hk) then
       (* the pairs and the array are freed and the count reset; the
          pointer [multi] itself keeps its value *)
       match multi sf with
       | multi_arr _ => Ok (set_multi sf multi_freed 0)
       | _ => Undef
       end
     else Ok sf);
  do sf2 <-
    match hk with
    | hook_beg =>
        Ok (set_hooks sf1 {| beg := g_strdup value; end_ := end_ (hook sf1);
                             susp := susp (hook sf1) |} (hookesc sf1) (eater sf1))
    | hook_end =>
        Ok (set_hooks sf1 {| beg := beg (hook sf1); end_ := g_strdup value;
                             susp := susp (hook sf1) |} (hookesc sf1) (eater sf1))
    | hook_esc =>
        (* the old esc leaves the first-byte table *)
        do t <- tbl_put (hook_1st_chars sf1) (str0 (hookesc sf1)) 0;
        Ok (set_hooks (set_cache sf1 (hook_esc_eq_beg sf1) (hook_esc_eq_end sf1) t)
                      (hook sf1) (g_strdup value) (eater sf1))
    | hook_none => Ok sf1
    end;
  sf_update_hook_cache sf2.

Definition sf_set_eater (sf : stackfile) (value : option (list byte)) : stackfile :=
  set_hooks sf (hook sf) (hookesc sf) (option_map g_strdup value).

Definition sf_multi_hook (sf : stackfile) (b e : list byte) (s : option (list byte))
  : result diag stackfile :=
  if g_strcmp0_eq (hookesc sf) b || g_strcmp0_eq (hookesc sf) e then
    Exit (g_print msg_esc_matches_multihook)
  else
    let sf1 :=
      if multi_is_null (multi sf) then
        set_cache (set_multi sf (multi_arr (replicate (Z.to_nat MULTI_LIMIT) None)) 0)
                  (hook_esc_eq_beg sf) (hook_esc_eq_end sf) tbl_zero
      else sf in
    if multi_cnt sf1 >=? MULTI_LIMIT - 1 then
      Exit (g_print msg_too_many_multihooks)
    else
      match multi sf1 with
      | multi_arr slots =>
          if multi_cnt sf1 <? 0 then Undef
          else
            let hp := {| beg := g_strdup b; end_ := g_strdup e;
                         susp := option_map g_strdup s |} in
            let slots1 := <[ Z.to_nat (multi_cnt sf1) := Some hp ]> slots in
            let cnt := int_incr (multi_cnt sf1) in
            let slots2 := <[ Z.to_nat cnt := None ]> slots1 in
            sf_update_hook_cache (set_multi sf1 (multi_arr slots2) cnt)
      | _ => Undef
      end.

Definition HOOKBEG_DEFAULT : list byte := bs "-<".
Definition HOOKEND_DEFAULT : list byte := bs ">-".
Definition HOOKESC_DEFAULT : list byte := bs "\".

(** [g_new0( stackfile_t, 1 )] with the stream and its name filled in. *)
Definition sf_zero (name stream : list byte) : stackfile :=
  {| filename := name; fh := stream; buf := [];
     lineno := 0; column := 0; old_column := 0;
     macro := false; macro_line := 0; macro_col := 0; eat_tail := false;
     hook := {| beg := []; end_ := []; susp := None |}; hookesc := [];
     eater := None; multi := multi_null; multi_cnt := 0; curhook := [];
     hook_esc_eq_beg := false; hook_esc_eq_end := false;
     hook_1st_chars := tbl_zero |}.

(** The multi-hooks of [inherit] entered one by one, as [sf_new] does. *)
Fixpoint sf_inherit_multi (n : nat) (i : nat) (slots : list (option hookpair))
    (sf : stackfile) : result diag stackfile :=
  match n with
  | O => Ok sf
  | S n' =>
      match slots !! i with
      | Some (Some hp) =>
          do sf1 <- sf_multi_hook sf (beg hp) (end_ hp) (susp hp);
          sf_inherit_multi n' (S i) slots sf1
      | _ => Undef
      end
  end.

(** [sf_new] once its stream is open: [name] and [stream] are the file's, or
    ["<STDIN>"] and the bytes of standard input. *)
Definition sf_init (name stream : list byte) (inherit : option stackfile)
  : result diag stackfile :=
  let sf := sf_zero name stream in
  match inherit with
  | Some inh =>
      let sf1 := set_hooks sf (hookpair_cpy (hook inh)) (g_strdup (hookesc inh)) None in
      do sf2 <- sf_update_hook_cache sf1;
      match multi inh with
      | multi_null => Ok sf2
      | multi_arr slots => sf_inherit_multi (Z.to_nat (multi_cnt inh)) 0 slots sf2
      | multi_freed => if multi_cnt inh <=? 0 then Ok sf2 else Undef
      end
  | None =>
      let sf1 := set_hooks sf {| beg := g_strdup HOOKBEG_DEFAULT;
                                 end_ := g_strdup HOOKEND_DEFAULT; susp := None |}
                           (g_strdup HOOKESC_DEFAULT) None in
      sf_update_hook_cache sf1
  end.

(** ** Filestack *)

(** [file] is the list from the current cell on (its head is the top file);
    [file_prev] holds the cells reached through [prev], nearest first: the
    files [fs_push_file_delayed] parked behind the top. *)
Record filestack : Type := {
  file : list stackfile;
  file_prev : list stackfile
}.

Definition fs_new : filestack := {| file := []; file_prev := [] |}.

(** [fs_topfile( fs )] dereferences [fs->file]. *)
Definition fs_topfile (fs : filestack) : result diag stackfile :=
  match file fs with
  | sf :: _ => Ok sf
  | [] => Undef
  end.

Definition fs_set_top (fs : filestack) (sf : stackfile) : filestack :=
  {| file := sf :: tl (file fs); file_prev := file_prev fs |}.

Definition fs_pop_file (fs : filestack) : result diag filestack :=
  match file fs with
  | _ :: rest => Ok {| file := rest; file_prev := file_prev fs |}
  | [] => Undef
  end.

Definition fs_get (fs : filestack) : Z * filestack :=
  match file fs with
  | sf :: _ => let '(ret, sf') := sf_get sf in (ret, fs_set_top fs sf')
  | [] => (EOF, fs)
  end.

(** The loop of [fs_get_one]: a file that answers EOF is popped and the one
    below is read, until a byte arrives or no file is left. *)
Fixpoint fs_get_one_from (files : list stackfile) : Z * list stackfile :=
  match files with
  | [] => (EOF, [])
  | sf :: rest =>
      let '(ret, sf') := sf_get sf in
      if ret =? EOF then fs_get_one_from rest else (ret, sf' :: rest)
  end.

Definition fs_get_one (fs : filestack) : Z * filestack :=
  let '(ret, files) := fs_get_one_from (file fs) in
  (ret, {| file := files; file_prev := file_prev fs |}).

Definition fs_put (fs : filestack) (c : byte) : result diag filestack :=
  do sf <- fs_topfile fs;
  Ok (fs_set_top fs (sf_put sf c)).

Fixpoint fs_get_n_loop (n : nat) (fs : filestack) (ret : list byte)
  : list byte * filestack :=
  match n with
  | O => (ret, fs)
  | S n' =>
      let '(c, fs1) := fs_get fs in
      if negb (c =? EOF) then fs_get_n_loop n' fs1 (ret ++ [char_of_int c])
      else (ret, fs1)
  end.

Definition fs_get_n (fs : filestack) (n : Z) : list byte * filestack :=
  fs_get_n_loop (Z.to_nat n) fs [].

(** [str[ i ]]: a byte of the string, its terminating NUL, or out of range. *)
Definition str_at (str : list byte) (i : nat) : result diag byte :=
  match str !! i with
  | Some c => Ok c
  | None => if Nat.eqb i (length str) then Ok x00 else Undef
  end.

(** [for ( i = n-1; i >= 0; i-- ) fs_put( fs, str[ i ] )], [k] bytes to go. *)
Fixpoint fs_put_n_loop (k : nat) (fs : filestack) (str : list byte)
  : result diag filestack :=
  match k with
  | O => Ok fs
  | S i =>
      do c <- str_at str i;
      do fs1 <- fs_put fs c;
      fs_put_n_loop i fs1 str
  end.

Definition fs_put_n (fs : filestack) (str : list byte) (n : Z)
  : result diag filestack :=
  let n := if n =? 0 then strlen str else n in
  fs_put_n_loop (Z.to_nat n) fs str.

(** ** Output files and the parser state *)

Record outfile : Type := {
  of_filename : list byte;
  of_fh : list byte;
  of_lineno : Z;
  of_blocked : bool
}.

Record pstate : Type := {
  fs : filestack;
  check_buf : list byte;
  macro_buf : list byte;
  match_buf : list byte;
  in_macro : Z;
  suspension : Z;
  output : list outfile;
  flush : bool;
  post_push : bool;
  post_pop : bool
}.

(** What leaves the process with [exit( EXIT_FAILURE )]: the diagnostic and
    the parser state at that moment. *)
Definition failure : Type := (diag * pstate)%type.

Definition set_fs (ps : pstate) (f : filestack) : pstate :=
  {| fs := f; check_buf := check_buf ps; macro_buf := macro_buf ps;
     match_buf := match_buf ps; in_macro := in_macro ps;
     suspension := suspension ps; output := output ps; flush := flush ps;
     post_push := post_push ps; post_pop := post_pop ps |}.

Definition set_bufs (ps : pstate) (chk mac mat : list byte) : pstate :=
  {| fs := fs ps; check_buf := chk; macro_buf := mac;
     match_buf := mat; in_macro := in_macro ps;
     suspension := suspension ps; output := output ps; flush := flush ps;
     post_push := post_push ps; post_pop := post_pop ps |}.

Definition set_macro_buf (ps : pstate) (mac : list byte) : pstate :=
  set_bufs ps (check_buf ps) mac (match_buf ps).

Definition set_in_macro (ps : pstate) (n : Z) : pstate :=
  {| fs := fs ps; check_buf := check_buf ps; macro_buf := macro_buf ps;
     match_buf := match_buf ps; in_macro := n;
     suspension := suspension ps; output := output ps; flush := flush ps;
     post_push := post_push ps; post_pop := post_pop ps |}.

Definition set_suspension (ps : pstate) (n : Z) : pstate :=
  {| fs := fs ps; check_buf := check_buf ps; macro_buf := macro_buf ps;
     match_buf := match_buf ps; in_macro := in_macro ps;
     suspension := n; output := output ps; flush := flush ps;
     post_push := post_push ps; post_pop := post_pop ps |}.

Definition set_output (ps : pstate) (o : list outfile) : pstate :=
  {| fs := fs ps; check_buf := check_buf ps; macro_buf := macro_buf ps;
     match_buf := match_buf ps; in_macro := in_macro ps;
     suspension := suspension ps; output := o; flush := flush ps;
     post_push := post_push ps; post_pop := post_pop ps |}.

Definition set_post (ps : pstate) (push pop : bool) : pstate :=
  {| fs := fs ps; check_buf := check_buf ps; macro_buf := macro_buf ps;
     match_buf := match_buf ps; in_macro := in_macro ps;
     suspension := suspension ps; output := output ps; flush := flush ps;
     post_push := push; post_pop := pop |}.

(** A step on the stackfile alone, run inside the parser: [exit] there ends
    the process in the parser state [ps]. *)
Definition lift {A} (ps : pstate) (r : result diag A) : result failure A :=
  match r with
  | Ok a => Ok a
  | Exit d => Exit (d, ps)
  | Undef => Undef
  end.

Definition ps_has_file (ps : pstate) : bool :=
  match file (fs ps) with [] => false | _ => true end.

(** [ps_topfile( ps )] dereferences [ps->fs->file]. *)
Definition ps_topfile (ps : pstate) : result failure stackfile :=
  lift ps (fs_topfile (fs ps)).

Definition ps_set_top (ps : pstate) (sf : stackfile) : pstate :=
  set_fs ps (fs_set_top (fs ps) sf).

Definition ps_current_file (ps : pstate) : option stackfile :=
  match file (fs ps) with
  | sf :: _ => Some sf
  | [] => None
  end.

(** The place [mucgly_user_info_str] prints. *)
Definition place_of (sf : option stackfile) : option (list byte * Z * Z) :=
  match sf with
  | Some sf =>
      if macro sf then Some (filename sf, wrap (macro_line sf + 1), wrap (macro_col sf + 1))
      else Some (filename sf, wrap (lineno sf + 1), wrap (column sf + 1))
  | None => None
  end.

Definition mucgly_error {A} (ps : pstate) (sf : option stackfile) (m : message)
  : result failure A :=
  Exit (user_info "error" (place_of sf) m, ps).

Definition mucgly_fatal {A} (ps : pstate) (sf : option stackfile) (m : message)
  : result failure A :=
  Exit (user_info "fatal error" (place_of sf) m, ps).

(** ** The first-byte screen and the match probe *)

Definition ps_check_hook (ps : pstate) (c : Z) : result failure bool :=
  if c =? EOF then Ok false
  else
    do sf <- ps_topfile ps;
    if c <? 0 then Undef
    else
      match hook_1st_chars sf !! Z.to_nat c with
      | Some v => Ok (negb (v =? 0))
      | None => Undef
      end.

Definition ps_check (ps : pstate) (m : list byte) (erase : bool)
  : result failure (bool * pstate) :=
  let ps1 := set_bufs ps (check_buf ps) (macro_buf ps) (cstr m) in
  let len := strlen m in
  let '(input, fs1) := fs_get_n (fs ps1) len in
  let ps2 := set_fs (set_bufs ps1 input (macro_buf ps1) (match_buf ps1)) fs1 in
  if Nat.eqb (length input) 0 then
    (* at end of file: give up and pop the file *)
    do fs2 <- lift ps2 (fs_pop_file fs1);
    Ok (false, set_fs ps2 fs2)
  else
    let ret := g_strcmp0_eq input (match_buf ps2) in
    if negb ret || negb erase then
      do fs2 <- lift ps2 (fs_put_n fs1 input (Z.of_nat (length input)));
      Ok (ret, set_fs ps2 fs2)
    else Ok (ret, ps2).

(** Whether [ps_check] finds nothing to read and pops the top file. *)
Definition ps_check_pops (ps : pstate) (m : list byte) : bool :=
  Nat.eqb (length (fst (fs_get_n (fs ps) (strlen m)))) 0.

Definition ps_check_hookesc (ps : pstate) : result failure (bool * pstate) :=
  if negb (ps_has_file ps) then Ok (false, ps)
  else
    do sf <- ps_topfile ps;
    ps_check ps (hookesc sf) true.

Definition ps_push_curhook (sf : stackfile) (pair : hookpair) : stackfile :=
  set_curhook sf (hookpair_cpy pair :: curhook sf).

Definition ps_pop_curhook (sf : stackfile) : result diag stackfile :=
  match curhook sf with
  | _ :: rest => Ok (set_curhook sf rest)
  | [] => Undef
  end.

(** The current hook pair: [ps_topfile( ps )->curhook->data]. *)
Definition ps_current_hook (ps : pstate) : result failure hookpair :=
  do sf <- ps_topfile ps;
  match curhook sf with
  | h :: _ => Ok h
  | [] => Undef
  end.

Definition ps_current_hookbeg (ps : pstate) : result failure (list byte) :=
  do h <- ps_current_hook ps; Ok (beg h).

Definition ps_current_hookend (ps : pstate) : result failure (list byte) :=
  do h <- ps_current_hook ps; Ok (end_ h).

Definition ps_current_hooksusp (ps : pstate) : result failure (option (list byte)) :=
  do h <- ps_current_hook ps; Ok (susp h).

(** The multi-hook loop of [ps_check_hookbeg], [n] pairs to go from index
    [i].  The loop keeps using the stackfile it started with: once a probe
    has popped that file, the next test of the loop reads freed memory. *)
Fixpoint ps_check_multi (n : nat) (i : nat) (slots : list (option hookpair))
    (ps : pstate) : result failure (bool * pstate) :=
  match n with
  | O => Ok (false, ps)
  | S n' =>
      match slots !! i with
      | Some (Some hp) =>
          do '(ret, ps1) <- ps_check ps (beg hp) true;
          if ret : bool then
            do sf1 <- ps_topfile ps1;
            Ok (true, ps_set_top ps1 (ps_push_curhook sf1 hp))
          else if ps_check_pops ps (beg hp) then Undef
          else ps_check_multi n' (S i) slots ps1
      | _ => Undef
      end
  end.

Definition ps_check_hookbeg (ps : pstate) : result failure (bool * pstate) :=
  if negb (ps_has_file ps) then Ok (false, ps)
  else
    do sf <- ps_topfile ps;
    match multi sf with
    | multi_null =>
        do '(ret, ps1) <- ps_check ps (beg (hook sf)) true;
        if ret : bool then
          do sf1 <- ps_topfile ps1;
          Ok (true, ps_set_top ps1 (ps_push_curhook sf1 (hook sf)))
        else Ok (false, ps1)
    | multi_arr slots => ps_check_multi (Z.to_nat (multi_cnt sf)) 0 slots ps
    | multi_freed => if multi_cnt sf <=? 0 then Ok (false, ps) else Undef
    end.

Definition ps_check_hookend (ps : pstate) : result failure (bool * pstate) :=
  if negb (ps_has_file ps) then Ok (false, ps)
  else
    do e <- ps_current_hookend ps;
    ps_check ps e true.

Definition ps_check_hooksusp (ps : pstate) : result failure (bool * pstate) :=
  if negb (ps_has_file ps) then Ok (false, ps)
  else
    do s <- ps_current_hooksusp ps;
    match s with
    | Some s => ps_check ps s true
    | None => Ok (false, ps)
    end.

Definition ps_check_eater (ps : pstate) : result failure (bool * pstate) :=
  if negb (ps_has_file ps) then Ok (false, ps)
  else
    do sf <- ps_topfile ps;
    match eater sf with
    | Some e => ps_check ps e true
    | None => Ok (false, ps)
    end.

(** ** Input, output and macro collection *)

Definition ps_in (ps : pstate) : Z * pstate :=
  let '(c, fs1) := fs_get_one (fs ps) in (c, set_fs ps fs1).

(** [fputc] writes the byte [(unsigned char) c]; [fflush] leaves the bytes
    written as they are. *)
Definition ps_out (ps : pstate) (c : Z) : result failure pstate :=
  match output ps with
  | o :: rest =>
      if negb (of_blocked o) then
        let l := if c =? int_of_char x0a then int_incr (of_lineno o) else of_lineno o in
        Ok (set_output ps ({| of_filename := of_filename o;
                              of_fh := of_fh o ++ [char_of_int c];
                              of_lineno := l; of_blocked := of_blocked o |} :: rest))
      else Ok ps
  | [] => Undef
  end.

(** [ps_out( ps, str[ i ] )] for the bytes of [s] in order. *)
Fixpoint ps_out_bytes (ps : pstate) (s : list byte) : result failure pstate :=
  match s with
  | [] => Ok ps
  | c :: r => do ps1 <- ps_out ps (int_of_gchar c); ps_out_bytes ps1 r
  end.

(** [ps_out_str]: nothing for NULL, else the [strlen str] bytes in order. *)
Definition ps_out_str (ps : pstate) (str : option (list byte)) : result failure pstate :=
  match str with
  | Some s => ps_out_bytes ps (cstr s)
  | None => Ok ps
  end.

Definition set_blocked (o : outfile) (b : bool) : outfile :=
  {| of_filename := of_filename o; of_fh := of_fh o;
     of_lineno := of_lineno o; of_blocked := b |}.

Definition ps_block_output (ps : pstate) : result failure pstate :=
  match output ps with
  | o :: rest => Ok (set_output ps (set_blocked o true :: rest))
  | [] => Undef
  end.

Definition ps_unblock_output (ps : pstate) : result failure pstate :=
  match output ps with
  | o :: rest => Ok (set_output ps (set_blocked o false :: rest))
  | [] => Undef
  end.

(** Pop of the output stack. *)
Definition ps_pop_file (ps : pstate) : result failure pstate :=
  match output ps with
  | _ :: rest => Ok (set_output ps rest)
  | [] => Undef
  end.

Definition ps_start_collect (ps : pstate) : pstate := set_macro_buf ps [].

Definition ps_collect (ps : pstate) (c : Z) : pstate :=
  set_macro_buf ps (macro_buf ps ++ [char_of_int c]).

Definition ps_collect_str (ps : pstate) (str : list byte) : pstate :=
  set_macro_buf ps (macro_buf ps ++ cstr str).

Definition ps_enter_macro (ps : pstate) : result failure pstate :=
  let ps1 := set_in_macro ps (int_incr (in_macro ps)) in
  do sf <- ps_topfile ps1;
  Ok (ps_start_collect (ps_set_top ps1 (sf_mark_macro sf))).

(** [ps_get_macro] returns a pointer into [macro_buf]: the bytes from the
    second one on after a leading ['+'], else all of them. *)
Definition ps_get_macro (ps : pstate) : result failure (list byte * pstate) :=
  if Byte.eqb (str0 (macro_buf ps)) "+"%byte then
    do sf <- ps_topfile ps;
    Ok (tl (macro_buf ps), ps_set_top ps (set_eat_tail sf true))
  else Ok (macro_buf ps, ps).

(** ** The script host, the file system and the parser proper *)

(** [&cmd[ k ]]: a pointer into the macro buffer, up to its terminating NUL;
    what lies behind the terminator is not the string's. *)
Definition arg_at (cmd : list byte) (k : Z) : result failure (list byte) :=
  if (0 <=? k) && (k <=? Z.of_nat (length cmd)) then Ok (drop (Z.to_nat k) cmd)
  else Undef.

(** [g_strsplit( s, " ", 2 )]: no piece for the empty string, else the part
    before the first space and, when there is a space, the part after it. *)
Fixpoint split_space (s : list byte) : list byte * option (list byte) :=
  match s with
  | [] => ([], None)
  | c :: r =>
      if Byte.eqb c " "%byte then ([], Some r)
      else let '(a, b) := split_space r in (c :: a, b)
  end.

Definition g_strsplit_2 (s : list byte) : list (list byte) :=
  match cstr s with
  | [] => []
  | s' => match split_space s' with
          | (a, Some b) => [a; b]
          | (a, None) => [a]
          end
  end.

(** [ps->fs->file = ps->fs->file->prev]. *)
Definition fs_move_prev (fs : filestack) : result diag filestack :=
  match file fs with
  | [] => Undef
  | _ :: _ =>
      match file_prev fs with
      | p :: above => Ok {| file := p :: file fs; file_prev := above |}
      | [] => Ok {| file := []; file_prev := [] |}
      end
  end.

Definition ps_process_non_hook_seq (ps : pstate) (c : Z)
  : result failure (pstate * bool) :=
  if negb (in_macro ps =? 0) then
    if c =? EOF then mucgly_error ps (ps_current_file ps) msg_eof_in_macro
    else Ok (ps_collect ps c, false)
  else
    if c =? EOF then Ok (ps, true)
    else do ps1 <- ps_out ps c; Ok (ps1, false).

Section Parser.

(** The interpreter behind [ps->mrb] and what the parser asks of it. *)
Variable mrb_state : Type.

(** What a script run leaves: the interpreter and the parser state after
    the callbacks it made, and its value as [ps_eval_ruby_str] returns it
    (the string itself or its [inspect]); or a pending exception with its
    [inspect]; or the end of the process inside a callback. *)
Inductive host_result : Type :=
| host_value (m : mrb_state) (ps : pstate) (str : list byte)
| host_exc (m : mrb_state) (ps : pstate) (inspect : list byte)
| host_exit (f : failure)
| host_undef.

Variable mrb_load_string : list byte -> mrb_state -> pstate -> host_result.
Variable mrb_load_file : list byte -> mrb_state -> pstate -> host_result.

(** [g_fopen( name, "r" )]: the bytes of the file, if it opens;
    [g_fopen( name, "w" )]: whether it opens. *)
Variable g_fopen_r : list byte -> option (list byte).
Variable g_fopen_w : list byte -> bool.
Variable stdin_bytes : list byte.

(** The global [stack_default]. *)
Variable stack_default : option stackfile.

Definition sf_new (ps : pstate) (name : option (list byte))
    (inherit : option stackfile) : result failure stackfile :=
  match name with
  | Some f =>
      match g_fopen_r (cstr f) with
      | Some stream => lift ps (sf_init (g_strdup f) stream inherit)
      | None =>
          do err_sf <- ps_topfile ps;
          mucgly_fatal ps (Some err_sf) (msg_cant_open (cstr f))
      end
  | None => lift ps (sf_init (bs "<STDIN>") stdin_bytes inherit)
  end.

Definition fs_push_file (ps : pstate) (name : option (list byte))
  : result failure pstate :=
  match file (fs ps) with
  | top :: _ =>
      do sf <- sf_new ps name (Some top);
      Ok (set_fs ps {| file := sf :: file (fs ps); file_prev := file_prev (fs ps) |})
  | [] =>
      do sf <- sf_new ps name stack_default;
      Ok (set_fs ps {| file := [sf]; file_prev := [] |})
  end.

Definition fs_push_file_delayed (ps : pstate) (name : option (list byte))
  : result failure pstate :=
  do ps1 <- fs_push_file ps name;
  match file (fs ps1) with
  | sf :: rest =>
      Ok (set_fs ps1 {| file := rest; file_prev := sf :: file_prev (fs ps1) |})
  | [] => Undef
  end.

Definition outfile_new (ps : pstate) (name : option (list byte))
  : result failure outfile :=
  match name with
  | Some f =>
      if g_fopen_w (cstr f) then
        Ok {| of_filename := g_strdup f; of_fh := []; of_lineno := 0;
              of_blocked := false |}
      else
        do err_sf <- ps_topfile ps;
        mucgly_fatal ps (Some err_sf) (msg_cant_open (filename err_sf))
  | None =>
      Ok {| of_filename := bs "<STDOUT>"; of_fh := []; of_lineno := 0;
            of_blocked := false |}
  end.

Definition ps_push_file (ps : pstate) (name : option (list byte))
  : result failure pstate :=
  do o <- outfile_new ps name;
  Ok (set_output ps (o :: output ps)).

Definition ps_eval_ruby_str (m : mrb_state) (ps : pstate) (str : list byte)
    (to_str : bool) : result failure (mrb_state * pstate * option (list byte)) :=
  match mrb_load_string (cstr str) m ps with
  | host_exc m1 ps1 insp => mucgly_error ps1 (ps_current_file ps1) (msg_script insp)
  | host_value m1 ps1 s => Ok (m1, ps1, if to_str then Some s else None)
  | host_exit f => Exit f
  | host_undef => Undef
  end.

(** [ps_load_ruby_file]: nothing when the file does not open; the value
    and a pending exception of the load are not looked at. *)
Definition ps_load_ruby_file (m : mrb_state) (ps : pstate) (name : list byte)
  : result failure (mrb_state * pstate) :=
  match g_fopen_r (cstr name) with
  | Some content =>
      match mrb_load_file content m ps with
      | host_value m1 ps1 _ => Ok (m1, ps1)
      | host_exc m1 ps1 _ => Ok (m1, ps1)
      | host_exit f => Exit f
      | host_undef => Undef
      end
  | None => Ok (m, ps)
  end.

(** [sf_set_hook( ps_topfile(ps), hk, value )]. *)
Definition ps_set_hook (ps : pstate) (hk : hook_t) (value : list byte)
  : result failure pstate :=
  do sf <- ps_topfile ps;
  do sf1 <- lift ps (sf_set_hook sf hk value);
  Ok (ps_set_top ps sf1).

(** [ps_eval_cmd] from its second statement on, [cmd] being what
    [ps_get_macro] returned. *)
Definition ps_dispatch (m : mrb_state) (ps : pstate) (cmd : list byte)
  : result failure (mrb_state * pstate * bool) :=
  let kw (k : list byte) : Z := len_str_cmp k cmd in
  if Byte.eqb (str0 cmd) ":"%byte then
    if negb (kw (bs ":hookbeg") =? 0) then
      do a <- arg_at cmd (kw (bs ":hookbeg") + 1);
      do ps1 <- ps_set_hook ps hook_beg a; Ok (m, ps1, false)
    else if negb (kw (bs ":hookend") =? 0) then
      do a <- arg_at cmd (kw (bs ":hookend") + 1);
      do ps1 <- ps_set_hook ps hook_end a; Ok (m, ps1, false)
    else if negb (kw (bs ":hookesc") =? 0) then
      do a <- arg_at cmd (kw (bs ":hookesc") + 1);
      do ps1 <- ps_set_hook ps hook_esc a; Ok (m, ps1, false)
    else if negb (kw (bs ":eater") =? 0) then
      do a <- arg_at cmd (kw (bs ":eater") + 1);
      do sf <- ps_topfile ps;
      Ok (m, ps_set_top ps (sf_set_eater sf (Some a)), false)
    else if negb (kw (bs ":hookall") =? 0) then
      do a <- arg_at cmd (kw (bs ":hookall") + 1);
      do ps1 <- ps_set_hook ps hook_beg a;
      do ps2 <- ps_set_hook ps1 hook_end a;
      do ps3 <- ps_set_hook ps2 hook_esc a; Ok (m, ps3, false)
    else if negb (kw (bs ":hook") =? 0) then
      do a <- arg_at cmd (kw (bs ":hook") + 1);
      match g_strsplit_2 a with
      | [p0; p1] =>
          do ps1 <- ps_set_hook ps hook_beg p0;
          do ps2 <- ps_set_hook ps1 hook_end p1; Ok (m, ps2, false)
      | [p0] =>
          do ps1 <- ps_set_hook ps hook_beg p0;
          do ps2 <- ps_set_hook ps1 hook_end p0; Ok (m, ps2, false)
      | _ =>
          (* no piece: [pieces[0]] is NULL and becomes the hook *)
          Undef
      end
    else if negb (kw (bs ":include") =? 0) then
      do a <- arg_at cmd (kw (bs ":include") + 1);
      do ps1 <- fs_push_file_delayed ps (Some a);
      Ok (m, set_post ps1 true (post_pop ps1), false)
    else if negb (kw (bs ":source") =? 0) then
      do a <- arg_at cmd (kw (bs ":source") + 1);
      do '(m1, ps1) <- ps_load_ruby_file m ps a; Ok (m1, ps1, false)
    else if negb (kw (bs ":block") =? 0) then
      do ps1 <- ps_block_output ps; Ok (m, ps1, false)
    else if negb (kw (bs ":unblock") =? 0) then
      do ps1 <- ps_unblock_output ps; Ok (m, ps1, false)
    else if negb (kw (bs ":comment") =? 0) then Ok (m, ps, false)
    else if negb (kw (bs ":exit") =? 0) then Ok (m, ps, true)
    else
      do sf <- ps_topfile ps;
      do a <- arg_at cmd 1;
      mucgly_error ps (Some sf) (msg_unknown_command (cstr a))
  else if Byte.eqb (str0 cmd) "."%byte then
    do a <- arg_at cmd 1;
    do '(m1, ps1, r) <- ps_eval_ruby_str m ps a true;
    do ps2 <- ps_out_str ps1 r; Ok (m1, ps2, false)
  else if Byte.eqb (str0 cmd) "/"%byte then Ok (m, ps, false)
  else if Byte.eqb (str0 cmd) "#"%byte then
    do b <- ps_current_hookbeg ps;
    do ps1 <- ps_out_str ps (Some b);
    do a <- arg_at cmd 1;
    do ps2 <- ps_out_str ps1 (Some a);
    do e <- ps_current_hookend ps2;
    do ps3 <- ps_out_str ps2 (Some e); Ok (m, ps3, false)
  else
    do '(m1, ps1, _) <- ps_eval_ruby_str m ps cmd false;
    Ok (m1, ps1, false).

Definition ps_eval_cmd (m : mrb_state) (ps : pstate)
  : result failure (mrb_state * pstate * bool) :=
  do '(cmd, ps1) <- ps_get_macro ps;
  ps_dispatch m ps1 cmd.

(** [ps_pop_curhook( ps_topfile(ps) )]. *)
Definition ps_pop_top_curhook (ps : pstate) : result failure pstate :=
  do sf <- ps_topfile ps;
  do sf1 <- lift ps (ps_pop_curhook sf);
  Ok (ps_set_top ps sf1).

Definition ps_process_hook_end_seq (m : mrb_state) (ps0 : pstate)
  : result failure (mrb_state * pstate * bool) :=
  let ps := set_in_macro ps0 (int_decr (in_macro ps0)) in
  if in_macro ps <? 0 then
    do sf <- ps_topfile ps;
    mucgly_fatal ps (Some sf) msg_macro_status
  else if negb (in_macro ps =? 0) then
    do e <- ps_current_hookend ps;
    do ps1 <- ps_out_str ps (Some e);
    do ps2 <- ps_pop_top_curhook ps1;
    Ok (m, ps2, false)
  else
    do '(m1, ps1, brk) <- ps_eval_cmd m ps;
    do sf <- ps_topfile ps1;
    let ps2 := ps_set_top ps1 (sf_unmark_macro sf) in
    do ps3 <- ps_pop_top_curhook ps2;
    do ps4 <-
      (if post_push ps3 then
         let ps' := set_post ps3 false (post_pop ps3) in
         do fs' <- lift ps' (fs_move_prev (fs ps'));
         Ok (set_fs ps' fs')
       else Ok ps3);
    do ps5 <-
      (if post_pop ps4 then
         let ps' := set_post ps4 (post_push ps4) false in
         do fs' <- lift ps' (fs_pop_file (fs ps'));
         Ok (set_fs ps' fs')
       else Ok ps4);
    Ok (m1, ps5, brk).

(** [fs_put( ps->fs, c )]. *)
Definition ps_put (ps : pstate) (c : Z) : result failure pstate :=
  do fs' <- lift ps (fs_put (fs ps) (char_of_int c));
  Ok (set_fs ps fs').

(** After an escape that met [eater[0]]: the byte goes back, the eater is
    probed, and either one more byte is read and dropped or the byte is
    handed to [keep]. *)
Definition ps_escape_eater (ps : pstate) (c : Z)
    (keep : pstate -> result failure pstate) : result failure pstate :=
  do ps1 <- ps_put ps c;
  do '(r, ps2) <- ps_check_eater ps1;
  if r : bool then Ok (snd (ps_in ps2)) else keep ps2.

(** [eater && eater[0] == c]: the [gchar] [eater[0]] is converted to
    [int]. *)
Definition eater_starts_with (sf : stackfile) (c : Z) : bool :=
  match eater sf with
  | Some e => int_of_gchar (str0 e) =? c
  | None => false
  end.

(** The escape branch of the loop body, the escape just consumed. *)
Definition ps_process_escape (m : mrb_state) (ps : pstate)
  : result failure (mrb_state * pstate * bool) :=
  if negb (in_macro ps =? 0) then
    let '(c, ps1) := ps_in ps in
    if c =? EOF then mucgly_error ps1 (ps_current_file ps1) msg_eof_in_macro
    else
      do sf <- ps_topfile ps1;
      if ((c =? int_of_char " "%byte) || (c =? int_of_char x0a))
         && hook_esc_eq_end sf then
        ps_process_hook_end_seq m ps1
      else if eater_starts_with sf c then
        do ps2 <- ps_escape_eater ps1 c (fun p => Ok (ps_collect p c));
        Ok (m, ps2, false)
      else Ok (m, ps_collect ps1 c, false)
  else
    let '(c, ps1) := ps_in ps in
    if c =? EOF then Ok (m, ps1, true)
    else
      do sf <- ps_topfile ps1;
      if eater_starts_with sf c then
        do ps2 <- ps_escape_eater ps1 c (fun p => ps_out p c);
        Ok (m, ps2, false)
      else if (c =? int_of_char x0a) || (c =? int_of_char " "%byte) then
        Ok (m, ps1, false)
      else if hook_esc_eq_beg sf then
        do e1 <- lift ps1 (str_at (hookesc sf) 1);
        if Byte.eqb e1 x00 && (c =? int_of_gchar (str0 (hookesc sf))) then
          do ps2 <- ps_out ps1 c; Ok (m, ps2, false)
        else
          do ps2 <- ps_put ps1 c;
          do sf2 <- ps_topfile ps2;
          let ps3 := ps_set_top ps2 (ps_push_curhook sf2 (hook sf2)) in
          do ps4 <- ps_enter_macro ps3;
          Ok (m, ps4, false)
      else
        do ps2 <- ps_out ps1 c; Ok (m, ps2, false).

(** One turn of the [for (;;)] of [ps_process_file]; the flag is [true]
    when the loop is left. *)
Definition ps_process_iter (m : mrb_state) (ps : pstate)
  : result failure (mrb_state * pstate * bool) :=
  let '(c, ps1) := ps_in ps in
  do hit <- ps_check_hook ps1 c;
  if hit : bool then
    do ps2 <- ps_put ps1 c;
    do '(esc, ps3) <- ps_check_hookesc ps2;
    if esc : bool then ps_process_escape m ps3
    else
      do '(su, ps4) <-
        (if negb (in_macro ps3 =? 0) then ps_check_hooksusp ps3 else Ok (false, ps3));
      if su : bool then
        do s <- ps_current_hooksusp ps4;
        match s with
        | Some s =>
            Ok (m, ps_collect_str (set_suspension ps4 (int_incr (suspension ps4))) s,
                false)
        | None => Undef (* not reached: the probe matched this string *)
        end
      else
        do '(en, ps5) <-
          (if negb (in_macro ps4 =? 0) then ps_check_hookend ps4 else Ok (false, ps4));
        if en : bool then
          if suspension ps5 =? 0 then ps_process_hook_end_seq m ps5
          else
            let ps6 := set_suspension ps5 (int_decr (suspension ps5)) in
            do e <- ps_current_hookend ps6;
            Ok (m, ps_collect_str ps6 e, false)
        else
          do '(bg, ps6) <- ps_check_hookbeg ps5;
          if bg : bool then
            if negb (in_macro ps6 =? 0) then
              let ps7 := set_in_macro ps6 (int_incr (in_macro ps6)) in
              do b <- ps_current_hookbeg ps7;
              do ps8 <- ps_out_str ps7 (Some b);
              Ok (m, ps8, false)
            else
              do ps7 <- ps_enter_macro ps6; Ok (m, ps7, false)
          else
            let '(c', ps7) := ps_in ps6 in
            do '(ps8, brk) <- ps_process_non_hook_seq ps7 c';
            Ok (m, ps8, brk)
  else
    do '(ps2, brk) <- ps_process_non_hook_seq ps1 c;
    Ok (m, ps2, brk).

(** The loop, for at most [fuel] turns; the flag tells whether a [break]
    left it within them. *)
Fixpoint ps_process_loop (fuel : nat) (m : mrb_state) (ps : pstate)
  : result failure (mrb_state * pstate * bool) :=
  match fuel with
  | O => Ok (m, ps, false)
  | S fuel' =>
      do '(m1, ps1, brk) <- ps_process_iter m ps;
      if brk : bool then Ok (m1, ps1, true) else ps_process_loop fuel' m1 ps1
  end.

(** [ps_process_file]; the output file is popped once the loop is left. *)
Definition ps_process_file (fuel : nat) (m : mrb_state) (ps : pstate)
    (infile outfile : option (list byte))
  : result failure (mrb_state * pstate * bool) :=
  do ps1 <- fs_push_file ps infile;
  do ps2 <- (match outfile with
             | Some _ => ps_push_file ps1 outfile
             | None => Ok ps1
             end);
  do '(m3, ps3, brk) <- ps_process_loop fuel m ps2;
  if brk : bool then
    match outfile with
    | Some _ => do ps4 <- ps_pop_file ps3; Ok (m3, ps4, true)
    | None => Ok (m3, ps3, true)
    end
  else Ok (m3, ps3, false).

End Parser.

Arguments host_value {mrb_state} m ps str.
Arguments host_exc {mrb_state} m ps inspect.
Arguments host_exit {mrb_state} f.
Arguments host_undef {mrb_state}.

(** ** The methods of the module Mucgly (mrb_mucgly_write, ...) *)

(** A value the interpreter hands to a method, as far as the methods look
    at it: a String with the bytes [RSTRING_PTR] points to, an Array with
    its items, nil, or an object of another class. *)
#[warnings="-register-all"] Inductive mrb_value : Type :=
| mrb_str (s : list byte)
| mrb_ary (items : list mrb_value)
| mrb_nil
| mrb_obj.

Inductive raise_message : Type :=
| msg_eater_type
| msg_multihook_pairs
| msg_multihook_arrays.

(** How a method ends when it does not return: the process ends, or
    [mrb_raise] leaves the method with the text of [mucgly_user_info_str]
    and the parser state as it is by then. *)
Inductive stop : Type :=
| stop_exit (f : failure)
| stop_raise (infotype : string) (place : option (list byte * Z * Z))
             (msg : raise_message) (ps : pstate).

Definition in_method {A} (r : result failure A) : result stop A :=
  match r with
  | Ok a => Ok a
  | Exit f => Exit (stop_exit f)
  | Undef => Undef
  end.

(** [mucgly_raise( ps, infotype, format )]: the place is the one of
    [ps_topfile( ps )]. *)
Definition mucgly_raise {A} (ps : pstate) (infotype : string) (msg : raise_message)
  : result stop A :=
  do sf <- in_method (ps_topfile ps);
  Exit (stop_raise infotype (place_of (Some sf)) msg ps).

(** [RSTRING_PTR( v )]. *)
Definition rstring_ptr (v : mrb_value) : result stop (list byte) :=
  match v with
  | mrb_str s => Ok s
  | _ => Undef
  end.

(** [sf_multi_hook( ps_topfile( ruby_ps ), b, e, s )]. *)
Definition ps_multi_hook (ps : pstate) (b e : list byte) (s : option (list byte))
  : result stop pstate :=
  do sf <- in_method (ps_topfile ps);
  do sf1 <- in_method (lift ps (sf_multi_hook sf b e s));
  Ok (ps_set_top ps sf1).

(** The loop over [vals] two by two, [i] running over the even indices
    below an even length; each step enters one pair. *)
Fixpoint multihook_pairs (ps : pstate) (vals : list mrb_value) : result stop pstate :=
  match vals with
  | [] => Ok ps
  | b :: e :: rest =>
      do hb <- rstring_ptr b;
      do he <- rstring_ptr e;
      do ps1 <- ps_multi_hook ps hb he None;
      multihook_pairs ps1 rest
  | [_] => Undef
  end.

(** The loop over arguments that are arrays of two or of three entries;
    [mrb_ary_len] and [mrb_ary_ref] are for arrays. *)
Fixpoint multihook_arrays (ps : pstate) (args : list mrb_value) : result stop pstate :=
  match args with
  | [] => Ok ps
  | mrb_ary [b; e] :: rest =>
      do hb <- rstring_ptr b;
      do he <- rstring_ptr e;
      do ps1 <- ps_multi_hook ps hb he None;
      multihook_arrays ps1 rest
  | mrb_ary [b; e; s] :: rest =>
      do hb <- rstring_ptr b;
      do he <- rstring_ptr e;
      do su <- rstring_ptr s;
      do ps1 <- ps_multi_hook ps hb he (Some su);
      multihook_arrays ps1 rest
  | mrb_ary _ :: _ => mucgly_raise ps "error" msg_multihook_arrays
  | _ :: _ => Undef
  end.

Section Methods.

(** The methods work on the parser state the global [ruby_ps] points to:
    each takes that state and returns it as it leaves it. *)

Variable g_fopen_r : list byte -> option (list byte).
Variable g_fopen_w : list byte -> bool.
Variable stdin_bytes : list byte.
Variable stack_default : option stackfile.

(** [mrb_inspect( mrb, obj )], the bytes of the String it makes. *)
Variable mrb_inspect : mrb_value -> list byte.

(** What [write] and [puts] hand to [ps_out_str]: the String itself, else
    its [inspect]. *)
Definition written_form (obj : mrb_value) : list byte :=
  match obj with
  | mrb_str s => s
  | _ => mrb_inspect obj
  end.

Definition mrb_mucgly_write (ps : pstate) (obj : mrb_value) : result failure pstate :=
  ps_out_str ps (Some (written_form obj)).

Definition mrb_mucgly_puts (ps : pstate) (obj : mrb_value) : result failure pstate :=
  do ps1 <- ps_out_str ps (Some (written_form obj));
  ps_out ps1 (int_of_char x0a).

(** [mrb_str_new_cstr] copies up to the terminator; [ps_current_file] is
    NULL without an input file. *)
Definition mrb_mucgly_hookbeg (ps : pstate) : result failure (list byte) :=
  match ps_current_file ps with
  | Some sf => Ok (cstr (beg (hook sf)))
  | None => Undef
  end.

Definition mrb_mucgly_hookend (ps : pstate) : result failure (list byte) :=
  match ps_current_file ps with
  | Some sf => Ok (cstr (end_ (hook sf)))
  | None => Undef
  end.

Definition mrb_mucgly_hookesc (ps : pstate) : result failure (list byte) :=
  match ps_current_file ps with
  | Some sf => Ok (cstr (hookesc sf))
  | None => Undef
  end.

Definition mrb_mucgly_sethook (ps : pstate) (b e : list byte) : result failure pstate :=
  do ps1 <- ps_set_hook ps hook_beg b;
  ps_set_hook ps1 hook_end e.

Definition mrb_mucgly_sethookbeg (ps : pstate) (str : list byte) : result failure pstate :=
  ps_set_hook ps hook_beg str.

Definition mrb_mucgly_sethookend (ps : pstate) (str : list byte) : result failure pstate :=
  ps_set_hook ps hook_end str.

Definition mrb_mucgly_sethookesc (ps : pstate) (str : list byte) : result failure pstate :=
  ps_set_hook ps hook_esc str.

Definition mrb_mucgly_seteater (ps : pstate) (tmp : mrb_value) : result stop pstate :=
  match tmp with
  | mrb_nil =>
      do sf <- in_method (ps_topfile ps);
      Ok (ps_set_top ps (sf_set_eater sf None))
  | mrb_str str =>
      do sf <- in_method (ps_topfile ps);
      Ok (ps_set_top ps (sf_set_eater sf (Some str)))
  | _ => mucgly_raise ps "error" msg_eater_type
  end.

(** [argv[0]] is looked at whatever [argc] is. *)
Definition mrb_mucgly_multihook (ps : pstate) (argv : list mrb_value)
  : result stop pstate :=
  match argv with
  | [] => Undef
  | mrb_str _ :: _ =>
      if Nat.even (length argv) then multihook_pairs ps argv
      else mucgly_raise ps "error" msg_multihook_pairs
  | mrb_ary items :: _ =>
      if (length argv =? 1)%nat && Nat.even (length items) then multihook_pairs ps items
      else multihook_arrays ps argv
  | _ :: _ => multihook_arrays ps argv
  end.

Definition mrb_mucgly_ifilename (ps : pstate) : result failure (list byte) :=
  do sf <- ps_topfile ps; Ok (cstr (filename sf)).

Definition mrb_mucgly_ilinenumber (ps : pstate) : result failure Z :=
  do sf <- ps_topfile ps; Ok (wrap (lineno sf + 1)).

Definition mrb_mucgly_ofilename (ps : pstate) : result failure (list byte) :=
  match output ps with
  | o :: _ => Ok (cstr (of_filename o))
  | [] => Undef
  end.

Definition mrb_mucgly_olinenumber (ps : pstate) : result failure Z :=
  match output ps with
  | o :: _ => Ok (wrap (of_lineno o + 1))
  | [] => Undef
  end.

Definition mrb_mucgly_pushinput (ps : pstate) (str : list byte) : result failure pstate :=
  do ps1 <- fs_push_file_delayed g_fopen_r stdin_bytes stack_default ps (Some str);
  Ok (set_post ps1 true (post_pop ps1)).

Definition mrb_mucgly_closeinput (ps : pstate) : result failure pstate :=
  Ok (set_post ps (post_push ps) true).

Definition mrb_mucgly_pushoutput (ps : pstate) (str : list byte) : result failure pstate :=
  ps_push_file g_fopen_w ps (Some str).

Definition mrb_mucgly_closeoutput (ps : pstate) : result failure pstate :=
  ps_pop_file ps.

Definition mrb_mucgly_block (ps : pstate) : result failure pstate :=
  ps_block_output ps.

Definition mrb_mucgly_unblock (ps : pstate) : result failure pstate :=
  ps_unblock_output ps.

End Methods.

(** * Stating the properties *)

(** The bytes a stackfile still holds, in reading order: the put-back buffer
    from its last byte down, then the rest of the file. *)
Definition pending (sf : stackfile) : list byte := rev (buf sf) ++ fh sf.

(** The bytes held less the one [eat_tail] costs: what the coming reads are
    to deliver. *)
Definition incoming (sf : stackfile) : list byte :=
  if eat_tail sf then tl (pending sf) else pending sf.

(** Bytes below 0x80: those a [gchar] converts to the [int] that [fgetc]
    delivers for them. *)
Definition low (c : byte) : Prop := int_of_char c < 128.

Definition seven_bit (s : list byte) : Prop := Forall low s.

(** The string holds no byte 0xff, the byte a [gchar] converts to [EOF]. *)
Definition no_xff (s : list byte) : Prop := Forall (fun c : byte => c <> xff) s.

(** The first byte of the string [s] (its NUL when it is empty) is below
    0x80: as an index it lies inside the first-byte table. *)
Definition low_first (s : list byte) : Prop := low (str0 s).

(** The table [t] with the slot of the byte [c] set to [v]. *)
Definition tbl_store (t : list Z) (c : byte) (v : Z) : list Z := <[ idx c := v ]> t.

(** What [sf_update_hook_cache] leaves in single-hook mode when its three
    writes fall inside the table. *)
Definition single_cache (sf : stackfile) : stackfile :=
  set_cache sf (g_strcmp0_eq (hookesc sf) (beg (hook sf)))
            (g_strcmp0_eq (hookesc sf) (end_ (hook sf)))
            (tbl_store (tbl_store (tbl_store tbl_zero (str0 (beg (hook sf))) 1)
                                  (str0 (end_ (hook sf))) 1)
                       (str0 (hookesc sf)) 1).

(** The same in multi-hook mode, [hp] being the latest pair. *)
Definition multi_cache (sf : stackfile) (hp : hookpair) : stackfile :=
  set_cache sf false false
            (tbl_store
               (match susp hp with
                | Some s =>
                    tbl_store (tbl_store (tbl_store (hook_1st_chars sf) (str0 (beg hp)) 1)
                                         (str0 (end_ hp)) 1) (str0 s) 1
                | None =>
                    tbl_store (tbl_store (hook_1st_chars sf) (str0 (beg hp)) 1)
                              (str0 (end_ hp)) 1
                end)
               (str0 (hookesc sf)) 1).

(** The first bytes of the pair are below 0x80. *)
(** The hooks and the escape of [sf] start with a byte below 0x80 (an
    empty string starts with its NUL). *)
Definition low_hooks (sf : stackfile) : Prop :=
  low_first (beg (hook sf)) /\ low_first (end_ (hook sf)) /\ low_first (hookesc sf).

Definition low_pair (hp : hookpair) : Prop :=
  low_first (beg hp) /\ low_first (end_ hp)
  /\ match susp hp with Some s => low_first s | None => True end.

(** A stackfile without its stream, its file point and [eat_tail]: what
    reading and putting back never touch. *)
Definition settings (sf : stackfile) : stackfile :=
  set_eat_tail (set_pos (set_stream sf [] []) 0 0 0) false.

(** The round trip of the file point at one stackfile: whatever byte [sf_get]
    returns, putting it back restores line and column. *)
Definition position_round_trip (sf : stackfile) : Prop :=
  forall (c : Z) (sf1 : stackfile),
    sf_get sf = (c, sf1) -> c <> EOF ->
    lineno (sf_put sf1 (char_of_int c)) = lineno sf /\
    column (sf_put sf1 (char_of_int c)) = column sf.

(** Putting [s] back on a filestack and reading [|s|] bytes returns [s]. *)
Definition push_back_order (fs : filestack) (s : list byte) : Prop :=
  exists fs1, fs_put_n fs s (Z.of_nat (length s)) = Ok fs1 /\
    fst (fs_get_n fs1 (Z.of_nat (length s))) = s.

(** The parser state outside the filestack and the two scratch buffers of
    the probe. *)
Definition beyond_probe (ps : pstate)
  : list byte * Z * Z * list outfile * bool * bool * bool :=
  (macro_buf ps, in_macro ps, suspension ps, output ps, flush ps,
   post_push ps, post_pop ps).

(** The pairs in use of a multi-hook array. *)
Definition multi_pairs (sf : stackfile) : list hookpair :=
  match multi sf with
  | multi_arr slots =>
      flat_map (fun o : option hookpair => match o with Some hp => [hp] | None => [] end)
               (take (Z.to_nat (multi_cnt sf)) slots)
  | _ => []
  end.

Definition pair_delims (hp : hookpair) : list (list byte) :=
  beg hp :: end_ hp :: match susp hp with Some s => [s] | None => [] end.

(** The delimiters the parser probes for under the configuration of [sf]:
    the escape, and the single pair or every multi-hook pair in use. *)
Definition active_delims (sf : stackfile) : list (list byte) :=
  hookesc sf ::
  match multi sf with
  | multi_null => [beg (hook sf); end_ (hook sf)]
  | _ => flat_map pair_delims (multi_pairs sf)
  end.

Definition bitmap_complete (sf : stackfile) : Prop :=
  forall d : list byte,
    In d (active_delims sf) -> hook_1st_chars sf !! idx (str0 d) = Some 1.

(** The configurations the three mutators reach from a new stackfile. *)
Inductive config_reachable : stackfile -> Prop :=
| reach_new (name stream : list byte) (sf : stackfile) :
    sf_init name stream None = Ok sf -> config_reachable sf
| reach_set_hook (sf sf' : stackfile) (hk : hook_t) (value : list byte) :
    config_reachable sf -> sf_set_hook sf hk value = Ok sf' -> config_reachable sf'
| reach_set_eater (sf : stackfile) (value : option (list byte)) :
    config_reachable sf -> config_reachable (sf_set_eater sf value)
| reach_multi_hook (sf sf' : stackfile) (b e : list byte) (s : option (list byte)) :
    config_reachable sf -> sf_multi_hook sf b e s = Ok sf' -> config_reachable sf'.

(** The top file of [ps] has the settings [cfg] and holds [stream] to
    deliver, and its put-back buffer holds bytes below 0x80 only, so that
    the next read delivers the next byte as it is; [rest] are the files
    below it. *)
Definition holding (ps : pstate) (cfg : stackfile) (rest : list stackfile)
    (stream : list byte) : Prop :=
  exists sf : stackfile,
    file (fs ps) = sf :: rest /\ settings sf = cfg /\ incoming sf = stream
    /\ seven_bit (buf sf).

(** The same with all of [stream] below 0x80: whatever a probe reads of it
    and puts back is delivered again as it is. *)
Definition reading (ps : pstate) (cfg : stackfile) (rest : list stackfile)
    (stream : list byte) : Prop :=
  holding ps cfg rest stream /\ seven_bit stream.

(** The parser state outside the top file, the scratch buffers, the macro
    body and the suspension count. *)
Definition fixed (ps : pstate) : Z * list outfile * bool * bool * bool * list stackfile :=
  (in_macro ps, output ps, flush ps, post_push ps, post_pop ps, file_prev (fs ps)).

(** The first-byte table of [cfg] has a nonzero entry for [c]. *)
Definition tbl_hit (cfg : stackfile) (c : byte) : Prop :=
  exists v : Z, hook_1st_chars cfg !! idx c = Some v /\ v <> 0.

(** The line counter [l] of an outfile after the bytes [s]. *)
Fixpoint count_lines (l : Z) (s : list byte) : Z :=
  match s with
  | [] => l
  | c :: r => count_lines (if Byte.eqb c x0a then int_incr l else l) r
  end.

(** An outfile after the bytes [s] were sent to it. *)
Definition of_written (o : outfile) (s : list byte) : outfile :=
  if of_blocked o then o
  else {| of_filename := of_filename o; of_fh := of_fh o ++ s;
          of_lineno := count_lines (of_lineno o) s; of_blocked := false |}.

(** [k] copies of the token [t] in a row. *)
Fixpoint reps (k : nat) (t : list byte) : list byte :=
  match k with
  | O => []
  | S k' => t ++ reps k' t
  end.

(** The tokens of the run [n] times [s], then [n + 1] times [e], then
    [tail], are met as such: where a token starts the stream does not begin
    with the escape, and where an [e] starts it does not begin with [s]. *)
Definition clean_run (esc s e : list byte) (n : nat) (tail : list byte) : Prop :=
  (forall k : nat, (1 <= k <= n)%nat ->
     is_prefix esc (reps k s ++ reps (S n) e ++ tail) = false)
  /\ (forall j : nat, (1 <= j <= S n)%nat ->
       is_prefix esc (reps j e ++ tail) = false
       /\ is_prefix s (reps j e ++ tail) = false).

(** The run ends in [exit] after a diagnostic of the severity [infotype]. *)
Definition reports (infotype : string) {A} (r : result failure A) : Prop :=
  exists (place : option (list byte * Z * Z)) (msg : message) (ps : pstate),
    r = Exit (user_info infotype place msg, ps).

(** The effect of [post_push] in the words of C2: after the sequence the top
    of the input stack is the source that lay just below the top before it. *)
Definition top_is_source_below (before : pstate)
    (r : result failure (unit * pstate * bool)) : Prop :=
  exists (ps' : pstate) (brk : bool),
    r = Ok (tt, ps', brk)
    /\ option_map filename (head (file (fs ps')))
       = option_map filename (head (tl (file (fs before)))).

(** The number of newline bytes of [s]. *)
Fixpoint newlines (s : list byte) : Z :=
  match s with
  | [] => 0
  | b :: r => (if Byte.eqb b x0a then 1 else 0) + newlines r
  end.

(** The bytes of [s] behind its last newline; all of [s] when it has none. *)
Fixpoint last_line (s : list byte) : list byte :=
  match s with
  | [] => []
  | b :: r =>
      if Byte.eqb b x0a then last_line r
      else if newlines r =? 0 then b :: r else last_line r
  end.

(** The bytes the files of a stack deliver, the top file first. *)
Definition fs_stream (files : list stackfile) : list byte := flat_map incoming files.

(** The array [multi] as [sf_multi_hook] keeps it: [MULTI_LIMIT] slots, the
    first [multi_cnt] of them pairs, a zeroed pair behind them. *)
Definition multi_ok (sf : stackfile) : Prop :=
  match multi sf with
  | multi_null => True
  | multi_arr slots =>
      length slots = Z.to_nat MULTI_LIMIT
      /\ 1 <= multi_cnt sf <= MULTI_LIMIT - 1
      /\ (forall i : nat, (i < Z.to_nat (multi_cnt sf))%nat ->
            exists hp : hookpair, slots !! i = Some (Some hp))
      /\ slots !! Z.to_nat (multi_cnt sf) = Some None
  | multi_freed => False
  end.

(** The pair [sf_multi_hook( sf, b, e, s )] stores. *)
Definition pair_of (b e : list byte) (s : option (list byte)) : hookpair :=
  {| beg := cstr b; end_ := cstr e; susp := option_map cstr s |}.

(** A stackfile apart from its multi-hook array and its lookup caches. *)
Definition without_multi (sf : stackfile) : stackfile :=
  set_cache (set_multi sf multi_null 0) false false [].

(** The table [t] holds 1 at the first bytes of the strings [ds] and 0 at
    every other byte. *)
Definition table_exact (t : list Z) (ds : list (list byte)) : Prop :=
  forall c : byte,
    t !! idx c = Some (if existsb (fun d => Byte.eqb (str0 d) c) ds then 1 else 0).


(** The first-byte table of [cfg] is zero at [c]. *)
Definition tbl_miss (cfg : stackfile) (c : byte) : Prop :=
  hook_1st_chars cfg !! idx c = Some 0.

(** The parser state outside the input files, the buffers and the outfiles. *)
Definition aside (ps : pstate) : Z * Z * bool * bool * bool * list stackfile :=
  (in_macro ps, suspension ps, flush ps, post_push ps, post_pop ps, file_prev (fs ps)).


(** The text of a macro with the body [body] under the single hook pair of
    [cfg]. *)
Definition macro_text (cfg : stackfile) (body : list byte) : list byte :=
  cstr (beg (hook cfg)) ++ body ++ cstr (end_ (hook cfg)).

(** Under the settings [cfg], in single-hook mode without a suspension
    string, the stream [macro_text cfg body ++ tail] is read as a macro
    with the body [body]: the hooks are not empty and are in the first-byte
    table, no byte of the body is, and the escape does not match where the
    begin hook and the end hook start. *)
Definition macro_ahead (cfg : stackfile) (body tail : list byte) : Prop :=
  multi cfg = multi_null /\ susp (hook cfg) = None
  /\ cstr (beg (hook cfg)) <> [] /\ cstr (end_ (hook cfg)) <> []
  /\ tbl_hit cfg (str0 (beg (hook cfg))) /\ tbl_hit cfg (str0 (end_ (hook cfg)))
  /\ Forall (tbl_miss cfg) body
  /\ cstr (hookesc cfg) <> []
  /\ is_prefix (cstr (hookesc cfg)) (macro_text cfg body ++ tail) = false
  /\ is_prefix (cstr (hookesc cfg)) (cstr (end_ (hook cfg)) ++ tail) = false.

(** The parser is outside every macro, with no deferred push or pop. *)
Definition outside_macro (ps : pstate) : Prop :=
  in_macro ps = 0 /\ suspension ps = 0 /\ post_push ps = false /\ post_pop ps = false.

(** The settings of a file inside a macro that the pair [hp] opened, the
    file point having been at line [l], column [c]. *)
Definition in_macro_of (cfg : stackfile) (hp : hookpair) (l c : Z) : stackfile :=
  set_macro (set_curhook cfg (hookpair_cpy hp :: curhook cfg)) true l c.

(** The keywords [ps_eval_cmd] knows behind a colon. *)
Definition directive_keywords : list (list byte) :=
  [bs ":hookbeg"; bs ":hookend"; bs ":hookesc"; bs ":eater"; bs ":hookall";
   bs ":hook"; bs ":include"; bs ":source"; bs ":block"; bs ":unblock";
   bs ":comment"; bs ":exit"].


(** The string [s] holds neither a NUL nor a space. *)
Definition one_word (s : list byte) : Prop :=
  Forall (fun c : byte => c <> x00 /\ c <> " "%byte) s.

(** The string [s] holds no NUL. *)
Definition no_nul (s : list byte) : Prop := Forall (fun c : byte => c <> x00) s.


(** The pair in use [ps_check_hookbeg] finds in multi-hook mode: the first
    one in the order of the array whose begin hook the stream starts with. *)
Definition first_beg_match (pairs : list hookpair) (stream : list byte)
  : option hookpair :=
  List.find (fun hp : hookpair => is_prefix (cstr (beg hp)) stream) pairs.


(** ** The arguments of Mucgly.multihook *)

(** A begin hook, an end hook and the suspender, if there is one. *)
Definition hook_entry : Type := (list byte * list byte * option (list byte))%type.

Definition entry_pair (t : hook_entry) : hookpair :=
  pair_of (fst (fst t)) (snd (fst t)) (snd t).

(** The entry as an array of two or of three strings. *)
Definition entry_array (t : hook_entry) : mrb_value :=
  match snd t with
  | Some s => mrb_ary [mrb_str (fst (fst t)); mrb_str (snd (fst t)); mrb_str s]
  | None => mrb_ary [mrb_str (fst (fst t)); mrb_str (snd (fst t))]
  end.

(** The two hooks of the entry as two strings in a row. *)
Definition entry_flat (t : hook_entry) : list mrb_value :=
  [mrb_str (fst (fst t)); mrb_str (snd (fst t))].

Definition differs_from_escape (sf : stackfile) (t : hook_entry) : Prop :=
  g_strcmp0_eq (hookesc sf) (fst (fst t)) || g_strcmp0_eq (hookesc sf) (snd (fst t)) = false.

(** The strings of the entry start with a byte below 0x80. *)
Definition low_entry (t : hook_entry) : Prop := low_pair (entry_pair t).

Definition pairs_in_use (sf : stackfile) : Z :=
  if multi_is_null (multi sf) then 0 else multi_cnt sf.

(** * Sample states and a sample host *)

(** A stackfile with the default hooks, as [sf_new] makes the first file. *)
Definition sf_default (name stream : list byte) : stackfile :=
  match sf_init name stream None with
  | Ok sf => sf
  | _ => sf_zero name stream
  end.

(** The file ["in"] holding [XY], just after a macro that began with ['+']:
    [eat_tail] is set. *)
Definition sf_after_plus : stackfile :=
  set_eat_tail (sf_default (bs "in") (bs "XY")) true.

(** The outfile [outfile_new( NULL )] makes. *)
Definition of_stdout : outfile :=
  {| of_filename := bs "<STDOUT>"; of_fh := []; of_lineno := 0; of_blocked := false |}.

(** The parser state of [ps_new( NULL )] with the files [files] pushed. *)
Definition ps_on (files : list stackfile) : pstate :=
  {| fs := {| file := files; file_prev := [] |};
     check_buf := []; macro_buf := []; match_buf := [];
     in_macro := 0; suspension := 0; output := [of_stdout]; flush := false;
     post_push := false; post_pop := false |}.

(** Two multi-hooks, the first beginning with the byte of the default
    escape, then a new escape. *)
Definition esc_changed_in_multi_mode : result diag stackfile :=
  do sf1 <- sf_multi_hook (sf_default (bs "in") []) (bs "\a") (bs "b") None;
  do sf2 <- sf_multi_hook sf1 (bs "c") (bs "d") None;
  sf_set_hook sf2 hook_esc (bs "e").

(** The stackfile a run of the model returned, or a blank one. *)
Definition value_of (r : result diag stackfile) : stackfile :=
  match r with
  | Ok sf => sf
  | _ => sf_zero [] []
  end.

Definition sf_multi_1 : stackfile := Eval vm_compute in
    value_of (sf_multi_hook (sf_default (bs "in") []) (bs "\a") (bs "b") None).

Definition sf_multi_2 : stackfile := Eval vm_compute in
    value_of (sf_multi_hook sf_multi_1 (bs "c") (bs "d") None).

Definition sf_multi_3 : stackfile := Eval vm_compute in
    value_of (sf_set_hook sf_multi_2 hook_esc (bs "e")).

(** A host whose scripts do nothing and evaluate to the empty string, and a
    file system with the single file ["inc"]. *)
Definition no_script : list byte -> unit -> pstate -> host_result unit :=
  fun _ m ps => host_value m ps [].

Definition one_file (name : list byte) : option (list byte) :=
  if bytes_eqb name (bs "inc") then Some (bs "included") else None.

Definition demo_loop (fuel : nat) (ps : pstate)
  : result failure (unit * pstate * bool) :=
  ps_process_loop unit no_script no_script one_file [] None fuel tt ps.

Definition demo_iter (ps : pstate) : result failure (unit * pstate * bool) :=
  ps_process_iter unit no_script no_script one_file [] None tt ps.

Definition demo_hook_end_seq (ps : pstate) : result failure (unit * pstate * bool) :=
  ps_process_hook_end_seq unit no_script no_script one_file [] None tt ps.

(** The parser state a run stopped in. *)
Definition state_after (r : result failure (unit * pstate * bool)) : pstate :=
  match r with
  | Ok (_, ps, _) => ps
  | Exit (_, ps) => ps
  | Undef => ps_on []
  end.

(** What the outfiles have received when a run stopped. *)
Definition written (r : result failure (unit * pstate * bool)) : list (list byte) :=
  map of_fh (output (state_after r)).

(** The file ["in"] holds [-<abc] and ends inside the macro: the state after
    the four turns that read it. *)
Definition ps_unclosed : pstate := Eval vm_compute in
    state_after (demo_loop 4 (ps_on [sf_default (bs "in") (bs "-<abc")])).

(** The probes of a turn of the loop that ends a macro: the state handed to
    the hook-end sequence. *)
Definition probes_before_end (ps : pstate) : result failure pstate :=
  let '(c, ps1) := ps_in ps in
  do ps2 <- ps_put ps1 c;
  do '(_, ps3) <- ps_check_hookesc ps2;
  do '(_, ps4) <- ps_check_hooksusp ps3;
  do '(_, ps5) <- ps_check_hookend ps4;
  Ok ps5.

Definition pstate_of (r : result failure pstate) : pstate :=
  match r with
  | Ok ps => ps
  | _ => ps_on []
  end.

(** The file ["in"] holds [-<:include inc>-T] and lies on the file ["base"]:
    the state when the end hook of the macro has just been consumed. *)
Definition ps_include_end : pstate := Eval vm_compute in
    pstate_of
      (probes_before_end
         (state_after
            (demo_loop 13 (ps_on [sf_default (bs "in") (bs "-<:include inc>-T");
                                  sf_default (bs "base") (bs "B")])))).

Definition ps_included : pstate := Eval vm_compute in
    state_after (demo_hook_end_seq ps_include_end).

(** A file in multi-hook mode with the pair [<] ... [)] suspended by [(]. *)
Definition sf_parens (stream : list byte) : stackfile :=
  value_of (sf_multi_hook (sf_default (bs "in") stream) (bs "<") (bs ")")
                          (Some (bs "("))).

(** It holds [<a(()))Z]: the state after the two turns that read [<a]. *)
Definition ps_parens : pstate := Eval vm_compute in
    state_after (demo_loop 2 (ps_on [sf_parens (bs "<a(()))Z")])).

Definition sf_parens_top : stackfile := Eval vm_compute in
    hd (sf_zero [] []) (file (fs ps_parens)).

Definition parens_pair : hookpair :=
  {| beg := bs "<"; end_ := bs ")"; susp := Some (bs "(") |}.

(** The file ["in"] holding the two lines [a] and [bc]. *)
Definition sf_two_lines : stackfile :=
  sf_default (bs "in") ("a"%byte :: x0a :: bs "bc").

(** A file system where no file opens for writing. *)
Definition no_outfile : list byte -> bool := fun _ => false.

Definition demo_process_file (fuel : nat) (ps : pstate)
    (infile outfile : option (list byte)) : result failure (unit * pstate * bool) :=
  ps_process_file unit no_script no_script one_file no_outfile [] None fuel tt ps
                  infile outfile.


(** The file ["in"] holds [A\-<B]: the state after the turn that read [A]. *)
Definition ps_at_escape : pstate := Eval vm_compute in
    state_after (demo_loop 1 (ps_on [sf_default (bs "in") (bs "A\-<B")])).

(** The file ["in"] holds [-<a\>-b>-]: the state after the two turns that
    read [-<a], inside the macro. *)
Definition ps_escape_in_macro : pstate := Eval vm_compute in
    state_after (demo_loop 2 (ps_on [sf_default (bs "in") (bs "-<a\>-b>-")])).

(** The file ["in"] with the eater [x], holding [\xyZ]. *)
Definition ps_at_eater : pstate :=
  ps_on [sf_set_eater (sf_default (bs "in") (bs "\xyZ")) (Some (bs "x"))].

(** The settings of the top file of [ps]. *)
Definition top_settings (ps : pstate) : stackfile :=
  settings (hd (sf_zero [] []) (file (fs ps))).


(** A host whose scripts all evaluate to ["42"] and call nothing back. *)
Definition answer_script : list byte -> unit -> pstate -> host_result unit :=
  fun _ m ps => host_value m ps (bs "42").

(** The parser state [ps_new( NULL )] makes, the file ["in"] with the default
    hooks and the text [text] pushed. *)
Definition ps_text (text : list byte) : pstate := ps_on [sf_default (bs "in") text].

(** The file ["in"] holding the three bytes [>], 0xff, [Z]. *)
Definition ps_gt_xff : pstate := ps_text (">"%byte :: xff :: bs "Z").

(** The file ["in"] makes [!!!] its escape and then holds the macro
    [-<+/x>-], the byte 0xff and [Y]. *)
Definition ps_plus_xff : pstate :=
  ps_text (bs "-<:hookesc !!!>--<+/x>-" ++ xff :: bs "Y").

(** The state after the 19 turns of the loop that read the two macros, and
    its top file. *)
Definition ps_plus_xff_19 : pstate := Eval vm_compute in
    state_after (demo_loop 19 ps_plus_xff).

Definition sf_plus_xff_19 : stackfile := Eval vm_compute in
    hd (sf_zero [] []) (file (fs ps_plus_xff_19)).

(** The same file with [~] in the place of the byte 0xff. *)
Definition ps_plus_tilde : pstate := ps_text (bs "-<:hookesc !!!>--<+/x>-~Y").

(** The end hook [)] 0xff, and the end hook [)~]. *)
Definition end_xff : list byte := ")"%byte :: [xff].

Definition end_tilde : list byte := bs ")~".

(** A file in multi-hook mode with the pair [<] ... [e] suspended by
    [((]. *)
Definition sf_susp (e stream : list byte) : stackfile :=
  value_of (sf_multi_hook (sf_default (bs "in") stream) (bs "<") e (Some (bs "(("))).

(** It holds [<a], one suspension string, two end hooks and [Z]. *)
Definition ps_susp (e : list byte) : pstate :=
  ps_on [sf_susp e (bs "<a((" ++ e ++ e ++ bs "Z")].

(** The states after the three turns that read [<a((]. *)
Definition ps_susp_xff_3 : pstate := Eval vm_compute in
    state_after (demo_loop 3 (ps_susp end_xff)).

Definition ps_susp_tilde_3 : pstate := Eval vm_compute in
    state_after (demo_loop 3 (ps_susp end_tilde)).

(** The default settings of the file ["in"]. *)
Definition cfg_default : stackfile := settings (sf_default (bs "in") []).


Definition demo_dispatch (ps : pstate) (cmd : list byte)
  : result failure (unit * pstate * bool) :=
  ps_dispatch unit no_script no_script one_file [] None tt ps cmd.


(** The file ["in"] holds [<<x] and has the multi-hooks [<] ... [)] and
    [<<] ... [\]], in this order. *)
Definition sf_two_multi : stackfile := Eval vm_compute in
    value_of (do sf1 <- sf_multi_hook (sf_default (bs "in") (bs "<<x")) (bs "<") (bs ")") None;
              sf_multi_hook sf1 (bs "<<") (bs "]") None).

(** The slots of the multi-hook array of [sf]. *)
Definition slots_of (sf : stackfile) : list (option hookpair) :=
  match multi sf with
  | multi_arr slots => slots
  | _ => []
  end.


(** The file ["in"] holds [-<a-<b>-c>-]: the state after the two turns that
    read [-<a], inside the macro. *)
Definition ps_nested : pstate := Eval vm_compute in
    state_after (demo_loop 2 (ps_text (bs "-<a-<b>-c>-"))).


(** The entries [<] ... [)] and [[[] ... []]], without suspender. *)
Definition two_entries : list hook_entry :=
  [(bs "<", bs ")", None); (bs "[[", bs "]]", None)].

(** An interpreter whose [inspect] of whatever is no String reads [nil]. *)
Definition inspect_nil : mrb_value -> list byte := fun _ => bs "nil".

(** An interpreter whose every script calls [Mucgly.closeinput] once and
    evaluates to the empty string. *)
Definition closing_script : list byte -> unit -> pstate -> host_result unit :=
  fun _ m ps =>
    match mrb_mucgly_closeinput ps with
    | Ok ps' => host_value m ps' []
    | Exit f => host_exit f
    | Undef => host_undef
    end.

(** A file system where the file ["out"], and no other, opens for writing. *)
Definition one_outfile (name : list byte) : bool := bytes_eqb name (bs "out").

(** The file ["in"] with the text [text] on the file ["base"] holding [B]. *)
Definition ps_on_base (text : list byte) : pstate :=
  ps_on [sf_default (bs "in") text; sf_default (bs "base") (bs "B")].

(** * Properties *)

(** ** The result monad *)

Lemma bind_ok_inv {E A B} (m : result E A) (k : A -> result E B) (b : B) :
  bind m k = Ok b -> exists a : A, m = Ok a /\ k a = Ok b.
Proof. destruct m; simpl; intros H; try discriminate. eauto. Qed.

(** ** Bytes and ints *)

Lemma int_of_char_range (c : byte) : 0 <= int_of_char c <= 255.
Proof.
  unfold int_of_char. pose proof (Byte.to_N_bounded c). lia.
Qed.

Lemma int_of_char_not_EOF (c : byte) : (int_of_char c =? EOF) = false.
Proof.
  pose proof (int_of_char_range c). unfold EOF. lia.
Qed.

Lemma char_of_int_of_char (c : byte) : char_of_int (int_of_char c) = c.
Proof.
  unfold char_of_int. pose proof (int_of_char_range c) as R.
  rewrite Z.mod_small by lia. unfold int_of_char.
  rewrite N2Z.id, Byte.of_to_N. reflexivity.
Qed.

Lemma int_of_char_inj (a b : byte) : int_of_char a = int_of_char b -> a = b.
Proof.
  intros E. rewrite <- (char_of_int_of_char a), <- (char_of_int_of_char b).
  now rewrite E.
Qed.

Lemma int_of_char_eqb (a b : byte) :
  (int_of_char a =? int_of_char b) = Byte.eqb a b.
Proof.
  destruct (Byte.eqb a b) eqn:E.
  - apply Byte.byte_dec_bl in E. subst. apply Z.eqb_refl.
  - apply Z.eqb_neq. intros H. apply int_of_char_inj in H.
    apply Byte.eqb_false in E. contradiction.
Qed.

Lemma byte_eqb_refl (c : byte) : Byte.eqb c c = true.
Proof. now apply Byte.byte_dec_lb. Qed.

Lemma int_decr_incr (z : Z) : int_range z -> int_decr (int_incr z) = z.
Proof. unfold int_range, int_decr, int_incr, wrap. lia. Qed.

Lemma int_incr_range (z : Z) : int_range (int_incr z).
Proof. unfold int_range, int_incr, wrap. lia. Qed.

Lemma int_decr_range (z : Z) : int_range (int_decr z).
Proof. unfold int_range, int_decr, wrap. lia. Qed.

Lemma int_incr_small (z : Z) : -2147483648 <= z < 2147483647 -> int_incr z = z + 1.
Proof. unfold int_incr, wrap. lia. Qed.

Lemma int_decr_small (z : Z) : -2147483648 < z <= 2147483647 -> int_decr z = z - 1.
Proof. unfold int_decr, wrap. lia. Qed.

(** ** The stream of a stackfile *)

Lemma int_of_gchar_low (c : byte) : low c -> int_of_gchar c = int_of_char c.
Proof.
  unfold low, int_of_gchar. intros L.
  destruct (Z.ltb_spec (int_of_char c) 128); [reflexivity|lia].
Qed.

Lemma int_of_gchar_range (c : byte) : -128 <= int_of_gchar c <= 127.
Proof.
  unfold int_of_gchar. pose proof (int_of_char_range c).
  destruct (Z.ltb_spec (int_of_char c) 128); lia.
Qed.

Lemma char_of_int_of_gchar (c : byte) : char_of_int (int_of_gchar c) = c.
Proof.
  rewrite <- (char_of_int_of_char c) at 2. unfold char_of_int, int_of_gchar.
  destruct (Z.ltb_spec (int_of_char c) 128); [reflexivity|].
  replace ((int_of_char c - 256) mod 256) with (int_of_char c mod 256); [reflexivity|].
  pose proof (int_of_char_range c). lia.
Qed.

Lemma int_of_gchar_EOF (c : byte) : (int_of_gchar c =? EOF) = Byte.eqb c xff.
Proof.
  destruct (Byte.eqb c xff) eqn:E.
  - apply Byte.byte_dec_bl in E. subst c. reflexivity.
  - apply Z.eqb_neq. intros H. apply Byte.eqb_false in E. apply E.
    rewrite <- (char_of_int_of_gchar c), H. reflexivity.
Qed.

(** A [gchar] and the [int] [fgetc] gives for a byte below 0x80 compare as
    the bytes do. *)
Lemma int_of_gchar_eqb (a b : byte) :
  low b -> (int_of_gchar a =? int_of_char b) = Byte.eqb a b.
Proof.
  intros L. destruct (Byte.eqb a b) eqn:E.
  - apply Byte.byte_dec_bl in E. subst. rewrite int_of_gchar_low by exact L.
    apply Z.eqb_refl.
  - apply Z.eqb_neq. intros H. apply Byte.eqb_false in E. apply E.
    rewrite <- (char_of_int_of_gchar a), H. apply char_of_int_of_char.
Qed.

Lemma low_x0a : low x0a.
Proof. unfold low. vm_compute. reflexivity. Qed.

Lemma seven_bit_no_xff (s : list byte) : seven_bit s -> no_xff s.
Proof.
  intros H. eapply Forall_impl; [exact H|]. intros c L ->. vm_compute in L. discriminate.
Qed.

(** One pass of [sf_get] on a put-back byte other than 0xff. *)
Lemma sf_read_buffered (sf : stackfile) (b : list byte) (c : byte) :
  buf sf = b ++ [c] -> c <> xff ->
  exists sf' : stackfile,
    sf_read sf = (int_of_gchar c, sf')
    /\ buf sf' = b /\ fh sf' = fh sf
    /\ eat_tail sf' = eat_tail sf /\ settings sf' = settings sf
    /\ lineno sf' = (if Byte.eqb c x0a then int_incr (lineno sf) else lineno sf)
    /\ column sf' = (if Byte.eqb c x0a then 0 else int_incr (column sf))
    /\ old_column sf' = (if Byte.eqb c x0a then column sf else old_column sf).
Proof.
  intros B N. unfold sf_read. rewrite B, rev_app_distr. cbn [rev app].
  rewrite int_of_gchar_EOF. destruct (Byte.eqb c xff) eqn:E;
    [apply Byte.byte_dec_bl in E; contradiction|].
  cbn [negb]. rewrite (int_of_gchar_eqb c x0a low_x0a), rev_involutive.
  destruct (Byte.eqb c x0a); eexists; (split; [reflexivity|]); repeat split.
Qed.

(** One pass of [sf_get] with nothing put back. *)
Lemma sf_read_file (sf : stackfile) (c : byte) (r : list byte) :
  buf sf = [] -> fh sf = c :: r ->
  exists sf' : stackfile,
    sf_read sf = (int_of_char c, sf')
    /\ buf sf' = [] /\ fh sf' = r
    /\ eat_tail sf' = eat_tail sf /\ settings sf' = settings sf
    /\ lineno sf' = (if Byte.eqb c x0a then int_incr (lineno sf) else lineno sf)
    /\ column sf' = (if Byte.eqb c x0a then 0 else int_incr (column sf))
    /\ old_column sf' = (if Byte.eqb c x0a then column sf else old_column sf).
Proof.
  intros B F. unfold sf_read. rewrite B, F. cbn [rev].
  rewrite int_of_char_not_EOF. cbn [negb]. rewrite int_of_char_eqb.
  destruct (Byte.eqb c x0a); eexists; (split; [reflexivity|]); repeat split; auto.
Qed.

Lemma sf_read_pending (sf : stackfile) :
  seven_bit (buf sf) ->
  match pending sf with
  | [] => sf_read sf = (EOF, sf)
  | c :: r =>
      exists sf', sf_read sf = (int_of_char c, sf') /\ pending sf' = r
        /\ eat_tail sf' = eat_tail sf /\ settings sf' = settings sf
        /\ seven_bit (buf sf')
  end.
Proof.
  intros Sb. unfold pending.
  destruct (buf sf) as [|x b0] eqn:B using rev_ind.
  - cbn [rev app]. destruct (fh sf) as [|c r] eqn:F.
    + unfold sf_read. rewrite B, F. reflexivity.
    + destruct (sf_read_file sf c r B F) as (sf' & E & B' & F' & T & S & _).
      exists sf'. rewrite E, B', F'. repeat split; auto.
  - clear IHb0. rewrite rev_app_distr. cbn [rev app].
    apply Forall_app in Sb as [Sb Sx]. apply Forall_inv in Sx.
    destruct (sf_read_buffered sf b0 x B) as (sf' & E & B' & F' & T & S & _).
    { intros ->. vm_compute in Sx. discriminate. }
    exists sf'. rewrite E, B', F', (int_of_gchar_low x Sx). repeat split; auto.
Qed.

Lemma sf_get_incoming (sf : stackfile) :
  seven_bit (buf sf) ->
  exists sf', eat_tail sf' = false /\ settings sf' = settings sf
    /\ seven_bit (buf sf') /\
    match incoming sf with
    | [] => sf_get sf = (EOF, sf') /\ pending sf' = []
    | c :: r => sf_get sf = (int_of_char c, sf') /\ pending sf' = r
    end.
Proof.
  intros Sb. unfold incoming, sf_get.
  pose proof (sf_read_pending sf Sb) as H1.
  destruct (pending sf) as [|c r] eqn:P.
  - rewrite H1. destruct (eat_tail sf) eqn:E; simpl.
    + exists (set_eat_tail sf false). repeat split; auto.
    + exists sf. repeat split; auto.
  - destruct H1 as (sf1 & -> & P1 & E1 & S1 & Sb1). rewrite E1.
    destruct (eat_tail sf) eqn:E; simpl.
    + rewrite int_of_char_not_EOF. simpl.
      pose proof (sf_read_pending (set_eat_tail sf1 false) Sb1) as H2.
      change (pending (set_eat_tail sf1 false)) with (pending sf1) in H2.
      rewrite P1 in H2. destruct r as [|c2 r2].
      * exists (set_eat_tail sf1 false). rewrite H2. repeat split; auto.
      * destruct H2 as (sf2 & -> & P2 & E2 & S2 & Sb2). exists sf2.
        repeat split; auto; try (rewrite S2; exact S1).
    + exists sf1. repeat split; auto; congruence.
Qed.

Lemma pending_sf_put (sf : stackfile) (c : byte) :
  pending (sf_put sf c) = c :: pending sf.
Proof.
  unfold sf_put, pending. destruct (Byte.eqb c x0a); simpl;
    rewrite rev_app_distr; reflexivity.
Qed.

Lemma buf_sf_put (sf : stackfile) (c : byte) : buf (sf_put sf c) = buf sf ++ [c].
Proof. unfold sf_put. destruct (Byte.eqb c x0a); reflexivity. Qed.

Lemma eat_tail_sf_put (sf : stackfile) (c : byte) :
  eat_tail (sf_put sf c) = eat_tail sf.
Proof. unfold sf_put. destruct (Byte.eqb c x0a); reflexivity. Qed.

Lemma settings_sf_put (sf : stackfile) (c : byte) :
  settings (sf_put sf c) = settings sf.
Proof. unfold sf_put. destruct (Byte.eqb c x0a); reflexivity. Qed.

Lemma fs_set_top_twice (fs : filestack) (a b : stackfile) :
  fs_set_top (fs_set_top fs a) b = fs_set_top fs b.
Proof. reflexivity. Qed.

Lemma fs_set_top_same (fs : filestack) (sf : stackfile) (rest : list stackfile) :
  file fs = sf :: rest -> fs_set_top fs sf = fs.
Proof. destruct fs as [f p]. simpl. intros ->. reflexivity. Qed.

Lemma fs_put_n_loop_spec (s : list byte) (k : nat) :
  forall (fs : filestack) (sf : stackfile) (rest : list stackfile),
    file fs = sf :: rest -> (k <= length s)%nat ->
    exists sf', fs_put_n_loop k fs s = Ok (fs_set_top fs sf')
      /\ pending sf' = take k s ++ pending sf
      /\ eat_tail sf' = eat_tail sf /\ settings sf' = settings sf
      /\ buf sf' = buf sf ++ rev (take k s).
Proof.
  induction k as [|i IH]; intros fs sf rest F L.
  - exists sf. simpl. rewrite (fs_set_top_same fs sf rest F), app_nil_r. auto.
  - simpl. unfold str_at.
    destruct (lookup_lt_is_Some_2 s i ltac:(lia)) as [c Hc]. rewrite Hc. simpl.
    unfold fs_put, fs_topfile. rewrite F. simpl.
    destruct (IH (fs_set_top fs (sf_put sf c)) (sf_put sf c) rest)
      as (sf' & E & P & T & S & B);
      [unfold fs_set_top; simpl; now rewrite F | lia |].
    exists sf'. rewrite E, fs_set_top_twice. split; [reflexivity|].
    rewrite P, pending_sf_put, eat_tail_sf_put in *. rewrite settings_sf_put in S.
    rewrite buf_sf_put in B.
    repeat split; auto.
    + rewrite (take_S_r s i c Hc), <- app_assoc. reflexivity.
    + rewrite B, (take_S_r s i c Hc), rev_app_distr, <- app_assoc. reflexivity.
Qed.

Lemma fs_get_n_loop_spec (n : nat) :
  forall (fs : filestack) (sf : stackfile) (rest : list stackfile) (acc : list byte),
    file fs = sf :: rest -> seven_bit (buf sf) ->
    exists sf', fs_get_n_loop n fs acc = (acc ++ take n (incoming sf), fs_set_top fs sf')
      /\ incoming sf' = drop n (incoming sf)
      /\ settings sf' = settings sf
      /\ (n = 0%nat -> sf' = sf) /\ (n <> 0%nat -> eat_tail sf' = false)
      /\ seven_bit (buf sf').
Proof.
  induction n as [|n IH]; intros fs sf rest acc F Sb.
  - exists sf. simpl. rewrite app_nil_r, (fs_set_top_same fs sf rest F).
    repeat split; auto. congruence.
  - simpl. unfold fs_get. rewrite F.
    destruct (sf_get_incoming sf Sb) as (sf1 & E1 & S1 & Sb1 & H).
    destruct (incoming sf) as [|c r] eqn:I.
    + destruct H as [-> P1]. simpl. exists sf1. rewrite app_nil_r.
      repeat split; auto; try discriminate.
      unfold incoming. rewrite E1. exact P1.
    + destruct H as [-> P1]. rewrite int_of_char_not_EOF. simpl.
      destruct (IH (fs_set_top fs sf1) sf1 rest (acc ++ [char_of_int (int_of_char c)]))
        as (sf' & E & I' & S' & Z' & T' & Sb'); [unfold fs_set_top; simpl; now rewrite F|exact Sb1|].
      exists sf'. rewrite E, fs_set_top_twice, char_of_int_of_char, <- app_assoc.
      assert (incoming sf1 = r) as Ir by (unfold incoming; now rewrite E1).
      rewrite Ir in *. repeat split; auto; try discriminate; try congruence.
      intros _. destruct n; [rewrite Z'; auto | auto].
Qed.

(** The bytes just put back are read again as they are, 0xff apart. *)
Lemma fs_get_n_loop_buffered (s : list byte) :
  forall (fs : filestack) (sf : stackfile) (rest : list stackfile) (b acc : list byte),
    file fs = sf :: rest -> eat_tail sf = false -> no_xff s ->
    buf sf = b ++ rev s ->
    exists sf' : stackfile,
      fs_get_n_loop (length s) fs acc = (acc ++ s, fs_set_top fs sf')
      /\ buf sf' = b /\ fh sf' = fh sf /\ eat_tail sf' = false
      /\ settings sf' = settings sf.
Proof.
  induction s as [|c s IH]; intros fs sf rest b acc F Et N B.
  - exists sf. cbn [length fs_get_n_loop rev] in *. rewrite app_nil_r in *.
    rewrite (fs_set_top_same fs sf rest F). auto.
  - apply Forall_cons_1 in N as [Nc N]. cbn [rev] in B. rewrite app_assoc in B.
    destruct (sf_read_buffered sf (b ++ rev s) c B Nc) as (sf1 & E & B1 & F1 & T1 & S1 & _).
    cbn [length fs_get_n_loop]. unfold fs_get. rewrite F. unfold sf_get.
    rewrite E, T1, Et, int_of_gchar_EOF.
    destruct (Byte.eqb c xff) eqn:X; [apply Byte.byte_dec_bl in X; contradiction|].
    cbn [negb]. rewrite char_of_int_of_gchar.
    destruct (IH (fs_set_top fs sf1) sf1 rest b (acc ++ [c]))
      as (sf' & E' & B' & F' & T' & S');
      [unfold fs_set_top; simpl; now rewrite F|congruence|exact N|exact B1|].
    exists sf'. rewrite E', fs_set_top_twice, <- app_assoc.
    repeat split; auto; congruence.
Qed.

(** ** Position round trip (sf_get, sf_put) *)

(** C5, as stated, fails: with [eat_tail] set, [sf_get] reads two bytes (the
    eaten one and the returned one) and [sf_put] takes back one; the column of
    [sf_after_plus] goes 0, 2, 1. *)
Lemma position_round_trip_fails_with_eat_tail :
  ~ position_round_trip sf_after_plus.
Proof.
  intros H.
  destruct (H (int_of_char "Y"%byte) (snd (sf_get sf_after_plus))) as [_ C].
  - reflexivity.
  - discriminate.
  - vm_compute in C. discriminate.
Qed.

(** What one pass of [sf_get] does to the file point, whatever it reads. *)
Lemma sf_read_point (sf : stackfile) :
  exists c : byte,
    eat_tail (snd (sf_read sf)) = eat_tail sf
    /\ (fst (sf_read sf) <> EOF ->
        char_of_int (fst (sf_read sf)) = c
        /\ lineno (snd (sf_read sf))
           = (if Byte.eqb c x0a then int_incr (lineno sf) else lineno sf)
        /\ column (snd (sf_read sf))
           = (if Byte.eqb c x0a then 0 else int_incr (column sf))
        /\ old_column (snd (sf_read sf))
           = (if Byte.eqb c x0a then column sf else old_column sf)).
Proof.
  destruct (buf sf) as [|x b0] eqn:B using rev_ind.
  - destruct (fh sf) as [|c r] eqn:F.
    + exists x00. unfold sf_read. rewrite B, F. cbn.
      split; [reflexivity|]. intros H. contradiction.
    + destruct (sf_read_file sf c r B F) as (sf' & E & _ & _ & T & _ & L & C & O).
      exists c. rewrite E. cbn [fst snd]. rewrite char_of_int_of_char.
      split; [exact T|]. intros _. repeat split; assumption.
  - clear IHb0. destruct (Byte.eqb x xff) eqn:X.
    + apply Byte.byte_dec_bl in X. subst x. exists xff.
      unfold sf_read. rewrite B, rev_app_distr. cbn [rev app].
      change (int_of_gchar xff) with EOF. cbn.
      split; [reflexivity|]. intros H. contradiction.
    + apply Byte.eqb_false in X.
      destruct (sf_read_buffered sf b0 x B X) as (sf' & E & _ & _ & T & _ & L & C & O).
      exists x. rewrite E. cbn [fst snd]. rewrite char_of_int_of_gchar.
      split; [exact T|]. intros _. repeat split; assumption.
Qed.

(** C5 (amended): for every stackfile whose [eat_tail] flag is clear (its
    line and column being C ints) and every byte [c], newline included, an
    [sf_get] that returns [c] followed by [sf_put] of [c] restores
    [(lineno, column)]. *)
Theorem sf_get_put_restores_position (sf : stackfile) :
  int_range (lineno sf) -> int_range (column sf) ->
  eat_tail sf = false ->
  position_round_trip sf.
Proof.
  intros RL RC ET c sf1 G NE.
  unfold sf_get in G.
  destruct (sf_read_point sf) as (b & T & P).
  destruct (sf_read sf) as [ret sf0] eqn:R. cbn [fst snd] in T, P.
  rewrite T, ET in G. inversion G. subst ret sf0.
  destruct (P NE) as (Cb & L & C & _). rewrite Cb.
  unfold sf_put. destruct (Byte.eqb b x0a) eqn:NL; simpl.
  - rewrite L. split; [apply int_decr_incr; assumption|].
    destruct (P NE) as (_ & _ & _ & O). exact O.
  - rewrite L, C. split; [reflexivity | apply int_decr_incr; assumption].
Qed.

Lemma sf_get_put_restores_position_witness :
  int_range (lineno (sf_default (bs "in") (bs "XY"))) /\
  position_round_trip (sf_default (bs "in") (bs "XY")).
Proof.
  split.
  - vm_compute. split; discriminate.
  - apply sf_get_put_restores_position.
    + vm_compute. split; discriminate.
    + vm_compute. split; discriminate.
    + reflexivity.
Defined.

(** ** Push-back order (fs_put_n, fs_get_n) *)

(** C6, as stated, fails: on a top file with [eat_tail] set the first read
    after the put-back drops the first byte of [s]; putting back ["ab"] on
    [sf_after_plus] and reading two bytes gives ["bX"]. *)
Lemma push_back_order_fails_with_eat_tail :
  ~ push_back_order {| file := [sf_after_plus]; file_prev := [] |} (bs "ab").
Proof.
  intros (fs1 & P & G). vm_compute in P. inversion P. subst fs1.
  vm_compute in G. discriminate.
Qed.

(** Beside it, the read of the put-back buffer takes a byte 0xff for [EOF]:
    put back, it is not read again (and is gone from the buffer). *)
Lemma push_back_order_fails_with_xff :
  ~ push_back_order {| file := [sf_default (bs "in") (bs "XY")]; file_prev := [] |} [xff].
Proof.
  intros (fs1 & P & G). vm_compute in P. inversion P. subst fs1.
  vm_compute in G. discriminate.
Qed.

(** C6 (amended): for every byte string [s] without the byte 0xff and every
    filestack whose top file has its [eat_tail] flag clear, [fs_put_n] of
    [s] followed by [fs_get_n] of [|s|] bytes returns exactly [s]. *)
Theorem fs_put_n_then_get_n (fs : filestack) (sf : stackfile)
    (rest : list stackfile) (s : list byte) :
  file fs = sf :: rest -> eat_tail sf = false -> no_xff s ->
  push_back_order fs s.
Proof.
  intros F ET N. unfold push_back_order, fs_put_n, fs_get_n.
  assert ((if Z.of_nat (length s) =? 0 then strlen s else Z.of_nat (length s))
          = Z.of_nat (length s)) as ->.
  { destruct s; [reflexivity|]. simpl length.
    destruct (Z.eqb_spec (Z.of_nat (S (length s))) 0); [lia | reflexivity]. }
  rewrite Nat2Z.id.
  destruct (fs_put_n_loop_spec s (length s) fs sf rest F ltac:(lia))
    as (sf' & E & P & T & _ & B).
  rewrite firstn_all in B.
  exists (fs_set_top fs sf'). split; [exact E|].
  destruct (fs_get_n_loop_buffered s (fs_set_top fs sf') sf' rest (buf sf) [])
    as (sf2 & E2 & _); [unfold fs_set_top; simpl; now rewrite F|congruence|exact N|exact B|].
  rewrite E2. reflexivity.
Qed.

Lemma fs_put_n_then_get_n_witness :
  push_back_order {| file := [sf_default (bs "in") (bs "XY")]; file_prev := [] |}
                  (bs "ab").
Proof.
  apply (fs_put_n_then_get_n _ (sf_default (bs "in") (bs "XY")) []);
    [reflexivity|reflexivity|repeat constructor; discriminate].
Defined.

(** ** Reads on an empty or exhausted filestack (fs_get, fs_get_one) *)

Lemma fs_get_one_from_spec (files : list stackfile) :
  exists k : nat,
    (k <= length files)%nat
    /\ Forall (fun sf => fst (sf_get sf) = EOF) (take k files)
    /\ match files !! k with
       | None => fs_get_one_from files = (EOF, [])
       | Some sf =>
           fst (sf_get sf) <> EOF
           /\ fs_get_one_from files = (fst (sf_get sf), snd (sf_get sf) :: drop (S k) files)
       end.
Proof.
  induction files as [|sf rest IH].
  - exists 0%nat. simpl. repeat split; auto.
  - simpl. destruct (sf_get sf) as [ret sf'] eqn:G.
    destruct (Z.eqb_spec ret EOF) as [->|NE].
    + destruct IH as (k & L & A & M). exists (S k). simpl.
      repeat split; [lia | constructor; [now rewrite G | exact A] | exact M].
    + exists 0%nat. simpl. rewrite G. simpl.
      repeat split; [lia | constructor | exact NE].
Qed.

(** C10: on an empty input stack [fs_get] and [fs_get_one] answer EOF and
    leave the stack as it is; in general [fs_get_one] pops [k] files, one per
    turn of its loop and each of them answering EOF, then either has no file
    left and answers EOF, or returns the byte of the file it stopped at; it
    answers EOF exactly when it leaves the stack empty. *)
Theorem fs_get_one_total :
  (forall p : list stackfile,
      fs_get {| file := []; file_prev := p |} = (EOF, {| file := []; file_prev := p |})
      /\ fs_get_one {| file := []; file_prev := p |}
         = (EOF, {| file := []; file_prev := p |}))
  /\ (forall fs : filestack, exists k : nat,
         (k <= length (file fs))%nat
         /\ Forall (fun sf => fst (sf_get sf) = EOF) (take k (file fs))
         /\ file_prev (snd (fs_get_one fs)) = file_prev fs
         /\ match file fs !! k with
            | None => fs_get_one fs = (EOF, {| file := []; file_prev := file_prev fs |})
            | Some sf =>
                fst (sf_get sf) <> EOF
                /\ fst (fs_get_one fs) = fst (sf_get sf)
                /\ file (snd (fs_get_one fs)) = snd (sf_get sf) :: drop (S k) (file fs)
            end)
  /\ (forall fs : filestack,
         fst (fs_get_one fs) = EOF <-> file (snd (fs_get_one fs)) = []).
Proof.
  split; [|split].
  - intros p. split; reflexivity.
  - intros fs. unfold fs_get_one.
    destruct (fs_get_one_from_spec (file fs)) as (k & L & A & M).
    exists k. destruct (fs_get_one_from (file fs)) as [ret files'] eqn:E. simpl.
    repeat split; auto.
    destruct (file fs !! k) as [sf|].
    + destruct M as [NE M]. inversion M. auto.
    + inversion M. reflexivity.
  - intros fs. unfold fs_get_one.
    destruct (fs_get_one_from_spec (file fs)) as (k & _ & _ & M).
    destruct (fs_get_one_from (file fs)) as [ret files'] eqn:E. simpl.
    destruct (file fs !! k) as [sf|].
    + destruct M as [NE M]. inversion M. subst. split; [contradiction | discriminate].
    + inversion M. subst. split; reflexivity.
Qed.

(** ** Blocked output (ps_out, ps_block_output, ps_unblock_output) *)

(** C9: a byte written through [ps_out] while the top outfile is blocked
    leaves the whole parser state, that outfile included, as it was; while it
    is not blocked the byte is appended to the stream as it is and the line
    counter moves exactly on a newline; [ps_block_output] and
    [ps_unblock_output] change the [blocked] flag of the top outfile and
    nothing else. *)
Theorem ps_out_blocked_frame (ps : pstate) (o : outfile) (rest : list outfile) (c : Z) :
  output ps = o :: rest ->
  (of_blocked o = true -> ps_out ps c = Ok ps)
  /\ (of_blocked o = false ->
      ps_out ps c =
      Ok {| fs := fs ps; check_buf := check_buf ps; macro_buf := macro_buf ps;
            match_buf := match_buf ps; in_macro := in_macro ps;
            suspension := suspension ps;
            output := {| of_filename := of_filename o;
                         of_fh := of_fh o ++ [char_of_int c];
                         of_lineno := if c =? int_of_char x0a
                                      then int_incr (of_lineno o) else of_lineno o;
                         of_blocked := false |} :: rest;
            flush := flush ps; post_push := post_push ps; post_pop := post_pop ps |})
  /\ (forall b : bool,
      (if b then ps_block_output ps else ps_unblock_output ps) =
      Ok {| fs := fs ps; check_buf := check_buf ps; macro_buf := macro_buf ps;
            match_buf := match_buf ps; in_macro := in_macro ps;
            suspension := suspension ps;
            output := {| of_filename := of_filename o; of_fh := of_fh o;
                         of_lineno := of_lineno o; of_blocked := b |} :: rest;
            flush := flush ps; post_push := post_push ps; post_pop := post_pop ps |}).
Proof.
  intros O. destruct ps as [f cb mb tb im su out fl pp po]. simpl in O. subst out.
  unfold ps_out, ps_block_output, ps_unblock_output, set_output, set_blocked. simpl.
  split; [|split].
  - intros ->. reflexivity.
  - intros B. rewrite B. reflexivity.
  - intros []; reflexivity.
Qed.

Lemma ps_out_blocked_frame_witness :
  ps_out (ps_on []) (int_of_char "a"%byte)
  = Ok (set_output (ps_on [])
          [{| of_filename := bs "<STDOUT>"; of_fh := bs "a"; of_lineno := 0;
              of_blocked := false |}]).
Proof.
  exact (proj1 (proj2 (ps_out_blocked_frame (ps_on []) of_stdout []
                         (int_of_char "a"%byte) eq_refl)) eq_refl).
Defined.

(** ** The match probe (ps_check) *)

Lemma bytes_eqb_eq (a b : list byte) : bytes_eqb a b = true <-> a = b.
Proof.
  revert b. induction a as [|x a IH]; intros [|y b]; simpl; split; intros H;
    try discriminate; try reflexivity.
  - apply andb_true_iff in H as [H1 H2]. apply Byte.byte_dec_bl in H1.
    apply IH in H2. congruence.
  - inversion H. subst. rewrite byte_eqb_refl. simpl. now apply IH.
Qed.

Lemma cstr_split (s : list byte) : exists t : list byte, s = cstr s ++ t.
Proof.
  induction s as [|c s [t IH]]; simpl.
  - exists []. reflexivity.
  - destruct (Byte.eqb c x00).
    + exists (c :: s). reflexivity.
    + exists t. simpl. congruence.
Qed.

Lemma cstr_idem (s : list byte) : cstr (cstr s) = cstr s.
Proof.
  induction s as [|c s IH]; simpl; [reflexivity|].
  destruct (Byte.eqb c x00) eqn:E; simpl; [reflexivity|].
  rewrite E, IH. reflexivity.
Qed.

(** Bytes no longer than a C string [d] compare equal to it as strings
    exactly when they are [d]. *)
Lemma g_strcmp0_eq_short (input m : list byte) :
  (length input <= length (cstr m))%nat ->
  g_strcmp0_eq input (cstr m) = true <-> input = cstr m.
Proof.
  intros L. unfold g_strcmp0_eq. rewrite cstr_idem, bytes_eqb_eq. split.
  - intros E. destruct (cstr_split input) as [t Ht].
    assert (length t = 0%nat) as T0.
    { apply (f_equal (@length byte)) in Ht. rewrite length_app, E in Ht. lia. }
    destruct t; [|discriminate]. rewrite app_nil_r in Ht. congruence.
  - intros ->. apply cstr_idem.
Qed.

(** The probe on a top file whose put-back buffer holds bytes below 0x80:
    it reads the first [|d|] bytes the file holds, or fewer at its end.  If
    it read none it pops the top file and answers no-match.  If it read [d]
    and [erase] is set, it answers match and those bytes are consumed.
    Otherwise it answers whether it read [d] and puts back what it read. *)
Lemma ps_check_spec (ps : pstate) (sf : stackfile) (rest : list stackfile)
    (m : list byte) (erase : bool) :
  file (fs ps) = sf :: rest -> seven_bit (buf sf) ->
  let d := cstr m in
  let input := take (length d) (incoming sf) in
  exists (ret : bool) (ps' : pstate),
    ps_check ps m erase = Ok (ret, ps')
    /\ check_buf ps' = input /\ match_buf ps' = d
    /\ beyond_probe ps' = beyond_probe ps
    /\ file_prev (fs ps') = file_prev (fs ps)
    /\ (input = [] -> ret = false /\ file (fs ps') = rest)
    /\ (input <> [] ->
        (ret = true <-> input = d)
        /\ exists sf' : stackfile,
             file (fs ps') = sf' :: rest /\ settings sf' = settings sf
             /\ eat_tail sf' = false
             /\ incoming sf' = (if ret && erase then drop (length d) (incoming sf)
                                else incoming sf)
             /\ (seven_bit input -> seven_bit (buf sf'))).
Proof.
  intros F Sb d input. unfold ps_check.
  change (fs (set_bufs ps (check_buf ps) (macro_buf ps) (cstr m))) with (fs ps).
  unfold fs_get_n, strlen. rewrite Nat2Z.id. fold d.
  destruct (fs_get_n_loop_spec (length d) (fs ps) sf rest [] F Sb)
    as (sf1 & -> & I1 & S1 & Z1 & T1 & Sb1).
  simpl app. fold input.
  assert (input = take (length d) (incoming sf)) as Hin by reflexivity.
  clearbody input.
  change (match_buf (set_fs _ _)) with d.
  destruct (Nat.eqb_spec (length input) 0) as [L0|L0].
  - assert (input = []) as In by (destruct input; [reflexivity|discriminate]).
    unfold fs_pop_file, fs_set_top. simpl. rewrite F. simpl.
    exists false. eexists. split; [reflexivity|]. simpl.
    split; [reflexivity|]. split; [reflexivity|].
    split; [reflexivity|]. split; [reflexivity|].
    split; [auto | intros; contradiction].
  - assert (input <> []) as In by (intros E; rewrite E in L0; contradiction).
    assert (length d <> 0%nat) as Dn.
    { intros D0. apply In. rewrite Hin, D0. reflexivity. }
    specialize (T1 Dn).
    assert (length input <= length d)%nat as Li by (rewrite Hin, length_take; lia).
    pose proof (g_strcmp0_eq_short input m Li) as Q. fold d in Q.
    assert (incoming sf1 = pending sf1) as I1' by (unfold incoming; now rewrite T1).
    assert (forall r, exists sf2 : stackfile,
               (do fs2 <- lift r (fs_put_n (fs_set_top (fs ps) sf1) input
                                           (Z.of_nat (length input)));
                Ok fs2) = Ok (fs_set_top (fs ps) sf2)
               /\ settings sf2 = settings sf /\ eat_tail sf2 = false
               /\ incoming sf2 = incoming sf
               /\ (seven_bit input -> seven_bit (buf sf2))) as Put.
    { intros r. unfold fs_put_n.
      assert ((if Z.of_nat (length input) =? 0 then strlen input
               else Z.of_nat (length input)) = Z.of_nat (length input)) as ->.
      { destruct (Z.eqb_spec (Z.of_nat (length input)) 0); [lia|reflexivity]. }
      rewrite Nat2Z.id.
      destruct (fs_put_n_loop_spec input (length input) (fs_set_top (fs ps) sf1) sf1 rest)
        as (sf2 & -> & P2 & T2 & S2 & B2);
        [unfold fs_set_top; simpl; now rewrite F | lia |].
      exists sf2. simpl. split; [reflexivity|]. split; [congruence|].
      split; [congruence|]. split.
      - unfold incoming at 1. rewrite T2, T1, P2, firstn_all, <- I1', I1.
        rewrite Hin. apply take_drop.
      - intros Si. rewrite B2, firstn_all. apply Forall_app. split; [exact Sb1|].
        apply Forall_rev. exact Si. }
    assert (tail (file (fs ps)) = rest) as Tl by (now rewrite F).
    destruct (g_strcmp0_eq input d) eqn:R; simpl.
    + destruct erase; simpl.
      * exists true. eexists. split; [reflexivity|]. simpl.
        split; [reflexivity|]. split; [reflexivity|].
        split; [reflexivity|]. split; [reflexivity|].
        split; [intros; contradiction|]. intros _. split; [exact Q|].
        exists sf1. rewrite Tl. auto 10.
      * destruct (Put (set_fs (set_bufs (set_bufs ps (check_buf ps) (macro_buf ps) d)
                         input (macro_buf ps) d) (fs_set_top (fs ps) sf1)))
          as (sf2 & E2 & S2 & T2 & I2 & Sb2).
        apply bind_ok_inv in E2 as (fs2 & -> & E2). inversion E2. subst fs2. simpl.
        exists true. eexists. split; [reflexivity|]. simpl.
        split; [reflexivity|]. split; [reflexivity|].
        split; [reflexivity|]. split; [reflexivity|].
        split; [intros; contradiction|]. intros _. split; [exact Q|].
        exists sf2. rewrite Tl. auto 10.
    + destruct (Put (set_fs (set_bufs (set_bufs ps (check_buf ps) (macro_buf ps) d)
                       input (macro_buf ps) d) (fs_set_top (fs ps) sf1)))
        as (sf2 & E2 & S2 & T2 & I2 & Sb2).
      apply bind_ok_inv in E2 as (fs2 & -> & E2). inversion E2. subst fs2. simpl.
      exists false. eexists. split; [reflexivity|]. simpl.
      split; [reflexivity|]. split; [reflexivity|].
      split; [reflexivity|]. split; [reflexivity|].
      split; [intros; contradiction|]. intros _. split; [exact Q|].
      exists sf2. rewrite Tl. auto 10.
Qed.

(** C4 does not hold of the code: the read of the put-back buffer
    ([sf_get], [ret = sf->buf->str[ pos ]]) takes a byte 0xff for [EOF], so
    the bytes a failed probe pushes back are not all delivered again.  On
    the file ["in"] holding [>], 0xff, [Z] the probe for the begin hook
    [-<] reads [>] and 0xff, answers no-match and pushes both back; before
    the probe three reads give [>], 0xff, [Z], after it they give [>] and
    the end of the file.  The loop on this file writes [>] and stops, the
    file popped with [Z] unread. *)
Theorem ps_check_loses_a_byte_xff :
  exists ps' : pstate,
    ps_check ps_gt_xff (bs "-<") true = Ok (false, ps')
    /\ check_buf ps' = ">"%byte :: [xff]
    /\ fst (fs_get_n (fs ps_gt_xff) 3) = ">"%byte :: xff :: bs "Z"
    /\ fst (fs_get_n (fs ps') 3) = bs ">"
    /\ exists ps'' : pstate,
         demo_loop 2 ps_gt_xff = Ok (tt, ps'', true)
         /\ map of_fh (output ps'') = [bs ">"]
         /\ file (fs ps'') = [].
Proof.
  eexists. split; [vm_compute; reflexivity|].
  split; [reflexivity|]. split; [reflexivity|]. split; [reflexivity|].
  eexists. split; [vm_compute; reflexivity|]. split; reflexivity.
Qed.

(** ** The first-byte table (sf_update_hook_cache) *)

(** C1 does not hold of the code: [sf_set_hook] with [hook_esc] clears the
    table entry of the old escape's first byte, and in multi-hook mode
    [sf_update_hook_cache] then re-enters the latest pair and the new escape
    only.  After the three calls of [esc_changed_in_multi_mode] the pair
    ["\a"]/["b"] is in use and the entry of its first byte is 0. *)
Theorem bitmap_incomplete_after_esc_change :
  exists sf : stackfile,
    esc_changed_in_multi_mode = Ok sf
    /\ config_reachable sf
    /\ In (bs "\a") (active_delims sf)
    /\ hook_1st_chars sf !! idx (str0 (bs "\a")) = Some 0
    /\ ~ bitmap_complete sf.
Proof.
  assert (In (bs "\a") (active_delims sf_multi_3)) as A
    by (vm_compute; auto).
  assert (hook_1st_chars sf_multi_3 !! idx (str0 (bs "\a")) = Some 0) as Z0
    by (vm_compute; reflexivity).
  exists sf_multi_3. split; [|split; [|split; [exact A|split; [exact Z0|]]]].
  - vm_compute. reflexivity.
  - apply (reach_set_hook sf_multi_2 _ hook_esc (bs "e")); [|vm_compute; reflexivity].
    apply (reach_multi_hook sf_multi_1 _ (bs "c") (bs "d") None);
      [|vm_compute; reflexivity].
    apply (reach_multi_hook (sf_default (bs "in") []) _ (bs "\a") (bs "b") None);
      [|vm_compute; reflexivity].
    apply (reach_new (bs "in") []). vm_compute. reflexivity.
  - intros C. specialize (C _ A). rewrite Z0 in C. discriminate.
Qed.

(** Leaving multi-hook mode: [sf_set_hook] with a begin or end hook frees the
    array and leaves [multi] pointing at it, and [sf_update_hook_cache] then
    reads the pair before its start. *)
Lemma sf_set_hook_in_multi_mode_undefined (sf : stackfile)
    (slots : list (option hookpair)) (hk : hook_t) (value : list byte) :
  multi sf = multi_arr slots -> is_hook_esc hk = false ->
  sf_set_hook sf hk value = Undef.
Proof.
  intros M H. unfold sf_set_hook. rewrite M, H. simpl.
  destruct hk; try discriminate; reflexivity.
Qed.

Lemma idx_bound (c : byte) : (idx c < 256)%nat.
Proof. unfold idx. pose proof (Byte.to_N_bounded c). lia. Qed.

Lemma idx_int_of_gchar (c : byte) : low c -> Z.to_nat (int_of_gchar c) = idx c.
Proof.
  intros L. rewrite (int_of_gchar_low c L). unfold int_of_char, idx. lia.
Qed.

(** A write into the table goes through exactly for an index byte below
    0x80. *)
Lemma tbl_put_low (t : list Z) (c : byte) (v : Z) :
  low c -> tbl_put t c v = Ok (tbl_store t c v).
Proof.
  intros L. unfold tbl_put, tbl_store. rewrite (idx_int_of_gchar c L).
  rewrite (int_of_gchar_low c L). pose proof (int_of_char_range c).
  destruct (Z.ltb_spec (int_of_char c) 0); [lia|reflexivity].
Qed.

Lemma tbl_put_ok (t t' : list Z) (c : byte) (v : Z) :
  tbl_put t c v = Ok t' -> low c /\ t' = tbl_store t c v.
Proof.
  intros H. assert (low c) as L.
  { unfold tbl_put in H. unfold low. unfold int_of_gchar in H.
    destruct (Z.ltb_spec (int_of_char c) 128); [assumption|].
    pose proof (int_of_char_range c).
    destruct (Z.ltb_spec (int_of_char c - 256) 0); [discriminate|lia]. }
  split; [exact L|]. rewrite (tbl_put_low t c v L) in H. now inversion H.
Qed.

Lemma tbl_put_high (t : list Z) (c : byte) (v : Z) :
  ~ low c -> tbl_put t c v = Undef.
Proof.
  intros H. unfold tbl_put, int_of_gchar. unfold low in H.
  pose proof (int_of_char_range c).
  destruct (Z.ltb_spec (int_of_char c) 128); [contradiction|].
  destruct (Z.ltb_spec (int_of_char c - 256) 0); [reflexivity|lia].
Qed.

Lemma length_tbl_store (t : list Z) (c : byte) (v : Z) :
  length (tbl_store t c v) = length t.
Proof. apply length_insert. Qed.

Lemma tbl_store_same (t : list Z) (c : byte) (v : Z) :
  length t = 256%nat -> tbl_store t c v !! idx c = Some v.
Proof.
  intros L. apply list_lookup_insert_eq. rewrite L. apply idx_bound.
Qed.

Lemma tbl_store_keeps_1 (t : list Z) (c : byte) (i : nat) :
  t !! i = Some 1 -> tbl_store t c 1 !! i = Some 1.
Proof.
  intros H. unfold tbl_store. destruct (Nat.eq_dec (idx c) i) as [<-|N].
  - apply list_lookup_insert_eq. now apply lookup_lt_Some in H.
  - now rewrite list_lookup_insert_ne.
Qed.

(** [sf_update_hook_cache] in single-hook mode: it returns exactly when the
    first bytes of the two hooks and of the escape are below 0x80. *)
Lemma sf_update_hook_cache_single (sf : stackfile) :
  multi sf = multi_null ->
  low_first (beg (hook sf)) -> low_first (end_ (hook sf)) -> low_first (hookesc sf) ->
  sf_update_hook_cache sf = Ok (single_cache sf).
Proof.
  intros M Lb Le Ls. unfold sf_update_hook_cache. rewrite M.
  rewrite (tbl_put_low _ _ _ Lb). cbn [bind].
  rewrite (tbl_put_low _ _ _ Le). cbn [bind].
  rewrite (tbl_put_low _ _ _ Ls). reflexivity.
Qed.

Lemma sf_update_hook_cache_single_inv (sf sf' : stackfile) :
  multi sf = multi_null -> sf_update_hook_cache sf = Ok sf' ->
  low_first (beg (hook sf)) /\ low_first (end_ (hook sf)) /\ low_first (hookesc sf)
  /\ sf' = single_cache sf.
Proof.
  intros M U. unfold sf_update_hook_cache in U. rewrite M in U.
  apply bind_ok_inv in U as (t1 & U1 & U). apply tbl_put_ok in U1 as [Lb ->].
  apply bind_ok_inv in U as (t2 & U2 & U). apply tbl_put_ok in U2 as [Le ->].
  apply bind_ok_inv in U as (t3 & U3 & U). apply tbl_put_ok in U3 as [Ls ->].
  inversion U. auto.
Qed.

(** [sf_update_hook_cache] in multi-hook mode, [hp] being the latest pair. *)
Lemma sf_update_hook_cache_multi (sf : stackfile) (slots : list (option hookpair))
    (hp : hookpair) :
  multi sf = multi_arr slots -> 0 <= multi_cnt sf - 1 ->
  slots !! Z.to_nat (multi_cnt sf - 1) = Some (Some hp) ->
  low_pair hp -> low_first (hookesc sf) ->
  sf_update_hook_cache sf = Ok (multi_cache sf hp).
Proof.
  intros M C L (Lb & Le & Lp) Ls. unfold sf_update_hook_cache, multi_cache. rewrite M.
  destruct (Z.ltb_spec (multi_cnt sf - 1) 0); [lia|]. rewrite L.
  rewrite (tbl_put_low _ _ _ Lb). cbn [bind].
  rewrite (tbl_put_low _ _ _ Le). cbn [bind].
  destruct (susp hp) as [su|].
  - rewrite (tbl_put_low _ _ _ Lp). cbn [bind].
    rewrite (tbl_put_low _ _ _ Ls). reflexivity.
  - cbn [bind]. rewrite (tbl_put_low _ _ _ Ls). reflexivity.
Qed.

Lemma sf_update_hook_cache_multi_inv (sf sf' : stackfile)
    (slots : list (option hookpair)) :
  multi sf = multi_arr slots -> sf_update_hook_cache sf = Ok sf' ->
  exists hp : hookpair,
    0 <= multi_cnt sf - 1
    /\ slots !! Z.to_nat (multi_cnt sf - 1) = Some (Some hp)
    /\ low_pair hp /\ low_first (hookesc sf)
    /\ sf' = multi_cache sf hp.
Proof.
  intros M U. unfold sf_update_hook_cache in U. rewrite M in U.
  destruct (Z.ltb_spec (multi_cnt sf - 1) 0); [discriminate|].
  destruct (slots !! Z.to_nat (multi_cnt sf - 1)) as [[hp|]|] eqn:L; try discriminate.
  exists hp. unfold low_pair, multi_cache.
  apply bind_ok_inv in U as (t1 & U1 & U). apply tbl_put_ok in U1 as [Lb ->].
  apply bind_ok_inv in U as (t2 & U2 & U). apply tbl_put_ok in U2 as [Le ->].
  apply bind_ok_inv in U as (t3 & U3 & U).
  apply bind_ok_inv in U as (t4 & U4 & U). apply tbl_put_ok in U4 as [Ls ->].
  inversion U. destruct (susp hp) as [su|].
  - apply tbl_put_ok in U3 as [Lp ->]. auto 10.
  - inversion U3. auto 10.
Qed.

(** In single-hook mode the table is rebuilt from scratch and is complete. *)
Lemma sf_update_hook_cache_single_complete (sf sf' : stackfile) :
  multi sf = multi_null -> sf_update_hook_cache sf = Ok sf' -> bitmap_complete sf'.
Proof.
  intros M U. apply sf_update_hook_cache_single_inv in U as (_ & _ & _ & ->); [|exact M].
  unfold single_cache.
  intros d D. unfold active_delims in D. simpl in D. rewrite M in D. simpl.
  assert (length tbl_zero = 256%nat) as L0 by reflexivity.
  destruct D as [<-|[<-|[<-|[]]]].
  - apply tbl_store_same. now rewrite !length_tbl_store.
  - do 2 apply tbl_store_keeps_1. now apply tbl_store_same.
  - apply tbl_store_keeps_1. apply tbl_store_same. now rewrite length_tbl_store.
Qed.

Lemma sf_set_hook_single_complete (sf sf' : stackfile) (hk : hook_t) (value : list byte) :
  multi sf = multi_null -> sf_set_hook sf hk value = Ok sf' -> bitmap_complete sf'.
Proof.
  intros M U. unfold sf_set_hook in U. rewrite M in U. simpl in U.
  apply bind_ok_inv in U as (sf2 & H2 & U).
  eapply sf_update_hook_cache_single_complete; [|exact U].
  destruct hk; try (inversion H2; subst sf2; exact M).
  apply bind_ok_inv in H2 as (t & _ & H2). inversion H2. exact M.
Qed.

Lemma sf_set_eater_complete (sf : stackfile) (value : option (list byte)) :
  bitmap_complete sf -> bitmap_complete (sf_set_eater sf value).
Proof. intros C d D. exact (C d D). Qed.

(** [sf_multi_hook] keeps the table complete: it only sets entries, those of
    the new pair and of the escape among them. *)
Lemma sf_multi_hook_complete (sf sf' : stackfile) (b e : list byte)
    (s : option (list byte)) :
  length (hook_1st_chars sf) = 256%nat ->
  bitmap_complete sf -> sf_multi_hook sf b e s = Ok sf' ->
  bitmap_complete sf' /\ length (hook_1st_chars sf') = 256%nat.
Proof.
  intros L C U. unfold sf_multi_hook in U.
  destruct (g_strcmp0_eq (hookesc sf) b || g_strcmp0_eq (hookesc sf) e); [discriminate|].
  remember {| beg := g_strdup b; end_ := g_strdup e; susp := option_map g_strdup s |}
    as hp eqn:Hhp.
  (* the state before the pair is stored: its table, its pairs in use *)
  assert (exists (sf1 : stackfile) (slots : list (option hookpair)),
             multi sf1 = multi_arr slots /\ hookesc sf1 = hookesc sf
             /\ length (hook_1st_chars sf1) = 256%nat
             /\ (forall d, In d (flat_map pair_delims (multi_pairs sf1)) ->
                   hook_1st_chars sf1 !! idx (str0 d) = Some 1)
             /\ (if multi_cnt sf1 >=? MULTI_LIMIT - 1 then Exit (g_print msg_too_many_multihooks)
                 else if multi_cnt sf1 <? 0 then Undef
                 else sf_update_hook_cache
                        (set_multi sf1
                           (multi_arr (<[Z.to_nat (int_incr (multi_cnt sf1)):=None]>
                                         (<[Z.to_nat (multi_cnt sf1):=Some hp]> slots)))
                           (int_incr (multi_cnt sf1)))) = Ok sf')
    as (sf1 & slots & M1 & E1 & L1 & C1 & U1).
  { destruct (multi sf) as [|slots|] eqn:M; cbn [multi_is_null] in U.
    - exists (set_cache (set_multi sf (multi_arr (replicate (Z.to_nat MULTI_LIMIT) None)) 0)
                        (hook_esc_eq_beg sf) (hook_esc_eq_end sf) tbl_zero).
      eexists. split; [reflexivity|]. split; [reflexivity|].
      split; [reflexivity|]. split; [|exact U].
      intros d D. unfold multi_pairs in D. simpl in D. contradiction.
    - exists sf, slots. rewrite M in U. repeat split; auto.
      intros d D. apply C. unfold active_delims. rewrite M. right. exact D.
    - rewrite M in U. destruct (multi_cnt sf >=? MULTI_LIMIT - 1); discriminate. }
  clear U. unfold MULTI_LIMIT in U1.
  destruct (Z.geb_spec (multi_cnt sf1) (128 - 1)); [discriminate|].
  destruct (Z.ltb_spec (multi_cnt sf1) 0); [discriminate|].
  rewrite int_incr_small in U1 by lia.
  remember (Z.to_nat (multi_cnt sf1)) as k eqn:Hk.
  replace (Z.to_nat (multi_cnt sf1 + 1)) with (S k) in U1 by lia.
  eapply (sf_update_hook_cache_multi_inv _ _ (<[S k:=None]> (<[k:=Some hp]> slots)))
    in U1 as (hp' & _ & Lh & _ & _ & ->); [|reflexivity].
  cbn [multi_cnt set_multi] in Lh.
  replace (multi_cnt sf1 + 1 - 1) with (multi_cnt sf1) in Lh by lia. rewrite <- Hk in Lh.
  rewrite list_lookup_insert_ne in Lh by lia.
  destruct (Nat.lt_ge_cases k (length slots)) as [Lk|Lk].
  2:{ rewrite list_insert_ge in Lh by lia.
      rewrite (lookup_ge_None_2 slots k Lk) in Lh. discriminate. }
  rewrite list_lookup_insert_eq in Lh by exact Lk.
  inversion Lh. subst hp'. clear Lh.
  unfold multi_cache. cbn [hook_1st_chars set_cache set_multi hookesc].
  assert (length (tbl_store (match susp hp with
                           | Some s0 => tbl_store (tbl_store (tbl_store (hook_1st_chars sf1)
                               (str0 (beg hp)) 1) (str0 (end_ hp)) 1) (str0 s0) 1
                           | None => tbl_store (tbl_store (hook_1st_chars sf1)
                               (str0 (beg hp)) 1) (str0 (end_ hp)) 1
                           end) (str0 (hookesc sf1)) 1) = 256%nat) as L'.
  { destruct (susp hp); now rewrite !length_tbl_store. }
  split; [|exact L'].
  intros d D. unfold active_delims in D. cbn [hookesc multi set_cache set_multi] in D.
  destruct D as [<-|D].
  - apply tbl_store_same. destruct (susp hp); now rewrite !length_tbl_store.
  - apply tbl_store_keeps_1.
    unfold multi_pairs in D. cbn [multi multi_cnt set_cache set_multi] in D.
    replace (Z.to_nat (multi_cnt sf1 + 1)) with (S k) in D by lia.
    rewrite take_insert_ge in D by lia.
    rewrite (take_S_r _ k (Some hp)) in D
      by (apply list_lookup_insert_eq; exact Lk).
    rewrite take_insert_ge in D by lia.
    rewrite !flat_map_app in D. simpl in D. rewrite app_nil_r in D.
    apply in_app_or in D as [D|D].
    + assert (hook_1st_chars sf1 !! idx (str0 d) = Some 1) as Old.
      { apply C1. unfold multi_pairs. rewrite M1, <- Hk. exact D. }
      destruct (susp hp); repeat apply tbl_store_keeps_1; exact Old.
    + unfold pair_delims in D.
      destruct D as [<-|[<-|D]].
      * destruct (susp hp); [do 2 apply tbl_store_keeps_1 | apply tbl_store_keeps_1];
          now apply tbl_store_same.
      * destruct (susp hp); [apply tbl_store_keeps_1|]; apply tbl_store_same;
          now rewrite length_tbl_store.
      * destruct (susp hp) as [s0|]; [|contradiction].
        destruct D as [<-|[]]. apply tbl_store_same. now rewrite !length_tbl_store.
Qed.

(** ** Reading at the top of the stack *)

Lemma idx_int_of_char (c : byte) : Z.to_nat (int_of_char c) = idx c.
Proof. unfold int_of_char, idx. now rewrite <- Z_N_nat, N2Z.id. Qed.

Lemma is_prefix_take (d st : list byte) :
  is_prefix d st = true <-> take (length d) st = d.
Proof.
  revert st. induction d as [|x d IH]; intros [|y st]; simpl; split; intros H;
    try reflexivity; try discriminate.
  - apply andb_true_iff in H as [H1 H2]. apply Byte.byte_dec_bl in H1.
    apply IH in H2. congruence.
  - inversion H. subst. rewrite byte_eqb_refl, H2. simpl. apply IH.
    now rewrite H2.
Qed.

Lemma is_prefix_app (d tail : list byte) : is_prefix d (d ++ tail) = true.
Proof. apply is_prefix_take. apply take_app_length. Qed.

Lemma holding_top (ps : pstate) (cfg : stackfile) (rest : list stackfile)
    (stream : list byte) :
  holding ps cfg rest stream ->
  exists sf : stackfile,
    file (fs ps) = sf :: rest /\ settings sf = cfg /\ incoming sf = stream
    /\ ps_has_file ps = true /\ ps_topfile ps = Ok sf
    /\ curhook sf = curhook cfg /\ hookesc sf = hookesc cfg
    /\ hook_1st_chars sf = hook_1st_chars cfg /\ eater sf = eater cfg
    /\ hook_esc_eq_end sf = hook_esc_eq_end cfg.
Proof.
  intros (sf & F & S & I & _). exists sf. unfold ps_has_file, ps_topfile, fs_topfile.
  rewrite F. rewrite <- S. repeat split; auto.
Qed.

Lemma reading_top (ps : pstate) (cfg : stackfile) (rest : list stackfile)
    (stream : list byte) :
  reading ps cfg rest stream ->
  exists sf : stackfile,
    file (fs ps) = sf :: rest /\ settings sf = cfg /\ incoming sf = stream
    /\ ps_has_file ps = true /\ ps_topfile ps = Ok sf
    /\ curhook sf = curhook cfg /\ hookesc sf = hookesc cfg
    /\ hook_1st_chars sf = hook_1st_chars cfg /\ eater sf = eater cfg
    /\ hook_esc_eq_end sf = hook_esc_eq_end cfg.
Proof. intros [H _]. exact (holding_top _ _ _ _ H). Qed.

Lemma reading_holding (ps : pstate) (cfg : stackfile) (rest : list stackfile)
    (stream : list byte) :
  reading ps cfg rest stream -> holding ps cfg rest stream.
Proof. intros [H _]. exact H. Qed.

Lemma reading_seven_bit (ps : pstate) (cfg : stackfile) (rest : list stackfile)
    (stream : list byte) :
  reading ps cfg rest stream -> seven_bit stream.
Proof. intros [_ H]. exact H. Qed.

(** Concrete strings: their bytes are below 0x80. *)
Ltac low_bytes := vm_compute; repeat first [exact I | reflexivity | constructor].

(** A concrete state is [reading]. *)
Ltac reading_now :=
  split; [eexists; split; [reflexivity|]; split; [reflexivity|];
          split; [reflexivity|low_bytes]
         |low_bytes].

#[local] Hint Resolve reading_holding : core.
#[local] Hint Extern 1 (seven_bit ?s) =>
  match goal with
  | H : reading _ _ _ s |- _ => exact (reading_seven_bit _ _ _ _ H)
  end : core.

Lemma seven_bit_tail (c : byte) (r : list byte) : seven_bit (c :: r) -> low c /\ seven_bit r.
Proof. intros H. apply Forall_cons_1 in H. exact H. Qed.

Lemma seven_bit_app (a b : list byte) : seven_bit (a ++ b) <-> seven_bit a /\ seven_bit b.
Proof. apply Forall_app. Qed.

Lemma seven_bit_drop (n : nat) (s : list byte) : seven_bit s -> seven_bit (drop n s).
Proof. apply Forall_drop. Qed.

Lemma seven_bit_take (n : nat) (s : list byte) : seven_bit s -> seven_bit (take n s).
Proof. apply Forall_take. Qed.

(** A byte read by [ps_in] from a top file that has one. *)
Lemma ps_in_holding (ps : pstate) (cfg : stackfile) (rest : list stackfile)
    (c : byte) (r : list byte) :
  holding ps cfg rest (c :: r) ->
  exists ps1 : pstate,
    ps_in ps = (int_of_char c, ps1)
    /\ holding ps1 cfg rest r
    /\ (exists sf1, file (fs ps1) = sf1 :: rest /\ eat_tail sf1 = false
                    /\ pending sf1 = r)
    /\ beyond_probe ps1 = beyond_probe ps /\ fixed ps1 = fixed ps.
Proof.
  intros (sf & F & S & I & Sb). unfold ps_in, fs_get_one. rewrite F. simpl.
  destruct (sf_get_incoming sf Sb) as (sf1 & E1 & S1 & Sb1 & H). rewrite I in H.
  destruct H as [-> P1]. rewrite int_of_char_not_EOF.
  eexists. split; [reflexivity|].
  assert (incoming sf1 = r) as I1 by (unfold incoming; now rewrite E1).
  split; [exists sf1; simpl; repeat split; auto; congruence|].
  split; [exists sf1; simpl; auto|].
  split; reflexivity.
Qed.

Lemma ps_in_reading (ps : pstate) (cfg : stackfile) (rest : list stackfile)
    (c : byte) (r : list byte) :
  reading ps cfg rest (c :: r) ->
  exists ps1 : pstate,
    ps_in ps = (int_of_char c, ps1)
    /\ reading ps1 cfg rest r
    /\ (exists sf1, file (fs ps1) = sf1 :: rest /\ eat_tail sf1 = false
                    /\ pending sf1 = r)
    /\ beyond_probe ps1 = beyond_probe ps /\ fixed ps1 = fixed ps.
Proof.
  intros [H S7]. destruct (ps_in_holding ps cfg rest c r H) as (ps1 & E & H1 & X).
  exists ps1. split; [exact E|]. split; [|exact X].
  split; [exact H1|]. now apply seven_bit_tail in S7.
Qed.

Lemma ps_check_hook_hit (ps : pstate) (cfg : stackfile) (rest : list stackfile)
    (stream : list byte) (c : byte) :
  reading ps cfg rest stream -> tbl_hit cfg c ->
  ps_check_hook ps (int_of_char c) = Ok true.
Proof.
  intros R (v & Hv & Nz).
  destruct (reading_top _ _ _ _ R) as (sf & _ & _ & _ & _ & T & _ & _ & Tb & _).
  unfold ps_check_hook. rewrite int_of_char_not_EOF, T. simpl.
  pose proof (int_of_char_range c).
  destruct (Z.ltb_spec (int_of_char c) 0); [lia|].
  rewrite idx_int_of_char, Tb, Hv.
  destruct (Z.eqb_spec v 0); [contradiction|reflexivity].
Qed.

(** The byte just read goes back: the file delivers it again. *)
Lemma ps_put_reading (ps : pstate) (cfg : stackfile) (rest : list stackfile)
    (sf : stackfile) (c : byte) :
  file (fs ps) = sf :: rest -> settings sf = cfg -> eat_tail sf = false ->
  reading ps cfg rest (pending sf) -> low c ->
  exists ps1 : pstate,
    ps_put ps (int_of_char c) = Ok ps1
    /\ reading ps1 cfg rest (c :: pending sf)
    /\ beyond_probe ps1 = beyond_probe ps /\ fixed ps1 = fixed ps.
Proof.
  intros F S E [(sf0 & F0 & _ & _ & Sb) S7] Lc.
  assert (sf0 = sf) by congruence. subst sf0.
  unfold ps_put, fs_put, fs_topfile. rewrite F. simpl.
  rewrite char_of_int_of_char. eexists. split; [reflexivity|].
  split; [|split; reflexivity].
  split; [|constructor; assumption].
  exists (sf_put sf c). split; [simpl; rewrite F; reflexivity|].
  split; [rewrite settings_sf_put; exact S|]. split.
  - unfold incoming. rewrite eat_tail_sf_put, E. apply pending_sf_put.
  - rewrite buf_sf_put. apply Forall_app. split; [exact Sb|].
    constructor; [exact Lc|constructor].
Qed.

(** A byte read and put back. *)
Lemma ps_in_put_reading (ps : pstate) (cfg : stackfile) (rest : list stackfile)
    (c : byte) (r : list byte) :
  reading ps cfg rest (c :: r) ->
  exists ps1 ps2 : pstate,
    ps_in ps = (int_of_char c, ps1)
    /\ reading ps1 cfg rest r
    /\ beyond_probe ps1 = beyond_probe ps /\ fixed ps1 = fixed ps
    /\ ps_put ps1 (int_of_char c) = Ok ps2
    /\ reading ps2 cfg rest (c :: r)
    /\ beyond_probe ps2 = beyond_probe ps1 /\ fixed ps2 = fixed ps1.
Proof.
  intros R. pose proof R as [_ S7]. apply seven_bit_tail in S7 as [Lc _].
  destruct (ps_in_reading ps cfg rest c r R)
    as (ps1 & E1 & R1 & (sf1 & F1 & T1 & P1) & B1 & X1).
  pose proof R1 as [(sf1' & F1' & S1 & _) _].
  assert (sf1' = sf1) by congruence. subst sf1'.
  destruct (ps_put_reading ps1 cfg rest sf1 c F1 S1 T1) as (ps2 & E2 & R2 & B2 & X2);
    [rewrite P1; exact R1|exact Lc|].
  rewrite P1 in R2. exists ps1, ps2. repeat split; auto; apply R1 || apply R2.
Qed.

(** The probe on a file that has a byte to give, for a nonempty string. *)
Lemma ps_check_reading (ps : pstate) (cfg : stackfile) (rest : list stackfile)
    (stream m : list byte) (erase : bool) :
  reading ps cfg rest stream -> stream <> [] -> cstr m <> [] ->
  exists ps' : pstate,
    ps_check ps m erase = Ok (is_prefix (cstr m) stream, ps')
    /\ reading ps' cfg rest (if is_prefix (cstr m) stream && erase
                             then drop (length (cstr m)) stream else stream)
    /\ beyond_probe ps' = beyond_probe ps /\ fixed ps' = fixed ps.
Proof.
  intros [(sf & F & S & I & Sb) S7] Ns Nm.
  destruct (ps_check_spec ps sf rest m erase F Sb)
    as (ret & ps' & E & _ & _ & B & Fp & _ & H).
  rewrite I in H.
  assert (take (length (cstr m)) stream <> []) as Ni.
  { destruct stream; [contradiction|]. destruct (cstr m); [contradiction|]. discriminate. }
  destruct (H Ni) as (Q & sf' & F' & S' & E' & I' & Sb').
  assert (ret = is_prefix (cstr m) stream) as ->.
  { destruct (is_prefix (cstr m) stream) eqn:P.
    - apply Q. now apply is_prefix_take.
    - destruct ret; [|reflexivity]. destruct Q as [Q _].
      specialize (Q eq_refl). apply is_prefix_take in Q. congruence. }
  exists ps'. split; [exact E|]. split; [|split].
  - split.
    + exists sf'. repeat split; auto; try congruence.
      apply Sb'. now apply seven_bit_take.
    + destruct (is_prefix (cstr m) stream && erase); [now apply seven_bit_drop|exact S7].
  - exact B.
  - unfold fixed. unfold beyond_probe in B. inversion B. rewrite Fp. reflexivity.
Qed.

(** ** Bytes sent to the output (ps_out_str) *)

Lemma ps_out_bytes_spec (s : list byte) :
  forall (ps : pstate) (o : outfile) (outs : list outfile),
    output ps = o :: outs ->
    ps_out_bytes ps s = Ok (set_output ps (of_written o s :: outs)).
Proof.
  induction s as [|c r IH]; intros ps o outs O; simpl.
  - unfold of_written. destruct o as [f h l b]. simpl. destruct b;
      [|rewrite app_nil_r]; destruct ps; simpl in *; subst; reflexivity.
  - unfold ps_out. rewrite O. unfold of_written.
    destruct (of_blocked o) eqn:B; simpl.
    + rewrite (IH ps o outs O). unfold of_written. rewrite B. reflexivity.
    + erewrite IH by reflexivity. unfold of_written. simpl.
      rewrite char_of_int_of_gchar, (int_of_gchar_eqb c x0a low_x0a), <- app_assoc.
      reflexivity.
Qed.

(** ** Runs of tokens *)

Lemma reps_snoc (k : nat) (t : list byte) : reps k t ++ t = t ++ reps k t.
Proof.
  induction k as [|k IH]; simpl; [now rewrite app_nil_r|].
  now rewrite <- app_assoc, IH.
Qed.

(** ** The parser with its host *)

Section ParserProperties.

Variable mrb_state : Type.
Variable mrb_load_string : list byte -> mrb_state -> pstate -> host_result mrb_state.
Variable mrb_load_file : list byte -> mrb_state -> pstate -> host_result mrb_state.
Variable g_fopen_r : list byte -> option (list byte).
Variable stdin_bytes : list byte.
Variable stack_default : option stackfile.

Local Abbreviation dispatch :=
  (ps_dispatch mrb_state mrb_load_string mrb_load_file g_fopen_r stdin_bytes
               stack_default).
Local Abbreviation eval_cmd :=
  (ps_eval_cmd mrb_state mrb_load_string mrb_load_file g_fopen_r stdin_bytes
               stack_default).
Local Abbreviation hook_end_seq :=
  (ps_process_hook_end_seq mrb_state mrb_load_string mrb_load_file g_fopen_r
                           stdin_bytes stack_default).
Local Abbreviation escape :=
  (ps_process_escape mrb_state mrb_load_string mrb_load_file g_fopen_r
                     stdin_bytes stack_default).
Local Abbreviation iter :=
  (ps_process_iter mrb_state mrb_load_string mrb_load_file g_fopen_r
                   stdin_bytes stack_default).

(** *** The plus prefix (ps_get_macro, sf_get) *)

(** When the macro body starts with ['+'], [ps_get_macro] sets [eat_tail]
    on the top file and returns the body without that byte, and this is
    what [ps_eval_cmd] dispatches on; a file with [eat_tail] set whose
    put-back buffer holds bytes below 0x80 only then drops the first byte
    the next [sf_get] meets and returns the one after it, or answers EOF
    when there is no byte to drop or none after it; the flag is clear
    afterwards. *)
Lemma plus_prefix_eats_tail :
  (forall (m : mrb_state) (ps : pstate) (sf : stackfile) (rest : list stackfile)
          (body : list byte),
      file (fs ps) = sf :: rest ->
      macro_buf ps = "+"%byte :: body ->
      ps_get_macro ps = Ok (body, ps_set_top ps (set_eat_tail sf true))
      /\ eat_tail (set_eat_tail sf true) = true
      /\ pending (set_eat_tail sf true) = pending sf
      /\ eval_cmd m ps = dispatch m (ps_set_top ps (set_eat_tail sf true)) body)
  /\ (forall sf : stackfile,
        eat_tail sf = true -> seven_bit (buf sf) ->
        exists sf', eat_tail sf' = false /\
          match pending sf with
          | [] => sf_get sf = (EOF, sf') /\ pending sf' = []
          | [_] => sf_get sf = (EOF, sf') /\ pending sf' = []
          | _ :: c :: r => sf_get sf = (int_of_char c, sf') /\ pending sf' = r
          end).
Proof.
  split.
  - intros m ps sf rest body F B.
    assert (ps_get_macro ps = Ok (body, ps_set_top ps (set_eat_tail sf true))) as G.
    { unfold ps_get_macro. rewrite B. simpl.
      unfold ps_topfile, fs_topfile. rewrite F. reflexivity. }
    repeat split; auto.
    unfold ps_eval_cmd. rewrite G. reflexivity.
  - intros sf E Sb.
    destruct (sf_get_incoming sf Sb) as (sf' & E' & _ & _ & H).
    exists sf'. split; [exact E'|].
    unfold incoming in H. rewrite E in H.
    destruct (pending sf) as [|x [|c r]]; simpl in H; exact H.
Qed.

(** *** End of input inside a macro *)

Lemma ps_in_EOF (ps : pstate) :
  fst (ps_in ps) = EOF ->
  file (fs (snd (ps_in ps))) = [] /\ ps_current_file (snd (ps_in ps)) = None.
Proof.
  unfold ps_in, fs_get_one.
  destruct (fs_get_one_from_spec (file (fs ps))) as (k & _ & _ & M).
  destruct (fs_get_one_from (file (fs ps))) as [c files] eqn:E. simpl. intros ->.
  destruct (file (fs ps) !! k).
  - destruct M as [NE M]. inversion M. congruence.
  - inversion M. subst. unfold ps_current_file. simpl. auto.
Qed.

Lemma ps_in_frame (ps : pstate) :
  set_fs (snd (ps_in ps)) (fs ps) = ps.
Proof.
  unfold ps_in. destruct (fs_get_one (fs ps)). destruct ps. reflexivity.
Qed.

(** C8 (amended): when the input stack answers EOF while [in_macro > 0],
    either at the start of a turn of the loop or for the byte after an
    escape, the turn ends the process through [mucgly_error]: the severity
    word is "error", no place is printed (no file is left on the stack), the
    message is that of EOF within a macro, and the outputs are those of the
    moment the EOF was read. *)
Theorem eof_in_macro_exits (m : mrb_state) (ps : pstate) :
  in_macro ps > 0 -> fst (ps_in ps) = EOF ->
  iter m ps = Exit (user_info "error" None msg_eof_in_macro, snd (ps_in ps))
  /\ escape m ps = Exit (user_info "error" None msg_eof_in_macro, snd (ps_in ps))
  /\ output (snd (ps_in ps)) = output ps
  /\ reports "error" (iter m ps) /\ reports "error" (escape m ps).
Proof.
  intros M E. destruct (ps_in_EOF ps E) as [F C].
  pose proof (ps_in_frame ps) as Fr.
  assert (in_macro (snd (ps_in ps)) = in_macro ps) as IM by (rewrite <- Fr at 2; reflexivity).
  assert (output (snd (ps_in ps)) = output ps) as O by (rewrite <- Fr at 2; reflexivity).
  assert (iter m ps = Exit (user_info "error" None msg_eof_in_macro, snd (ps_in ps))) as I.
  { unfold ps_process_iter. destruct (ps_in ps) as [c ps1]. simpl in *. subst c.
    simpl. unfold ps_process_non_hook_seq. rewrite IM.
    destruct (Z.eqb_spec (in_macro ps) 0); [lia|]. simpl.
    unfold mucgly_error. rewrite C. reflexivity. }
  assert (escape m ps = Exit (user_info "error" None msg_eof_in_macro, snd (ps_in ps))) as X.
  { unfold ps_process_escape.
    destruct (Z.eqb_spec (in_macro ps) 0); [lia|]. simpl.
    destruct (ps_in ps) as [c ps1]. simpl in *. subst c. simpl.
    unfold mucgly_error. rewrite C. reflexivity. }
  repeat split; auto.
  - rewrite I. repeat eexists.
  - rewrite X. repeat eexists.
Qed.

(** *** The hook-end sequence (ps_process_hook_end_seq) *)

(** C2 (amended): the sequence decrements [in_macro].  Below zero it ends
    the process with a fatal error.  Above zero it sends the end hook of the
    current pair to the output and pops [curhook].  At zero it dispatches the
    macro (an exit there ends the process), clears the macro mark of the top
    file, pops its [curhook], and applies the deferred flags, clearing them:
    [post_push] makes the file parked behind the top pointer ([file->prev],
    the one [fs_push_file_delayed] inserted) the new top, the old top lying
    right under it; [post_pop] then pops the top file. *)
Theorem hook_end_sequence (m : mrb_state) (ps : pstate) :
  -2147483648 < in_macro ps <= 2147483647 ->
  let ps1 := set_in_macro ps (in_macro ps - 1) in
  (in_macro ps <= 0 ->
   forall (sf : stackfile) (rest : list stackfile),
     file (fs ps) = sf :: rest ->
     hook_end_seq m ps
     = Exit (user_info "fatal error" (place_of (Some sf)) msg_macro_status, ps1))
  /\ (1 < in_macro ps ->
      forall (sf : stackfile) (rest : list stackfile) (hp : hookpair)
             (hooks : list hookpair) (o : outfile) (outs : list outfile),
        file (fs ps) = sf :: rest -> curhook sf = hp :: hooks ->
        output ps = o :: outs ->
        hook_end_seq m ps
        = Ok (m,
              ps_set_top (set_output ps1 (of_written o (cstr (end_ hp)) :: outs))
                         (set_curhook sf hooks),
              false))
  /\ (in_macro ps = 1 ->
      (forall f : failure, eval_cmd m ps1 = Exit f -> hook_end_seq m ps = Exit f)
      /\ forall (m1 : mrb_state) (ps2 : pstate) (brk : bool) (sf2 : stackfile)
                (rest2 : list stackfile) (hp : hookpair) (hooks : list hookpair),
          eval_cmd m ps1 = Ok (m1, ps2, brk) ->
          file (fs ps2) = sf2 :: rest2 -> curhook sf2 = hp :: hooks ->
          let sf3 := set_curhook (sf_unmark_macro sf2) hooks in
          let ps3 := set_post ps2 false false in
          macro sf3 = false
          /\ hook_end_seq m ps =
             match post_push ps2, post_pop ps2 with
             | false, false =>
                 Ok (m1, set_fs ps3 {| file := sf3 :: rest2;
                                       file_prev := file_prev (fs ps2) |}, brk)
             | false, true =>
                 Ok (m1, set_fs ps3 {| file := rest2;
                                       file_prev := file_prev (fs ps2) |}, brk)
             | true, pop =>
                 match file_prev (fs ps2) with
                 | p :: above =>
                     Ok (m1, set_fs ps3 {| file := if pop then sf3 :: rest2
                                                   else p :: sf3 :: rest2;
                                           file_prev := above |}, brk)
                 | [] =>
                     if pop then Undef
                     else Ok (m1, set_fs ps3 {| file := []; file_prev := [] |}, brk)
                 end
             end).
Proof.
  intros R ps1. unfold ps_process_hook_end_seq.
  rewrite (int_decr_small (in_macro ps)) by lia. fold ps1.
  change (in_macro ps1) with (in_macro ps - 1).
  split; [|split].
  - intros N sf rest F.
    destruct (Z.ltb_spec (in_macro ps - 1) 0); [|lia].
    unfold ps_topfile, fs_topfile. simpl. rewrite F. reflexivity.
  - intros P sf rest hp hooks o outs F C O.
    destruct (Z.ltb_spec (in_macro ps - 1) 0); [lia|].
    destruct (Z.eqb_spec (in_macro ps - 1) 0); [lia|]. simpl.
    unfold ps_current_hookend, ps_current_hook, ps_topfile, fs_topfile. simpl.
    rewrite F. simpl. rewrite C. simpl.
    rewrite (ps_out_bytes_spec _ ps1 o outs O). simpl.
    unfold ps_pop_top_curhook, ps_topfile, fs_topfile. simpl. rewrite F. simpl.
    unfold ps_pop_curhook. rewrite C. reflexivity.
  - intros One.
    destruct (Z.ltb_spec (in_macro ps - 1) 0); [lia|].
    destruct (Z.eqb_spec (in_macro ps - 1) 0); [|lia]. simpl negb. cbv iota. split.
    + intros f ->. reflexivity.
    + intros m1 ps2 brk sf2 rest2 hp hooks E F C. rewrite E.
      split; [reflexivity|].
      destruct ps2 as [[fl0 fp] cb mb tb im su out fl pp po]. simpl in F. subst fl0.
      unfold ps_pop_top_curhook, ps_pop_curhook, ps_topfile, fs_topfile. simpl.
      rewrite C. simpl.
      destruct pp, po, fp; reflexivity.
Qed.
End ParserProperties.

(** ** Suspension inside a macro *)

Section SuspensionProtocol.

Variable mrb_state : Type.
Variable mrb_load_string : list byte -> mrb_state -> pstate -> host_result mrb_state.
Variable mrb_load_file : list byte -> mrb_state -> pstate -> host_result mrb_state.
Variable g_fopen_r : list byte -> option (list byte).
Variable stdin_bytes : list byte.
Variable stack_default : option stackfile.

Local Abbreviation hook_end_seq :=
  (ps_process_hook_end_seq mrb_state mrb_load_string mrb_load_file g_fopen_r
                           stdin_bytes stack_default).
Local Abbreviation iter :=
  (ps_process_iter mrb_state mrb_load_string mrb_load_file g_fopen_r
                   stdin_bytes stack_default).
Local Abbreviation loop :=
  (ps_process_loop mrb_state mrb_load_string mrb_load_file g_fopen_r
                   stdin_bytes stack_default).

(** A turn of the loop at a byte of the table, up to the escape probe, which
    does not match. *)
Lemma iter_head (ps : pstate) (cfg : stackfile) (rest : list stackfile)
    (c : byte) (r : list byte) :
  reading ps cfg rest (c :: r) -> tbl_hit cfg c ->
  cstr (hookesc cfg) <> [] -> is_prefix (cstr (hookesc cfg)) (c :: r) = false ->
  exists ps1 ps2 ps3 : pstate,
    ps_in ps = (int_of_char c, ps1)
    /\ ps_check_hook ps1 (int_of_char c) = Ok true
    /\ ps_put ps1 (int_of_char c) = Ok ps2
    /\ ps_check_hookesc ps2 = Ok (false, ps3)
    /\ reading ps3 cfg rest (c :: r)
    /\ beyond_probe ps3 = beyond_probe ps /\ fixed ps3 = fixed ps.
Proof.
  intros R H Ne Pe.
  destruct (ps_in_put_reading ps cfg rest c r R)
    as (ps1 & ps2 & E1 & R1 & B1 & X1 & E2 & R2 & B2 & X2).
  destruct (reading_top _ _ _ _ R2) as (sf2 & _ & _ & _ & Hf & Tp & _ & He & _).
  destruct (ps_check_reading ps2 cfg rest (c :: r) (hookesc cfg) true R2
              ltac:(discriminate) Ne) as (ps3 & E3 & R3 & B3 & X3).
  rewrite Pe in E3, R3. simpl in R3.
  exists ps1, ps2, ps3. repeat split; auto; try congruence.
  - eapply ps_check_hook_hit; [exact R1|exact H].
  - unfold ps_check_hookesc. rewrite Hf, Tp. simpl. rewrite He. exact E3.
Qed.

Lemma ps_current_hook_reading (ps : pstate) (cfg : stackfile) (rest : list stackfile)
    (stream : list byte) (hp : hookpair) (hooks : list hookpair) :
  reading ps cfg rest stream -> curhook cfg = hp :: hooks ->
  ps_current_hook ps = Ok hp.
Proof.
  intros R C.
  destruct (reading_top _ _ _ _ R) as (sf & _ & _ & _ & _ & Tp & Ch & _).
  unfold ps_current_hook. rewrite Tp. simpl. rewrite Ch, C. reflexivity.
Qed.

(** A turn of the loop inside a macro, at a suspension string. *)
Lemma iter_susp_token (m : mrb_state) (ps : pstate) (cfg : stackfile)
    (rest : list stackfile) (hp : hookpair) (hooks : list hookpair)
    (s tail : list byte) :
  reading ps cfg rest (s ++ tail) -> in_macro ps <> 0 ->
  curhook cfg = hp :: hooks -> susp hp = Some s ->
  cstr s = s -> s <> [] -> tbl_hit cfg (str0 s) ->
  cstr (hookesc cfg) <> [] -> is_prefix (cstr (hookesc cfg)) (s ++ tail) = false ->
  exists ps' : pstate,
    iter m ps = Ok (m, ps', false)
    /\ reading ps' cfg rest tail
    /\ macro_buf ps' = macro_buf ps ++ s
    /\ suspension ps' = int_incr (suspension ps)
    /\ fixed ps' = fixed ps.
Proof.
  intros R M C Su Cs Ns H Ne Pe.
  destruct s as [|c s']; [contradiction|]. simpl in R, Pe, H.
  destruct (iter_head ps cfg rest c (s' ++ tail) R H Ne Pe)
    as (ps1 & ps2 & ps3 & E1 & E2 & E3 & E4 & R3 & B3 & X3).
  unfold ps_process_iter. rewrite E1, E2. simpl. rewrite E3. simpl. rewrite E4. simpl.
  assert (in_macro ps3 = in_macro ps) as M3 by (inversion B3; reflexivity).
  rewrite M3. destruct (Z.eqb_spec (in_macro ps) 0); [contradiction|]. simpl.
  destruct (reading_top _ _ _ _ R3) as (sf3 & _ & _ & _ & Hf & _).
  unfold ps_check_hooksusp, ps_current_hooksusp. rewrite Hf. simpl.
  rewrite (ps_current_hook_reading ps3 cfg rest _ hp hooks R3 C). simpl. rewrite Su.
  destruct (ps_check_reading ps3 cfg rest (c :: s' ++ tail) (c :: s') true R3
              ltac:(discriminate) ltac:(rewrite Cs; discriminate))
    as (ps4 & E5 & R4 & B4 & X4).
  rewrite Cs in E5, R4.
  change (c :: s' ++ tail) with ((c :: s') ++ tail) in E5, R4.
  rewrite is_prefix_app in E5, R4. simpl andb in R4. cbv iota in R4.
  rewrite drop_app_length in R4.
  change ((c :: s') ++ tail) with (c :: s' ++ tail) in E5.
  rewrite E5. simpl.
  rewrite (ps_current_hook_reading ps4 cfg rest _ hp hooks R4 C). simpl. rewrite Su.
  eexists. split; [reflexivity|].
  inversion B3. inversion B4.
  split; [exact R4|]. split; [|split].
  - unfold ps_collect_str, set_macro_buf, set_bufs, set_suspension. cbn [macro_buf].
    rewrite Cs. congruence.
  - cbn. congruence.
  - rewrite <- X3, <- X4. reflexivity.
Qed.

(** A turn of the loop inside a macro, at the end hook: it is appended to
    the body while the suspension count is not zero, else it is consumed and
    the hook-end sequence runs. *)
Lemma iter_end_token (m : mrb_state) (ps : pstate) (cfg : stackfile)
    (rest : list stackfile) (hp : hookpair) (hooks : list hookpair)
    (e tail : list byte) :
  reading ps cfg rest (e ++ tail) -> in_macro ps <> 0 ->
  curhook cfg = hp :: hooks -> end_ hp = e ->
  cstr e = e -> e <> [] -> tbl_hit cfg (str0 e) ->
  cstr (hookesc cfg) <> [] -> is_prefix (cstr (hookesc cfg)) (e ++ tail) = false ->
  (forall s : list byte, susp hp = Some s ->
     cstr s <> [] /\ is_prefix (cstr s) (e ++ tail) = false) ->
  exists ps5 : pstate,
    reading ps5 cfg rest tail
    /\ beyond_probe ps5 = beyond_probe ps /\ fixed ps5 = fixed ps
    /\ iter m ps =
       if suspension ps =? 0 then hook_end_seq m ps5
       else Ok (m, ps_collect_str (set_suspension ps5 (int_decr (suspension ps))) e,
                false).
Proof.
  intros R M C En Ce Ne' H Ne Pe Ps.
  destruct e as [|c e']; [contradiction|]. simpl in R, Pe, H.
  destruct (iter_head ps cfg rest c (e' ++ tail) R H Ne Pe)
    as (ps1 & ps2 & ps3 & E1 & E2 & E3 & E4 & R3 & B3 & X3).
  unfold ps_process_iter. rewrite E1, E2. simpl. rewrite E3. simpl. rewrite E4. simpl.
  assert (in_macro ps3 = in_macro ps) as M3 by (inversion B3; reflexivity).
  rewrite M3. destruct (Z.eqb_spec (in_macro ps) 0); [contradiction|]. simpl.
  destruct (reading_top _ _ _ _ R3) as (sf3 & _ & _ & _ & Hf & _).
  assert (exists ps4 : pstate,
             ps_check_hooksusp ps3 = Ok (false, ps4)
             /\ reading ps4 cfg rest (c :: e' ++ tail)
             /\ beyond_probe ps4 = beyond_probe ps3 /\ fixed ps4 = fixed ps3)
    as (ps4 & E5 & R4 & B4 & X4).
  { unfold ps_check_hooksusp, ps_current_hooksusp. rewrite Hf. simpl.
    rewrite (ps_current_hook_reading ps3 cfg rest _ hp hooks R3 C). simpl.
    destruct (susp hp) as [s|] eqn:Su.
    - destruct (Ps s eq_refl) as [Ns Pf]. simpl in Pf.
      destruct (ps_check_reading ps3 cfg rest (c :: e' ++ tail) s true R3
                  ltac:(discriminate) Ns) as (ps4 & E5 & R4 & B4 & X4).
      rewrite Pf in E5, R4. simpl in R4. eauto.
    - exists ps3. auto. }
  rewrite E5. simpl.
  assert (in_macro ps4 = in_macro ps) as M4 by (inversion B4; congruence).
  rewrite M4. destruct (Z.eqb_spec (in_macro ps) 0); [contradiction|]. simpl.
  destruct (reading_top _ _ _ _ R4) as (sf4 & _ & _ & _ & Hf4 & _).
  unfold ps_check_hookend, ps_current_hookend. rewrite Hf4. simpl.
  rewrite (ps_current_hook_reading ps4 cfg rest _ hp hooks R4 C). simpl. rewrite En.
  destruct (ps_check_reading ps4 cfg rest (c :: e' ++ tail) (c :: e') true R4
              ltac:(discriminate) ltac:(rewrite Ce; discriminate))
    as (ps5 & E6 & R5 & B5 & X5).
  rewrite Ce in E6, R5.
  change (c :: e' ++ tail) with ((c :: e') ++ tail) in E6, R5.
  rewrite is_prefix_app in E6, R5. simpl andb in R5. cbv iota in R5.
  rewrite drop_app_length in R5.
  change ((c :: e') ++ tail) with (c :: e' ++ tail) in E6.
  rewrite E6. simpl.
  assert (suspension ps5 = suspension ps) as S5
    by (inversion B3; inversion B4; inversion B5; congruence).
  rewrite S5.
  exists ps5. split; [exact R5|]. split; [congruence|]. split; [congruence|].
  destruct (suspension ps =? 0); [reflexivity|].
  unfold ps_current_hook.
  destruct (reading_top _ _ _ _ R5) as (sf5 & F5 & _ & _ & _ & Tp5 & Ch5 & _).
  unfold ps_topfile, fs_topfile in *. simpl. rewrite F5. simpl.
  rewrite Ch5, C. simpl. rewrite En. reflexivity.
Qed.

Lemma loop_app (a b : nat) :
  forall (m m1 : mrb_state) (ps ps1 : pstate),
    loop a m ps = Ok (m1, ps1, false) -> loop (a + b) m ps = loop b m1 ps1.
Proof.
  induction a as [|a IH]; intros m m1 ps ps1 E; simpl in *.
  - inversion E. reflexivity.
  - destruct (iter m ps) as [[[m2 ps2] brk]| |]; simpl in *; try discriminate.
    destruct brk; [discriminate|]. now apply IH.
Qed.

Section Run.

Variable m : mrb_state.
Variables (cfg : stackfile) (rest : list stackfile).
Variables (hp : hookpair) (hooks : list hookpair) (s e : list byte).
Hypothesis cur : curhook cfg = hp :: hooks.
Hypothesis has_susp : susp hp = Some s.
Hypothesis has_end : end_ hp = e.
Hypothesis s_str : cstr s = s.
Hypothesis e_str : cstr e = e.
Hypothesis s_ne : s <> [].
Hypothesis e_ne : e <> [].
Hypothesis s_hit : tbl_hit cfg (str0 s).
Hypothesis e_hit : tbl_hit cfg (str0 e).
Hypothesis esc_ne : cstr (hookesc cfg) <> [].

Lemma fixed_in_macro (ps ps' : pstate) :
  fixed ps' = fixed ps -> in_macro ps' = in_macro ps.
Proof. intros H. inversion H. reflexivity. Qed.

(** [k] suspension strings in a row raise the count by [k]. *)
Lemma run_susp (k : nat) :
  forall (ps : pstate) (tail : list byte),
    reading ps cfg rest (reps k s ++ tail) -> in_macro ps <> 0 ->
    0 <= suspension ps -> suspension ps + Z.of_nat k <= 2147483647 ->
    (forall i : nat, (1 <= i <= k)%nat ->
       is_prefix (cstr (hookesc cfg)) (reps i s ++ tail) = false) ->
    exists ps' : pstate,
      loop k m ps = Ok (m, ps', false)
      /\ reading ps' cfg rest tail
      /\ macro_buf ps' = macro_buf ps ++ reps k s
      /\ suspension ps' = suspension ps + Z.of_nat k
      /\ fixed ps' = fixed ps.
Proof.
  induction k as [|k IH]; intros ps tail R M S0 S1 Cl.
  - exists ps. simpl. rewrite app_nil_r, Z.add_0_r. auto.
  - simpl in R. rewrite <- app_assoc in R.
    destruct (iter_susp_token m ps cfg rest hp hooks s (reps k s ++ tail)
                R M cur has_susp s_str s_ne s_hit esc_ne)
      as (ps1 & E1 & R1 & B1 & Su1 & X1).
    { specialize (Cl (S k) ltac:(lia)). simpl in Cl.
      now rewrite <- app_assoc in Cl. }
    rewrite int_incr_small in Su1 by lia.
    destruct (IH ps1 tail R1) as (ps' & E' & R' & B' & Su' & X').
    + rewrite (fixed_in_macro _ _ X1). exact M.
    + lia.
    + lia.
    + intros i Hi. apply Cl. lia.
    + exists ps'. simpl. rewrite E1. simpl. rewrite E'.
      repeat split; auto.
      * rewrite B', B1, <- app_assoc. reflexivity.
      * lia.
      * congruence.
Qed.

(** [k] end hooks in a row under a count of at least [k] lower it by [k]
    and go to the body. *)
Lemma run_end (k : nat) :
  forall (ps : pstate) (tail : list byte),
    reading ps cfg rest (reps k e ++ tail) -> in_macro ps <> 0 ->
    Z.of_nat k <= suspension ps <= 2147483647 ->
    (forall i : nat, (1 <= i <= k)%nat ->
       is_prefix (cstr (hookesc cfg)) (reps i e ++ tail) = false
       /\ is_prefix s (reps i e ++ tail) = false) ->
    exists ps' : pstate,
      loop k m ps = Ok (m, ps', false)
      /\ reading ps' cfg rest tail
      /\ macro_buf ps' = macro_buf ps ++ reps k e
      /\ suspension ps' = suspension ps - Z.of_nat k
      /\ fixed ps' = fixed ps.
Proof.
  induction k as [|k IH]; intros ps tail R M S0 Cl.
  - exists ps. simpl. rewrite app_nil_r, Z.sub_0_r. auto.
  - simpl in R. rewrite <- app_assoc in R.
    destruct (Cl (S k) ltac:(lia)) as [Ce Cs]. simpl in Ce, Cs.
    rewrite <- app_assoc in Ce, Cs.
    destruct (iter_end_token m ps cfg rest hp hooks e (reps k e ++ tail)
                R M cur has_end e_str e_ne e_hit esc_ne Ce)
      as (ps5 & R5 & B5 & X5 & E5).
    { intros s' Hs'. rewrite has_susp in Hs'. inversion Hs'. subst s'.
      rewrite s_str. auto. }
    destruct (Z.eqb_spec (suspension ps) 0) as [Z0|NZ]; [lia|].
    rewrite int_decr_small in E5 by lia.
    set (ps1 := ps_collect_str (set_suspension ps5 (suspension ps - 1)) e) in *.
    assert (reading ps1 cfg rest (reps k e ++ tail)) as R1 by exact R5.
    assert (fixed ps1 = fixed ps) as X1 by (rewrite <- X5; reflexivity).
    assert (macro_buf ps1 = macro_buf ps ++ e) as B1.
    { unfold ps1, ps_collect_str, set_macro_buf, set_bufs, set_suspension.
      cbn [macro_buf]. rewrite e_str. inversion B5. reflexivity. }
    assert (suspension ps1 = suspension ps - 1) as Su1 by reflexivity.
    destruct (IH ps1 tail R1) as (ps' & E' & R' & B' & Su' & X').
    + rewrite (fixed_in_macro _ _ X1). exact M.
    + lia.
    + intros i Hi. apply Cl. lia.
    + exists ps'. simpl. rewrite E5. simpl. rewrite E'.
      repeat split; auto.
      * rewrite B', B1, <- app_assoc. reflexivity.
      * lia.
      * congruence.
Qed.

End Run.

(** *** The suspension protocol *)

(** Inside a macro ([in_macro > 0]), on a file whose put-back buffer and
    text ahead hold bytes below 0x80 only, at a byte of the first-byte table
    where the escape does not match: (1) a match of the suspension string of
    the current hook pair raises [suspension] by one and appends the string
    to the macro body; (2) a match of its end hook (the suspension string not
    matching there) appends the end hook to the body and lowers [suspension]
    by one when [suspension] is not zero, and is consumed and followed by the
    hook-end sequence when it is zero; (3) hence from [suspension = 0] a run
    of [n] suspension strings and [n] end hooks takes [n + n] turns of the
    loop, leaves both in the body in order with [suspension] back at zero,
    and the turn at the next end hook is the hook-end sequence. *)
Lemma suspension_protocol :
  (forall (m : mrb_state) (ps : pstate) (cfg : stackfile) (rest : list stackfile)
          (hp : hookpair) (hooks : list hookpair) (s tail : list byte),
      reading ps cfg rest (s ++ tail) -> in_macro ps > 0 ->
      curhook cfg = hp :: hooks -> susp hp = Some s ->
      cstr s = s -> s <> [] -> tbl_hit cfg (str0 s) ->
      cstr (hookesc cfg) <> [] ->
      is_prefix (cstr (hookesc cfg)) (s ++ tail) = false ->
      exists ps' : pstate,
        iter m ps = Ok (m, ps', false)
        /\ reading ps' cfg rest tail
        /\ macro_buf ps' = macro_buf ps ++ s
        /\ suspension ps' = int_incr (suspension ps)
        /\ fixed ps' = fixed ps)
  /\ (forall (m : mrb_state) (ps : pstate) (cfg : stackfile) (rest : list stackfile)
             (hp : hookpair) (hooks : list hookpair) (e tail : list byte),
        reading ps cfg rest (e ++ tail) -> in_macro ps > 0 ->
        curhook cfg = hp :: hooks -> end_ hp = e ->
        cstr e = e -> e <> [] -> tbl_hit cfg (str0 e) ->
        cstr (hookesc cfg) <> [] ->
        is_prefix (cstr (hookesc cfg)) (e ++ tail) = false ->
        (forall s : list byte, susp hp = Some s ->
           cstr s <> [] /\ is_prefix (cstr s) (e ++ tail) = false) ->
        exists ps5 : pstate,
          reading ps5 cfg rest tail
          /\ beyond_probe ps5 = beyond_probe ps /\ fixed ps5 = fixed ps
          /\ (suspension ps = 0 -> iter m ps = hook_end_seq m ps5)
          /\ (suspension ps <> 0 ->
              iter m ps
              = Ok (m, set_macro_buf (set_suspension ps5 (int_decr (suspension ps)))
                                     (macro_buf ps ++ e), false)))
  /\ (forall (m : mrb_state) (ps : pstate) (sf : stackfile) (rest : list stackfile)
             (hp : hookpair) (hooks : list hookpair) (s e tail : list byte) (n : nat),
        file (fs ps) = sf :: rest -> in_macro ps > 0 -> suspension ps = 0 ->
        curhook sf = hp :: hooks -> susp hp = Some s -> end_ hp = e ->
        cstr s = s -> s <> [] -> cstr e = e -> e <> [] ->
        tbl_hit sf (str0 s) -> tbl_hit sf (str0 e) ->
        cstr (hookesc sf) <> [] ->
        clean_run (cstr (hookesc sf)) s e n tail ->
        Z.of_nat n <= 2147483647 ->
        incoming sf = reps n s ++ reps (S n) e ++ tail ->
        seven_bit (buf sf) -> seven_bit (incoming sf) ->
        exists ps' ps'' : pstate,
          loop (n + n) m ps = Ok (m, ps', false)
          /\ macro_buf ps' = macro_buf ps ++ reps n s ++ reps n e
          /\ suspension ps' = 0 /\ fixed ps' = fixed ps
          /\ reading ps' (settings sf) rest (e ++ tail)
          /\ iter m ps' = hook_end_seq m ps''
          /\ reading ps'' (settings sf) rest tail
          /\ beyond_probe ps'' = beyond_probe ps').
Proof.
  split; [|split].
  - intros m ps cfg rest hp hooks s tail R M C Su Cs Ns H Ne Pe.
    apply (iter_susp_token m ps cfg rest hp hooks s tail); auto. lia.
  - intros m ps cfg rest hp hooks e tail R M C En Ce Ne' H Ne Pe Ps.
    destruct (iter_end_token m ps cfg rest hp hooks e tail R ltac:(lia) C En Ce Ne' H
                Ne Pe Ps) as (ps5 & R5 & B5 & X5 & E5).
    exists ps5. repeat split; auto.
    + intros Z0. rewrite E5, Z0. reflexivity.
    + intros NZ. rewrite E5. destruct (Z.eqb_spec (suspension ps) 0); [contradiction|].
      unfold ps_collect_str. rewrite Ce. inversion B5. reflexivity.
  - intros m ps sf rest hp hooks s e tail n F M S0 C Su En Cs Ns Ce Ne' Hs He Ne
           [Cl1 Cl2] Bn I Sb S7.
    assert (reading ps (settings sf) rest (reps n s ++ reps (S n) e ++ tail)) as R
      by (split; [exists sf; auto|rewrite <- I; exact S7]).
    assert (in_macro ps <> 0) as M' by lia.
    destruct (run_susp m (settings sf) rest hp hooks s C Su Cs Ns Hs Ne n ps
                (reps (S n) e ++ tail) R M' ltac:(lia) ltac:(lia) Cl1)
      as (ps1 & E1 & R1 & B1 & Su1 & X1).
    change (reps (S n) e) with (e ++ reps n e) in R1.
    rewrite <- reps_snoc, <- app_assoc in R1.
    destruct (run_end m (settings sf) rest hp hooks s e C Su En Cs Ce Ns Ne' He Ne n ps1
                (e ++ tail) R1) as (ps2 & E2 & R2 & B2 & Su2 & X2).
    { rewrite (fixed_in_macro _ _ X1). exact M'. }
    { lia. }
    { intros i Hi. specialize (Cl2 (S i) ltac:(lia)).
      change (reps (S i) e) with (e ++ reps i e) in Cl2.
      rewrite <- reps_snoc, <- app_assoc in Cl2. exact Cl2. }
    destruct (iter_end_token m ps2 (settings sf) rest hp hooks e tail R2) as
      (ps3 & R3 & B3 & X3 & E3); auto.
    { rewrite (fixed_in_macro _ _ X2), (fixed_in_macro _ _ X1). exact M'. }
    { specialize (Cl2 1%nat ltac:(lia)). simpl in Cl2.
      rewrite app_nil_r in Cl2. apply Cl2. }
    { intros s' Hs'. rewrite Su in Hs'. inversion Hs'. subst s'. rewrite Cs.
      split; [exact Ns|]. specialize (Cl2 1%nat ltac:(lia)). simpl in Cl2.
      rewrite app_nil_r in Cl2. apply Cl2. }
    exists ps2, ps3.
    rewrite (loop_app n n m m ps ps1 E1).
    split; [exact E2|]. split; [|split; [lia|]].
    + rewrite B2, B1, <- app_assoc. reflexivity.
    + split; [congruence|]. split; [exact R2|].
      split; [|split; [exact R3|exact B3]].
      rewrite E3. replace (suspension ps2) with 0 by lia. reflexivity.
Qed.

End SuspensionProtocol.

(** * Concrete runs *)

(** C3 does not hold of the code: the read of the put-back buffer
    ([sf_get], [ret = sf->buf->str[ pos ]]) takes a byte 0xff for [EOF], so
    an end hook that holds this byte is never matched once a longer or an
    earlier probe has pushed it back.  The file ["in"] has the multi-hook
    [<] ... [)] 0xff with the suspension string [((], and holds [<a((],
    the end hook twice and [Z].  After the three turns over [<a((] the
    suspension count is 1 and the end hook is ahead; the probe for [((]
    reads it and pushes it back, the probe for the end hook then gets [)]
    and the end of the file, and the turn puts [)] alone into the macro
    body with the count still 1.  The run ends with the error for EOF
    within the macro, the body holding [a(())Z].  The same run with [~] for
    the byte 0xff lowers the count to 0 at the first end hook, which goes
    to the body as it is, and leaves the macro at the second. *)
Theorem suspension_end_hook_with_xff_is_missed :
  demo_loop 3 (ps_susp end_xff) = Ok (tt, ps_susp_xff_3, false)
  /\ in_macro ps_susp_xff_3 = 1 /\ suspension ps_susp_xff_3 = 1
  /\ macro_buf ps_susp_xff_3 = bs "a(("
  /\ fs_stream (file (fs ps_susp_xff_3)) = end_xff ++ end_xff ++ bs "Z"
  /\ (exists ps4 : pstate,
        demo_iter ps_susp_xff_3 = Ok (tt, ps4, false)
        /\ suspension ps4 = 1 /\ in_macro ps4 = 1
        /\ macro_buf ps4 = bs "a(()"
        /\ fs_stream (file (fs ps4)) = end_xff ++ bs "Z")
  /\ (exists ps7 : pstate,
        demo_loop 7 (ps_susp end_xff)
        = Exit (user_info "error" None msg_eof_in_macro, ps7)
        /\ suspension ps7 = 1 /\ in_macro ps7 = 1
        /\ macro_buf ps7 = bs "a(())Z")
  /\ (exists ps4 ps5 : pstate,
        demo_loop 3 (ps_susp end_tilde) = Ok (tt, ps_susp_tilde_3, false)
        /\ suspension ps_susp_tilde_3 = 1
        /\ demo_iter ps_susp_tilde_3 = Ok (tt, ps4, false)
        /\ suspension ps4 = 0 /\ in_macro ps4 = 1
        /\ macro_buf ps4 = bs "a((" ++ end_tilde
        /\ demo_iter ps4 = Ok (tt, ps5, false)
        /\ in_macro ps5 = 0
        /\ fs_stream (file (fs ps5)) = bs "Z").
Proof.
  split; [vm_compute; reflexivity|].
  split; [reflexivity|]. split; [reflexivity|]. split; [reflexivity|].
  split; [vm_compute; reflexivity|].
  split; [eexists; split; [vm_compute; reflexivity|]; repeat split|].
  split; [eexists; split; [vm_compute; reflexivity|]; repeat split|].
  eexists. eexists.
  split; [vm_compute; reflexivity|]. split; [reflexivity|].
  split; [vm_compute; reflexivity|]. split; [reflexivity|]. split; [reflexivity|].
  split; [reflexivity|].
  split; [vm_compute; reflexivity|]. split; reflexivity.
Qed.

(** C7 does not hold of the code: the read of the put-back buffer
    ([sf_get], [ret = sf->buf->str[ pos ]]) takes a byte 0xff for [EOF].
    The file ["in"] makes [!!!] its escape and holds the macro [-<+/x>-],
    the byte 0xff and [Y].  At the end hook the probe for the escape reads
    three bytes and pushes them back, so that the byte 0xff is in the
    put-back buffer when the macro is over; [eat_tail] is set then, and the
    file has 0xff and [Y] to deliver.  The next [sf_get] answers [EOF] with
    [Y] still in the file: the turn that follows pops the file and leaves
    the loop, and [Y] is never written.  With [~] in the place of the byte
    0xff the run drops [~] and writes [Y]. *)
Theorem plus_prefix_loses_the_file_at_xff :
  demo_loop 19 ps_plus_xff = Ok (tt, ps_plus_xff_19, false)
  /\ file (fs ps_plus_xff_19) = [sf_plus_xff_19]
  /\ eat_tail sf_plus_xff_19 = true
  /\ pending sf_plus_xff_19 = xff :: bs "Y"
  /\ (exists sf' : stackfile,
        sf_get sf_plus_xff_19 = (EOF, sf')
        /\ eat_tail sf' = false /\ pending sf' = bs "Y")
  /\ (exists ps' : pstate,
        demo_loop 20 ps_plus_xff = Ok (tt, ps', true)
        /\ file (fs ps') = [] /\ map of_fh (output ps') = [[]])
  /\ written (demo_loop 22 ps_plus_tilde) = [bs "Y"].
Proof.
  split; [vm_compute; reflexivity|].
  split; [reflexivity|]. split; [reflexivity|]. split; [reflexivity|].
  split; [eexists; split; [vm_compute; reflexivity|]; split; reflexivity|].
  split; [eexists; split; [vm_compute; reflexivity|]; split; reflexivity|].
  vm_compute. reflexivity.
Qed.

(** C8, as stated, fails: the run of [-<abc] ends at the EOF inside the macro
    with the severity word "error" of [mucgly_error], not "fatal error". *)
Lemma eof_in_macro_is_not_reported_fatal :
  demo_loop 5 (ps_on [sf_default (bs "in") (bs "-<abc")])
  = Exit (user_info "error" None msg_eof_in_macro, set_fs ps_unclosed fs_new)
  /\ ~ reports "fatal error"
       (demo_loop 5 (ps_on [sf_default (bs "in") (bs "-<abc")])).
Proof.
  assert (demo_loop 5 (ps_on [sf_default (bs "in") (bs "-<abc")])
          = Exit (user_info "error" None msg_eof_in_macro, set_fs ps_unclosed fs_new))
    as E by (vm_compute; reflexivity).
  split; [exact E|].
  rewrite E. intros (place & msg & ps & H). inversion H.
Qed.

Lemma eof_in_macro_exits_witness :
  in_macro ps_unclosed > 0
  /\ demo_iter ps_unclosed
     = Exit (user_info "error" None msg_eof_in_macro, snd (ps_in ps_unclosed))
  /\ output (snd (ps_in ps_unclosed)) = output ps_unclosed.
Proof.
  assert (in_macro ps_unclosed > 0) as M by reflexivity.
  split; [exact M|].
  destruct (eof_in_macro_exits unit no_script no_script one_file [] None tt
              ps_unclosed M ltac:(vm_compute; reflexivity)) as (I & _ & O & _).
  split; [exact I | exact O].
Defined.

Example include_turn :
  demo_loop 14 (ps_on [sf_default (bs "in") (bs "-<:include inc>-T");
                       sf_default (bs "base") (bs "B")])
  = demo_hook_end_seq ps_include_end.
Proof. vm_compute. reflexivity. Qed.

(** C2, as stated, fails: at the end of [-<:include inc>-] in the file ["in"]
    lying on ["base"], the sequence leaves ["inc"] on top, above ["in"] and
    ["base"]; the source that lay just below the top, ["base"], stays where
    it was. *)
Lemma post_push_top_is_not_the_source_below :
  map filename (file (fs ps_include_end)) = [bs "in"; bs "base"]
  /\ demo_hook_end_seq ps_include_end = Ok (tt, ps_included, false)
  /\ map filename (file (fs ps_included)) = [bs "inc"; bs "in"; bs "base"]
  /\ ~ top_is_source_below ps_include_end (demo_hook_end_seq ps_include_end).
Proof.
  assert (demo_hook_end_seq ps_include_end = Ok (tt, ps_included, false)) as E
    by (vm_compute; reflexivity).
  split; [reflexivity|]. split; [exact E|]. split; [reflexivity|].
  rewrite E. intros (ps' & brk & H & T). inversion H. subst ps' brk.
  discriminate T.
Qed.

Lemma hook_end_sequence_witness :
  exists ps2 : pstate,
    ps_eval_cmd unit no_script no_script one_file [] None tt
      (set_in_macro ps_include_end (in_macro ps_include_end - 1))
    = Ok (tt, ps2, false)
    /\ post_push ps2 = true /\ post_pop ps2 = false
    /\ map filename (file_prev (fs ps2)) = [bs "inc"]
    /\ demo_hook_end_seq ps_include_end = Ok (tt, ps_included, false)
    /\ map filename (file (fs ps_included)) = [bs "inc"; bs "in"; bs "base"].
Proof.
  destruct (hook_end_sequence unit no_script no_script one_file [] None tt
              ps_include_end ltac:(split; [reflexivity | discriminate]))
    as (_ & _ & H).
  destruct (H eq_refl) as [_ H2].
  eexists. split; [vm_compute; reflexivity|].
  split; [reflexivity|]. split; [reflexivity|]. split; [reflexivity|].
  split; [|reflexivity].
  edestruct H2 as [_ E]; [vm_compute; reflexivity | reflexivity | reflexivity |].
  unfold demo_hook_end_seq. rewrite E. vm_compute. reflexivity.
Defined.

Lemma clean_run_parens : clean_run (bs "\") (bs "(") (bs ")") 2 (bs "Z").
Proof.
  split.
  - intros k Hk. assert (k = 1 \/ k = 2)%nat as [-> | ->] by lia; reflexivity.
  - intros j Hj. assert (j = 1 \/ j = 2 \/ j = 3)%nat as [-> | [-> | ->]] by lia;
      split; reflexivity.
Qed.

Lemma suspension_protocol_witness :
  exists ps' ps'' : pstate,
    demo_loop 4 ps_parens = Ok (tt, ps', false)
    /\ macro_buf ps' = bs "a(())"
    /\ suspension ps' = 0
    /\ demo_iter ps' = demo_hook_end_seq ps''
    /\ reading ps'' (settings sf_parens_top) [] (bs "Z").
Proof.
  destruct (suspension_protocol unit no_script no_script one_file [] None)
    as (_ & _ & H).
  destruct (H tt ps_parens sf_parens_top [] parens_pair [] (bs "(") (bs ")") (bs "Z")
              2%nat)
    as (ps' & ps'' & L & B & S & _ & _ & I & R & _).
  - reflexivity.
  - reflexivity.
  - reflexivity.
  - reflexivity.
  - reflexivity.
  - reflexivity.
  - reflexivity.
  - discriminate.
  - reflexivity.
  - discriminate.
  - exists 1. split; [reflexivity | discriminate].
  - exists 1. split; [reflexivity | discriminate].
  - discriminate.
  - exact clean_run_parens.
  - discriminate.
  - reflexivity.
  - constructor.
  - repeat constructor.
  - exists ps', ps''. repeat split; try assumption; apply R.
Defined.

(** ** The scenarios of the specification *)

(** Escapes pass the delimiters through. *)
Example scenario_escapes :
  written (demo_loop 20 (ps_on [sf_default (bs "in") (bs "A\-<B\>-C")]))
  = [bs "A-<B>-C"].
Proof. vm_compute. reflexivity. Qed.

(** Output is dropped between [:block] and [:unblock]. *)
Example scenario_block :
  written (demo_loop 40 (ps_on [sf_default (bs "in")
                                  (bs "-<:block>-HIDDEN-<:unblock>-SHOWN")]))
  = [bs "SHOWN"].
Proof. vm_compute. reflexivity. Qed.

(** The plus prefix eats the space after the macro. *)
Example scenario_plus :
  written (demo_loop 20 (ps_on [sf_default (bs "in") (bs "-<+/ x>- Y")]))
  = [bs "Y"].
Proof. vm_compute. reflexivity. Qed.

(** Deferred evaluation strips one [#]. *)
Example scenario_deferred :
  written (demo_loop 20 (ps_on [sf_default (bs "in") (bs "-<#still>-")]))
  = [bs "-<still>-"].
Proof. vm_compute. reflexivity. Qed.

(** An included file is read before the rest of the including one. *)
Example scenario_include :
  written (demo_loop 40 (ps_on [sf_default (bs "in") (bs "-<:include inc>-T");
                                sf_default (bs "base") (bs "B")]))
  = [bs "includedTB"].
Proof. vm_compute. reflexivity. Qed.

(** * More of the input stack *)

(** ** Keywords (len_str_cmp) *)

Lemma is_prefix_app_iff (d st : list byte) :
  is_prefix d st = true <-> exists rest : list byte, st = d ++ rest.
Proof.
  split.
  - intros H. apply is_prefix_take in H. exists (drop (length d) st).
    rewrite <- H at 1. symmetry. apply take_drop.
  - intros [rest ->]. apply is_prefix_app.
Qed.

(** X1: [len_str_cmp( str1, str2 )] is not zero exactly when [str1] is not
    empty and [str2] starts with it, and then it is the length of [str1]; it
    is never negative.  An empty [str1] gives 0 although every string starts
    with it. *)
Theorem len_str_cmp_spec (str1 str2 : list byte) :
  (len_str_cmp str1 str2 <> 0 <->
     cstr str1 <> [] /\ exists rest : list byte, cstr str2 = cstr str1 ++ rest)
  /\ (len_str_cmp str1 str2 <> 0 -> len_str_cmp str1 str2 = strlen str1)
  /\ 0 <= len_str_cmp str1 str2.
Proof.
  unfold len_str_cmp, strlen.
  destruct (is_prefix (cstr str1) (cstr str2)) eqn:P.
  - apply is_prefix_app_iff in P. split; [|split; [reflexivity|lia]].
    split.
    + intros H. split; [|exact P]. intros E. rewrite E in H. simpl in H. lia.
    + intros [H _]. destruct (cstr str1); [contradiction|]. simpl. lia.
  - split; [|split; [lia|lia]]. split; [lia|].
    intros [_ H]. apply is_prefix_app_iff in H. congruence.
Qed.

(** ** The file point (sf_get through fs_get_n) *)

Lemma newlines_nonneg (s : list byte) : 0 <= newlines s.
Proof. induction s as [|b r IH]; simpl; [lia|]. destruct (Byte.eqb b x0a); lia. Qed.

Lemma newlines_le (s : list byte) : newlines s <= Z.of_nat (length s).
Proof. induction s as [|b r IH]; simpl length; simpl newlines; [lia|]. destruct (Byte.eqb b x0a); lia. Qed.

Lemma last_line_le (s : list byte) : (length (last_line s) <= length s)%nat.
Proof.
  induction s as [|b r IH]; simpl; [lia|].
  destruct (Byte.eqb b x0a); [lia|]. destruct (newlines r =? 0); simpl; lia.
Qed.

(** One byte read by [sf_get] with [eat_tail] clear: the file point. *)
Lemma sf_get_point (sf : stackfile) (c : byte) (r : list byte) :
  eat_tail sf = false -> pending sf = c :: r -> seven_bit (buf sf) ->
  exists sf' : stackfile,
    sf_get sf = (int_of_char c, sf') /\ pending sf' = r /\ eat_tail sf' = false
    /\ settings sf' = settings sf
    /\ lineno sf' = (if Byte.eqb c x0a then int_incr (lineno sf) else lineno sf)
    /\ column sf' = (if Byte.eqb c x0a then 0 else int_incr (column sf))
    /\ old_column sf' = (if Byte.eqb c x0a then column sf else old_column sf)
    /\ seven_bit (buf sf').
Proof.
  intros E P Sb. unfold sf_get. unfold pending in P.
  destruct (rev (buf sf)) as [|b rb] eqn:B.
  - apply (f_equal (@rev byte)) in B. rewrite rev_involutive in B. simpl in B, P.
    destruct (sf_read_file sf c r B P)
      as (sf' & G & B' & H' & E' & S' & Ln & Cn & On).
    rewrite G. cbn [fst snd]. rewrite E', E. exists sf'.
    unfold pending. rewrite B', H'. repeat split; auto; congruence.
  - apply (f_equal (@rev byte)) in B. rewrite rev_involutive in B. simpl in B, P.
    inversion P. subst b r. rewrite B in Sb.
    apply Forall_app in Sb as [Sb1 Sb2]. apply Forall_cons_1 in Sb2 as [Lc _].
    destruct (sf_read_buffered sf (rev rb) c B)
      as (sf' & G & B' & H' & E' & S' & Ln & Cn & On).
    { intros ->. vm_compute in Lc. discriminate. }
    rewrite G, (int_of_gchar_low c Lc). cbn [fst snd]. rewrite E', E. exists sf'.
    unfold pending. rewrite B', H', rev_involutive. repeat split; auto; congruence.
Qed.

Lemma fs_get_n_loop_point (n : nat) :
  forall (fs : filestack) (sf : stackfile) (rest : list stackfile) (acc : list byte),
    file fs = sf :: rest -> eat_tail sf = false -> seven_bit (buf sf) ->
    (n <= length (pending sf))%nat ->
    0 <= lineno sf -> 0 <= column sf ->
    lineno sf + Z.of_nat n <= 2147483647 -> column sf + Z.of_nat n <= 2147483647 ->
    exists sf' : stackfile,
      fs_get_n_loop n fs acc = (acc ++ take n (pending sf), fs_set_top fs sf')
      /\ pending sf' = drop n (pending sf) /\ eat_tail sf' = false
      /\ settings sf' = settings sf
      /\ lineno sf' = lineno sf + newlines (take n (pending sf))
      /\ column sf' = (if newlines (take n (pending sf)) =? 0
                       then column sf + Z.of_nat n
                       else Z.of_nat (length (last_line (take n (pending sf))))).
Proof.
  induction n as [|n IH]; intros fs sf rest acc F E Sb Hn L0 C0 L1 C1.
  - exists sf. simpl. rewrite app_nil_r, (fs_set_top_same fs sf rest F), Z.add_0_r.
    rewrite !Z.add_0_r. auto 10.
  - destruct (pending sf) as [|c r] eqn:P; [simpl in Hn; lia|].
    destruct (sf_get_point sf c r E P Sb) as (sf1 & G & P1 & E1 & S1 & Ln & Cn & _ & Sb1).
    simpl fs_get_n_loop. unfold fs_get. rewrite F, G. rewrite int_of_char_not_EOF.
    simpl negb. cbv iota. rewrite char_of_int_of_char.
    assert (F1 : file (fs_set_top fs sf1) = sf1 :: rest) by (simpl; now rewrite F).
    assert (0 <= lineno sf1 /\ 0 <= column sf1
            /\ lineno sf1 + Z.of_nat n <= 2147483647
            /\ column sf1 + Z.of_nat n <= 2147483647
            /\ lineno sf1 = lineno sf + (if Byte.eqb c x0a then 1 else 0)
            /\ column sf1 = if Byte.eqb c x0a then 0 else column sf + 1) as (A1 & A2 & A3 & A4 & A5 & A6).
    { rewrite Ln, Cn. destruct (Byte.eqb c x0a).
      - rewrite int_incr_small by lia. lia.
      - rewrite int_incr_small by lia. lia. }
    destruct (IH (fs_set_top fs sf1) sf1 rest (acc ++ [c]) F1 E1 Sb1)
      as (sf' & G' & P' & E' & S' & Ln' & Cn');
      try assumption.
    { rewrite P1. simpl in Hn. lia. }
    rewrite P1 in G', P', Ln', Cn'.
    exists sf'. rewrite G', fs_set_top_twice, <- app_assoc. simpl.
    split; [reflexivity|]. split; [exact P'|]. split; [exact E'|].
    split; [congruence|].
    pose proof (newlines_nonneg (take n r)) as Nn.
    split.
    + rewrite Ln', A5. lia.
    + rewrite Cn', A6. cbn [take newlines last_line]. rewrite Nat2Z.inj_succ.
      destruct (Byte.eqb c x0a) eqn:N.
      * destruct (Z.eqb_spec (1 + newlines (take n r)) 0); [lia|].
        destruct (Z.eqb_spec (newlines (take n r)) 0) as [Z0|NZ]; [|reflexivity].
        assert (last_line (take n r) = take n r) as ->.
        { clear - Z0. induction (take n r) as [|b t IHt]; [reflexivity|].
          cbn [newlines last_line] in *. pose proof (newlines_nonneg t).
          destruct (Byte.eqb b x0a); [lia|].
          destruct (Z.eqb_spec (newlines t) 0); [reflexivity|lia]. }
        rewrite length_take. simpl in Hn. lia.
      * rewrite Z.add_0_l.
        destruct (Z.eqb_spec (newlines (take n r)) 0) as [Z0|NZ]; [lia|reflexivity].
Qed.

(** X2: reading [n] bytes a file still holds, [eat_tail] clear and only
    bytes below 0x80 in its put-back buffer, moves the file point as the
    text read tells: the line number grows by the number of newlines read,
    and the column is the number of bytes read behind the last of them, or
    grows by [n] when there was none (line, column and [n] within the
    positive range of a C int). *)
Theorem fs_get_n_file_point (fs : filestack) (sf : stackfile)
    (rest : list stackfile) (n : nat) :
  file fs = sf :: rest -> eat_tail sf = false -> seven_bit (buf sf) ->
  (n <= length (pending sf))%nat ->
  0 <= lineno sf -> 0 <= column sf ->
  lineno sf + Z.of_nat n <= 2147483647 -> column sf + Z.of_nat n <= 2147483647 ->
  let s := take n (pending sf) in
  exists sf' : stackfile,
    fs_get_n fs (Z.of_nat n) = (s, fs_set_top fs sf')
    /\ pending sf' = drop n (pending sf)
    /\ lineno sf' = lineno sf + newlines s
    /\ column sf' = (if newlines s =? 0 then column sf + Z.of_nat n
                     else Z.of_nat (length (last_line s))).
Proof.
  intros F E Sb Hn L0 C0 L1 C1 s.
  destruct (fs_get_n_loop_point n fs sf rest [] F E Sb Hn L0 C0 L1 C1)
    as (sf' & G & P & _ & _ & Ln & Cn).
  exists sf'. unfold fs_get_n. rewrite Nat2Z.id. auto.
Qed.

(** ** Reading stays in the top file (fs_get, fs_get_n) *)

(** X3: [fs_get_n] reads from the top file alone: when the put-back buffer
    of that file holds bytes below 0x80 only, it returns the first [n]
    bytes the file will deliver, or all of them when it ends before, never
    pops it and leaves the files below as they are; for [n <= 0] the top
    file is untouched, and on an empty stack nothing is read. *)
Theorem fs_get_n_stays_in_top_file (fs : filestack) (n : Z) :
  match file fs with
  | [] => fs_get_n fs n = ([], fs)
  | sf :: rest =>
      seven_bit (buf sf) ->
      exists sf' : stackfile,
        fs_get_n fs n = (take (Z.to_nat n) (incoming sf),
                         {| file := sf' :: rest; file_prev := file_prev fs |})
        /\ incoming sf' = drop (Z.to_nat n) (incoming sf)
        /\ settings sf' = settings sf
        /\ (n <= 0 -> sf' = sf)
  end.
Proof.
  destruct (file fs) as [|sf rest] eqn:F.
  - unfold fs_get_n. destruct (Z.to_nat n) as [|k]; simpl; [reflexivity|].
    unfold fs_get. rewrite F. reflexivity.
  - intros Sb.
    destruct (fs_get_n_loop_spec (Z.to_nat n) fs sf rest [] F Sb) as (sf' & G & I & S & Z0 & _).
    exists sf'. unfold fs_get_n. rewrite G. unfold fs_set_top. rewrite F. simpl.
    repeat split; auto. intros Hn. apply Z0. lia.
Qed.

(** ** Reading through the stack (fs_get_one, ps_in) *)

Lemma fs_get_one_from_stream (files : list stackfile) :
  Forall (fun sf => seven_bit (buf sf)) files ->
  match fs_stream files with
  | [] => fs_get_one_from files = (EOF, [])
  | c :: r =>
      exists (k : nat) (sf sf' : stackfile),
        files !! k = Some sf
        /\ fs_get_one_from files = (int_of_char c, sf' :: drop (S k) files)
        /\ settings sf' = settings sf
        /\ fs_stream (sf' :: drop (S k) files) = r
  end.
Proof.
  induction files as [|sf rest IH]; [reflexivity|].
  intros Sa. apply Forall_cons_1 in Sa as [Sb Sr]. specialize (IH Sr).
  unfold fs_stream in *. simpl.
  destruct (sf_get_incoming sf Sb) as (sf' & E & St & _ & H).
  destruct (incoming sf) as [|c r] eqn:I.
  - destruct H as [G _]. rewrite G. simpl.
    destruct (flat_map incoming rest) as [|c r]; [exact IH|].
    destruct IH as (k & sf0 & sf0' & L & G0 & S0 & R0).
    exists (S k), sf0, sf0'. auto.
  - destruct H as [G P]. simpl. rewrite G, int_of_char_not_EOF.
    exists 0%nat, sf, sf'. simpl. rewrite drop_0.
    repeat split; auto. unfold incoming at 1. now rewrite E, P.
Qed.

(** X4: when the put-back buffers of the stacked files hold bytes below
    0x80 only, [ps_in] delivers the bytes of the files in order, the top
    file first: it returns the first byte of what the files together still
    deliver and leaves the rest to come, popping the files that were at
    their end above the one that gave the byte; it returns EOF, with the
    stack empty, exactly when no file has a byte left.  An [eat_tail] flag
    costs a byte of its own file only. *)
Theorem ps_in_reads_the_stack_in_order (ps : pstate) :
  Forall (fun sf => seven_bit (buf sf)) (file (fs ps)) ->
  match fs_stream (file (fs ps)) with
  | [] => ps_in ps = (EOF, set_fs ps {| file := []; file_prev := file_prev (fs ps) |})
  | c :: r =>
      exists (k : nat) (sf sf' : stackfile),
        file (fs ps) !! k = Some sf
        /\ ps_in ps = (int_of_char c,
                       set_fs ps {| file := sf' :: drop (S k) (file (fs ps));
                                    file_prev := file_prev (fs ps) |})
        /\ settings sf' = settings sf
        /\ fs_stream (sf' :: drop (S k) (file (fs ps))) = r
  end.
Proof.
  intros Sa. pose proof (fs_get_one_from_stream (file (fs ps)) Sa) as H.
  unfold ps_in, fs_get_one.
  destruct (fs_stream (file (fs ps))) as [|c r].
  - now rewrite H.
  - destruct H as (k & sf & sf' & L & G & S & R).
    exists k, sf, sf'. rewrite G. auto.
Qed.

Lemma fs_get_n_stays_in_top_file_witness :
  exists sf' : stackfile,
    fs_get_n {| file := [sf_two_lines]; file_prev := [] |} 2
    = ("a"%byte :: [x0a], {| file := [sf']; file_prev := [] |})
    /\ incoming sf' = bs "bc".
Proof.
  destruct (fs_get_n_stays_in_top_file {| file := [sf_two_lines]; file_prev := [] |} 2
              ltac:(constructor)) as (sf' & G & I & _).
  exists sf'. split; [exact G|exact I].
Defined.

Lemma ps_in_reads_the_stack_in_order_witness :
  let ps := ps_on [sf_default (bs "in") []; sf_default (bs "base") (bs "B")] in
  exists (k : nat) (sf sf' : stackfile),
    file (fs ps) !! k = Some sf
    /\ ps_in ps = (int_of_char "B"%byte,
                   set_fs ps {| file := sf' :: drop (S k) (file (fs ps));
                                file_prev := file_prev (fs ps) |})
    /\ settings sf' = settings sf
    /\ fs_stream (sf' :: drop (S k) (file (fs ps))) = [].
Proof.
  intros ps.
  assert (Forall (fun sf => seven_bit (buf sf)) (file (fs ps))) as Sa
    by (repeat constructor).
  exact (ps_in_reads_the_stack_in_order ps Sa).
Defined.

Lemma fs_get_n_file_point_witness :
  exists sf' : stackfile,
    fs_get_n {| file := [sf_two_lines]; file_prev := [] |} 3
    = ("a"%byte :: x0a :: bs "b",
       fs_set_top {| file := [sf_two_lines]; file_prev := [] |} sf')
    /\ lineno sf' = 1 /\ column sf' = 1.
Proof.
  assert (3 <= length (pending sf_two_lines))%nat as Hn by (vm_compute; lia).
  assert (0 <= lineno sf_two_lines) as L0 by (vm_compute; discriminate).
  assert (0 <= column sf_two_lines) as C0 by (vm_compute; discriminate).
  assert (lineno sf_two_lines + Z.of_nat 3 <= 2147483647) as L1
    by (vm_compute; discriminate).
  assert (column sf_two_lines + Z.of_nat 3 <= 2147483647) as C1
    by (vm_compute; discriminate).
  pose proof (fs_get_n_file_point {| file := [sf_two_lines]; file_prev := [] |}
                sf_two_lines [] 3 eq_refl eq_refl ltac:(constructor) Hn L0 C0 L1 C1)
    as H.
  cbv zeta in H. destruct H as (sf' & G & _ & L & C).
  exists sf'. split; [exact G|]. split; [exact L|exact C].
Defined.

(** * More of the hook configuration *)

(** ** The multi-hook array (sf_multi_hook) *)

Lemma sf_multi_hook_stores (sf : stackfile) (b e : list byte) (s : option (list byte)) :
  multi_ok sf -> low_pair (pair_of b e s) -> low_first (hookesc sf) ->
  g_strcmp0_eq (hookesc sf) b || g_strcmp0_eq (hookesc sf) e = false ->
  (multi_is_null (multi sf) = false -> multi_cnt sf < MULTI_LIMIT - 1) ->
  exists sf' : stackfile,
    sf_multi_hook sf b e s = Ok sf'
    /\ multi_ok sf' /\ multi_is_null (multi sf') = false
    /\ multi_pairs sf' = multi_pairs sf ++ [pair_of b e s]
    /\ multi_cnt sf' = (if multi_is_null (multi sf) then 1 else multi_cnt sf + 1)
    /\ without_multi sf' = without_multi sf.
Proof.
  intros W Lp Le E Lim. unfold sf_multi_hook. rewrite E.
  change {| beg := g_strdup b; end_ := g_strdup e; susp := option_map g_strdup s |}
    with (pair_of b e s).
  set (hp := pair_of b e s) in *.
  (* the state the pair is stored into *)
  assert (exists (sf1 : stackfile) (slots : list (option hookpair)) (k : nat),
             (if multi_is_null (multi sf)
              then set_cache (set_multi sf (multi_arr (replicate (Z.to_nat MULTI_LIMIT) None)) 0)
                             (hook_esc_eq_beg sf) (hook_esc_eq_end sf) tbl_zero
              else sf) = sf1
             /\ multi sf1 = multi_arr slots /\ multi_cnt sf1 = Z.of_nat k
             /\ (k < 127)%nat /\ length slots = 128%nat
             /\ (forall i : nat, (i < k)%nat -> exists hp0, slots !! i = Some (Some hp0))
             /\ multi_pairs sf1 = multi_pairs sf
             /\ Z.of_nat k + 1 = (if multi_is_null (multi sf) then 1 else multi_cnt sf + 1)
             /\ without_multi sf1 = without_multi sf)
    as (sf1 & slots & k & -> & M1 & C1 & Lk & Ls & Sl & Mp & Cn & Wm).
  { unfold multi_ok in W. destruct (multi sf) as [|slots|] eqn:M; cbn [multi_is_null].
    - eexists _, _, 0%nat. split; [reflexivity|]. split; [reflexivity|].
      split; [reflexivity|]. split; [lia|]. split; [reflexivity|].
      split; [intros i Hi; lia|]. split; [|split; [reflexivity|]].
      + unfold multi_pairs. rewrite M. reflexivity.
      + destruct sf; reflexivity.
    - destruct W as (Ls & Cr & Sl & _). specialize (Lim eq_refl). unfold MULTI_LIMIT in *.
      exists sf, slots, (Z.to_nat (multi_cnt sf)).
      split; [reflexivity|]. split; [exact M|]. split; [lia|]. split; [lia|].
      split; [exact Ls|]. split; [exact Sl|]. split; [reflexivity|]. split; [lia|reflexivity].
    - contradiction. }
  rewrite C1, M1. unfold MULTI_LIMIT.
  destruct (Z.geb_spec (Z.of_nat k) (128 - 1)); [lia|].
  destruct (Z.ltb_spec (Z.of_nat k) 0); [lia|].
  rewrite int_incr_small by lia. rewrite Nat2Z.id.
  replace (Z.to_nat (Z.of_nat k + 1)) with (S k) by lia.
  assert (hookesc sf1 = hookesc sf) as He.
  { change (hookesc sf1) with (hookesc (without_multi sf1)). now rewrite Wm. }
  rewrite (sf_update_hook_cache_multi
             (set_multi sf1 (multi_arr (<[S k:=None]> (<[k:=Some hp]> slots)))
                        (Z.of_nat k + 1))
             (<[S k:=None]> (<[k:=Some hp]> slots)) hp eq_refl);
    cycle 1.
  { cbn [multi_cnt set_multi]. lia. }
  { cbn [multi_cnt set_multi]. replace (Z.to_nat (Z.of_nat k + 1 - 1)) with k by lia.
    rewrite list_lookup_insert_ne by lia. apply list_lookup_insert_eq. lia. }
  { exact Lp. }
  { cbn [hookesc set_multi]. rewrite He. exact Le. }
  unfold multi_cache.
  eexists. split; [reflexivity|].
  split; [|split; [reflexivity|split; [|split]]].
  - unfold multi_ok. cbn [multi set_cache set_multi multi_cnt].
    rewrite !length_insert. unfold MULTI_LIMIT.
    split; [exact Ls|]. split; [lia|].
    replace (Z.to_nat (Z.of_nat k + 1)) with (S k) by lia.
    split.
    + intros i Hi. destruct (Nat.eq_dec i k) as [->|Ne].
      * exists hp. rewrite list_lookup_insert_ne by lia.
        apply list_lookup_insert_eq. lia.
      * rewrite !list_lookup_insert_ne by lia. apply Sl. lia.
    + apply list_lookup_insert_eq. rewrite length_insert. lia.
  - unfold multi_pairs at 1. cbn [multi set_cache set_multi multi_cnt].
    replace (Z.to_nat (Z.of_nat k + 1)) with (S k) by lia.
    rewrite take_insert_ge by lia.
    rewrite (take_S_r _ k (Some hp)) by (apply list_lookup_insert_eq; lia).
    rewrite take_insert_ge by lia.
    rewrite flat_map_app. simpl. rewrite <- Mp.
    unfold multi_pairs. rewrite M1, C1, Nat2Z.id. reflexivity.
  - cbn [multi_cnt set_cache set_multi]. exact Cn.
  - rewrite <- Wm. reflexivity.
Qed.

(** X5: [sf_multi_hook] on an array in order, the new hooks and the escape
    starting with a byte below 0x80 (or empty): it leaves through [exit]
    when the escape equals the new begin or end hook, or when 127 pairs are
    in use; else it returns, the copy of the new pair stored behind the
    pairs in use and counted, the array in order again (so no access of
    [sf_multi_hook] falls outside its 128 slots), and nothing else of the
    stackfile changed but the lookup caches. *)
Theorem sf_multi_hook_keeps_array (sf : stackfile) (b e : list byte)
    (s : option (list byte)) :
  multi_ok sf -> low_pair (pair_of b e s) -> low_first (hookesc sf) ->
  if g_strcmp0_eq (hookesc sf) b || g_strcmp0_eq (hookesc sf) e
  then sf_multi_hook sf b e s = Exit (g_print msg_esc_matches_multihook)
  else if negb (multi_is_null (multi sf)) && (multi_cnt sf =? MULTI_LIMIT - 1)
  then sf_multi_hook sf b e s = Exit (g_print msg_too_many_multihooks)
  else
    exists sf' : stackfile,
      sf_multi_hook sf b e s = Ok sf'
      /\ multi_ok sf' /\ multi_is_null (multi sf') = false
      /\ multi_pairs sf' = multi_pairs sf ++ [pair_of b e s]
      /\ multi_cnt sf' = (if multi_is_null (multi sf) then 1 else multi_cnt sf + 1)
      /\ without_multi sf' = without_multi sf.
Proof.
  intros W Lp Le.
  destruct (g_strcmp0_eq (hookesc sf) b || g_strcmp0_eq (hookesc sf) e) eqn:E.
  - unfold sf_multi_hook. now rewrite E.
  - destruct (negb (multi_is_null (multi sf)) && (multi_cnt sf =? MULTI_LIMIT - 1)) eqn:L.
    + apply andb_true_iff in L as [N C]. apply Z.eqb_eq in C.
      unfold sf_multi_hook. rewrite E. unfold multi_ok in W.
      destruct (multi sf); [discriminate| |contradiction].
      cbn [multi_is_null]. rewrite C. reflexivity.
    + apply sf_multi_hook_stores; [exact W|exact Lp|exact Le|exact E|].
      intros N. rewrite N in L. simpl in L. apply Z.eqb_neq in L.
      unfold multi_ok in W. destruct (multi sf); [discriminate| |contradiction].
      destruct W as (_ & C & _). lia.
Qed.

(** ** A new file and the hooks it inherits (sf_new) *)

Lemma hook_1st_chars_length_update (sf sf' : stackfile) :
  multi sf = multi_null -> sf_update_hook_cache sf = Ok sf' ->
  length (hook_1st_chars sf') = 256%nat /\ multi sf' = multi_null
  /\ without_multi sf' = without_multi sf.
Proof.
  intros M U.
  destruct (sf_update_hook_cache_single_inv sf sf' M U) as (_ & _ & _ & ->).
  unfold single_cache. cbn [hook_1st_chars set_cache multi]. rewrite !length_tbl_store.
  split; [reflexivity|]. split; [exact M|]. destruct sf; reflexivity.
Qed.

Lemma str0_g_strdup (s : list byte) : str0 (cstr s) = str0 s.
Proof.
  destruct s as [|c r]; [reflexivity|]. simpl.
  destruct (Byte.eqb c x00) eqn:E; [|reflexivity].
  apply Byte.byte_dec_bl in E. now subst c.
Qed.

Lemma low_first_cstr (s : list byte) : low_first (cstr s) <-> low_first s.
Proof. unfold low_first. now rewrite str0_g_strdup. Qed.

Lemma low_pair_of (hp : hookpair) :
  low_pair (pair_of (beg hp) (end_ hp) (susp hp)) <-> low_pair hp.
Proof.
  unfold low_pair, pair_of. cbn [beg end_ susp].
  rewrite !low_first_cstr. destruct (susp hp) as [s|]; cbn [option_map].
  - now rewrite low_first_cstr.
  - reflexivity.
Qed.

(** The loop of [sf_new] over the multi-hooks of [inherit]. *)
Lemma sf_inherit_multi_spec (slots : list (option hookpair)) (n : nat) :
  forall (i : nat) (sf : stackfile),
    (forall j : nat, (i <= j < i + n)%nat ->
       exists hp : hookpair, slots !! j = Some (Some hp) /\ low_pair hp
         /\ g_strcmp0_eq (hookesc sf) (beg hp) || g_strcmp0_eq (hookesc sf) (end_ hp) = false) ->
    multi_ok sf -> low_first (hookesc sf) ->
    (multi_is_null (multi sf) = true /\ i = 0%nat
     \/ multi_is_null (multi sf) = false /\ multi_cnt sf = Z.of_nat i) ->
    (i + n <= 127)%nat ->
    length (hook_1st_chars sf) = 256%nat -> bitmap_complete sf ->
    exists sf' : stackfile,
      sf_inherit_multi n i slots sf = Ok sf'
      /\ multi_ok sf'
      /\ multi_pairs sf'
         = multi_pairs sf
           ++ map hookpair_cpy
                (flat_map (fun o : option hookpair =>
                             match o with Some hp => [hp] | None => [] end)
                          (take n (drop i slots)))
      /\ without_multi sf' = without_multi sf
      /\ bitmap_complete sf' /\ length (hook_1st_chars sf') = 256%nat
      /\ multi_is_null (multi sf') = match n with O => multi_is_null (multi sf) | _ => false end.
Proof.
  induction n as [|n IH]; intros i sf Sl W Le Inv Lim Lt Bc.
  - exists sf. simpl. rewrite app_nil_r. auto 10.
  - destruct (Sl i ltac:(lia)) as (hp & Li & Lp & Ne).
    simpl sf_inherit_multi. rewrite Li.
    destruct (sf_multi_hook_stores sf (beg hp) (end_ hp) (susp hp) W
                (proj2 (low_pair_of hp) Lp) Le Ne)
      as (sf1 & U & W1 & N1 & P1 & C1 & Wm1).
    { intros N. destruct Inv as [[Nt _]|[_ C]]; [congruence|]. unfold MULTI_LIMIT. lia. }
    rewrite U. simpl bind.
    destruct (sf_multi_hook_complete sf sf1 _ _ _ Lt Bc U) as [Bc1 Lt1].
    assert (hookesc sf1 = hookesc sf) as He.
    { change (hookesc sf1) with (hookesc (without_multi sf1)). now rewrite Wm1. }
    destruct (IH (S i) sf1) as (sf' & U' & W' & P' & Wm' & Bc' & Lt' & N'); auto.
    + intros j Hj. rewrite He. apply Sl. lia.
    + rewrite He. exact Le.
    + right. split; [exact N1|]. rewrite C1.
      destruct Inv as [[-> ->]|[-> ->]]; lia.
    + lia.
    + exists sf'. split; [exact U'|]. split; [exact W'|].
      split; [|split; [congruence|split; [exact Bc'|split; [exact Lt'|]]]].
      * rewrite P', P1, <- app_assoc. f_equal.
        rewrite (drop_S _ _ _ Li). simpl. reflexivity.
      * destruct n; [congruence|exact N'].
Qed.

Lemma multi_pairs_In (sf : stackfile) (slots : list (option hookpair)) (j : nat)
    (hp : hookpair) :
  multi sf = multi_arr slots -> (j < Z.to_nat (multi_cnt sf))%nat ->
  slots !! j = Some (Some hp) -> In hp (multi_pairs sf).
Proof.
  intros M Hj L. unfold multi_pairs. rewrite M. apply in_flat_map.
  exists (Some hp). split; [|now left].
  apply list_elem_of_In. apply (list_elem_of_lookup_2 _ j).
  rewrite lookup_take_lt by exact Hj. exact L.
Qed.

(** X6: a file made by [sf_new] with a stackfile to inherit from, whose
    multi-hook array is in order, whose escape equals no begin or end hook
    of it, and whose hooks and escape all start with a byte below 0x80 (or
    are empty): the new file starts at line 0, column 0 with nothing put
    back, no macro and no current hook; it has copies of the hook pair and
    of the escape of [inherit] and of its multi-hooks in their order, but
    not its eater; and its first-byte table is complete. *)
Theorem sf_init_inherits (name stream : list byte) (inh : stackfile) :
  multi_ok inh ->
  (forall hp : hookpair, In hp (multi_pairs inh) ->
     g_strcmp0_eq (hookesc inh) (beg hp) = false
     /\ g_strcmp0_eq (hookesc inh) (end_ hp) = false) ->
  low_first (beg (hook inh)) -> low_first (end_ (hook inh)) ->
  low_first (hookesc inh) ->
  (forall hp : hookpair, In hp (multi_pairs inh) -> low_pair hp) ->
  exists sf : stackfile,
    sf_init name stream (Some inh) = Ok sf
    /\ without_multi sf
       = without_multi (set_hooks (sf_zero name stream) (hookpair_cpy (hook inh))
                                  (cstr (hookesc inh)) None)
    /\ eater sf = None /\ curhook sf = []
    /\ multi_is_null (multi sf) = multi_is_null (multi inh)
    /\ multi_pairs sf = map hookpair_cpy (multi_pairs inh)
    /\ multi_ok sf /\ bitmap_complete sf.
Proof.
  intros W Ne Lb Le Lx Lm. unfold sf_init.
  set (sf1 := set_hooks (sf_zero name stream) (hookpair_cpy (hook inh))
                        (g_strdup (hookesc inh)) None).
  assert (multi sf1 = multi_null) as M1 by reflexivity.
  assert (sf_update_hook_cache sf1 = Ok (single_cache sf1)) as U.
  { apply (sf_update_hook_cache_single sf1 M1); apply low_first_cstr; assumption. }
  rewrite U. set (sf2 := single_cache sf1) in *.
  destruct (hook_1st_chars_length_update sf1 sf2 M1 U) as (Lt2 & M2 & Wm2).
  pose proof (sf_update_hook_cache_single_complete sf1 sf2 M1 U) as Bc2.
  assert (eater sf2 = None /\ curhook sf2 = []) as [Ea2 Cu2].
  { change (eater sf2) with (eater (without_multi sf2)).
    change (curhook sf2) with (curhook (without_multi sf2)). rewrite Wm2. auto. }
  simpl bind. unfold multi_ok in W.
  destruct (multi inh) as [|slots|] eqn:M; [| |contradiction].
  - exists sf2. split; [reflexivity|]. split; [exact Wm2|]. split; [exact Ea2|].
    split; [exact Cu2|]. split; [now rewrite M2|].
    split; [|split; [|exact Bc2]].
    + unfold multi_pairs. rewrite M2, M. reflexivity.
    + unfold multi_ok. now rewrite M2.
  - destruct W as (Ls & Cr & Sl & _). unfold MULTI_LIMIT in *.
    destruct (sf_inherit_multi_spec slots (Z.to_nat (multi_cnt inh)) 0 sf2)
      as (sf & U' & W' & P' & Wm' & Bc' & _ & N'); auto.
    + intros j Hj. destruct (Sl j ltac:(lia)) as (hp & Lj). exists hp. split; [exact Lj|].
      assert (In hp (multi_pairs inh)) as Ih
        by (eapply multi_pairs_In; [exact M| |exact Lj]; lia).
      split; [exact (Lm hp Ih)|].
      assert (hookesc sf2 = cstr (hookesc inh)) as ->.
      { change (hookesc sf2) with (hookesc (without_multi sf2)). now rewrite Wm2. }
      destruct (Ne hp Ih) as [N1 N2].
      unfold g_strcmp0_eq in *. rewrite cstr_idem, N1, N2. reflexivity.
    + unfold multi_ok. now rewrite M2.
    + change (hookesc sf2) with (cstr (hookesc inh)). now apply low_first_cstr.
    + lia.
    + exists sf. split; [exact U'|]. split; [rewrite Wm', Wm2; reflexivity|].
      split; [|split; [|split; [|split; [|split; [exact W'|exact Bc']]]]].
      * change (eater sf) with (eater (without_multi sf)). now rewrite Wm', Wm2.
      * change (curhook sf) with (curhook (without_multi sf)). now rewrite Wm', Wm2.
      * rewrite N'. destruct (Z.to_nat (multi_cnt inh)) eqn:Z0; [lia|reflexivity].
      * rewrite P'. unfold multi_pairs at 1. rewrite M2. simpl app.
        rewrite drop_0. unfold multi_pairs. rewrite M. reflexivity.
Qed.

(** ** Setting a hook in single-hook mode (sf_set_hook) *)

Lemma idx_inj (a b : byte) : idx a = idx b -> a = b.
Proof.
  unfold idx. intros H. apply N2Nat.inj in H.
  apply (f_equal Byte.of_N) in H. rewrite !Byte.of_to_N in H. now inversion H.
Qed.

Lemma tbl_store_lookup (t : list Z) (a c : byte) (v : Z) :
  length t = 256%nat ->
  tbl_store t a v !! idx c = if Byte.eqb a c then Some v else t !! idx c.
Proof.
  intros L. unfold tbl_store. destruct (Byte.eqb a c) eqn:E.
  - apply Byte.byte_dec_bl in E. subst c. apply list_lookup_insert_eq.
    rewrite L. apply idx_bound.
  - apply list_lookup_insert_ne. intros H. apply idx_inj in H. subst c.
    now rewrite byte_eqb_refl in E.
Qed.

Lemma tbl_zero_lookup (c : byte) : tbl_zero !! idx c = Some 0.
Proof. apply lookup_replicate_2. apply idx_bound. Qed.

(** X7: [sf_set_hook] in single-hook mode, the hooks and the escape of the
    file and [value] all starting with a byte below 0x80 (or empty), stores
    the copy of [value] as the hook named and changes nothing else but the
    caches, which it rebuilds: [hook_esc_eq_beg] and [hook_esc_eq_end] tell whether the
    escape equals the begin and the end hook, and the first-byte table is 1
    at the first bytes of the three strings and 0 at every other byte. *)
Theorem sf_set_hook_single_mode (sf : stackfile) (hk : hook_t) (value : list byte) :
  multi sf = multi_null ->
  low_first (beg (hook sf)) -> low_first (end_ (hook sf)) ->
  low_first (hookesc sf) -> low_first value ->
  exists sf' : stackfile,
    sf_set_hook sf hk value = Ok sf'
    /\ hook sf' = match hk with
                  | hook_beg => {| beg := cstr value; end_ := end_ (hook sf);
                                   susp := susp (hook sf) |}
                  | hook_end => {| beg := beg (hook sf); end_ := cstr value;
                                   susp := susp (hook sf) |}
                  | _ => hook sf
                  end
    /\ hookesc sf' = (if is_hook_esc hk then cstr value else hookesc sf)
    /\ without_multi (set_hooks sf' (hook sf) (hookesc sf) (eater sf)) = without_multi sf
    /\ multi sf' = multi_null
    /\ (hook_esc_eq_beg sf' = true <-> cstr (hookesc sf') = cstr (beg (hook sf')))
    /\ (hook_esc_eq_end sf' = true <-> cstr (hookesc sf') = cstr (end_ (hook sf')))
    /\ table_exact (hook_1st_chars sf') [beg (hook sf'); end_ (hook sf'); hookesc sf'].
Proof.
  intros M Lb Le Lx Lv. unfold sf_set_hook. rewrite M. cbn [multi_is_null negb andb bind].
  assert (low_first (cstr value)) as Lv' by now apply low_first_cstr.
  destruct hk; rewrite ?(tbl_put_low _ _ _ Lx); cbn [bind];
    (rewrite sf_update_hook_cache_single; [|exact M|assumption..]);
    (eexists; split; [reflexivity|]); unfold single_cache;
    cbn [hook hookesc set_cache set_hooks hook_esc_eq_beg hook_esc_eq_end hook_1st_chars
         multi beg end_ susp is_hook_esc];
    (split; [reflexivity|]); (split; [reflexivity|]);
    (split; [destruct sf; reflexivity|]); (split; [exact M|]);
    (split; [apply bytes_eqb_eq|]); (split; [apply bytes_eqb_eq|]);
    intros c; cbn [existsb];
    rewrite !tbl_store_lookup by (rewrite ?length_tbl_store; reflexivity);
    rewrite tbl_zero_lookup;
    repeat match goal with |- context [Byte.eqb ?a c] => destruct (Byte.eqb a c) end;
    reflexivity.
Qed.

Lemma sf_multi_hook_keeps_array_witness :
  exists sf' : stackfile,
    sf_multi_hook (sf_default (bs "in") []) (bs "<") (bs ")") (Some (bs "(")) = Ok sf'
    /\ multi_ok sf' /\ multi_is_null (multi sf') = false
    /\ multi_pairs sf' = multi_pairs (sf_default (bs "in") []) ++ [parens_pair]
    /\ multi_cnt sf' = 1
    /\ without_multi sf' = without_multi (sf_default (bs "in") []).
Proof.
  apply (sf_multi_hook_keeps_array (sf_default (bs "in") []) (bs "<") (bs ")")
                                   (Some (bs "(")) I); low_bytes.
Defined.

Lemma multi_ok_sf_parens : multi_ok (sf_parens []).
Proof.
  destruct (sf_multi_hook_stores (sf_default (bs "in") []) (bs "<") (bs ")")
              (Some (bs "(")) I) as (sf' & U & W & _).
  - low_bytes.
  - low_bytes.
  - reflexivity.
  - discriminate.
  - unfold sf_parens. rewrite U. exact W.
Qed.

Lemma sf_init_inherits_witness :
  exists sf : stackfile,
    sf_init (bs "inc") (bs "included") (Some (sf_parens [])) = Ok sf
    /\ eater sf = None
    /\ multi_pairs sf = [parens_pair]
    /\ bitmap_complete sf.
Proof.
  destruct (sf_init_inherits (bs "inc") (bs "included") (sf_parens []) multi_ok_sf_parens)
    as (sf & U & _ & Ea & _ & _ & P & _ & Bc).
  - intros hp [<-|[]]. split; reflexivity.
  - low_bytes.
  - low_bytes.
  - low_bytes.
  - intros hp [<-|[]]. low_bytes.
  - exists sf. split; [exact U|]. split; [exact Ea|]. split; [exact P|exact Bc].
Defined.

Lemma sf_set_hook_single_mode_witness :
  exists sf' : stackfile,
    sf_set_hook (sf_default (bs "in") []) hook_beg (bs "(") = Ok sf'
    /\ hook sf' = {| beg := bs "("; end_ := bs ">-"; susp := None |}
    /\ hookesc sf' = bs "\"
    /\ (hook_esc_eq_beg sf' = true <-> cstr (hookesc sf') = cstr (beg (hook sf')))
    /\ table_exact (hook_1st_chars sf') [beg (hook sf'); end_ (hook sf'); hookesc sf'].
Proof.
  destruct (sf_set_hook_single_mode (sf_default (bs "in") []) hook_beg (bs "(") eq_refl)
    as (sf' & U & H & E & _ & _ & Fb & _ & T); [low_bytes..|].
  exists sf'. split; [exact U|]. split; [exact H|]. split; [exact E|].
  split; [exact Fb|exact T].
Defined.

(** * The output and text that is no macro *)

(** ** Strings sent to the output (ps_out_str) *)

Lemma count_lines_app (s1 s2 : list byte) :
  forall l : Z, count_lines l (s1 ++ s2) = count_lines (count_lines l s1) s2.
Proof. induction s1 as [|c r IH]; intros l; simpl; [reflexivity|apply IH]. Qed.

Lemma of_written_app (o : outfile) (s1 s2 : list byte) :
  of_written (of_written o s1) s2 = of_written o (s1 ++ s2).
Proof.
  unfold of_written. destruct (of_blocked o) eqn:B; [now rewrite B|].
  simpl. now rewrite count_lines_app, app_assoc.
Qed.

Lemma of_written_nil (o : outfile) : of_written o [] = o.
Proof.
  unfold of_written. destruct o as [f h l b]. simpl. destruct b; [reflexivity|].
  now rewrite app_nil_r.
Qed.

Lemma count_lines_newlines (s : list byte) :
  forall l : Z,
    -2147483648 <= l -> l + newlines s <= 2147483647 ->
    count_lines l s = l + newlines s.
Proof.
  induction s as [|c r IH]; intros l L0 L1; cbn [count_lines newlines] in *; [lia|].
  pose proof (newlines_nonneg r).
  destruct (Byte.eqb c x0a).
  - rewrite IH; rewrite int_incr_small by lia; lia.
  - rewrite IH; lia.
Qed.

Lemma ps_out_byte (ps : pstate) (o : outfile) (outs : list outfile) (c : byte) :
  output ps = o :: outs ->
  ps_out ps (int_of_char c) = Ok (set_output ps (of_written o [c] :: outs)).
Proof.
  intros O. unfold ps_out. rewrite O. unfold of_written.
  destruct (of_blocked o) eqn:B; simpl.
  - destruct ps; simpl in *; subst; reflexivity.
  - rewrite char_of_int_of_char, int_of_char_eqb. reflexivity.
Qed.

(** X8: [ps_out_str] sends the bytes of the string up to its first NUL to
    the top outfile, in order: a blocked outfile is left as it is, else the
    bytes are appended to what was written and the line counter grows by
    the number of newlines among them (within the range of a C int); for
    NULL nothing is written. *)
Theorem ps_out_str_writes (ps : pstate) (o : outfile) (outs : list outfile)
    (str : option (list byte)) :
  let s := match str with Some s => cstr s | None => [] end in
  output ps = o :: outs ->
  -2147483648 <= of_lineno o -> of_lineno o + newlines s <= 2147483647 ->
  ps_out_str ps str
  = Ok (set_output ps
          ((if of_blocked o then o
            else {| of_filename := of_filename o; of_fh := of_fh o ++ s;
                    of_lineno := of_lineno o + newlines s; of_blocked := false |})
           :: outs)).
Proof.
  intros s O L0 L1.
  assert (ps_out_str ps str = Ok (set_output ps (of_written o s :: outs))) as ->.
  { destruct str as [t|]; simpl.
    - now apply ps_out_bytes_spec.
    - rewrite of_written_nil. destruct ps; simpl in *; subst; reflexivity. }
  unfold of_written. destruct (of_blocked o); [reflexivity|].
  now rewrite count_lines_newlines.
Qed.

(** ** Text without a hook byte (ps_process_file, ps_process_non_hook_seq) *)

Lemma ps_check_hook_miss (ps : pstate) (cfg : stackfile) (rest : list stackfile)
    (stream : list byte) (c : byte) :
  holding ps cfg rest stream -> tbl_miss cfg c ->
  ps_check_hook ps (int_of_char c) = Ok false.
Proof.
  intros R Hv.
  destruct (holding_top _ _ _ _ R) as (sf & _ & _ & _ & _ & T & _ & _ & Tb & _).
  unfold ps_check_hook. rewrite int_of_char_not_EOF, T. simpl.
  pose proof (int_of_char_range c).
  destruct (Z.ltb_spec (int_of_char c) 0); [lia|].
  rewrite idx_int_of_char, Tb, Hv. reflexivity.
Qed.

Lemma aside_of_fixed (ps ps' : pstate) :
  beyond_probe ps' = beyond_probe ps -> fixed ps' = fixed ps -> aside ps' = aside ps.
Proof. unfold beyond_probe, fixed, aside. intros B X. inversion B. inversion X. congruence. Qed.

Lemma sf_update_hook_cache_without_multi (sf sf' : stackfile) :
  sf_update_hook_cache sf = Ok sf' -> without_multi sf' = without_multi sf.
Proof.
  intros U. destruct (multi sf) as [|slots|] eqn:M.
  - destruct (sf_update_hook_cache_single_inv sf sf' M U) as (_ & _ & _ & ->).
    destruct sf; reflexivity.
  - destruct (sf_update_hook_cache_multi_inv sf sf' slots M U) as (hp & _ & _ & _ & _ & ->).
    destruct sf; reflexivity.
  - unfold sf_update_hook_cache in U. rewrite M in U. discriminate.
Qed.

Lemma sf_multi_hook_without_multi (sf sf' : stackfile) (b e : list byte)
    (s : option (list byte)) :
  sf_multi_hook sf b e s = Ok sf' -> without_multi sf' = without_multi sf.
Proof.
  unfold sf_multi_hook. intros U.
  destruct (g_strcmp0_eq (hookesc sf) b || g_strcmp0_eq (hookesc sf) e); [discriminate|].
  match type of U with
  | (if multi_cnt ?x >=? _ then _ else _) = _ =>
      assert (without_multi x = without_multi sf) as W
        by (destruct (multi_is_null (multi sf)), sf; reflexivity);
      remember x as sf1 eqn:Hsf1
  end.
  destruct (multi_cnt sf1 >=? MULTI_LIMIT - 1); [discriminate|].
  destruct (multi sf1) as [|slots|]; try discriminate.
  destruct (multi_cnt sf1 <? 0); [discriminate|].
  apply sf_update_hook_cache_without_multi in U. rewrite U, <- W.
  destruct sf1; reflexivity.
Qed.

Lemma sf_inherit_multi_without_multi (slots : list (option hookpair)) (n : nat) :
  forall (i : nat) (sf sf' : stackfile),
    sf_inherit_multi n i slots sf = Ok sf' -> without_multi sf' = without_multi sf.
Proof.
  induction n as [|n IH]; intros i sf sf' U; simpl in U.
  - now inversion U.
  - destruct (slots !! i) as [[hp|]|]; try discriminate.
    destruct (sf_multi_hook sf (beg hp) (end_ hp) (susp hp)) as [sf1| |] eqn:U1;
      try discriminate.
    simpl in U. apply IH in U. apply sf_multi_hook_without_multi in U1. congruence.
Qed.

(** What [sf_new] makes of the file itself, whatever it inherits. *)
Lemma sf_init_stream (name stream : list byte) (inh : option stackfile) (sf : stackfile) :
  sf_init name stream inh = Ok sf ->
  filename sf = name /\ fh sf = stream /\ buf sf = [] /\ eat_tail sf = false
  /\ lineno sf = 0 /\ column sf = 0 /\ macro sf = false /\ curhook sf = []
  /\ eater sf = None.
Proof.
  intros U.
  assert (exists (h : hookpair) (e : list byte),
             without_multi sf = without_multi (set_hooks (sf_zero name stream) h e None))
    as (h & e & W).
  { unfold sf_init in U. destruct inh as [inh|].
    - match type of U with
      | bind (sf_update_hook_cache ?x) _ = _ =>
          destruct (sf_update_hook_cache x) as [sf2| |] eqn:U2; try discriminate
      end.
      apply sf_update_hook_cache_without_multi in U2. simpl in U.
      exists (hookpair_cpy (hook inh)), (g_strdup (hookesc inh)). rewrite <- U2.
      destruct (multi inh) as [|slots|].
      + now inversion U.
      + now apply sf_inherit_multi_without_multi in U.
      + destruct (multi_cnt inh <=? 0); [now inversion U|discriminate].
    - apply sf_update_hook_cache_without_multi in U. eauto. }
  change (filename sf) with (filename (without_multi sf)).
  change (fh sf) with (fh (without_multi sf)).
  change (buf sf) with (buf (without_multi sf)).
  change (eat_tail sf) with (eat_tail (without_multi sf)).
  change (lineno sf) with (lineno (without_multi sf)).
  change (column sf) with (column (without_multi sf)).
  change (macro sf) with (macro (without_multi sf)).
  change (curhook sf) with (curhook (without_multi sf)).
  change (eater sf) with (eater (without_multi sf)).
  rewrite W. auto 10.
Qed.

Section PlainText.

Variable mrb_state : Type.
Variable mrb_load_string : list byte -> mrb_state -> pstate -> host_result mrb_state.
Variable mrb_load_file : list byte -> mrb_state -> pstate -> host_result mrb_state.
Variable g_fopen_r : list byte -> option (list byte).
Variable g_fopen_w : list byte -> bool.
Variable stdin_bytes : list byte.
Variable stack_default : option stackfile.

Local Abbreviation iter :=
  (ps_process_iter mrb_state mrb_load_string mrb_load_file g_fopen_r
                   stdin_bytes stack_default).
Local Abbreviation loop :=
  (ps_process_loop mrb_state mrb_load_string mrb_load_file g_fopen_r
                   stdin_bytes stack_default).
Local Abbreviation process_file :=
  (ps_process_file mrb_state mrb_load_string mrb_load_file g_fopen_r g_fopen_w
                   stdin_bytes stack_default).

(** A turn of the loop at a byte that is not in the first-byte table. *)
Lemma iter_plain_byte (m : mrb_state) (ps : pstate) (cfg : stackfile)
    (rest : list stackfile) (c : byte) (r : list byte) :
  holding ps cfg rest (c :: r) -> tbl_miss cfg c ->
  exists ps1 : pstate,
    holding ps1 cfg rest r
    /\ beyond_probe ps1 = beyond_probe ps /\ fixed ps1 = fixed ps
    /\ iter m ps =
       if in_macro ps =? 0
       then do ps2 <- ps_out ps1 (int_of_char c); Ok (m, ps2, false)
       else Ok (m, ps_collect ps1 (int_of_char c), false).
Proof.
  intros R Hm.
  destruct (ps_in_holding ps cfg rest c r R) as (ps1 & E1 & R1 & _ & B1 & X1).
  exists ps1. split; [exact R1|]. split; [exact B1|]. split; [exact X1|].
  unfold ps_process_iter. rewrite E1.
  rewrite (ps_check_hook_miss ps1 cfg rest r c R1 Hm). simpl.
  unfold ps_process_non_hook_seq.
  assert (in_macro ps1 = in_macro ps) as -> by (inversion B1; reflexivity).
  rewrite int_of_char_not_EOF.
  destruct (in_macro ps =? 0); simpl; [|reflexivity].
  destruct (ps_out ps1 (int_of_char c)); reflexivity.
Qed.

(** Text outside a macro with no byte of the first-byte table goes to the
    output as it is. *)
Lemma loop_plain_text (m : mrb_state) (cfg : stackfile) (rest : list stackfile)
    (s : list byte) :
  forall (ps : pstate) (tail : list byte) (o : outfile) (outs : list outfile),
    holding ps cfg rest (s ++ tail) -> in_macro ps = 0 -> output ps = o :: outs ->
    Forall (tbl_miss cfg) s ->
    exists ps' : pstate,
      loop (length s) m ps = Ok (m, ps', false)
      /\ holding ps' cfg rest tail
      /\ output ps' = of_written o s :: outs
      /\ macro_buf ps' = macro_buf ps /\ aside ps' = aside ps.
Proof.
  induction s as [|c r IH]; intros ps tail o outs R M O Hs.
  - exists ps. simpl. rewrite of_written_nil. auto.
  - inversion Hs as [|? ? Hc Hr]. subst. simpl in R.
    destruct (iter_plain_byte m ps cfg rest c (r ++ tail) R Hc) as (ps1 & R1 & B1 & X1 & E).
    rewrite M in E. simpl in E.
    assert (output ps1 = o :: outs) as O1 by (inversion B1; congruence).
    rewrite (ps_out_byte ps1 o outs c O1) in E. simpl in E.
    set (ps2 := set_output ps1 (of_written o [c] :: outs)) in *.
    destruct (IH ps2 tail (of_written o [c]) outs) as (ps' & E' & R' & O' & Mb' & A'); auto.
    + inversion B1. unfold ps2. simpl. congruence.
    + exists ps'. simpl ps_process_loop. rewrite E. simpl. rewrite E'.
      split; [reflexivity|]. split; [exact R'|].
      split; [rewrite O', of_written_app; reflexivity|].
      split.
      * rewrite Mb'. inversion B1. reflexivity.
      * rewrite A'. apply (aside_of_fixed ps ps1 B1 X1).
Qed.

(** Text inside a macro with no byte of the first-byte table goes to the
    macro body. *)
Lemma loop_macro_text (m : mrb_state) (cfg : stackfile) (rest : list stackfile)
    (s : list byte) :
  forall (ps : pstate) (tail : list byte),
    reading ps cfg rest (s ++ tail) -> in_macro ps <> 0 ->
    Forall (tbl_miss cfg) s ->
    exists ps' : pstate,
      loop (length s) m ps = Ok (m, ps', false)
      /\ reading ps' cfg rest tail
      /\ macro_buf ps' = macro_buf ps ++ s
      /\ output ps' = output ps /\ aside ps' = aside ps.
Proof.
  induction s as [|c r IH]; intros ps tail R M Hs.
  - exists ps. simpl. rewrite app_nil_r. auto.
  - inversion Hs as [|? ? Hc Hr]. subst. simpl in R.
    destruct (iter_plain_byte m ps cfg rest c (r ++ tail) (reading_holding _ _ _ _ R) Hc)
      as (ps1 & H1 & B1 & X1 & E).
    assert (reading ps1 cfg rest (r ++ tail)) as R1
      by (split; [exact H1|apply (seven_bit_tail c), R]).
    destruct (Z.eqb_spec (in_macro ps) 0); [contradiction|].
    set (ps2 := ps_collect ps1 (int_of_char c)) in *.
    destruct (IH ps2 tail) as (ps' & E' & R' & Mb' & O' & A'); auto.
    + inversion B1. unfold ps2. simpl. congruence.
    + exists ps'. simpl ps_process_loop. rewrite E. simpl. rewrite E'.
      split; [reflexivity|]. split; [exact R'|].
      inversion B1.
      split; [|split].
      * rewrite Mb'. unfold ps2, ps_collect, set_macro_buf, set_bufs. cbn [macro_buf].
        rewrite char_of_int_of_char, <- app_assoc. simpl. congruence.
      * rewrite O'. unfold ps2. simpl. congruence.
      * rewrite A'. apply (aside_of_fixed ps ps1 B1 X1).
Qed.


(** The turn of the loop that finds the input at its end, outside a macro. *)
Lemma iter_at_end (m : mrb_state) (ps : pstate) (cfg : stackfile) :
  holding ps cfg [] [] -> in_macro ps = 0 ->
  iter m ps = Ok (m, set_fs ps {| file := []; file_prev := file_prev (fs ps) |}, true).
Proof.
  intros (sf & F & _ & I & Sb) M.
  pose proof (fs_get_one_from_stream (file (fs ps))) as H.
  rewrite F in H. specialize (H ltac:(repeat constructor; exact Sb)).
  unfold fs_stream in H. cbn [flat_map] in H. rewrite I in H.
  cbn [app] in H.
  unfold ps_process_iter, ps_in, fs_get_one. rewrite F, H. simpl.
  unfold ps_process_non_hook_seq. simpl. rewrite M. reflexivity.
Qed.

(** X9: [ps_process_file] on an input (a file that opens, or standard
    input) none of whose bytes has an entry in the first-byte table of its
    new stackfile, started outside a macro with no input file stacked and
    no outfile of its own: the loop is left at the end of the input after
    one turn per byte and one more, the bytes of the input have gone to the
    top outfile as they are, in order, and the input stack is empty
    again. *)
Theorem plain_file_is_copied (m : mrb_state) (ps : pstate)
    (infile : option (list byte)) (content : list byte) (sf0 : stackfile)
    (o : outfile) (outs : list outfile) :
  file (fs ps) = [] -> in_macro ps = 0 -> output ps = o :: outs ->
  match infile with
  | Some f => g_fopen_r (cstr f)
  | None => Some stdin_bytes
  end = Some content ->
  sf_init (match infile with Some f => cstr f | None => bs "<STDIN>" end)
          content stack_default = Ok sf0 ->
  Forall (tbl_miss sf0) content ->
  exists ps' : pstate,
    process_file (S (length content)) m ps infile None = Ok (m, ps', true)
    /\ output ps' = of_written o content :: outs
    /\ file (fs ps') = []
    /\ macro_buf ps' = macro_buf ps /\ in_macro ps' = 0.
Proof.
  intros F M O Op Ini Hs.
  destruct (sf_init_stream _ _ _ _ Ini) as (_ & Fh & Bf & Et & _).
  set (ps1 := set_fs ps {| file := [sf0]; file_prev := [] |}).
  assert (fs_push_file g_fopen_r stdin_bytes stack_default ps infile = Ok ps1)
    as Push.
  { unfold fs_push_file, sf_new. rewrite F.
    destruct infile as [f|].
    - rewrite Op. unfold g_strdup. rewrite Ini. reflexivity.
    - inversion Op. subst content. rewrite Ini. reflexivity. }
  assert (holding ps1 (settings sf0) [] (content ++ [])) as R1.
  { exists sf0. split; [reflexivity|]. split; [reflexivity|]. split.
    - unfold incoming, pending. rewrite Et, Bf, Fh, app_nil_r. reflexivity.
    - rewrite Bf. constructor. }
  destruct (loop_plain_text m (settings sf0) [] content ps1 [] o outs R1 M O Hs)
    as (ps2 & E2 & R2 & O2 & Mb2 & A2).
  assert (in_macro ps2 = 0) as M2 by (inversion A2; congruence).
  pose proof (iter_at_end m ps2 (settings sf0) R2 M2) as E3.
  assert (loop (S (length content)) m ps1
          = Ok (m, set_fs ps2 {| file := []; file_prev := file_prev (fs ps2) |}, true))
    as L.
  { replace (S (length content)) with (length content + 1)%nat by lia.
    rewrite (loop_app mrb_state mrb_load_string mrb_load_file g_fopen_r stdin_bytes
               stack_default (length content) 1 m m ps1 ps2 E2).
    simpl ps_process_loop. rewrite E3. reflexivity. }
  eexists. unfold ps_process_file. rewrite Push. cbn [bind]. rewrite L. cbn [bind].
  split; [reflexivity|]. simpl. auto.
Qed.

End PlainText.

Lemma ps_out_str_writes_witness :
  ps_out_str (ps_on []) (Some (bs "ab"))
  = Ok (set_output (ps_on [])
          [{| of_filename := bs "<STDOUT>"; of_fh := bs "ab"; of_lineno := 0;
              of_blocked := false |}]).
Proof.
  assert (-2147483648 <= of_lineno of_stdout) as L0 by (vm_compute; discriminate).
  assert (of_lineno of_stdout + newlines (cstr (bs "ab")) <= 2147483647) as L1
    by (vm_compute; discriminate).
  exact (ps_out_str_writes (ps_on []) of_stdout [] (Some (bs "ab")) eq_refl L0 L1).
Defined.

Lemma plain_file_is_copied_witness :
  exists ps' : pstate,
    demo_process_file 9 (ps_on []) (Some (bs "inc")) None = Ok (tt, ps', true)
    /\ output ps' = [of_written of_stdout (bs "included")]
    /\ file (fs ps') = [].
Proof.
  assert (Forall (tbl_miss (sf_default (bs "inc") (bs "included"))) (bs "included")) as Hs
    by (repeat constructor).
  destruct (plain_file_is_copied unit no_script no_script one_file no_outfile [] None
              tt (ps_on []) (Some (bs "inc")) (bs "included")
              (sf_default (bs "inc") (bs "included")) of_stdout []
              eq_refl eq_refl eq_refl eq_refl eq_refl Hs)
    as (ps' & E & O & F & _).
  exists ps'. split; [exact E|]. split; [exact O|exact F].
Defined.

(** * The escape (ps_process_file) *)

Lemma str0_cstr (s : list byte) : cstr s <> [] -> str0 (cstr s) = str0 s.
Proof.
  destruct s as [|c r]; simpl; [contradiction|].
  destruct (Byte.eqb c x00); [contradiction|reflexivity].
Qed.

(** The top file of a state that is [reading]. *)
Lemma reading_file (ps : pstate) (cfg : stackfile) (rest : list stackfile)
    (stream : list byte) :
  reading ps cfg rest stream ->
  exists sf : stackfile,
    file (fs ps) = sf :: rest /\ ps_topfile ps = Ok sf /\ ps_has_file ps = true
    /\ settings sf = cfg /\ incoming sf = stream.
Proof.
  intros [(sf & F & S & I & _) _]. exists sf. unfold ps_topfile, fs_topfile, ps_has_file.
  rewrite F. auto.
Qed.

Lemma reading_buf (ps : pstate) (cfg : stackfile) (rest : list stackfile)
    (stream : list byte) (sf : stackfile) :
  reading ps cfg rest stream -> file (fs ps) = sf :: rest -> seven_bit (buf sf).
Proof. intros [(sf0 & F0 & _ & _ & Sb) _] F. congruence. Qed.

Lemma reading_intro (ps : pstate) (cfg : stackfile) (rest : list stackfile)
    (stream : list byte) (sf : stackfile) :
  file (fs ps) = sf :: rest -> settings sf = cfg -> incoming sf = stream ->
  seven_bit (buf sf) -> seven_bit stream -> reading ps cfg rest stream.
Proof. intros F S I Sb S7. split; [exists sf; auto|exact S7]. Qed.

Lemma reading_low (ps : pstate) (cfg : stackfile) (rest : list stackfile)
    (c : byte) (r : list byte) :
  reading ps cfg rest (c :: r) -> low c.
Proof. intros [_ S7]. now apply seven_bit_tail in S7. Qed.

(** Whether the eater starts with a byte just read from a [reading] file. *)
Lemma eater_starts_with_low (sf : stackfile) (c : byte) :
  low c ->
  eater_starts_with sf (int_of_char c)
  = match eater sf with Some e => Byte.eqb (str0 e) c | None => false end.
Proof.
  intros Lc. unfold eater_starts_with. destruct (eater sf) as [e|]; [|reflexivity].
  apply int_of_gchar_eqb. exact Lc.
Qed.

Section Escapes.

Variable mrb_state : Type.
Variable mrb_load_string : list byte -> mrb_state -> pstate -> host_result mrb_state.
Variable mrb_load_file : list byte -> mrb_state -> pstate -> host_result mrb_state.
Variable g_fopen_r : list byte -> option (list byte).
Variable stdin_bytes : list byte.
Variable stack_default : option stackfile.

Local Abbreviation iter :=
  (ps_process_iter mrb_state mrb_load_string mrb_load_file g_fopen_r
                   stdin_bytes stack_default).
Local Abbreviation escape :=
  (ps_process_escape mrb_state mrb_load_string mrb_load_file g_fopen_r
                     stdin_bytes stack_default).

(** A turn of the loop at the escape: up to the escape branch. *)
Lemma iter_escape_head (m : mrb_state) (ps : pstate) (cfg : stackfile)
    (rest : list stackfile) (after : list byte) :
  reading ps cfg rest (cstr (hookesc cfg) ++ after) -> cstr (hookesc cfg) <> [] ->
  tbl_hit cfg (str0 (hookesc cfg)) ->
  exists ps3 : pstate,
    iter m ps = escape m ps3
    /\ reading ps3 cfg rest after
    /\ beyond_probe ps3 = beyond_probe ps /\ fixed ps3 = fixed ps.
Proof.
  intros R Ne H. rewrite <- (str0_cstr _ Ne) in H.
  destruct (cstr (hookesc cfg)) as [|c e'] eqn:Ce; [contradiction|]. simpl in R, H.
  destruct (ps_in_put_reading ps cfg rest c (e' ++ after) R)
    as (ps1 & ps2 & E1 & R1 & B1 & X1 & E2 & R2 & B2 & X2).
  destruct (reading_top _ _ _ _ R2) as (sf2 & _ & _ & _ & Hf & Tp & _ & He & _).
  destruct (ps_check_reading ps2 cfg rest (c :: e' ++ after) (hookesc cfg) true R2
              ltac:(discriminate) ltac:(rewrite Ce; discriminate))
    as (ps3 & E3 & R3 & B3 & X3).
  rewrite Ce in E3, R3.
  change (c :: e' ++ after) with ((c :: e') ++ after) in E3, R3.
  rewrite is_prefix_app in E3, R3. simpl andb in R3. cbv iota in R3.
  rewrite drop_app_length in R3.
  exists ps3. split; [|split; [exact R3|split; congruence]].
  unfold ps_process_iter. rewrite E1.
  rewrite (ps_check_hook_hit ps1 cfg rest (e' ++ after) c); [|exact R1|exact H].
  simpl. rewrite E2. simpl.
  unfold ps_check_hookesc. rewrite Hf, Tp. simpl. rewrite He.
  change ((c :: e') ++ after) with (c :: e' ++ after) in E3. rewrite E3. reflexivity.
Qed.

(** X10: a turn of the loop outside a macro at the escape (which is in
    the first-byte table), on a file whose put-back buffer and text ahead
    hold bytes below 0x80 only, followed by a byte [c] that does not start
    the eater, the escape not being the begin
    hook (or being the one byte [c] itself): the escape is consumed and
    written nowhere; a space or newline behind it is consumed as well and
    dropped, any other byte [c] is written to the top outfile as it is.
    Nothing goes to the macro body and the rest of the state is kept. *)
Theorem escape_outside_macro (m : mrb_state) (ps : pstate) (cfg : stackfile)
    (rest : list stackfile) (c : byte) (tail : list byte)
    (o : outfile) (outs : list outfile) :
  reading ps cfg rest (hookesc cfg ++ c :: tail) ->
  cstr (hookesc cfg) = hookesc cfg -> hookesc cfg <> [] ->
  tbl_hit cfg (str0 (hookesc cfg)) ->
  (forall e : list byte, eater cfg = Some e -> str0 e <> c) ->
  hook_esc_eq_beg cfg = false \/ hookesc cfg = [c] ->
  in_macro ps = 0 -> output ps = o :: outs ->
  exists ps' : pstate,
    iter m ps = Ok (m, ps', false)
    /\ reading ps' cfg rest tail
    /\ output ps' = (if Byte.eqb c " " || Byte.eqb c x0a then o else of_written o [c])
                    :: outs
    /\ macro_buf ps' = macro_buf ps /\ aside ps' = aside ps.
Proof.
  intros R Ce Ne H Ea Eb M O.
  rewrite <- Ce in R at 1. rewrite <- Ce in Ne.
  destruct (iter_escape_head m ps cfg rest (c :: tail) R Ne H)
    as (ps3 & E & R3 & B3 & X3).
  rewrite E. unfold ps_process_escape.
  assert (in_macro ps3 = 0) as -> by (inversion B3; congruence). simpl.
  destruct (ps_in_reading ps3 cfg rest c tail R3) as (ps4 & E4 & R4 & _ & B4 & X4).
  rewrite E4. rewrite int_of_char_not_EOF.
  destruct (reading_file _ _ _ _ R4) as (sf4 & F4 & T4 & _ & S4 & _).
  rewrite T4. simpl bind.
  assert (eater_starts_with sf4 (int_of_char c) = false) as ->.
  { rewrite (eater_starts_with_low sf4 c (reading_low _ _ _ _ _ R3)).
    assert (eater sf4 = eater cfg) as -> by (rewrite <- S4; reflexivity).
    destruct (eater cfg) as [e|] eqn:Ee; [|reflexivity].
    specialize (Ea e eq_refl).
    destruct (Byte.eqb (str0 e) c) eqn:Q; [|reflexivity].
    apply Byte.byte_dec_bl in Q. contradiction. }
  assert (output ps4 = o :: outs) as O4 by (inversion B3; inversion B4; congruence).
  assert (macro_buf ps4 = macro_buf ps) as Mb4 by (inversion B3; inversion B4; congruence).
  assert (aside ps4 = aside ps) as A4.
  { rewrite (aside_of_fixed ps3 ps4 B4 X4). apply (aside_of_fixed ps ps3 B3 X3). }
  rewrite !int_of_char_eqb. rewrite orb_comm.
  destruct (Byte.eqb c " " || Byte.eqb c x0a) eqn:W.
  - exists ps4. auto.
  - assert (hook_esc_eq_beg sf4 = hook_esc_eq_beg cfg) as -> by (rewrite <- S4; reflexivity).
    assert (hookesc sf4 = hookesc cfg) as -> by (rewrite <- S4; reflexivity).
    rewrite (ps_out_byte ps4 o outs c O4).
    destruct (hook_esc_eq_beg cfg) eqn:Q.
    + destruct Eb as [Eb|Eb]; [discriminate|]. rewrite Eb. simpl.
      rewrite Z.eqb_sym, (int_of_gchar_eqb c c (reading_low _ _ _ _ _ R3)), byte_eqb_refl.
      simpl. eexists. split; [reflexivity|]. simpl. auto.
    + simpl. eexists. split; [reflexivity|]. simpl. auto.
Qed.


(** X11: a turn of the loop inside a macro at the escape (which is in the
    first-byte table), on a file whose put-back buffer and text ahead hold
    bytes below 0x80 only, followed by a byte [c] that does not start the
    eater (and that is no space or newline
    when the escape equals the end hook): the escape is dropped and [c] is
    appended to the macro body as it is, whatever hook it may start;
    nothing is written. *)
Theorem escape_inside_macro (m : mrb_state) (ps : pstate) (cfg : stackfile)
    (rest : list stackfile) (c : byte) (tail : list byte) :
  reading ps cfg rest (hookesc cfg ++ c :: tail) ->
  cstr (hookesc cfg) = hookesc cfg -> hookesc cfg <> [] ->
  tbl_hit cfg (str0 (hookesc cfg)) ->
  (forall e : list byte, eater cfg = Some e -> str0 e <> c) ->
  hook_esc_eq_end cfg = false \/ Byte.eqb c " " || Byte.eqb c x0a = false ->
  in_macro ps <> 0 ->
  exists ps' : pstate,
    iter m ps = Ok (m, ps', false)
    /\ reading ps' cfg rest tail
    /\ macro_buf ps' = macro_buf ps ++ [c]
    /\ output ps' = output ps /\ aside ps' = aside ps.
Proof.
  intros R Ce Ne H Ea Eb M.
  rewrite <- Ce in R at 1. rewrite <- Ce in Ne.
  destruct (iter_escape_head m ps cfg rest (c :: tail) R Ne H)
    as (ps3 & E & R3 & B3 & X3).
  rewrite E. unfold ps_process_escape.
  assert (in_macro ps3 = in_macro ps) as -> by (inversion B3; congruence).
  destruct (Z.eqb_spec (in_macro ps) 0); [contradiction|]. simpl negb. cbv iota.
  destruct (ps_in_reading ps3 cfg rest c tail R3) as (ps4 & E4 & R4 & _ & B4 & X4).
  rewrite E4. rewrite int_of_char_not_EOF.
  destruct (reading_file _ _ _ _ R4) as (sf4 & F4 & T4 & _ & S4 & _).
  rewrite T4. simpl bind.
  assert (eater_starts_with sf4 (int_of_char c) = false) as ->.
  { rewrite (eater_starts_with_low sf4 c (reading_low _ _ _ _ _ R3)).
    assert (eater sf4 = eater cfg) as -> by (rewrite <- S4; reflexivity).
    destruct (eater cfg) as [e|] eqn:Ee; [|reflexivity].
    specialize (Ea e eq_refl).
    destruct (Byte.eqb (str0 e) c) eqn:Q; [|reflexivity].
    apply Byte.byte_dec_bl in Q. contradiction. }
  assert (hook_esc_eq_end sf4 = hook_esc_eq_end cfg) as -> by (rewrite <- S4; reflexivity).
  rewrite !int_of_char_eqb.
  assert ((Byte.eqb c " " || Byte.eqb c x0a) && hook_esc_eq_end cfg = false) as ->.
  { destruct Eb as [->| ->]; [apply andb_false_r|reflexivity]. }
  exists (ps_collect ps4 (int_of_char c)). split; [reflexivity|].
  split; [exact R4|].
  unfold ps_collect, set_macro_buf, set_bufs. cbn [macro_buf output].
  rewrite char_of_int_of_char.
  split; [inversion B3; inversion B4; congruence|].
  split; [inversion B3; inversion B4; congruence|].
  change (aside ps4 = aside ps).
  rewrite (aside_of_fixed ps3 ps4 B4 X4). apply (aside_of_fixed ps ps3 B3 X3).
Qed.

(** X12: a turn of the loop at the escape (which is in the first-byte
    table), on a file whose put-back buffer and text ahead hold bytes below
    0x80 only, followed by the eater string and one more byte (inside a
    macro: the escape not being the end hook, or
    the eater not starting with a space or newline): escape, eater and the
    byte behind the eater are all consumed; nothing is written and nothing
    goes to the macro body. *)
Theorem escaped_eater_is_swallowed (m : mrb_state) (ps : pstate) (cfg : stackfile)
    (rest : list stackfile) (e : list byte) (x : byte) (tail : list byte) :
  reading ps cfg rest (hookesc cfg ++ e ++ x :: tail) ->
  cstr (hookesc cfg) = hookesc cfg -> hookesc cfg <> [] ->
  tbl_hit cfg (str0 (hookesc cfg)) ->
  eater cfg = Some e -> cstr e = e -> e <> [] ->
  in_macro ps = 0 \/ hook_esc_eq_end cfg = false
  \/ Byte.eqb (str0 e) " " || Byte.eqb (str0 e) x0a = false ->
  exists ps' : pstate,
    iter m ps = Ok (m, ps', false)
    /\ reading ps' cfg rest tail
    /\ macro_buf ps' = macro_buf ps
    /\ output ps' = output ps /\ aside ps' = aside ps.
Proof.
  intros R Ce Ne H Ea Cea Nea Eb.
  rewrite <- Ce in R at 1. rewrite <- Ce in Ne.
  destruct (iter_escape_head m ps cfg rest (e ++ x :: tail) R Ne H)
    as (ps3 & E & R3 & B3 & X3).
  destruct e as [|c e']; [contradiction|]. simpl in R3, Eb.
  destruct (ps_in_reading ps3 cfg rest c (e' ++ x :: tail) R3)
    as (ps4 & E4 & R4 & (sf4' & F4' & T4' & P4') & B4 & X4).
  destruct (reading_file _ _ _ _ R4) as (sf4 & F4 & T4 & _ & S4 & _).
  assert (sf4' = sf4) by congruence. subst sf4'.
  assert (eater_starts_with sf4 (int_of_char c) = true) as Es.
  { rewrite (eater_starts_with_low sf4 c (reading_low _ _ _ _ _ R3)).
    assert (eater sf4 = eater cfg) as -> by (rewrite <- S4; reflexivity).
    rewrite Ea. simpl. apply byte_eqb_refl. }
  (* the eater probe and the byte read behind it *)
  assert (exists ps7 : pstate,
             ps_escape_eater ps4 (int_of_char c)
               (fun p => Ok (ps_collect p (int_of_char c))) = Ok ps7
             /\ ps_escape_eater ps4 (int_of_char c) (fun p => ps_out p (int_of_char c))
                = Ok ps7
             /\ reading ps7 cfg rest tail
             /\ beyond_probe ps7 = beyond_probe ps4 /\ fixed ps7 = fixed ps4)
    as (ps7 & K1 & K2 & R7 & B7 & X7).
  { destruct (ps_put_reading ps4 cfg rest sf4 c F4 S4 T4') as (ps5 & E5 & R5 & B5 & X5);
      [rewrite P4'; exact R4|exact (reading_low _ _ _ _ _ R3)|].
    rewrite P4' in R5.
    destruct (reading_file _ _ _ _ R5) as (sf5 & F5 & T5 & Hf5 & S5 & _).
    destruct (ps_check_reading ps5 cfg rest (c :: e' ++ x :: tail) (c :: e') true R5
                ltac:(discriminate) ltac:(rewrite Cea; discriminate))
      as (ps6 & E6 & R6 & B6 & X6).
    rewrite Cea in E6, R6.
    change (c :: e' ++ x :: tail) with ((c :: e') ++ x :: tail) in E6, R6.
    rewrite is_prefix_app in E6, R6. simpl andb in R6. cbv iota in R6.
    rewrite drop_app_length in R6.
    destruct (ps_in_reading ps6 cfg rest x tail R6) as (ps7 & E7 & R7 & _ & B7 & X7).
    exists ps7.
    assert (ps_check_eater ps5 = Ok (true, ps6)) as Ck.
    { unfold ps_check_eater. rewrite Hf5, T5. simpl.
      assert (eater sf5 = eater cfg) as -> by (rewrite <- S5; reflexivity).
      rewrite Ea. exact E6. }
    unfold ps_escape_eater. rewrite E5. simpl. rewrite Ck. simpl. rewrite E7. simpl.
    split; [reflexivity|]. split; [reflexivity|]. split; [exact R7|].
    split; congruence. }
  exists ps7. rewrite E. unfold ps_process_escape.
  assert (in_macro ps3 = in_macro ps) as -> by (inversion B3; congruence).
  rewrite E4, int_of_char_not_EOF, T4. simpl bind. rewrite Es.
  split.
  - destruct (Z.eqb_spec (in_macro ps) 0) as [Z0|NZ]; simpl negb; cbv iota.
    + rewrite K2. reflexivity.
    + assert (hook_esc_eq_end sf4 = hook_esc_eq_end cfg) as ->
        by (rewrite <- S4; reflexivity).
      rewrite !int_of_char_eqb.
      assert ((Byte.eqb c " " || Byte.eqb c x0a) && hook_esc_eq_end cfg = false) as ->.
      { destruct Eb as [Z0|[->| ->]]; [contradiction|apply andb_false_r|reflexivity]. }
      rewrite K1. reflexivity.
  - split; [exact R7|].
    split; [inversion B3; inversion B4; inversion B7; congruence|].
    split; [inversion B3; inversion B4; inversion B7; congruence|].
    rewrite (aside_of_fixed ps4 ps7 B7 X7), (aside_of_fixed ps3 ps4 B4 X4).
    apply (aside_of_fixed ps ps3 B3 X3).
Qed.

End Escapes.

Lemma escape_outside_macro_witness :
  exists ps' : pstate,
    demo_iter ps_at_escape = Ok (tt, ps', false)
    /\ reading ps' (top_settings ps_at_escape) [] (bs "<B")
    /\ output ps' = [of_written (of_written of_stdout (bs "A")) (bs "-")].
Proof.
  assert (reading ps_at_escape (top_settings ps_at_escape) []
            (hookesc (top_settings ps_at_escape) ++ "-"%byte :: bs "<B")) as R.
  { reading_now. }
  assert (tbl_hit (top_settings ps_at_escape) (str0 (hookesc (top_settings ps_at_escape))))
    as H by (exists 1; split; [reflexivity|discriminate]).
  assert (forall e : list byte, eater (top_settings ps_at_escape) = Some e ->
                                str0 e <> "-"%byte) as Ea by (intros e Q; discriminate Q).
  destruct (escape_outside_macro unit no_script no_script one_file [] None tt ps_at_escape
              (top_settings ps_at_escape) [] "-"%byte (bs "<B")
              (of_written of_stdout (bs "A")) [] R eq_refl ltac:(discriminate) H Ea
              (or_introl eq_refl) eq_refl eq_refl)
    as (ps' & E & R' & O & _).
  exists ps'. split; [exact E|]. split; [exact R'|exact O].
Defined.

Lemma escape_inside_macro_witness :
  exists ps' : pstate,
    demo_iter ps_escape_in_macro = Ok (tt, ps', false)
    /\ reading ps' (top_settings ps_escape_in_macro) [] (bs "-b>-")
    /\ macro_buf ps' = bs "a>".
Proof.
  assert (reading ps_escape_in_macro (top_settings ps_escape_in_macro) []
            (hookesc (top_settings ps_escape_in_macro) ++ ">"%byte :: bs "-b>-")) as R.
  { reading_now. }
  assert (tbl_hit (top_settings ps_escape_in_macro)
                  (str0 (hookesc (top_settings ps_escape_in_macro))))
    as H by (exists 1; split; [reflexivity|discriminate]).
  assert (forall e : list byte, eater (top_settings ps_escape_in_macro) = Some e ->
                                str0 e <> ">"%byte) as Ea by (intros e Q; discriminate Q).
  destruct (escape_inside_macro unit no_script no_script one_file [] None tt
              ps_escape_in_macro (top_settings ps_escape_in_macro) [] ">"%byte (bs "-b>-")
              R eq_refl ltac:(discriminate) H Ea (or_introl eq_refl)
              ltac:(discriminate))
    as (ps' & E & R' & Mb & _).
  exists ps'. split; [exact E|]. split; [exact R'|exact Mb].
Defined.

Lemma escaped_eater_is_swallowed_witness :
  exists ps' : pstate,
    demo_iter ps_at_eater = Ok (tt, ps', false)
    /\ reading ps' (top_settings ps_at_eater) [] (bs "Z")
    /\ output ps' = [of_stdout].
Proof.
  assert (reading ps_at_eater (top_settings ps_at_eater) []
            (hookesc (top_settings ps_at_eater) ++ bs "x" ++ "y"%byte :: bs "Z")) as R.
  { reading_now. }
  assert (tbl_hit (top_settings ps_at_eater) (str0 (hookesc (top_settings ps_at_eater))))
    as H by (exists 1; split; [reflexivity|discriminate]).
  destruct (escaped_eater_is_swallowed unit no_script no_script one_file [] None tt
              ps_at_eater (top_settings ps_at_eater) [] (bs "x") "y"%byte (bs "Z")
              R eq_refl ltac:(discriminate) H eq_refl eq_refl ltac:(discriminate)
              (or_introl eq_refl))
    as (ps' & E & R' & _ & O & _).
  exists ps'. split; [exact E|]. split; [exact R'|exact O].
Defined.

(** * Macros (ps_process_file, ps_process_hook_end_seq, ps_eval_cmd) *)

Lemma settings_set_curhook (sf : stackfile) (ch : list hookpair) :
  settings (set_curhook sf ch) = set_curhook (settings sf) ch.
Proof. reflexivity. Qed.

Lemma settings_set_macro (sf : stackfile) (b : bool) (l c : Z) :
  settings (set_macro sf b l c) = set_macro (settings sf) b l c.
Proof. reflexivity. Qed.

Section Macros.

Variable mrb_state : Type.
Variable mrb_load_string : list byte -> mrb_state -> pstate -> host_result mrb_state.
Variable mrb_load_file : list byte -> mrb_state -> pstate -> host_result mrb_state.
Variable g_fopen_r : list byte -> option (list byte).
Variable stdin_bytes : list byte.
Variable stack_default : option stackfile.

Local Abbreviation iter :=
  (ps_process_iter mrb_state mrb_load_string mrb_load_file g_fopen_r
                   stdin_bytes stack_default).
Local Abbreviation loop :=
  (ps_process_loop mrb_state mrb_load_string mrb_load_file g_fopen_r
                   stdin_bytes stack_default).
Local Abbreviation hook_end_seq :=
  (ps_process_hook_end_seq mrb_state mrb_load_string mrb_load_file g_fopen_r
                           stdin_bytes stack_default).
Local Abbreviation eval_cmd :=
  (ps_eval_cmd mrb_state mrb_load_string mrb_load_file g_fopen_r
               stdin_bytes stack_default).
Local Abbreviation dispatch :=
  (ps_dispatch mrb_state mrb_load_string mrb_load_file g_fopen_r
               stdin_bytes stack_default).

(** The begin-hook probe in single-hook mode, on a match. *)
Lemma ps_check_hookbeg_single (ps : pstate) (cfg : stackfile) (rest : list stackfile)
    (tail : list byte) :
  reading ps cfg rest (cstr (beg (hook cfg)) ++ tail) ->
  multi cfg = multi_null -> cstr (beg (hook cfg)) <> [] ->
  exists (ps' : pstate) (sf' : stackfile),
    ps_check_hookbeg ps = Ok (true, ps')
    /\ file (fs ps') = sf' :: rest
    /\ settings sf' = set_curhook cfg (hookpair_cpy (hook cfg) :: curhook cfg)
    /\ incoming sf' = tail
    /\ beyond_probe ps' = beyond_probe ps /\ fixed ps' = fixed ps
    /\ seven_bit (buf sf') /\ seven_bit tail.
Proof.
  intros R M Nb.
  destruct (reading_file _ _ _ _ R) as (sf & F & T & Hf & S & I).
  assert (multi sf = multi cfg) as Ms by (rewrite <- S; reflexivity).
  assert (hook sf = hook cfg) as Hs by (rewrite <- S; reflexivity).
  unfold ps_check_hookbeg. rewrite Hf, T. simpl. rewrite Ms, M, Hs.
  assert (cstr (beg (hook cfg)) ++ tail <> []) as Ns.
  { destruct (cstr (beg (hook cfg))); [contradiction|discriminate]. }
  destruct (ps_check_reading ps cfg rest _ (beg (hook cfg)) true R Ns Nb)
    as (ps1 & E1 & R1 & B1 & X1).
  rewrite is_prefix_app in E1, R1. simpl andb in R1. cbv iota in R1.
  rewrite drop_app_length in R1. rewrite E1. simpl.
  destruct (reading_file _ _ _ _ R1) as (sf1 & F1 & T1 & _ & S1 & I1).
  rewrite T1. simpl.
  exists (ps_set_top ps1 (ps_push_curhook sf1 (hook cfg))), (ps_push_curhook sf1 (hook cfg)).
  split; [reflexivity|]. split; [simpl; now rewrite F1|].
  split; [unfold ps_push_curhook; rewrite settings_set_curhook, S1;
          rewrite <- S1; reflexivity|].
  split; [exact I1|]. split; [exact B1|].
  split; [rewrite <- X1; reflexivity|].
  split; [exact (reading_buf _ _ _ _ _ R1 F1)|exact (reading_seven_bit _ _ _ _ R1)].
Qed.

(** A turn of the loop outside a macro at the begin hook, single-hook mode:
    the macro is entered. *)
Lemma iter_enter_macro (m : mrb_state) (ps : pstate) (cfg : stackfile)
    (rest : list stackfile) (tail : list byte) :
  reading ps cfg rest (cstr (beg (hook cfg)) ++ tail) ->
  multi cfg = multi_null -> cstr (beg (hook cfg)) <> [] ->
  tbl_hit cfg (str0 (beg (hook cfg))) ->
  cstr (hookesc cfg) <> [] ->
  is_prefix (cstr (hookesc cfg)) (cstr (beg (hook cfg)) ++ tail) = false ->
  in_macro ps = 0 ->
  exists (ps' : pstate) (l c : Z),
    iter m ps = Ok (m, ps', false)
    /\ reading ps' (in_macro_of cfg (hook cfg) l c) rest tail
    /\ in_macro ps' = 1 /\ macro_buf ps' = []
    /\ output ps' = output ps /\ suspension ps' = suspension ps
    /\ flush ps' = flush ps /\ post_push ps' = post_push ps
    /\ post_pop ps' = post_pop ps /\ file_prev (fs ps') = file_prev (fs ps).
Proof.
  intros R M Nb H Ne Pe M0.
  rewrite <- (str0_cstr _ Nb) in H.
  destruct (cstr (beg (hook cfg))) as [|c b'] eqn:Cb; [contradiction|].
  simpl in R, H, Pe.
  destruct (iter_head ps cfg rest c (b' ++ tail) R H Ne Pe)
    as (ps1 & ps2 & ps3 & E1 & E2 & E3 & E4 & R3 & B3 & X3).
  unfold ps_process_iter. rewrite E1, E2. simpl. rewrite E3. simpl. rewrite E4. simpl.
  assert (in_macro ps3 = 0) as M3 by (inversion B3; congruence).
  rewrite M3. cbn [Z.eqb negb bind]. rewrite M3. cbn [Z.eqb negb bind].
  change (c :: b' ++ tail) with ((c :: b') ++ tail) in R3. rewrite <- Cb in R3.
  destruct (ps_check_hookbeg_single ps3 cfg rest tail R3 M)
    as (ps6 & sf6 & E6 & F6 & S6 & I6 & B6 & X6 & Sb6 & S76).
  { rewrite Cb. discriminate. }
  rewrite E6. cbn [bind].
  assert (in_macro ps6 = 0) as M6 by (inversion B6; congruence).
  rewrite M6. cbn [Z.eqb negb bind].
  unfold ps_enter_macro, ps_topfile, fs_topfile. simpl. rewrite F6. simpl.
  eexists _, (lineno sf6), (column sf6). split; [reflexivity|].
  split.
  { apply (reading_intro _ _ _ _ (sf_mark_macro sf6)); auto.
    - simpl. rewrite F6. reflexivity.
    - unfold sf_mark_macro, in_macro_of. rewrite settings_set_macro, S6. reflexivity. }
  rewrite M6. inversion B3. inversion B6. inversion X3. inversion X6.
  simpl. repeat split; congruence.
Qed.


(** From the begin hook to the end hook of a macro whose body has no byte of
    the first-byte table: the body is collected and the hook-end sequence
    is reached. *)
Lemma macro_collected (m : mrb_state) (ps : pstate) (cfg : stackfile)
    (rest : list stackfile) (body tail : list byte) :
  let b := cstr (beg (hook cfg)) in
  let e := cstr (end_ (hook cfg)) in
  reading ps cfg rest (b ++ body ++ e ++ tail) ->
  multi cfg = multi_null -> susp (hook cfg) = None ->
  b <> [] -> e <> [] ->
  tbl_hit cfg (str0 (beg (hook cfg))) -> tbl_hit cfg (str0 (end_ (hook cfg))) ->
  Forall (tbl_miss cfg) body ->
  cstr (hookesc cfg) <> [] ->
  is_prefix (cstr (hookesc cfg)) (b ++ body ++ e ++ tail) = false ->
  is_prefix (cstr (hookesc cfg)) (e ++ tail) = false ->
  in_macro ps = 0 -> suspension ps = 0 ->
  exists (ps1 ps5 : pstate) (l c : Z),
    loop (S (length body)) m ps = Ok (m, ps1, false)
    /\ iter m ps1 = hook_end_seq m ps5
    /\ reading ps5 (in_macro_of cfg (hook cfg) l c) rest tail
    /\ macro_buf ps5 = body /\ in_macro ps5 = 1 /\ suspension ps5 = 0
    /\ output ps5 = output ps /\ flush ps5 = flush ps
    /\ post_push ps5 = post_push ps /\ post_pop ps5 = post_pop ps
    /\ file_prev (fs ps5) = file_prev (fs ps).
Proof.
  intros b e R M Su Nb Ne Hb He Hm Nesc Pb Pe M0 S0.
  destruct (iter_enter_macro m ps cfg rest (body ++ e ++ tail) R M Nb Hb Nesc Pb M0)
    as (ps0 & l & c & E0 & R0 & M1 & Mb0 & O0 & S1 & Fl0 & Pu0 & Po0 & Fp0).
  set (cfg' := in_macro_of cfg (hook cfg) l c) in *.
  destruct (loop_macro_text mrb_state mrb_load_string mrb_load_file g_fopen_r
              stdin_bytes stack_default m cfg' rest body ps0 (e ++ tail) R0)
    as (ps1 & E1 & R1 & Mb1 & O1 & A1).
  { rewrite M1. discriminate. }
  { exact Hm. }
  assert (in_macro ps1 = 1 /\ suspension ps1 = 0 /\ flush ps1 = flush ps
          /\ post_push ps1 = post_push ps /\ post_pop ps1 = post_pop ps
          /\ file_prev (fs ps1) = file_prev (fs ps)) as (M1' & S1' & Fl1 & Pu1 & Po1 & Fp1).
  { unfold aside in A1. inversion A1. repeat split; congruence. }
  destruct (iter_end_token mrb_state mrb_load_string mrb_load_file g_fopen_r
              stdin_bytes stack_default m ps1 cfg' rest (hookpair_cpy (hook cfg))
              (curhook cfg) e tail R1)
    as (ps5 & R5 & B5 & X5 & E5).
  { rewrite M1'. discriminate. }
  { reflexivity. }
  { reflexivity. }
  { apply cstr_idem. }
  { exact Ne. }
  { unfold e. rewrite (str0_cstr _ Ne). exact He. }
  { exact Nesc. }
  { exact Pe. }
  { intros s0 Hs. simpl in Hs. rewrite Su in Hs. discriminate. }
  rewrite S1' in E5. simpl in E5.
  exists ps1, ps5, l, c.
  split.
  { change (S (length body)) with (1 + length body)%nat.
    rewrite (loop_app mrb_state mrb_load_string mrb_load_file g_fopen_r stdin_bytes
               stack_default 1 (length body) m m ps ps0).
    - exact E1.
    - simpl. rewrite E0. reflexivity. }
  split; [exact E5|]. split; [exact R5|].
  inversion B5. inversion X5.
  repeat split; try congruence.
  rewrite Mb1, Mb0 in *. simpl in *. congruence.
Qed.

(** The hook-end sequence at macro level 1 when the macro left the input
    stack and the deferred flags alone. *)
Lemma hook_end_seq_level_1 (m m1 : mrb_state) (ps ps6 : pstate) (brk : bool)
    (sf6 : stackfile) (rest6 : list stackfile) (hp : hookpair) (hooks : list hookpair) :
  in_macro ps = 1 ->
  eval_cmd m (set_in_macro ps 0) = Ok (m1, ps6, brk) ->
  file (fs ps6) = sf6 :: rest6 -> curhook sf6 = hp :: hooks ->
  post_push ps6 = false -> post_pop ps6 = false ->
  hook_end_seq m ps
  = Ok (m1, ps_set_top ps6 (set_curhook (sf_unmark_macro sf6) hooks), brk).
Proof.
  intros M E F C Pu Po. unfold ps_process_hook_end_seq. rewrite M.
  change (int_decr 1) with 0. cbn [in_macro set_in_macro Z.ltb Z.compare Z.eqb negb].
  rewrite E. cbn [bind]. unfold ps_topfile, fs_topfile. rewrite F. cbn [lift bind].
  unfold ps_pop_top_curhook, ps_topfile, fs_topfile, ps_pop_curhook.
  cbn [ps_set_top set_fs fs fs_set_top file lift bind curhook sf_unmark_macro set_macro].
  rewrite C. cbn [lift bind]. unfold ps_set_top, set_fs. cbn [post_push post_pop fs].
  rewrite Pu, Po. cbn [bind]. rewrite fs_set_top_twice. reflexivity.
Qed.


Lemma loop_1 (m : mrb_state) (ps : pstate) : loop 1 m ps = iter m ps.
Proof.
  simpl. destruct (iter m ps) as [[[m1 ps1] []]| |]; reflexivity.
Qed.

(** The turns of the loop over a macro end in the hook-end sequence, the
    body collected. *)
Lemma macro_reaches_end_seq (m : mrb_state) (ps : pstate) (cfg : stackfile)
    (rest : list stackfile) (body tail : list byte) :
  reading ps cfg rest (macro_text cfg body ++ tail) ->
  macro_ahead cfg body tail -> outside_macro ps ->
  exists (ps5 : pstate) (l c : Z),
    loop (S (S (length body))) m ps = hook_end_seq m ps5
    /\ reading ps5 (in_macro_of cfg (hook cfg) l c) rest tail
    /\ macro_buf ps5 = body /\ in_macro ps5 = 1 /\ suspension ps5 = 0
    /\ output ps5 = output ps /\ flush ps5 = flush ps
    /\ post_push ps5 = false /\ post_pop ps5 = false
    /\ file_prev (fs ps5) = file_prev (fs ps).
Proof.
  intros R (M & Su & Nb & Ne & Hb & He & Hm & Nesc & Pb & Pe) (M0 & S0 & Pu & Po).
  unfold macro_text in R, Pb. rewrite <- !app_assoc in R, Pb.
  destruct (macro_collected m ps cfg rest body tail R M Su Nb Ne Hb He Hm Nesc Pb Pe M0 S0)
    as (ps1 & ps5 & l & c & E1 & E5 & R5 & F).
  exists ps5, l, c. split; [|split; [exact R5|]; intuition congruence].
  replace (S (S (length body))) with (S (length body) + 1)%nat by lia.
  rewrite (loop_app mrb_state mrb_load_string mrb_load_file g_fopen_r stdin_bytes
             stack_default (S (length body)) 1 m m ps ps1 E1).
  rewrite loop_1. exact E5.
Qed.

(** The settings of the file once the macro is over. *)
Lemma settings_after_macro (sf : stackfile) (cfg : stackfile) (hp : hookpair) (l c : Z) :
  settings sf = in_macro_of cfg hp l c ->
  settings (set_curhook (sf_unmark_macro sf) (curhook cfg)) = set_macro cfg false l c.
Proof.
  intros S. unfold sf_unmark_macro. rewrite settings_set_curhook, settings_set_macro.
  change (macro_line sf) with (macro_line (settings sf)).
  change (macro_col sf) with (macro_col (settings sf)).
  rewrite S. destruct cfg; reflexivity.
Qed.

(** The turns of the loop over a macro whose evaluation changes the
    outfiles alone. *)
Lemma macro_done (m m1 : mrb_state) (ps : pstate) (cfg : stackfile)
    (rest : list stackfile) (body tail : list byte) (out' : list outfile) (brk : bool) :
  reading ps cfg rest (macro_text cfg body ++ tail) ->
  macro_ahead cfg body tail -> outside_macro ps ->
  (forall (p : pstate) (l c : Z),
     reading p (in_macro_of cfg (hook cfg) l c) rest tail ->
     macro_buf p = body -> output p = output ps ->
     eval_cmd m p = Ok (m1, set_output p out', brk)) ->
  exists (ps' : pstate) (l c : Z),
    loop (S (S (length body))) m ps = Ok (m1, ps', brk)
    /\ reading ps' (set_macro cfg false l c) rest tail
    /\ output ps' = out' /\ aside ps' = aside ps.
Proof.
  intros R A Out Ev.
  destruct (macro_reaches_end_seq m ps cfg rest body tail R A Out)
    as (ps5 & l & c & E & R5 & Mb & M5 & S5 & O5 & Fl5 & Pu5 & Po5 & Fp5).
  destruct (reading_file _ _ _ _ R5) as (sf5 & F5 & _ & _ & St5 & I5).
  specialize (Ev (set_in_macro ps5 0) l c R5 Mb O5).
  rewrite (hook_end_seq_level_1 m m1 ps5 (set_output (set_in_macro ps5 0) out') brk
             sf5 rest (hookpair_cpy (hook cfg)) (curhook cfg) M5 Ev F5) in E;
    [|change (curhook sf5) with (curhook (settings sf5)); rewrite St5; reflexivity
     |exact Pu5|exact Po5].
  eexists _, l, c. split; [exact E|].
  split.
  { apply (reading_intro _ _ _ _ (set_curhook (sf_unmark_macro sf5) (curhook cfg))).
    - simpl. rewrite F5. reflexivity.
    - apply (settings_after_macro sf5 cfg (hook cfg) l c St5).
    - exact I5.
    - exact (reading_buf _ _ _ _ _ R5 F5).
    - exact (reading_seven_bit _ _ _ _ R5). }
  destruct Out as (M0 & S0 & Pu & Po).
  split; [reflexivity|]. unfold aside. simpl. congruence.
Qed.

Lemma set_output_same (p : pstate) : set_output p (output p) = p.
Proof. destruct p; reflexivity. Qed.

(** X13: a macro whose body starts with [/], met outside a macro in
    single-hook mode: after one turn of the loop for the begin hook, one per
    byte of the body and one for the end hook, the whole macro is consumed,
    nothing has been written, the file reads on behind the end hook with
    its hook settings as before and the macro mark cleared, and the parser
    is outside the macro again. The setting is that of
    [reading], [macro_ahead] and [outside_macro]: the parser outside every
    macro with no push or pop pending; the file in single-hook mode without
    suspension string, hooks and escape not empty, the hooks in the
    first-byte table and no byte of the body in it, the escape matching
    neither at the begin nor at the end hook; the put-back buffer and the
    text ahead of bytes below 0x80 only. *)
Theorem comment_macro_leaves_no_trace (m : mrb_state) (ps : pstate) (cfg : stackfile)
    (rest : list stackfile) (body tail : list byte) :
  reading ps cfg rest (macro_text cfg body ++ tail) ->
  macro_ahead cfg body tail -> outside_macro ps ->
  str0 body = "/"%byte ->
  exists (ps' : pstate) (l c : Z),
    loop (S (S (length body))) m ps = Ok (m, ps', false)
    /\ reading ps' (set_macro cfg false l c) rest tail
    /\ output ps' = output ps /\ aside ps' = aside ps.
Proof.
  intros R A Out Sl.
  apply (macro_done m m ps cfg rest body tail (output ps) false R A Out).
  intros p l c Rp Mb Op. rewrite <- Op, set_output_same.
  unfold ps_eval_cmd, ps_get_macro. rewrite Mb, Sl.
  change (Byte.eqb "/" "+") with false. cbv iota. cbn [bind].
  unfold ps_dispatch. rewrite Sl. reflexivity.
Qed.

(** X14: a macro whose body starts with [#] is written back for a later
    round: after the turns over it the top outfile has received the begin
    hook, the body without its first byte (up to a NUL) and the end hook,
    and nothing else has changed but the place in the input. The setting is that of
    [reading], [macro_ahead] and [outside_macro]: the parser outside every
    macro with no push or pop pending; the file in single-hook mode without
    suspension string, hooks and escape not empty, the hooks in the
    first-byte table and no byte of the body in it, the escape matching
    neither at the begin nor at the end hook; the put-back buffer and the
    text ahead of bytes below 0x80 only. *)
Theorem deferred_macro_is_written_back (m : mrb_state) (ps : pstate) (cfg : stackfile)
    (rest : list stackfile) (body tail : list byte) (o : outfile) (outs : list outfile) :
  reading ps cfg rest (macro_text cfg body ++ tail) ->
  macro_ahead cfg body tail -> outside_macro ps ->
  str0 body = "#"%byte -> output ps = o :: outs ->
  exists (ps' : pstate) (l c : Z),
    loop (S (S (length body))) m ps = Ok (m, ps', false)
    /\ reading ps' (set_macro cfg false l c) rest tail
    /\ output ps' = of_written o (macro_text cfg (cstr (tl body))) :: outs
    /\ aside ps' = aside ps.
Proof.
  intros R A Out Sl O.
  apply (macro_done m m ps cfg rest body tail
           (of_written o (macro_text cfg (cstr (tl body))) :: outs) false R A Out).
  intros p l c Rp Mb Op. rewrite O in Op.
  destruct body as [|h t]; [discriminate|]. simpl in Sl. subst h.
  unfold ps_eval_cmd, ps_get_macro. rewrite Mb. cbn [str0 hd].
  change (Byte.eqb "#" "+") with false. cbv iota. cbn [bind].
  unfold ps_dispatch. cbn [str0 hd].
  change (Byte.eqb "#" ":") with false. change (Byte.eqb "#" ".") with false.
  change (Byte.eqb "#" "/") with false. rewrite byte_eqb_refl. cbv iota.
  pose proof (ps_current_hook_reading p _ rest tail (hookpair_cpy (hook cfg)) (curhook cfg)
                Rp eq_refl) as Ch.
  unfold ps_current_hookbeg, ps_current_hookend. rewrite Ch. cbn [bind].
  unfold ps_out_str.
  rewrite (ps_out_bytes_spec _ p o outs Op). cbn [bind].
  unfold arg_at. change (0 <=? 1) with true. cbn [andb].
  destruct (Z.leb_spec 1 (Z.of_nat (length ("#"%byte :: t)))); [|simpl length in *; lia].
  change (Z.to_nat 1) with 1%nat. cbn [drop bind]. rewrite drop_0.
  erewrite ps_out_bytes_spec by reflexivity. cbn [bind].
  match goal with
  | |- context [ps_current_hook ?q] =>
      rewrite (ps_current_hook_reading q _ rest tail (hookpair_cpy (hook cfg))
                 (curhook cfg) Rp eq_refl)
  end.
  cbn [bind]. erewrite ps_out_bytes_spec by reflexivity. cbn [bind].
  rewrite !of_written_app. unfold macro_text. cbn [beg end_ hookpair_cpy tl].
  unfold g_strdup. rewrite !cstr_idem, <- !app_assoc.
  destruct p; reflexivity.
Qed.


(** X15: a macro whose body is a script (it starts with none of [:], [/],
    [#], [+]), the script being one that leaves the parser state alone and
    evaluates to [v]: the script is handed to the interpreter once; when the
    body starts with [.], the script is the rest of the body and [v] is
    written to the top outfile; else the script is the whole body and
    nothing is written. The setting is that of
    [reading], [macro_ahead] and [outside_macro]: the parser outside every
    macro with no push or pop pending; the file in single-hook mode without
    suspension string, hooks and escape not empty, the hooks in the
    first-byte table and no byte of the body in it, the escape matching
    neither at the begin nor at the end hook; the put-back buffer and the
    text ahead of bytes below 0x80 only. *)
Theorem script_macro_is_evaluated (m m1 : mrb_state) (ps : pstate) (cfg : stackfile)
    (rest : list stackfile) (body tail v : list byte) (o : outfile) (outs : list outfile) :
  let dot := Byte.eqb (str0 body) "." in
  let code := if dot then tl body else body in
  reading ps cfg rest (macro_text cfg body ++ tail) ->
  macro_ahead cfg body tail -> outside_macro ps -> output ps = o :: outs ->
  Byte.eqb (str0 body) ":" || Byte.eqb (str0 body) "/" || Byte.eqb (str0 body) "#"
  || Byte.eqb (str0 body) "+" = false ->
  (forall p : pstate, mrb_load_string (cstr code) m p = host_value m1 p v) ->
  exists (ps' : pstate) (l c : Z),
    loop (S (S (length body))) m ps = Ok (m1, ps', false)
    /\ reading ps' (set_macro cfg false l c) rest tail
    /\ output ps' = (if dot then of_written o (cstr v) else o) :: outs
    /\ aside ps' = aside ps.
Proof.
  intros dot code R A Out O K Host.
  apply orb_false_iff in K as [K Kp]. apply orb_false_iff in K as [K Kh].
  apply orb_false_iff in K as [Kc Ks].
  apply (macro_done m m1 ps cfg rest body tail
           ((if dot then of_written o (cstr v) else o) :: outs) false R A Out).
  intros p l c Rp Mb Op. rewrite O in Op.
  unfold ps_eval_cmd, ps_get_macro. rewrite Mb, Kp. cbn [bind].
  unfold ps_dispatch. rewrite Kc. fold dot.
  destruct dot eqn:D.
  - unfold arg_at. change (0 <=? 1) with true. cbn [andb].
    destruct body as [|h t]; [discriminate|].
    destruct (Z.leb_spec 1 (Z.of_nat (length (h :: t)))); [|simpl length in *; lia].
    change (Z.to_nat 1) with 1%nat. cbn [drop bind]. rewrite drop_0.
    unfold ps_eval_ruby_str. unfold code in Host. cbn [tl] in Host. rewrite Host.
    cbn [bind]. unfold ps_out_str. rewrite (ps_out_bytes_spec _ p o outs Op). reflexivity.
  - rewrite Ks, Kh. unfold ps_eval_ruby_str. unfold code in Host. rewrite Host.
    cbn [bind]. rewrite <- Op, set_output_same. reflexivity.
Qed.

(** X16: a macro whose body starts with [:exit] makes the loop end: the
    turn of its end hook leaves the loop by [break], with the macro consumed,
    nothing written and the input behind it not read. The setting is that of
    [reading], [macro_ahead] and [outside_macro]: the parser outside every
    macro with no push or pop pending; the file in single-hook mode without
    suspension string, hooks and escape not empty, the hooks in the
    first-byte table and no byte of the body in it, the escape matching
    neither at the begin nor at the end hook; the put-back buffer and the
    text ahead of bytes below 0x80 only. *)
Theorem exit_macro_stops_the_loop (m : mrb_state) (ps : pstate) (cfg : stackfile)
    (rest : list stackfile) (t tail : list byte) :
  let body := bs ":exit" ++ t in
  reading ps cfg rest (macro_text cfg body ++ tail) ->
  macro_ahead cfg body tail -> outside_macro ps ->
  exists (ps' : pstate) (l c : Z),
    loop (S (S (length body))) m ps = Ok (m, ps', true)
    /\ reading ps' (set_macro cfg false l c) rest tail
    /\ output ps' = output ps /\ aside ps' = aside ps.
Proof.
  intros body R A Out.
  apply (macro_done m m ps cfg rest body tail (output ps) true R A Out).
  intros p l c Rp Mb Op. rewrite <- Op, set_output_same.
  unfold ps_eval_cmd, ps_get_macro. rewrite Mb. reflexivity.
Qed.

(** X17: a macro whose body starts with [:] and with none of the keywords
    of [ps_eval_cmd] ends the process: [mucgly_error] reports, with the
    severity [error] and a place in the current input file, the unknown
    command, named by the body behind the colon; nothing has been written
    for the macro, whose body stands in the macro buffer. The setting is that of
    [reading], [macro_ahead] and [outside_macro]: the parser outside every
    macro with no push or pop pending; the file in single-hook mode without
    suspension string, hooks and escape not empty, the hooks in the
    first-byte table and no byte of the body in it, the escape matching
    neither at the begin nor at the end hook; the put-back buffer and the
    text ahead of bytes below 0x80 only. *)
Theorem unknown_command_is_an_error (m : mrb_state) (ps : pstate) (cfg : stackfile)
    (rest : list stackfile) (body tail : list byte) :
  reading ps cfg rest (macro_text cfg body ++ tail) ->
  macro_ahead cfg body tail -> outside_macro ps ->
  str0 body = ":"%byte ->
  Forall (fun k : list byte => len_str_cmp k body = 0) directive_keywords ->
  exists (p : pstate) (l c : Z),
    loop (S (S (length body))) m ps
    = Exit (user_info "error" (Some (filename cfg, wrap (l + 1), wrap (c + 1)))
                      (msg_unknown_command (cstr (tl body))), p)
    /\ output p = output ps /\ macro_buf p = body.
Proof.
  intros R A Out Sl Kw.
  destruct (macro_reaches_end_seq m ps cfg rest body tail R A Out)
    as (ps5 & l & c & E & R5 & Mb & M5 & S5 & O5 & _).
  destruct (reading_file _ _ _ _ R5) as (sf5 & F5 & _ & _ & St5 & I5).
  exists (set_in_macro ps5 0), l, c. split; [|split; [exact O5|exact Mb]].
  rewrite E. unfold ps_process_hook_end_seq. rewrite M5.
  change (int_decr 1) with 0. cbn [in_macro set_in_macro Z.ltb Z.compare Z.eqb negb].
  assert (eval_cmd m (set_in_macro ps5 0)
          = Exit (user_info "error" (Some (filename cfg, wrap (l + 1), wrap (c + 1)))
                            (msg_unknown_command (cstr (tl body))), set_in_macro ps5 0))
    as ->; [|reflexivity].
  unfold ps_eval_cmd, ps_get_macro.
  change (macro_buf (set_in_macro ps5 0)) with (macro_buf ps5). rewrite Mb, Sl.
  change (Byte.eqb ":" "+") with false. cbv iota. cbn [bind].
  unfold ps_dispatch. rewrite Sl. rewrite byte_eqb_refl. cbv zeta.
  unfold directive_keywords in Kw.
  repeat match goal with
         | H : Forall _ (_ :: _) |- _ =>
             let H1 := fresh "K" in
             apply Forall_cons in H as [H1 H]; rewrite H1
         end.
  change (negb (0 =? 0)) with false. cbv iota.
  unfold ps_topfile, fs_topfile. change (fs (set_in_macro ps5 0)) with (fs ps5).
  rewrite F5. cbn [lift bind].
  unfold arg_at. change (0 <=? 1) with true. cbn [andb].
  destruct body as [|h t]; [discriminate|].
  destruct (Z.leb_spec 1 (Z.of_nat (length (h :: t)))); [|simpl length in *; lia].
  change (Z.to_nat 1) with 1%nat. cbn [drop bind tl]. rewrite drop_0.
  unfold mucgly_error, place_of.
  change (macro sf5) with (macro (settings sf5)).
  change (macro_line sf5) with (macro_line (settings sf5)).
  change (macro_col sf5) with (macro_col (settings sf5)).
  change (filename sf5) with (filename (settings sf5)).
  rewrite St5. reflexivity.
Qed.

End Macros.

Ltac macro_ahead_by_evaluation :=
  repeat split;
  first [ reflexivity
        | discriminate
        | exists 1; split; [reflexivity|discriminate]
        | repeat constructor ].

Lemma reading_ps_text (text : list byte) :
  seven_bit text -> reading (ps_text text) cfg_default [] text.
Proof.
  intros S7. split; [|exact S7]. exists (sf_default (bs "in") text).
  split; [reflexivity|]. split; [reflexivity|]. split; [reflexivity|constructor].
Qed.

Lemma comment_macro_leaves_no_trace_witness :
  exists (ps' : pstate) (l c : Z),
    demo_loop 4 (ps_text (bs "-</c>-T")) = Ok (tt, ps', false)
    /\ reading ps' (set_macro cfg_default false l c) [] (bs "T")
    /\ output ps' = [of_stdout] /\ aside ps' = aside (ps_text (bs "-</c>-T")).
Proof.
  assert (macro_ahead cfg_default (bs "/c") (bs "T")) as A by macro_ahead_by_evaluation.
  assert (outside_macro (ps_text (bs "-</c>-T"))) as Out by (repeat split).
  exact (comment_macro_leaves_no_trace unit no_script no_script one_file [] None tt
           (ps_text (bs "-</c>-T")) cfg_default [] (bs "/c") (bs "T")
           (reading_ps_text (bs "-</c>-T") ltac:(low_bytes)) A Out eq_refl).
Defined.

Lemma deferred_macro_is_written_back_witness :
  exists (ps' : pstate) (l c : Z),
    demo_loop 8 (ps_text (bs "-<#still>-")) = Ok (tt, ps', false)
    /\ reading ps' (set_macro cfg_default false l c) [] []
    /\ output ps' = [of_written of_stdout (bs "-<still>-")]
    /\ aside ps' = aside (ps_text (bs "-<#still>-")).
Proof.
  assert (macro_ahead cfg_default (bs "#still") []) as A by macro_ahead_by_evaluation.
  assert (outside_macro (ps_text (bs "-<#still>-"))) as Out by (repeat split).
  exact (deferred_macro_is_written_back unit no_script no_script one_file [] None tt
           (ps_text (bs "-<#still>-")) cfg_default [] (bs "#still") [] of_stdout []
           (reading_ps_text (bs "-<#still>-") ltac:(low_bytes)) A Out eq_refl eq_refl).
Defined.

Lemma script_macro_is_evaluated_witness :
  exists (ps' : pstate) (l c : Z),
    ps_process_loop unit answer_script no_script one_file [] None 6 tt
      (ps_text (bs "-<.6*7>-T")) = Ok (tt, ps', false)
    /\ reading ps' (set_macro cfg_default false l c) [] (bs "T")
    /\ output ps' = [of_written of_stdout (bs "42")]
    /\ aside ps' = aside (ps_text (bs "-<.6*7>-T")).
Proof.
  assert (macro_ahead cfg_default (bs ".6*7") (bs "T")) as A by macro_ahead_by_evaluation.
  assert (outside_macro (ps_text (bs "-<.6*7>-T"))) as Out by (repeat split).
  exact (script_macro_is_evaluated unit answer_script no_script one_file [] None tt tt
           (ps_text (bs "-<.6*7>-T")) cfg_default [] (bs ".6*7") (bs "T") (bs "42")
           of_stdout [] (reading_ps_text (bs "-<.6*7>-T") ltac:(low_bytes)) A Out eq_refl eq_refl (fun p => eq_refl)).
Defined.

Lemma exit_macro_stops_the_loop_witness :
  exists (ps' : pstate) (l c : Z),
    demo_loop 7 (ps_text (bs "-<:exit>-T")) = Ok (tt, ps', true)
    /\ reading ps' (set_macro cfg_default false l c) [] (bs "T")
    /\ output ps' = [of_stdout] /\ aside ps' = aside (ps_text (bs "-<:exit>-T")).
Proof.
  assert (macro_ahead cfg_default (bs ":exit" ++ []) (bs "T")) as A
    by macro_ahead_by_evaluation.
  assert (outside_macro (ps_text (bs "-<:exit>-T"))) as Out by (repeat split).
  exact (exit_macro_stops_the_loop unit no_script no_script one_file [] None tt
           (ps_text (bs "-<:exit>-T")) cfg_default [] [] (bs "T")
           (reading_ps_text (bs "-<:exit>-T") ltac:(low_bytes)) A Out).
Defined.

Lemma unknown_command_is_an_error_witness :
  exists (p : pstate) (l c : Z),
    demo_loop 7 (ps_text (bs "-<:nope>-T"))
    = Exit (user_info "error" (Some (bs "in", wrap (l + 1), wrap (c + 1)))
                      (msg_unknown_command (bs "nope")), p)
    /\ output p = [of_stdout] /\ macro_buf p = bs ":nope".
Proof.
  assert (macro_ahead cfg_default (bs ":nope") (bs "T")) as A by macro_ahead_by_evaluation.
  assert (outside_macro (ps_text (bs "-<:nope>-T"))) as Out by (repeat split).
  assert (Forall (fun k : list byte => len_str_cmp k (bs ":nope") = 0) directive_keywords)
    as Kw by (repeat constructor).
  exact (unknown_command_is_an_error unit no_script no_script one_file [] None tt
           (ps_text (bs "-<:nope>-T")) cfg_default [] (bs ":nope") (bs "T")
           (reading_ps_text (bs "-<:nope>-T") ltac:(low_bytes)) A Out eq_refl Kw).
Defined.

(** * Directives that set hooks (ps_eval_cmd) *)

Lemma cstr_no_nul (s : list byte) : no_nul s -> cstr s = s.
Proof.
  induction 1 as [|c r Hc _ IH]; simpl; [reflexivity|].
  destruct (Byte.eqb c x00) eqn:E; [apply Byte.byte_dec_bl in E; contradiction|].
  now rewrite IH.
Qed.

Lemma cstr_app_no_nul (a b : list byte) : no_nul a -> cstr (a ++ b) = a ++ cstr b.
Proof.
  induction 1 as [|c r Hc _ IH]; simpl; [reflexivity|].
  destruct (Byte.eqb c x00) eqn:E; [apply Byte.byte_dec_bl in E; contradiction|].
  now rewrite IH.
Qed.

Lemma one_word_no_nul (s : list byte) : one_word s -> no_nul s.
Proof. intros H. eapply Forall_impl; [exact H|]. simpl. tauto. Qed.

Lemma split_space_word (a : list byte) (r : option (list byte)) :
  one_word a ->
  split_space (a ++ match r with Some b => " "%byte :: b | None => [] end) = (a, r).
Proof.
  induction 1 as [|c t [_ Hc] _ IH]; simpl.
  - destruct r; reflexivity.
  - destruct (Byte.eqb c " ") eqn:E; [apply Byte.byte_dec_bl in E; contradiction|].
    now rewrite IH.
Qed.

(** [g_strsplit( s, " ", 2 )] on a word, and on a word, a space and more. *)
Lemma g_strsplit_2_words (a : list byte) (r : option (list byte)) :
  one_word a -> match r with Some b => no_nul b | None => a <> [] end ->
  g_strsplit_2 (a ++ match r with Some b => " "%byte :: b | None => [] end)
  = match r with Some b => [a; b] | None => [a] end.
Proof.
  intros Wa Hr. unfold g_strsplit_2.
  assert (cstr (a ++ match r with Some b => " "%byte :: b | None => [] end)
          = a ++ match r with Some b => " "%byte :: b | None => [] end) as ->.
  { rewrite cstr_app_no_nul by now apply one_word_no_nul.
    destruct r as [b|]; [|reflexivity]. simpl. now rewrite cstr_no_nul. }
  pose proof (split_space_word a r Wa) as Sp.
  destruct a as [|c t].
  - destruct r as [b|]; [reflexivity|contradiction].
  - cbn [app] in *. rewrite Sp. destruct r; reflexivity.
Qed.

(** [sf_set_hook] in single-hook mode, written out. *)
Lemma sf_set_hook_single_eq (sf : stackfile) (hk : hook_t) (value : list byte) :
  multi sf = multi_null -> low_hooks sf -> low_first value ->
  exists sf' : stackfile,
    sf_set_hook sf hk value = Ok sf'
    /\ multi sf' = multi_null
    /\ hook sf' = match hk with
                  | hook_beg => {| beg := cstr value; end_ := end_ (hook sf);
                                   susp := susp (hook sf) |}
                  | hook_end => {| beg := beg (hook sf); end_ := cstr value;
                                   susp := susp (hook sf) |}
                  | _ => hook sf
                  end
    /\ hookesc sf' = (if is_hook_esc hk then cstr value else hookesc sf)
    /\ hook_esc_eq_beg sf' = g_strcmp0_eq (hookesc sf') (beg (hook sf'))
    /\ hook_esc_eq_end sf' = g_strcmp0_eq (hookesc sf') (end_ (hook sf'))
    /\ without_multi (set_hooks sf' (hook sf) (hookesc sf) (eater sf)) = without_multi sf
    /\ bitmap_complete sf' /\ low_hooks sf'.
Proof.
  intros M (Lb & Le & Lx) Lv.
  assert (low_first (cstr value)) as Lv' by now apply low_first_cstr.
  assert (exists sf' : stackfile,
             sf_set_hook sf hk value = Ok sf'
             /\ multi sf' = multi_null
             /\ hook sf' = match hk with
                           | hook_beg => {| beg := cstr value; end_ := end_ (hook sf);
                                            susp := susp (hook sf) |}
                           | hook_end => {| beg := beg (hook sf); end_ := cstr value;
                                            susp := susp (hook sf) |}
                           | _ => hook sf
                           end
             /\ hookesc sf' = (if is_hook_esc hk then cstr value else hookesc sf)
             /\ hook_esc_eq_beg sf' = g_strcmp0_eq (hookesc sf') (beg (hook sf'))
             /\ hook_esc_eq_end sf' = g_strcmp0_eq (hookesc sf') (end_ (hook sf'))
             /\ without_multi (set_hooks sf' (hook sf) (hookesc sf) (eater sf))
                = without_multi sf)
    as (sf' & U & F).
  { unfold sf_set_hook. rewrite M. cbn [multi_is_null negb andb bind].
    destruct hk; rewrite ?(tbl_put_low _ _ _ Lx); cbn [bind];
      (rewrite sf_update_hook_cache_single; [|exact M|assumption..]);
      (eexists; split; [reflexivity|]); unfold single_cache;
      cbn [hook hookesc set_cache set_hooks hook_esc_eq_beg hook_esc_eq_end hook_1st_chars
           multi beg end_ susp is_hook_esc];
      (split; [exact M|]); (split; [reflexivity|]); (split; [reflexivity|]);
      (split; [reflexivity|]); (split; [reflexivity|]); destruct sf; reflexivity. }
  exists sf'. split; [exact U|].
  pose proof (sf_set_hook_single_complete sf sf' hk value M U) as Bc.
  destruct F as (F1 & F2 & F3 & F4 & F5 & F6).
  repeat (split; [assumption|]).
  unfold low_hooks. rewrite F2, F3. destruct hk; cbn [beg end_ is_hook_esc]; auto.
Qed.

Section Directives.

Variable mrb_state : Type.
Variable mrb_load_string : list byte -> mrb_state -> pstate -> host_result mrb_state.
Variable mrb_load_file : list byte -> mrb_state -> pstate -> host_result mrb_state.
Variable g_fopen_r : list byte -> option (list byte).
Variable stdin_bytes : list byte.
Variable stack_default : option stackfile.

Local Abbreviation dispatch :=
  (ps_dispatch mrb_state mrb_load_string mrb_load_file g_fopen_r
               stdin_bytes stack_default).

(** [ps_set_hook] on a top file in single-hook mode. *)
Lemma ps_set_hook_single (ps : pstate) (sf : stackfile) (rest : list stackfile)
    (hk : hook_t) (value : list byte) :
  file (fs ps) = sf :: rest -> multi sf = multi_null ->
  low_hooks sf -> low_first value ->
  exists sf' : stackfile,
    ps_set_hook ps hk value = Ok (ps_set_top ps sf')
    /\ sf_set_hook sf hk value = Ok sf'.
Proof.
  intros F M Lh Lv.
  destruct (sf_set_hook_single_eq sf hk value M Lh Lv) as (sf' & U & _).
  exists sf'. split; [|exact U].
  unfold ps_set_hook, ps_topfile, fs_topfile. rewrite F. cbn [lift bind].
  rewrite U. reflexivity.
Qed.

(** The directive [:hook], its argument behind one space. *)
Lemma dispatch_hook (m : mrb_state) (ps : pstate) (a : list byte) :
  dispatch m ps (bs ":hook " ++ a)
  = match g_strsplit_2 a with
    | [p0; p1] =>
        do ps1 <- ps_set_hook ps hook_beg p0;
        do ps2 <- ps_set_hook ps1 hook_end p1; Ok (m, ps2, false)
    | [p0] =>
        do ps1 <- ps_set_hook ps hook_beg p0;
        do ps2 <- ps_set_hook ps1 hook_end p0; Ok (m, ps2, false)
    | _ => Undef
    end.
Proof.
  unfold ps_dispatch. cbv beta zeta.
  change (Byte.eqb (str0 (bs ":hook " ++ a)) ":") with true. cbv iota.
  change (len_str_cmp (bs ":hookbeg") (bs ":hook " ++ a)) with 0.
  change (len_str_cmp (bs ":hookend") (bs ":hook " ++ a)) with 0.
  change (len_str_cmp (bs ":hookesc") (bs ":hook " ++ a)) with 0.
  change (len_str_cmp (bs ":eater") (bs ":hook " ++ a)) with 0.
  change (len_str_cmp (bs ":hookall") (bs ":hook " ++ a)) with 0.
  change (len_str_cmp (bs ":hook") (bs ":hook " ++ a)) with 5.
  change (negb (0 =? 0)) with false. change (negb (5 =? 0)) with true. cbv iota.
  unfold arg_at. change (0 <=? 5 + 1) with true. cbn [andb].
  destruct (Z.leb_spec (5 + 1) (Z.of_nat (length (bs ":hook " ++ a))));
    [|rewrite length_app in *; simpl length in *; lia].
  change (Z.to_nat (5 + 1)) with 6%nat. cbn [bind].
  change (drop 6 (bs ":hook " ++ a)) with a.
  destruct (g_strsplit_2 a) as [|p0 [|p1 [|p2 l]]]; reflexivity.
Qed.

(** The two calls of [sf_set_hook] that set a pair. *)
Lemma set_hook_pair (m : mrb_state) (ps : pstate) (sf : stackfile)
    (rest : list stackfile) (b e : list byte) :
  file (fs ps) = sf :: rest -> multi sf = multi_null -> no_nul b -> no_nul e ->
  low_hooks sf -> low_first b -> low_first e ->
  exists sf' : stackfile,
    (do ps1 <- ps_set_hook ps hook_beg b;
     do ps2 <- ps_set_hook ps1 hook_end e; Ok (m, ps2, false))
    = Ok (m, ps_set_top ps sf', false)
    /\ hook sf' = {| beg := b; end_ := e; susp := susp (hook sf) |}
    /\ hookesc sf' = hookesc sf /\ multi sf' = multi_null
    /\ without_multi (set_hooks sf' (hook sf) (hookesc sf) (eater sf)) = without_multi sf
    /\ bitmap_complete sf'.
Proof.
  intros F M Nb Ne Lh Lb Le.
  destruct (ps_set_hook_single ps sf rest hook_beg b F M Lh Lb) as (sf1 & E1 & U1).
  destruct (sf_set_hook_single_eq sf hook_beg b M Lh Lb)
    as (sf1' & U1' & M1 & H1 & Es1 & _ & _ & W1 & _ & Lh1).
  assert (sf1' = sf1) by congruence. subst sf1'.
  rewrite E1. cbn [bind].
  destruct (ps_set_hook_single (ps_set_top ps sf1) sf1 rest hook_end e) as (sf2 & E2 & U2);
    [simpl; now rewrite F|exact M1|exact Lh1|exact Le|].
  destruct (sf_set_hook_single_eq sf1 hook_end e M1 Lh1 Le)
    as (sf2' & U2' & M2 & H2 & Es2 & _ & _ & W2 & Bc2 & _).
  assert (sf2' = sf2) by congruence. subst sf2'.
  rewrite E2. cbn [bind]. exists sf2.
  split.
  { unfold ps_set_top. cbn [fs set_fs]. rewrite fs_set_top_twice. reflexivity. }
  rewrite (cstr_no_nul _ Nb) in H1. rewrite (cstr_no_nul _ Ne) in H2.
  split; [rewrite H2, H1; reflexivity|].
  split; [simpl in Es1, Es2; congruence|]. split; [exact M2|].
  split; [|exact Bc2].
  transitivity (without_multi (set_hooks sf1 (hook sf) (hookesc sf) (eater sf)));
    [|exact W1].
  exact (f_equal (fun s => without_multi (set_hooks s (hook sf) (hookesc sf) (eater sf)))
                 W2).
Qed.

(** X18: the directive [:hook], handed to [ps_eval_cmd] with the top file
    in single-hook mode, the hooks and the escape of that file and the new
    hooks all starting with a byte below 0x80: behind [:hook ] a word [b]
    without space makes [b] the begin hook and the end hook; a word [b], a
    space and a string [e] make [b] the begin hook and [e], spaces and all,
    the end hook.  The escape, the eater, the stream and the file point are
    as before, and the first-byte table is complete for the new hooks. *)
Theorem hook_directive_sets_the_pair (m : mrb_state) (ps : pstate) (sf : stackfile)
    (rest : list stackfile) (b : list byte) (e : option (list byte)) :
  file (fs ps) = sf :: rest -> multi sf = multi_null ->
  one_word b -> match e with Some e' => no_nul e' | None => b <> [] end ->
  low_hooks sf -> low_first b ->
  match e with Some e' => low_first e' | None => True end ->
  exists sf' : stackfile,
    dispatch m ps (bs ":hook " ++ b ++ match e with Some e' => " "%byte :: e' | None => [] end)
    = Ok (m, ps_set_top ps sf', false)
    /\ hook sf' = {| beg := b; end_ := match e with Some e' => e' | None => b end;
                     susp := susp (hook sf) |}
    /\ hookesc sf' = hookesc sf /\ multi sf' = multi_null
    /\ without_multi (set_hooks sf' (hook sf) (hookesc sf) (eater sf)) = without_multi sf
    /\ bitmap_complete sf'.
Proof.
  intros F M Wb He Lh Lb Le.
  rewrite dispatch_hook, (g_strsplit_2_words b e Wb He).
  pose proof (one_word_no_nul b Wb) as Nb.
  destruct e as [e'|].
  - exact (set_hook_pair m ps sf rest b e' F M Nb He Lh Lb Le).
  - exact (set_hook_pair m ps sf rest b b F M Nb Nb Lh Lb Lb).
Qed.

End Directives.

Lemma hook_directive_sets_the_pair_witness :
  exists sf' : stackfile,
    demo_dispatch (ps_text []) (bs ":hook ( )") = Ok (tt, ps_set_top (ps_text []) sf', false)
    /\ hook sf' = {| beg := bs "("; end_ := bs ")"; susp := None |}
    /\ hookesc sf' = bs "\"
    /\ bitmap_complete sf'.
Proof.
  assert (one_word (bs "(")) as Wb by (repeat constructor; discriminate).
  assert (no_nul (bs ")")) as Ne by (repeat constructor; discriminate).
  destruct (hook_directive_sets_the_pair unit no_script no_script one_file [] None tt
              (ps_text []) (sf_default (bs "in") []) [] (bs "(") (Some (bs ")"))
              eq_refl eq_refl Wb Ne)
    as (sf' & E & H & Es & _ & _ & Bc); [low_bytes..|].
  exists sf'. split; [exact E|]. split; [exact H|]. split; [exact Es|exact Bc].
Defined.

(** * The begin-hook probe in multi-hook mode (ps_check_hookbeg) *)

Lemma flat_map_all_some (l : list (option hookpair)) :
  (forall i : nat, (i < length l)%nat -> exists hp : hookpair, l !! i = Some (Some hp)) ->
  map Some (flat_map (fun o : option hookpair =>
                        match o with Some hp => [hp] | None => [] end) l) = l.
Proof.
  induction l as [|o l IH]; intros H; [reflexivity|].
  destruct (H 0%nat ltac:(simpl; lia)) as (hp & E). simpl in E. inversion E. subst o.
  simpl. f_equal. apply IH. intros i Hi. apply (H (S i)). simpl. lia.
Qed.

(** Under [multi_ok] the pairs in use are the first [multi_cnt] slots. *)
Lemma multi_pairs_slots (sf : stackfile) (slots : list (option hookpair)) :
  multi sf = multi_arr slots -> multi_ok sf ->
  take (Z.to_nat (multi_cnt sf)) slots = map Some (multi_pairs sf)
  /\ length (multi_pairs sf) = Z.to_nat (multi_cnt sf).
Proof.
  intros M W. unfold multi_ok in W. rewrite M in W. destruct W as (Ls & Cr & Sl & _).
  unfold MULTI_LIMIT in *. unfold multi_pairs. rewrite M.
  assert (map Some (flat_map (fun o : option hookpair =>
                                match o with Some hp => [hp] | None => [] end)
                             (take (Z.to_nat (multi_cnt sf)) slots))
          = take (Z.to_nat (multi_cnt sf)) slots) as E.
  { apply flat_map_all_some. intros i Hi. rewrite length_take in Hi.
    rewrite lookup_take_lt by lia. apply Sl. lia. }
  split; [now rewrite E|].
  apply (f_equal (@length _)) in E. rewrite length_map, length_take in E. lia.
Qed.

Lemma ps_check_pops_reading (ps : pstate) (cfg : stackfile) (rest : list stackfile)
    (stream m : list byte) :
  reading ps cfg rest stream -> stream <> [] -> cstr m <> [] ->
  ps_check_pops ps m = false.
Proof.
  intros [(sf & F & S & I & Sb) _] Ns Nm. unfold ps_check_pops, fs_get_n.
  destruct (fs_get_n_loop_spec (Z.to_nat (strlen m)) (fs ps) sf rest [] F Sb)
    as (sf' & G & _). rewrite G. cbn [fst app]. rewrite I.
  unfold strlen. rewrite Nat2Z.id.
  destruct stream; [contradiction|]. destruct (cstr m); [contradiction|]. reflexivity.
Qed.

(** The loop of [ps_check_hookbeg] over the multi-hooks from slot [i] on. *)
Lemma ps_check_multi_spec (cfg : stackfile) (rest : list stackfile)
    (stream : list byte) (slots : list (option hookpair)) (pairs : list hookpair) (n : nat) :
  forall (i : nat) (ps : pstate),
    reading ps cfg rest stream -> stream <> [] ->
    take (i + n) slots = map Some pairs -> length pairs = (i + n)%nat ->
    Forall (fun hp : hookpair => cstr (beg hp) <> []) pairs ->
    exists (b : bool) (ps' : pstate),
      ps_check_multi n i slots ps = Ok (b, ps')
      /\ match first_beg_match (drop i pairs) stream with
         | Some hp =>
             b = true
             /\ reading ps' (set_curhook cfg (hookpair_cpy hp :: curhook cfg)) rest
                        (drop (length (cstr (beg hp))) stream)
         | None => b = false /\ reading ps' cfg rest stream
         end
      /\ beyond_probe ps' = beyond_probe ps /\ fixed ps' = fixed ps.
Proof.
  induction n as [|n IH]; intros i ps R Ns T L Nb.
  - exists false, ps. simpl. rewrite Nat.add_0_r in L.
    rewrite drop_ge by lia. simpl. auto.
  - assert (exists hp : hookpair, pairs !! i = Some hp) as (hp & Pi).
    { apply lookup_lt_is_Some. lia. }
    assert (slots !! i = Some (Some hp)) as Si.
    { rewrite <- (lookup_take_lt slots (i + S n) i) by lia.
      rewrite T, list_lookup_fmap, Pi. reflexivity. }
    assert (cstr (beg hp) <> []) as Nh.
    { rewrite Forall_forall in Nb. apply Nb.
      eapply list_elem_of_lookup_2. exact Pi. }
    simpl ps_check_multi. rewrite Si.
    destruct (ps_check_reading ps cfg rest stream (beg hp) true R Ns Nh)
      as (ps1 & E1 & R1 & B1 & X1).
    rewrite E1. cbn [bind]. rewrite (drop_S _ _ _ Pi). unfold first_beg_match. simpl find.
    destruct (is_prefix (cstr (beg hp)) stream) eqn:P.
    + simpl andb in R1. cbv iota in R1.
      destruct (reading_file _ _ _ _ R1) as (sf1 & F1 & T1 & _ & S1 & I1).
      rewrite T1. cbn [bind].
      exists true, (ps_set_top ps1 (ps_push_curhook sf1 hp)).
      split; [reflexivity|]. split; [|split; [exact B1|rewrite <- X1; reflexivity]].
      split; [reflexivity|].
      apply (reading_intro _ _ _ _ (ps_push_curhook sf1 hp)).
      * simpl. rewrite F1. reflexivity.
      * unfold ps_push_curhook. rewrite settings_set_curhook, S1. rewrite <- S1.
        reflexivity.
      * exact I1.
      * exact (reading_buf _ _ _ _ _ R1 F1).
      * exact (reading_seven_bit _ _ _ _ R1).
    + rewrite (ps_check_pops_reading ps cfg rest stream (beg hp) R Ns Nh).
      simpl andb in R1. cbv iota in R1.
      destruct (IH (S i) ps1 R1 Ns) as (b & ps' & E' & H' & B' & X'); auto.
      * rewrite <- T. f_equal. lia.
      * lia.
      * exists b, ps'. split; [exact E'|]. split; [exact H'|]. split; congruence.
Qed.

(** X19: [ps_check_hookbeg] in multi-hook mode, the array in order, no
    begin hook empty, the top file with a byte to give, its put-back buffer
    and the text ahead of bytes below 0x80 only: the pairs are
    probed in the order of the array and the first whose begin hook the
    stream starts with wins, also when a later one would match more: its
    begin hook is consumed and a copy of the pair becomes the current hook;
    when none matches the stream is as before.  Nothing else of the parser
    state changes. *)
Theorem multi_hookbeg_first_match (ps : pstate) (cfg : stackfile)
    (rest : list stackfile) (stream : list byte) (slots : list (option hookpair)) :
  reading ps cfg rest stream -> stream <> [] ->
  multi cfg = multi_arr slots -> multi_ok cfg ->
  Forall (fun hp : hookpair => cstr (beg hp) <> []) (multi_pairs cfg) ->
  exists (b : bool) (ps' : pstate),
    ps_check_hookbeg ps = Ok (b, ps')
    /\ match first_beg_match (multi_pairs cfg) stream with
       | Some hp =>
           b = true
           /\ reading ps' (set_curhook cfg (hookpair_cpy hp :: curhook cfg)) rest
                      (drop (length (cstr (beg hp))) stream)
       | None => b = false /\ reading ps' cfg rest stream
       end
    /\ beyond_probe ps' = beyond_probe ps /\ fixed ps' = fixed ps.
Proof.
  intros R Ns M W Nb.
  destruct (multi_pairs_slots cfg slots M W) as [T L].
  destruct (reading_file _ _ _ _ R) as (sf & F & Tp & Hf & S & I).
  assert (multi sf = multi cfg) as Ms by (rewrite <- S; reflexivity).
  assert (multi_cnt sf = multi_cnt cfg) as Mc by (rewrite <- S; reflexivity).
  unfold ps_check_hookbeg. rewrite Hf, Tp. cbn [negb bind]. rewrite Ms, M, Mc.
  apply (ps_check_multi_spec cfg rest stream slots (multi_pairs cfg)
           (Z.to_nat (multi_cnt cfg)) 0 ps R Ns T L Nb).
Qed.

Lemma multi_ok_sf_two_multi : multi_ok (settings sf_two_multi).
Proof.
  split; [reflexivity|]. split; [split; discriminate|]. split; [|reflexivity].
  intros i Hi. destruct i as [|[|i]]; [eexists; reflexivity..|].
  change (Z.to_nat (multi_cnt (settings sf_two_multi))) with 2%nat in Hi. lia.
Qed.

Lemma multi_hookbeg_first_match_witness :
  exists ps' : pstate,
    ps_check_hookbeg (ps_on [sf_two_multi]) = Ok (true, ps')
    /\ reading ps'
         (set_curhook (settings sf_two_multi)
                      [{| beg := bs "<"; end_ := bs ")"; susp := None |}])
         [] (bs "<x").
Proof.
  assert (reading (ps_on [sf_two_multi]) (settings sf_two_multi) [] (bs "<<x")) as R.
  { reading_now. }
  assert (Forall (fun hp : hookpair => cstr (beg hp) <> [])
                 (multi_pairs (settings sf_two_multi))) as Nb
    by (repeat constructor; discriminate).
  destruct (multi_hookbeg_first_match (ps_on [sf_two_multi]) (settings sf_two_multi) []
              (bs "<<x") (slots_of (settings sf_two_multi)) R ltac:(discriminate)
              eq_refl multi_ok_sf_two_multi Nb)
    as (b & ps' & E & H & _).
  change (first_beg_match (multi_pairs (settings sf_two_multi)) (bs "<<x"))
    with (Some {| beg := bs "<"; end_ := bs ")"; susp := None |}) in H.
  destruct H as [-> H]. exists ps'. split; [exact E|exact H].
Defined.

(** * A macro inside a macro (ps_process_file, ps_process_hook_end_seq) *)

Section Nested.

Variable mrb_state : Type.
Variable mrb_load_string : list byte -> mrb_state -> pstate -> host_result mrb_state.
Variable mrb_load_file : list byte -> mrb_state -> pstate -> host_result mrb_state.
Variable g_fopen_r : list byte -> option (list byte).
Variable stdin_bytes : list byte.
Variable stack_default : option stackfile.

Local Abbreviation iter :=
  (ps_process_iter mrb_state mrb_load_string mrb_load_file g_fopen_r
                   stdin_bytes stack_default).
Local Abbreviation loop :=
  (ps_process_loop mrb_state mrb_load_string mrb_load_file g_fopen_r
                   stdin_bytes stack_default).
Local Abbreviation hook_end_seq :=
  (ps_process_hook_end_seq mrb_state mrb_load_string mrb_load_file g_fopen_r
                           stdin_bytes stack_default).

(** The suspension probe and the end-hook probe of a turn inside a macro,
    neither matching. *)
Lemma inner_probes_miss (ps : pstate) (cfg : stackfile) (rest : list stackfile)
    (hp : hookpair) (hooks : list hookpair) (stream : list byte) :
  reading ps cfg rest stream -> stream <> [] ->
  curhook cfg = hp :: hooks ->
  (forall s : list byte, susp hp = Some s ->
     cstr s <> [] /\ is_prefix (cstr s) stream = false) ->
  cstr (end_ hp) <> [] -> is_prefix (cstr (end_ hp)) stream = false ->
  exists ps4 ps5 : pstate,
    ps_check_hooksusp ps = Ok (false, ps4)
    /\ beyond_probe ps4 = beyond_probe ps
    /\ ps_check_hookend ps4 = Ok (false, ps5)
    /\ reading ps5 cfg rest stream
    /\ beyond_probe ps5 = beyond_probe ps /\ fixed ps5 = fixed ps.
Proof.
  intros R Ns C Ps Ne Pe.
  destruct (reading_file _ _ _ _ R) as (sf & _ & _ & Hf & _).
  assert (exists ps4 : pstate,
             ps_check_hooksusp ps = Ok (false, ps4)
             /\ reading ps4 cfg rest stream
             /\ beyond_probe ps4 = beyond_probe ps /\ fixed ps4 = fixed ps)
    as (ps4 & E4 & R4 & B4 & X4).
  { unfold ps_check_hooksusp, ps_current_hooksusp. rewrite Hf. simpl.
    rewrite (ps_current_hook_reading ps cfg rest _ hp hooks R C). simpl.
    destruct (susp hp) as [s|] eqn:Su.
    - destruct (Ps s eq_refl) as [Nss Pf].
      destruct (ps_check_reading ps cfg rest stream s true R Ns Nss)
        as (ps4 & E4 & R4 & B4 & X4).
      rewrite Pf in E4, R4. simpl in R4. eauto.
    - exists ps. auto. }
  destruct (reading_file _ _ _ _ R4) as (sf4 & _ & _ & Hf4 & _).
  destruct (ps_check_reading ps4 cfg rest stream (end_ hp) true R4 Ns Ne)
    as (ps5 & E5 & R5 & B5 & X5).
  rewrite Pe in E5, R5. simpl in R5.
  exists ps4, ps5. split; [exact E4|]. split; [exact B4|].
  split; [|split; [exact R5|split; congruence]].
  unfold ps_check_hookend, ps_current_hookend. rewrite Hf4. simpl.
  rewrite (ps_current_hook_reading ps4 cfg rest _ hp hooks R4 C). simpl. exact E5.
Qed.

(** A turn of the loop inside a macro at the begin hook, single-hook mode:
    the level rises and the begin hook goes to the output. *)
Lemma iter_nested_begin (m : mrb_state) (ps : pstate) (cfg : stackfile)
    (rest : list stackfile) (hp : hookpair) (hooks : list hookpair)
    (tail : list byte) (o : outfile) (outs : list outfile) :
  let b := cstr (beg (hook cfg)) in
  reading ps cfg rest (b ++ tail) ->
  multi cfg = multi_null -> b <> [] -> tbl_hit cfg (str0 (beg (hook cfg))) ->
  cstr (hookesc cfg) <> [] -> is_prefix (cstr (hookesc cfg)) (b ++ tail) = false ->
  curhook cfg = hp :: hooks ->
  (forall s : list byte, susp hp = Some s ->
     cstr s <> [] /\ is_prefix (cstr s) (b ++ tail) = false) ->
  cstr (end_ hp) <> [] -> is_prefix (cstr (end_ hp)) (b ++ tail) = false ->
  0 < in_macro ps < 2147483647 -> output ps = o :: outs ->
  exists ps' : pstate,
    iter m ps = Ok (m, ps', false)
    /\ reading ps' (set_curhook cfg (hookpair_cpy (hook cfg) :: curhook cfg)) rest tail
    /\ in_macro ps' = in_macro ps + 1
    /\ output ps' = of_written o b :: outs
    /\ macro_buf ps' = macro_buf ps /\ suspension ps' = suspension ps
    /\ flush ps' = flush ps /\ post_push ps' = post_push ps
    /\ post_pop ps' = post_pop ps /\ file_prev (fs ps') = file_prev (fs ps).
Proof.
  intros b R M Nb H Nesc Pesc C Ps Ne Pe Mr O.
  assert (b ++ tail <> []) as Ns by (destruct b; [contradiction|discriminate]).
  pose proof H as H'. rewrite <- (str0_cstr _ Nb) in H'. fold b in H'.
  destruct b as [|c b'] eqn:Cb; [contradiction|]. simpl in R, H', Pesc.
  destruct (iter_head ps cfg rest c (b' ++ tail) R H' Nesc Pesc)
    as (ps1 & ps2 & ps3 & E1 & E2 & E3 & E4 & R3 & B3 & X3).
  unfold ps_process_iter. rewrite E1, E2. cbn [bind]. rewrite E3. cbn [bind].
  rewrite E4. cbn [bind].
  assert (in_macro ps3 = in_macro ps) as M3 by (inversion B3; congruence).
  rewrite M3. destruct (Z.eqb_spec (in_macro ps) 0); [lia|]. cbn [negb].
  destruct (inner_probes_miss ps3 cfg rest hp hooks _ R3 Ns C Ps Ne Pe)
    as (ps4 & ps5 & E5 & B4 & E6 & R5 & B5 & X5).
  rewrite E5. cbn [bind].
  assert (in_macro ps4 = in_macro ps) as M4 by (inversion B4; congruence).
  rewrite M4. destruct (Z.eqb_spec (in_macro ps) 0); [lia|]. cbn [negb].
  rewrite E6. cbn [bind].
  change (c :: b' ++ tail) with ((c :: b') ++ tail) in R5. rewrite <- Cb in R5.
  destruct (ps_check_hookbeg_single ps5 cfg rest tail R5 M)
    as (ps6 & sf6 & E7 & F6 & S6 & I6 & B6 & X6 & Sb6 & S76).
  { fold b. rewrite Cb. discriminate. }
  rewrite E7. cbn [bind].
  assert (in_macro ps6 = in_macro ps) as M6 by (inversion B5; inversion B6; congruence).
  rewrite M6. destruct (Z.eqb_spec (in_macro ps) 0); [lia|]. cbn [negb].
  rewrite int_incr_small by lia.
  assert (reading (set_in_macro ps6 (in_macro ps + 1))
                  (set_curhook cfg (hookpair_cpy (hook cfg) :: curhook cfg)) rest tail)
    as R7 by (apply (reading_intro _ _ _ _ sf6); auto).
  unfold ps_current_hookbeg.
  rewrite (ps_current_hook_reading _ _ rest tail (hookpair_cpy (hook cfg)) (curhook cfg)
             R7 eq_refl).
  cbn [bind]. unfold ps_out_str.
  assert (output (set_in_macro ps6 (in_macro ps + 1)) = o :: outs) as O7.
  { inversion B3. inversion B5. inversion B6. simpl. congruence. }
  rewrite (ps_out_bytes_spec _ _ o outs O7). cbn [bind].
  eexists. split; [reflexivity|]. split; [exact R7|].
  cbn [beg hookpair_cpy]. unfold g_strdup. rewrite cstr_idem. fold b. rewrite Cb.
  inversion B3. inversion B5. inversion B6. inversion X3. inversion X5. inversion X6.
  simpl. repeat split; congruence.
Qed.


(** The hook-end sequence above macro level 1: the end hook goes to the
    output and the current hook is dropped. *)
Lemma hook_end_seq_nested (m : mrb_state) (ps : pstate) (sf : stackfile)
    (rest : list stackfile) (hp : hookpair) (hooks : list hookpair)
    (o : outfile) (outs : list outfile) :
  1 < in_macro ps <= 2147483647 ->
  file (fs ps) = sf :: rest -> curhook sf = hp :: hooks -> output ps = o :: outs ->
  hook_end_seq m ps
  = Ok (m, ps_set_top (set_output (set_in_macro ps (in_macro ps - 1))
                                  (of_written o (cstr (end_ hp)) :: outs))
                      (set_curhook sf hooks), false).
Proof.
  intros M F C O. unfold ps_process_hook_end_seq. rewrite int_decr_small by lia.
  cbn [in_macro set_in_macro].
  destruct (Z.ltb_spec (in_macro ps - 1) 0); [lia|].
  destruct (Z.eqb_spec (in_macro ps - 1) 0); [lia|]. cbn [negb].
  unfold ps_current_hookend, ps_current_hook, ps_topfile, fs_topfile.
  cbn [fs set_in_macro]. rewrite F. cbn [lift bind]. rewrite C. cbn [bind].
  unfold ps_out_str.
  erewrite ps_out_bytes_spec by (cbn [output set_in_macro]; exact O). cbn [bind].
  unfold ps_pop_top_curhook, ps_topfile, fs_topfile, ps_pop_curhook.
  cbn [fs set_output set_in_macro]. rewrite F. cbn [lift bind]. rewrite C. reflexivity.
Qed.

(** The suspension run inside a nested macro, on a file whose put-back
    buffer and text ahead hold bytes below 0x80 only: after the [n]
    suspension strings and the [n] end hooks, which go to the macro body,
    the next end hook closes the macro: the macro level falls by one, the
    end hook is written to the top outfile and the current hook is
    dropped. *)
Lemma suspension_run_closes_nested_macro (m : mrb_state) (ps : pstate)
    (sf : stackfile) (rest : list stackfile) (hp : hookpair) (hooks : list hookpair)
    (s e tail : list byte) (n : nat) (o : outfile) (outs : list outfile) :
  file (fs ps) = sf :: rest -> 1 < in_macro ps <= 2147483647 -> suspension ps = 0 ->
  curhook sf = hp :: hooks -> susp hp = Some s -> end_ hp = e ->
  cstr s = s -> s <> [] -> cstr e = e -> e <> [] ->
  tbl_hit sf (str0 s) -> tbl_hit sf (str0 e) ->
  cstr (hookesc sf) <> [] ->
  clean_run (cstr (hookesc sf)) s e n tail ->
  Z.of_nat n <= 2147483647 ->
  incoming sf = reps n s ++ reps (S n) e ++ tail ->
  seven_bit (buf sf) -> seven_bit (incoming sf) ->
  output ps = o :: outs ->
  exists ps' : pstate,
    loop (n + n + 1) m ps = Ok (m, ps', false)
    /\ in_macro ps' = in_macro ps - 1 /\ suspension ps' = 0
    /\ macro_buf ps' = macro_buf ps ++ reps n s ++ reps n e
    /\ output ps' = of_written o e :: outs
    /\ reading ps' (set_curhook (settings sf) hooks) rest tail.
Proof.
  intros F M S0 C Su En Cs Ns Ce Ne Hs He Nesc Cl Bn I Sb S7 O.
  destruct (suspension_protocol mrb_state mrb_load_string mrb_load_file g_fopen_r
              stdin_bytes stack_default) as (_ & _ & Run).
  destruct (Run m ps sf rest hp hooks s e tail n F ltac:(lia) S0 C Su En Cs Ns Ce Ne Hs He
              Nesc Cl Bn I Sb S7)
    as (ps1 & ps2 & L & Mb1 & S1 & X1 & R1 & E & R2 & B2).
  destruct (reading_file _ _ _ _ R2) as (sf2 & F2 & _ & _ & St2 & I2).
  assert (in_macro ps2 = in_macro ps /\ output ps2 = o :: outs
          /\ macro_buf ps2 = macro_buf ps1 /\ suspension ps2 = 0) as (M2 & O2 & Mb2 & S2).
  { inversion B2. inversion X1. repeat split; congruence. }
  assert (curhook sf2 = hp :: hooks) as C2.
  { change (curhook sf2) with (curhook (settings sf2)). rewrite St2. exact C. }
  rewrite (hook_end_seq_nested m ps2 sf2 rest hp hooks o outs ltac:(lia) F2 C2 O2) in E.
  eexists. split.
  { rewrite (loop_app mrb_state mrb_load_string mrb_load_file g_fopen_r stdin_bytes
               stack_default (n + n) 1 m m ps ps1 L).
    rewrite loop_1. exact E. }
  cbn [in_macro suspension macro_buf output ps_set_top set_fs set_output set_in_macro].
  split; [lia|]. split; [exact S2|]. split; [congruence|].
  split; [rewrite En, Ce; reflexivity|].
  apply (reading_intro _ _ _ _ (set_curhook sf2 hooks)).
  - simpl. rewrite F2. reflexivity.
  - rewrite settings_set_curhook, St2. reflexivity.
  - exact I2.
  - exact (reading_buf _ _ _ _ _ R2 F2).
  - exact (reading_seven_bit _ _ _ _ R2).
Qed.

(** X20: a begin hook, a body without a byte of the first-byte table and
    an end hook, met inside a macro (single-hook mode, hooks and escape not
    empty, the hooks in the first-byte table, the escape matching at
    neither hook, the suspension count zero, the current hook without
    suspension string or one that does not match where the begin hook
    stands, the end hook of the open macro not matching there either, the
    put-back buffer and the text ahead of bytes below 0x80 only): the
    macro level rises by one at the begin hook and falls back at the end
    hook; the two hooks are written to the top outfile, the begin hook
    first, and the body between them is appended to the body of the open
    macro; the current hook, the macro mark and the rest of the state are
    as before. *)
Theorem nested_macro_hooks_go_to_the_output (m : mrb_state) (ps : pstate)
    (cfg : stackfile) (rest : list stackfile) (hp : hookpair) (hooks : list hookpair)
    (body tail : list byte) (o : outfile) (outs : list outfile) :
  reading ps cfg rest (macro_text cfg body ++ tail) ->
  macro_ahead cfg body tail ->
  curhook cfg = hp :: hooks ->
  (forall s : list byte, susp hp = Some s ->
     cstr s <> [] /\ is_prefix (cstr s) (macro_text cfg body ++ tail) = false) ->
  cstr (end_ hp) <> [] ->
  is_prefix (cstr (end_ hp)) (macro_text cfg body ++ tail) = false ->
  0 < in_macro ps < 2147483647 -> suspension ps = 0 -> output ps = o :: outs ->
  exists ps' : pstate,
    loop (S (S (length body))) m ps = Ok (m, ps', false)
    /\ reading ps' cfg rest tail
    /\ output ps'
       = of_written o (cstr (beg (hook cfg)) ++ cstr (end_ (hook cfg))) :: outs
    /\ macro_buf ps' = macro_buf ps ++ body
    /\ aside ps' = aside ps.
Proof.
  intros R (M & Su & Nb & Ne & Hb & He & Hm & Nesc & Pb & Pe) C Ps Neh Peh Mr S0 O.
  unfold macro_text in R, Pb, Ps, Peh. rewrite <- !app_assoc in R, Pb, Ps, Peh.
  destruct (iter_nested_begin m ps cfg rest hp hooks _ o outs R M Nb Hb Nesc Pb C Ps
              Neh Peh Mr O)
    as (ps0 & E0 & R0 & M0 & O0 & Mb0 & S0' & Fl0 & Pu0 & Po0 & Fp0).
  set (cfg' := set_curhook cfg (hookpair_cpy (hook cfg) :: curhook cfg)) in *.
  destruct (loop_macro_text mrb_state mrb_load_string mrb_load_file g_fopen_r
              stdin_bytes stack_default m cfg' rest body ps0
              (cstr (end_ (hook cfg)) ++ tail) R0)
    as (ps1 & E1 & R1 & Mb1 & O1 & A1).
  { lia. }
  { exact Hm. }
  assert (in_macro ps1 = in_macro ps + 1 /\ suspension ps1 = 0 /\ flush ps1 = flush ps
          /\ post_push ps1 = post_push ps /\ post_pop ps1 = post_pop ps
          /\ file_prev (fs ps1) = file_prev (fs ps)) as (M1 & S1 & Fl1 & Pu1 & Po1 & Fp1).
  { unfold aside in A1. inversion A1. repeat split; congruence. }
  destruct (iter_end_token mrb_state mrb_load_string mrb_load_file g_fopen_r
              stdin_bytes stack_default m ps1 cfg' rest (hookpair_cpy (hook cfg))
              (curhook cfg) (cstr (end_ (hook cfg))) tail R1)
    as (ps5 & R5 & B5 & X5 & E5).
  { lia. }
  { reflexivity. }
  { reflexivity. }
  { apply cstr_idem. }
  { exact Ne. }
  { rewrite (str0_cstr _ Ne). exact He. }
  { exact Nesc. }
  { exact Pe. }
  { intros s0 Hs. simpl in Hs. rewrite Su in Hs. discriminate. }
  rewrite S1 in E5. simpl in E5.
  destruct (reading_file _ _ _ _ R5) as (sf5 & F5 & _ & _ & St5 & I5).
  assert (in_macro ps5 = in_macro ps + 1 /\ output ps5 = of_written o (cstr (beg (hook cfg))) :: outs
          /\ macro_buf ps5 = macro_buf ps ++ body)
    as (M5 & O5 & Mb5).
  { inversion B5. repeat split; congruence. }
  rewrite (hook_end_seq_nested m ps5 sf5 rest (hookpair_cpy (hook cfg)) (curhook cfg)
             (of_written o (cstr (beg (hook cfg)))) outs) in E5;
    [|lia|exact F5|change (curhook sf5) with (curhook (settings sf5)); rewrite St5; reflexivity
     |exact O5].
  eexists. split.
  { replace (S (S (length body))) with (1 + (length body + 1))%nat by lia.
    rewrite (loop_app mrb_state mrb_load_string mrb_load_file g_fopen_r stdin_bytes
               stack_default 1 (length body + 1) m m ps ps0);
      [|simpl; rewrite E0; reflexivity].
    rewrite (loop_app mrb_state mrb_load_string mrb_load_file g_fopen_r stdin_bytes
               stack_default (length body) 1 m m ps0 ps1 E1).
    rewrite loop_1. exact E5. }
  split.
  { apply (reading_intro _ _ _ _ (set_curhook sf5 (curhook cfg))).
    - simpl. rewrite F5. reflexivity.
    - rewrite settings_set_curhook, St5. unfold cfg'. destruct cfg; reflexivity.
    - exact I5.
    - exact (reading_buf _ _ _ _ _ R5 F5).
    - exact (reading_seven_bit _ _ _ _ R5). }
  split.
  { simpl. rewrite of_written_app. cbn [end_ hookpair_cpy]. unfold g_strdup.
    rewrite cstr_idem. reflexivity. }
  split; [exact Mb5|].
  inversion B5. inversion X5. unfold aside. simpl.
  rewrite M5. replace (in_macro ps + 1 - 1) with (in_macro ps) by lia. congruence.
Qed.

End Nested.

Lemma nested_macro_hooks_go_to_the_output_witness :
  exists ps' : pstate,
    demo_loop 3 ps_nested = Ok (tt, ps', false)
    /\ reading ps' (top_settings ps_nested) [] (bs "c>-")
    /\ output ps' = [of_written of_stdout (bs "-<>-")]
    /\ macro_buf ps' = bs "ab"
    /\ aside ps' = aside ps_nested.
Proof.
  assert (reading ps_nested (top_settings ps_nested) []
            (macro_text (top_settings ps_nested) (bs "b") ++ bs "c>-")) as R.
  { reading_now. }
  assert (macro_ahead (top_settings ps_nested) (bs "b") (bs "c>-")) as A
    by macro_ahead_by_evaluation.
  assert (forall s : list byte,
             susp {| beg := bs "-<"; end_ := bs ">-"; susp := None |} = Some s ->
             cstr s <> []
             /\ is_prefix (cstr s) (macro_text (top_settings ps_nested) (bs "b") ++ bs "c>-")
                = false) as Ps by (intros s Q; discriminate Q).
  assert (0 < in_macro ps_nested < 2147483647) as Mr by (split; reflexivity).
  exact (nested_macro_hooks_go_to_the_output unit no_script no_script one_file [] None tt
           ps_nested (top_settings ps_nested) []
           {| beg := bs "-<"; end_ := bs ">-"; susp := None |} []
           (bs "b") (bs "c>-") of_stdout [] R A eq_refl Ps ltac:(discriminate) eq_refl
           Mr eq_refl eq_refl).
Defined.

(** * Pushing an input file (fs_push_file, fs_push_file_delayed, :include) *)

Section Pushing.

Variable mrb_state : Type.
Variable mrb_load_string : list byte -> mrb_state -> pstate -> host_result mrb_state.
Variable mrb_load_file : list byte -> mrb_state -> pstate -> host_result mrb_state.
Variable g_fopen_r : list byte -> option (list byte).
Variable stdin_bytes : list byte.
Variable stack_default : option stackfile.

Local Abbreviation push_file := (fs_push_file g_fopen_r stdin_bytes stack_default).
Local Abbreviation push_file_delayed :=
  (fs_push_file_delayed g_fopen_r stdin_bytes stack_default).
Local Abbreviation new_file := (sf_new g_fopen_r stdin_bytes).
Local Abbreviation dispatch :=
  (ps_dispatch mrb_state mrb_load_string mrb_load_file g_fopen_r
               stdin_bytes stack_default).

Lemma set_fs_same (ps : pstate) : set_fs ps (fs ps) = ps.
Proof. destruct ps; reflexivity. Qed.

(** X21: with a file on the stack, [fs_push_file_delayed] makes the same
    stackfile as [fs_push_file] does (a file that opens, or standard input,
    with the hooks of the top file), but parks it behind the top file,
    which stays the top; the step [file = file->prev] of the hook-end
    sequence then gives exactly the stack the immediate push gives.  When
    the file does not open both pushes end the process alike. *)
Theorem delayed_push_parks_the_file (ps : pstate) (name : option (list byte))
    (top : stackfile) (rest : list stackfile) :
  file (fs ps) = top :: rest ->
  match new_file ps name (Some top) with
  | Ok sf =>
      push_file ps name
      = Ok (set_fs ps {| file := sf :: top :: rest; file_prev := file_prev (fs ps) |})
      /\ push_file_delayed ps name
         = Ok (set_fs ps {| file := top :: rest; file_prev := sf :: file_prev (fs ps) |})
      /\ fs_move_prev {| file := top :: rest; file_prev := sf :: file_prev (fs ps) |}
         = Ok {| file := sf :: top :: rest; file_prev := file_prev (fs ps) |}
  | Exit f => push_file ps name = Exit f /\ push_file_delayed ps name = Exit f
  | Undef => push_file ps name = Undef /\ push_file_delayed ps name = Undef
  end.
Proof.
  intros F. unfold fs_push_file_delayed, fs_push_file. rewrite F.
  destruct (new_file ps name (Some top)) as [sf| |]; cbn [bind]; auto.
Qed.

(** The directive [:include], its argument behind one space. *)
Lemma dispatch_include (m : mrb_state) (ps : pstate) (f : list byte) :
  dispatch m ps (bs ":include " ++ f)
  = do ps1 <- push_file_delayed ps (Some f);
    Ok (m, set_post ps1 true (post_pop ps1), false).
Proof.
  unfold ps_dispatch. cbv beta zeta.
  change (Byte.eqb (str0 (bs ":include " ++ f)) ":") with true. cbv iota.
  change (len_str_cmp (bs ":hookbeg") (bs ":include " ++ f)) with 0.
  change (len_str_cmp (bs ":hookend") (bs ":include " ++ f)) with 0.
  change (len_str_cmp (bs ":hookesc") (bs ":include " ++ f)) with 0.
  change (len_str_cmp (bs ":eater") (bs ":include " ++ f)) with 0.
  change (len_str_cmp (bs ":hookall") (bs ":include " ++ f)) with 0.
  change (len_str_cmp (bs ":hook") (bs ":include " ++ f)) with 0.
  change (len_str_cmp (bs ":include") (bs ":include " ++ f)) with 8.
  change (negb (0 =? 0)) with false. change (negb (8 =? 0)) with true. cbv iota.
  unfold arg_at. change (0 <=? 8 + 1) with true. cbn [andb].
  destruct (Z.leb_spec (8 + 1) (Z.of_nat (length (bs ":include " ++ f))));
    [|rewrite length_app in *; simpl length in *; lia].
  change (Z.to_nat (8 + 1)) with 9%nat. cbn [bind].
  change (drop 9 (bs ":include " ++ f)) with f. reflexivity.
Qed.

(** X22: the directive [:include], handed to [ps_eval_cmd] with a file on
    the stack: when the named file opens, its stackfile, made with the
    hooks of the top file, is parked behind the top file and [post_push] is
    set, the top file and all else staying as they are; when it does not
    open, [mucgly_fatal] reports [Can't open] with the file's name at the
    place of the top file and the process ends. *)
Theorem include_directive (m : mrb_state) (ps : pstate) (f : list byte)
    (top : stackfile) (rest : list stackfile) :
  file (fs ps) = top :: rest ->
  match g_fopen_r (cstr f) with
  | Some content =>
      match sf_init (cstr f) content (Some top) with
      | Ok sf =>
          dispatch m ps (bs ":include " ++ f)
          = Ok (m, set_post (set_fs ps {| file := top :: rest;
                                          file_prev := sf :: file_prev (fs ps) |})
                            true (post_pop ps), false)
      | Exit d => dispatch m ps (bs ":include " ++ f) = Exit (d, ps)
      | Undef => dispatch m ps (bs ":include " ++ f) = Undef
      end
  | None =>
      dispatch m ps (bs ":include " ++ f)
      = Exit (user_info "fatal error" (place_of (Some top)) (msg_cant_open (cstr f)), ps)
  end.
Proof.
  intros F. rewrite dispatch_include.
  unfold fs_push_file_delayed, fs_push_file, sf_new. rewrite F. unfold g_strdup.
  destruct (g_fopen_r (cstr f)) as [content|].
  - destruct (sf_init (cstr f) content (Some top)) as [sf| |]; cbn [lift bind]; auto.
  - unfold ps_topfile, fs_topfile. rewrite F. reflexivity.
Qed.

End Pushing.

Lemma delayed_push_parks_the_file_witness :
  exists sf : stackfile,
    filename sf = bs "inc" /\ pending sf = bs "included"
    /\ fs_push_file_delayed one_file [] None (ps_text (bs "T")) (Some (bs "inc"))
       = Ok (set_fs (ps_text (bs "T"))
                    {| file := [sf_default (bs "in") (bs "T")]; file_prev := [sf] |})
    /\ fs_move_prev {| file := [sf_default (bs "in") (bs "T")]; file_prev := [sf] |}
       = Ok {| file := [sf; sf_default (bs "in") (bs "T")]; file_prev := [] |}.
Proof.
  pose proof (delayed_push_parks_the_file one_file [] None (ps_text (bs "T")) (Some (bs "inc"))
                (sf_default (bs "in") (bs "T")) [] eq_refl) as H.
  destruct (sf_new one_file [] (ps_text (bs "T")) (Some (bs "inc"))
              (Some (sf_default (bs "in") (bs "T")))) as [sf| |] eqn:E;
    [|discriminate E|discriminate E].
  exists sf. destruct H as (_ & H2 & H3).
  split; [|split; [|split; [exact H2|exact H3]]].
  - injection E as <-. reflexivity.
  - injection E as <-. reflexivity.
Defined.

Lemma include_directive_witness :
  demo_dispatch (ps_text (bs "T")) (bs ":include nofile")
  = Exit (user_info "fatal error" (Some (bs "in", 1, 1)) (msg_cant_open (bs "nofile")),
          ps_text (bs "T")).
Proof.
  exact (include_directive unit no_script no_script one_file [] None tt (ps_text (bs "T"))
           (bs "nofile") (sf_default (bs "in") (bs "T")) [] eq_refl).
Defined.

(** * The methods of the module Mucgly *)

(** ** Mucgly.multihook *)

Lemma ps_set_top_twice (ps : pstate) (a b : stackfile) :
  ps_set_top (ps_set_top ps a) b = ps_set_top ps b.
Proof. reflexivity. Qed.

Lemma ps_set_top_same (ps : pstate) (sf : stackfile) (rest : list stackfile) :
  file (fs ps) = sf :: rest -> ps_set_top ps sf = ps.
Proof.
  intros F. unfold ps_set_top. rewrite (fs_set_top_same _ _ _ F).
  destruct ps; reflexivity.
Qed.

Lemma same_settings_without_multi (sf sf' : stackfile) :
  without_multi sf' = without_multi sf ->
  hookesc sf' = hookesc sf /\ place_of (Some sf') = place_of (Some sf).
Proof.
  intros W. split.
  - exact (f_equal hookesc W).
  - unfold place_of.
    rewrite <- (f_equal macro W : macro sf' = macro sf).
    rewrite <- (f_equal filename W : filename sf' = filename sf).
    rewrite <- (f_equal macro_line W : macro_line sf' = macro_line sf).
    rewrite <- (f_equal macro_col W : macro_col sf' = macro_col sf).
    rewrite <- (f_equal lineno W : lineno sf' = lineno sf).
    rewrite <- (f_equal column W : column sf' = column sf).
    reflexivity.
Qed.

(** One call of [sf_multi_hook] on the top file. *)
Lemma ps_multi_hook_stores (ps : pstate) (sf : stackfile) (rest : list stackfile)
    (t : hook_entry) :
  file (fs ps) = sf :: rest -> multi_ok sf -> differs_from_escape sf t ->
  low_entry t -> low_first (hookesc sf) ->
  pairs_in_use sf + 1 <= 127 ->
  exists sf' : stackfile,
    ps_multi_hook ps (fst (fst t)) (snd (fst t)) (snd t) = Ok (ps_set_top ps sf')
    /\ multi_ok sf'
    /\ multi_pairs sf' = multi_pairs sf ++ [entry_pair t]
    /\ without_multi sf' = without_multi sf
    /\ pairs_in_use sf' = pairs_in_use sf + 1.
Proof.
  intros F W D Lt Le L.
  destruct (sf_multi_hook_stores sf (fst (fst t)) (snd (fst t)) (snd t) W Lt Le D)
    as (sf' & U & W' & N' & P' & C' & Wm').
  { intros N. unfold pairs_in_use in L. rewrite N in L. unfold MULTI_LIMIT. lia. }
  exists sf'. unfold ps_multi_hook, ps_topfile, fs_topfile. rewrite F.
  cbn [lift in_method bind]. rewrite U. cbn [lift in_method bind].
  split; [reflexivity|]. split; [exact W'|]. split; [exact P'|]. split; [exact Wm'|].
  unfold pairs_in_use. rewrite N', C'. destruct (multi_is_null (multi sf)); lia.
Qed.

(** The loop over arrays of two or three strings, as far as they are so. *)
Lemma multihook_arrays_enters (entries : list hook_entry) :
  forall (ps : pstate) (sf : stackfile) (rest : list stackfile),
    file (fs ps) = sf :: rest -> multi_ok sf ->
    Forall (differs_from_escape sf) entries ->
    low_first (hookesc sf) -> Forall low_entry entries ->
    pairs_in_use sf + Z.of_nat (length entries) <= 127 ->
    exists sf' : stackfile,
      (forall more : list mrb_value,
         multihook_arrays ps (map entry_array entries ++ more)
         = multihook_arrays (ps_set_top ps sf') more)
      /\ multi_ok sf'
      /\ multi_pairs sf' = multi_pairs sf ++ map entry_pair entries
      /\ without_multi sf' = without_multi sf.
Proof.
  induction entries as [|t entries IH]; intros ps sf rest F W D Le Lt L.
  - exists sf. rewrite (ps_set_top_same _ _ _ F), app_nil_r. auto.
  - apply Forall_cons_1 in D as [D1 D]. apply Forall_cons_1 in Lt as [Lt1 Lt].
    cbn [length] in L. rewrite Nat2Z.inj_succ in L.
    destruct (ps_multi_hook_stores ps sf rest t F W D1 Lt1 Le ltac:(lia))
      as (sf1 & E1 & W1 & P1 & Wm1 & C1).
    destruct (same_settings_without_multi sf sf1 Wm1) as [He _].
    destruct (IH (ps_set_top ps sf1) sf1 rest) as (sf' & E & W' & P' & Wm');
      [simpl; now rewrite F|exact W1| |now rewrite He|exact Lt|lia|].
    { eapply Forall_impl; [exact D|]. intros u. unfold differs_from_escape.
      now rewrite He. }
    exists sf'. split; [|split; [exact W'|split]].
    + intros more. rewrite ps_set_top_twice in E. rewrite <- E.
      destruct t as [[b e] [s|]]; cbn [map app entry_array fst snd multihook_arrays
                                         rstring_ptr bind] in *;
        rewrite E1; reflexivity.
    + rewrite P', P1, <- app_assoc. reflexivity.
    + congruence.
Qed.

(** Strings two by two are entered as the arrays of two are. *)
Lemma multihook_pairs_as_arrays (entries : list hook_entry) :
  Forall (fun t : hook_entry => snd t = None) entries ->
  forall ps : pstate,
    multihook_pairs ps (flat_map entry_flat entries)
    = multihook_arrays ps (map entry_array entries).
Proof.
  induction 1 as [|t entries Ht _ IH]; intros ps; [reflexivity|].
  destruct t as [[b e] s]. simpl in Ht. subst s.
  cbn [flat_map map entry_flat entry_array fst snd app multihook_pairs multihook_arrays
       rstring_ptr bind].
  destruct (ps_multi_hook ps b e None); cbn [bind]; auto.
Qed.

Lemma flat_entries_even (entries : list hook_entry) :
  Nat.even (length (flat_map entry_flat entries)) = true.
Proof. induction entries; [reflexivity|exact IHentries]. Qed.

(** X23: [Mucgly.multihook] with the top file's multi-hook array in order
    (or not yet made), handed at least one entry, each with hooks other
    than the escape, the escape and the strings of every entry starting
    with a byte below 0x80, and room for them all below 127 pairs: called with
    one array of two or three strings per entry it returns, the entries
    entered behind the pairs in use in their order, suspenders included,
    and nothing else of the top file changed but the lookup caches.  For
    entries without suspender the call with the hooks as strings in a row,
    and the call with one array of these strings, give the same state. *)
Theorem multihook_enters_the_entries (ps : pstate) (sf : stackfile)
    (rest : list stackfile) (entries : list hook_entry) :
  file (fs ps) = sf :: rest -> multi_ok sf -> entries <> [] ->
  Forall (differs_from_escape sf) entries ->
  low_first (hookesc sf) -> Forall low_entry entries ->
  pairs_in_use sf + Z.of_nat (length entries) <= 127 ->
  exists sf' : stackfile,
    mrb_mucgly_multihook ps (map entry_array entries) = Ok (ps_set_top ps sf')
    /\ multi_ok sf'
    /\ multi_pairs sf' = multi_pairs sf ++ map entry_pair entries
    /\ without_multi sf' = without_multi sf
    /\ (Forall (fun t : hook_entry => snd t = None) entries ->
        mrb_mucgly_multihook ps (flat_map entry_flat entries) = Ok (ps_set_top ps sf')
        /\ mrb_mucgly_multihook ps [mrb_ary (flat_map entry_flat entries)]
           = Ok (ps_set_top ps sf')).
Proof.
  intros F W Ne D Le Lt L.
  destruct (multihook_arrays_enters entries ps sf rest F W D Le Lt L)
    as (sf' & E & W' & P' & Wm').
  specialize (E []). rewrite app_nil_r in E. cbn [multihook_arrays] in E.
  exists sf'. split; [|split; [exact W'|split; [exact P'|split; [exact Wm'|]]]].
  - destruct entries as [|t entries]; [contradiction|].
    destruct t as [[b e] [s|]].
    + (* an array of three: no even length *)
      rewrite <- E. cbn [map entry_array fst snd mrb_mucgly_multihook length Nat.even].
      rewrite andb_false_r. reflexivity.
    + destruct entries as [|t' entries].
      * (* one array of two: taken as strings in a row *)
        rewrite <- E. reflexivity.
      * rewrite <- E. reflexivity.
  - intros Ns. rewrite <- E, <- (multihook_pairs_as_arrays entries Ns).
    split.
    + destruct entries as [|t entries]; [contradiction|].
      pose proof (flat_entries_even (t :: entries)) as Ev.
      destruct t as [[b e] s].
      cbn [flat_map entry_flat fst snd app mrb_mucgly_multihook] in *.
      rewrite Ev. reflexivity.
    + cbn [mrb_mucgly_multihook length Nat.eqb andb].
      rewrite flat_entries_even. reflexivity.
Qed.

(** X24: what [Mucgly.multihook] does with arguments it does not take.  An
    odd number of arguments, the first a String, raises [hookbeg/hookend
    pairs expected] with no hook entered.  Behind entries given as arrays
    of two or three strings (the array of the top file in order, the hooks
    other than the escape, the escape and the strings of every entry
    starting with a byte below 0x80, room for them all below 127 pairs), an
    array of another length raises [Array argument must hold ...] after
    the entries before it have been entered: they stay in the top file.
    Both errors name the place of the top file. *)
Theorem multihook_refuses (ps : pstate) (sf : stackfile) (rest : list stackfile) :
  file (fs ps) = sf :: rest ->
  (forall (s : list byte) (more : list mrb_value),
     Nat.even (length more) = true ->
     mrb_mucgly_multihook ps (mrb_str s :: more)
     = Exit (stop_raise "error" (place_of (Some sf)) msg_multihook_pairs ps))
  /\ (forall (entries : list hook_entry) (bad more : list mrb_value),
        multi_ok sf -> entries <> [] ->
        Forall (differs_from_escape sf) entries ->
        low_first (hookesc sf) -> Forall low_entry entries ->
        pairs_in_use sf + Z.of_nat (length entries) <= 127 ->
        length bad <> 2%nat -> length bad <> 3%nat ->
        exists sf' : stackfile,
          mrb_mucgly_multihook ps (map entry_array entries ++ mrb_ary bad :: more)
          = Exit (stop_raise "error" (place_of (Some sf)) msg_multihook_arrays
                             (ps_set_top ps sf'))
          /\ multi_pairs sf' = multi_pairs sf ++ map entry_pair entries
          /\ without_multi sf' = without_multi sf).
Proof.
  intros F. split.
  - intros s more Ev. cbn [mrb_mucgly_multihook length]. rewrite Nat.even_succ.
    rewrite <- Nat.negb_even, Ev. cbn [negb].
    unfold mucgly_raise, ps_topfile, fs_topfile. rewrite F. reflexivity.
  - intros entries bad more W Ne D Le Lt L B2 B3.
    destruct (multihook_arrays_enters entries ps sf rest F W D Le Lt L)
      as (sf' & E & W' & P' & Wm').
    destruct (same_settings_without_multi sf sf' Wm') as [_ Pl].
    exists sf'. split; [|split; [exact P'|exact Wm']].
    assert (mrb_mucgly_multihook ps (map entry_array entries ++ mrb_ary bad :: more)
            = multihook_arrays ps (map entry_array entries ++ mrb_ary bad :: more)) as ->.
    { destruct entries as [|t entries]; [contradiction|].
      destruct t as [[b e] [s|]];
        cbn [map entry_array fst snd app mrb_mucgly_multihook length Nat.even].
      - rewrite andb_false_r. reflexivity.
      - rewrite length_app. cbn [length]. rewrite length_map.
        replace (S (length entries + S (length more)) =? 1)%nat with false
          by (symmetry; apply Nat.eqb_neq; lia).
        reflexivity. }
    rewrite E.
    assert (multihook_arrays (ps_set_top ps sf') (mrb_ary bad :: more)
            = mucgly_raise (ps_set_top ps sf') "error" msg_multihook_arrays) as ->.
    { destruct bad as [|x [|y [|z [|u bad]]]]; try reflexivity; simpl in B2, B3; lia. }
    unfold mucgly_raise, ps_topfile, fs_topfile. simpl file. cbn [lift in_method bind].
    rewrite Pl. reflexivity.
Qed.
(** ** Directives and the methods that do the same *)

Section MethodsAndDirectives.

Variable mrb_state : Type.
Variable mrb_load_string : list byte -> mrb_state -> pstate -> host_result mrb_state.
Variable mrb_load_file : list byte -> mrb_state -> pstate -> host_result mrb_state.
Variable g_fopen_r : list byte -> option (list byte).
Variable stdin_bytes : list byte.
Variable stack_default : option stackfile.

Local Abbreviation dispatch :=
  (ps_dispatch mrb_state mrb_load_string mrb_load_file g_fopen_r
               stdin_bytes stack_default).
Local Abbreviation pushinput := (mrb_mucgly_pushinput g_fopen_r stdin_bytes stack_default).

(** The argument of a directive: what lies behind the keyword and one more
    byte. *)
Ltac argument_behind n k cmd v :=
  unfold arg_at; change (0 <=? n + 1) with true; cbn [andb];
  destruct (Z.leb_spec (n + 1) (Z.of_nat (length cmd)));
  [|rewrite length_app in *; simpl length in *; lia];
  change (Z.to_nat (n + 1)) with k; cbn [bind];
  change (drop k cmd) with v.

Lemma dispatch_hookbeg (m : mrb_state) (ps : pstate) (v : list byte) :
  dispatch m ps (bs ":hookbeg " ++ v)
  = do ps1 <- ps_set_hook ps hook_beg v; Ok (m, ps1, false).
Proof.
  unfold ps_dispatch. cbv beta zeta.
  change (Byte.eqb (str0 (bs ":hookbeg " ++ v)) ":") with true. cbv iota.
  change (len_str_cmp (bs ":hookbeg") (bs ":hookbeg " ++ v)) with 8.
  change (negb (8 =? 0)) with true. cbv iota.
  argument_behind 8 9%nat (bs ":hookbeg " ++ v) v. reflexivity.
Qed.

Lemma dispatch_hookend (m : mrb_state) (ps : pstate) (v : list byte) :
  dispatch m ps (bs ":hookend " ++ v)
  = do ps1 <- ps_set_hook ps hook_end v; Ok (m, ps1, false).
Proof.
  unfold ps_dispatch. cbv beta zeta.
  change (Byte.eqb (str0 (bs ":hookend " ++ v)) ":") with true. cbv iota.
  change (len_str_cmp (bs ":hookbeg") (bs ":hookend " ++ v)) with 0.
  change (len_str_cmp (bs ":hookend") (bs ":hookend " ++ v)) with 8.
  change (negb (0 =? 0)) with false. change (negb (8 =? 0)) with true. cbv iota.
  argument_behind 8 9%nat (bs ":hookend " ++ v) v. reflexivity.
Qed.

Lemma dispatch_hookesc (m : mrb_state) (ps : pstate) (v : list byte) :
  dispatch m ps (bs ":hookesc " ++ v)
  = do ps1 <- ps_set_hook ps hook_esc v; Ok (m, ps1, false).
Proof.
  unfold ps_dispatch. cbv beta zeta.
  change (Byte.eqb (str0 (bs ":hookesc " ++ v)) ":") with true. cbv iota.
  change (len_str_cmp (bs ":hookbeg") (bs ":hookesc " ++ v)) with 0.
  change (len_str_cmp (bs ":hookend") (bs ":hookesc " ++ v)) with 0.
  change (len_str_cmp (bs ":hookesc") (bs ":hookesc " ++ v)) with 8.
  change (negb (0 =? 0)) with false. change (negb (8 =? 0)) with true. cbv iota.
  argument_behind 8 9%nat (bs ":hookesc " ++ v) v. reflexivity.
Qed.

Lemma dispatch_eater (m : mrb_state) (ps : pstate) (v : list byte) :
  dispatch m ps (bs ":eater " ++ v)
  = do sf <- ps_topfile ps; Ok (m, ps_set_top ps (sf_set_eater sf (Some v)), false).
Proof.
  unfold ps_dispatch. cbv beta zeta.
  change (Byte.eqb (str0 (bs ":eater " ++ v)) ":") with true. cbv iota.
  change (len_str_cmp (bs ":hookbeg") (bs ":eater " ++ v)) with 0.
  change (len_str_cmp (bs ":hookend") (bs ":eater " ++ v)) with 0.
  change (len_str_cmp (bs ":hookesc") (bs ":eater " ++ v)) with 0.
  change (len_str_cmp (bs ":eater") (bs ":eater " ++ v)) with 6.
  change (negb (0 =? 0)) with false. change (negb (6 =? 0)) with true. cbv iota.
  argument_behind 6 7%nat (bs ":eater " ++ v) v. reflexivity.
Qed.

Lemma dispatch_block (m : mrb_state) (ps : pstate) (v : list byte) :
  dispatch m ps (bs ":block" ++ v) = do ps1 <- ps_block_output ps; Ok (m, ps1, false).
Proof.
  unfold ps_dispatch. cbv beta zeta.
  change (Byte.eqb (str0 (bs ":block" ++ v)) ":") with true. cbv iota.
  change (len_str_cmp (bs ":hookbeg") (bs ":block" ++ v)) with 0.
  change (len_str_cmp (bs ":hookend") (bs ":block" ++ v)) with 0.
  change (len_str_cmp (bs ":hookesc") (bs ":block" ++ v)) with 0.
  change (len_str_cmp (bs ":eater") (bs ":block" ++ v)) with 0.
  change (len_str_cmp (bs ":hookall") (bs ":block" ++ v)) with 0.
  change (len_str_cmp (bs ":hook") (bs ":block" ++ v)) with 0.
  change (len_str_cmp (bs ":include") (bs ":block" ++ v)) with 0.
  change (len_str_cmp (bs ":source") (bs ":block" ++ v)) with 0.
  change (len_str_cmp (bs ":block") (bs ":block" ++ v)) with 6.
  reflexivity.
Qed.

Lemma dispatch_unblock (m : mrb_state) (ps : pstate) (v : list byte) :
  dispatch m ps (bs ":unblock" ++ v) = do ps1 <- ps_unblock_output ps; Ok (m, ps1, false).
Proof.
  unfold ps_dispatch. cbv beta zeta.
  change (Byte.eqb (str0 (bs ":unblock" ++ v)) ":") with true. cbv iota.
  change (len_str_cmp (bs ":hookbeg") (bs ":unblock" ++ v)) with 0.
  change (len_str_cmp (bs ":hookend") (bs ":unblock" ++ v)) with 0.
  change (len_str_cmp (bs ":hookesc") (bs ":unblock" ++ v)) with 0.
  change (len_str_cmp (bs ":eater") (bs ":unblock" ++ v)) with 0.
  change (len_str_cmp (bs ":hookall") (bs ":unblock" ++ v)) with 0.
  change (len_str_cmp (bs ":hook") (bs ":unblock" ++ v)) with 0.
  change (len_str_cmp (bs ":include") (bs ":unblock" ++ v)) with 0.
  change (len_str_cmp (bs ":source") (bs ":unblock" ++ v)) with 0.
  change (len_str_cmp (bs ":block") (bs ":unblock" ++ v)) with 0.
  change (len_str_cmp (bs ":unblock") (bs ":unblock" ++ v)) with 8.
  reflexivity.
Qed.

(** X25: a directive of [ps_eval_cmd] and the method of the module that
    does the same.  [:hookbeg v], [:hookend v], [:hookesc v], [:eater v]
    and [:include v], the argument [v] being all that lies behind the one
    byte after the keyword, change the parser state exactly as
    [Mucgly.sethookbeg], [sethookend], [sethookesc], [seteater] and
    [pushinput] do when handed [v], errors included, and so do [:block]
    and [:unblock], with whatever follows the keyword, as [Mucgly.block]
    and [unblock]; [:hook b e], for a word [b] and a string [e], does what
    [Mucgly.sethook] does with [b] and [e], and [:hook b] what it does
    with [b] twice.  None of them ends the processing loop. *)
Theorem directives_are_the_methods (m : mrb_state) (ps : pstate) (v : list byte) :
  let done (r : result failure pstate) : result failure (mrb_state * pstate * bool) :=
    do ps' <- r; Ok (m, ps', false) in
  dispatch m ps (bs ":hookbeg " ++ v) = done (mrb_mucgly_sethookbeg ps v)
  /\ dispatch m ps (bs ":hookend " ++ v) = done (mrb_mucgly_sethookend ps v)
  /\ dispatch m ps (bs ":hookesc " ++ v) = done (mrb_mucgly_sethookesc ps v)
  /\ in_method (dispatch m ps (bs ":eater " ++ v))
     = (do ps' <- mrb_mucgly_seteater ps (mrb_str v); Ok (m, ps', false))
  /\ dispatch m ps (bs ":include " ++ v) = done (pushinput ps v)
  /\ dispatch m ps (bs ":block" ++ v) = done (mrb_mucgly_block ps)
  /\ dispatch m ps (bs ":unblock" ++ v) = done (mrb_mucgly_unblock ps)
  /\ (forall b : list byte,
        one_word b -> no_nul v ->
        dispatch m ps (bs ":hook " ++ b ++ " "%byte :: v) = done (mrb_mucgly_sethook ps b v))
  /\ (one_word v -> v <> [] ->
      dispatch m ps (bs ":hook " ++ v) = done (mrb_mucgly_sethook ps v v)).
Proof.
  intros done. unfold done.
  split; [apply dispatch_hookbeg|]. split; [apply dispatch_hookend|].
  split; [apply dispatch_hookesc|].
  split.
  { rewrite dispatch_eater. unfold mrb_mucgly_seteater.
    destruct (ps_topfile ps); reflexivity. }
  split.
  { rewrite dispatch_include. unfold mrb_mucgly_pushinput.
    destruct (fs_push_file_delayed g_fopen_r stdin_bytes stack_default ps (Some v));
      reflexivity. }
  split; [apply dispatch_block|]. split; [apply dispatch_unblock|].
  split.
  - intros b Wb Nv. rewrite dispatch_hook.
    rewrite (g_strsplit_2_words b (Some v) Wb Nv). unfold mrb_mucgly_sethook.
    destruct (ps_set_hook ps hook_beg b); reflexivity.
  - intros Wv Nv. rewrite dispatch_hook.
    pose proof (g_strsplit_2_words v None Wv Nv) as Sp. rewrite app_nil_r in Sp.
    rewrite Sp. unfold mrb_mucgly_sethook.
    destruct (ps_set_hook ps hook_beg v); reflexivity.
Qed.

End MethodsAndDirectives.
(** ** Mucgly.puts, Mucgly.write and Mucgly.olinenumber *)

Section MethodsOutput.

Variable mrb_inspect : mrb_value -> list byte.

Local Abbreviation puts := (mrb_mucgly_puts mrb_inspect).
Local Abbreviation write := (mrb_mucgly_write mrb_inspect).
Local Abbreviation text_of := (written_form mrb_inspect).

(** [Mucgly.puts] on an open outfile. *)
Lemma puts_appends (ps : pstate) (o : outfile) (outs : list outfile) (obj : mrb_value) :
  output ps = o :: outs ->
  0 <= of_lineno o -> of_lineno o + newlines (cstr (text_of obj)) + 2 <= 2147483647 ->
  puts ps obj
  = Ok (set_output ps
          ((if of_blocked o then o
            else {| of_filename := of_filename o;
                    of_fh := of_fh o ++ cstr (text_of obj) ++ [x0a];
                    of_lineno := of_lineno o + newlines (cstr (text_of obj)) + 1;
                    of_blocked := false |})
           :: outs)).
Proof.
  intros O L0 L1. pose proof (newlines_nonneg (cstr (text_of obj))) as Nn.
  unfold mrb_mucgly_puts, ps_out_str.
  rewrite (ps_out_bytes_spec (cstr (text_of obj)) ps o outs O). cbn [bind].
  rewrite (ps_out_byte (set_output ps (of_written o (cstr (text_of obj)) :: outs))
             (of_written o (cstr (text_of obj))) outs x0a eq_refl).
  rewrite of_written_app. unfold of_written.
  destruct (of_blocked o).
  - destruct ps; reflexivity.
  - rewrite count_lines_app, count_lines_newlines by lia.
    cbn [count_lines]. change (Byte.eqb x0a x0a) with true. cbv iota.
    rewrite int_incr_small by lia.
    destruct ps; reflexivity.
Qed.

(** X26: [Mucgly.puts] with an outfile open appends to it the bytes of its
    argument (of a String up to its first NUL, else of its [inspect]) and
    one newline, and nothing else of the parser state changes; it is
    [Mucgly.write] of the argument followed by [Mucgly.write] of a
    newline.  [Mucgly.olinenumber], one more than the count of newlines
    written, grows by the newlines in the text and one (within the range
    of a C int).  On a blocked outfile nothing is written or counted. *)
Theorem puts_writes_a_line (ps : pstate) (o : outfile) (outs : list outfile)
    (obj : mrb_value) :
  let s := cstr (text_of obj) in
  output ps = o :: outs ->
  0 <= of_lineno o -> of_lineno o + newlines s + 2 <= 2147483647 ->
  puts ps obj
  = Ok (set_output ps
          ((if of_blocked o then o
            else {| of_filename := of_filename o; of_fh := of_fh o ++ s ++ [x0a];
                    of_lineno := of_lineno o + newlines s + 1; of_blocked := false |})
           :: outs))
  /\ puts ps obj = (do ps1 <- write ps obj; write ps1 (mrb_str [x0a]))
  /\ mrb_mucgly_olinenumber ps = Ok (of_lineno o + 1)
  /\ (do ps' <- puts ps obj; mrb_mucgly_olinenumber ps')
     = Ok (if of_blocked o then of_lineno o + 1 else of_lineno o + 1 + newlines s + 1).
Proof.
  intros s O L0 L1. pose proof (newlines_nonneg s) as Nn.
  pose proof (puts_appends ps o outs obj O L0 L1) as E. fold s in E.
  split; [exact E|]. split.
  { unfold mrb_mucgly_puts, mrb_mucgly_write.
    destruct (ps_out_str ps (Some (text_of obj))) as [ps1| |]; cbn [bind]; auto.
    cbn [written_form ps_out_str cstr]. change (Byte.eqb x0a x00) with false. cbv iota.
    cbn [ps_out_bytes]. change (int_of_gchar x0a) with (int_of_char x0a).
    destruct (ps_out ps1 (int_of_char x0a)); reflexivity. }
  split.
  { unfold mrb_mucgly_olinenumber. rewrite O. unfold wrap. f_equal. lia. }
  rewrite E. cbn [bind]. unfold mrb_mucgly_olinenumber. cbn [output set_output].
  destruct (of_blocked o); cbn [of_lineno]; unfold wrap; f_equal; lia.
Qed.

End MethodsOutput.

(** ** The hook setters and getters *)

Lemma getters_after_set_hook (ps : pstate) (sf : stackfile) (rest : list stackfile)
    (hk : hook_t) (v : list byte) :
  file (fs ps) = sf :: rest -> multi sf = multi_null ->
  low_hooks sf -> low_first v ->
  exists sf' : stackfile,
    ps_set_hook ps hk v = Ok (ps_set_top ps sf')
    /\ multi sf' = multi_null /\ low_hooks sf'
    /\ mrb_mucgly_hookbeg (ps_set_top ps sf')
       = match hk with hook_beg => Ok (cstr v) | _ => mrb_mucgly_hookbeg ps end
    /\ mrb_mucgly_hookend (ps_set_top ps sf')
       = match hk with hook_end => Ok (cstr v) | _ => mrb_mucgly_hookend ps end
    /\ mrb_mucgly_hookesc (ps_set_top ps sf')
       = match hk with hook_esc => Ok (cstr v) | _ => mrb_mucgly_hookesc ps end.
Proof.
  intros F M Lh Lv.
  destruct (ps_set_hook_single ps sf rest hk v F M Lh Lv) as (sf' & E & U).
  destruct (sf_set_hook_single_eq sf hk v M Lh Lv)
    as (sf2 & U2 & M2 & H2 & Es2 & _ & _ & _ & _ & Lh2).
  assert (sf2 = sf') by congruence. subst sf2.
  exists sf'. split; [exact E|]. split; [exact M2|]. split; [exact Lh2|].
  unfold mrb_mucgly_hookbeg, mrb_mucgly_hookend, mrb_mucgly_hookesc, ps_current_file.
  cbn [ps_set_top set_fs fs fs_set_top file]. rewrite F, H2, Es2.
  destruct hk; cbn [beg end_ is_hook_esc]; rewrite ?cstr_idem; auto.
Qed.

(** X27: the setters and getters of the hooks, the top file in single-hook
    mode, its hooks, its escape and the strings handed over all starting
    with a byte below 0x80.  After [Mucgly.sethookbeg], [sethookend] or [sethookesc] with a
    string, the getter of that hook returns the string (up to its first
    NUL) and the two other getters return what they returned before; after
    [Mucgly.sethook] with two strings [Mucgly.hookbeg] returns the first
    and [Mucgly.hookend] the second, the escape as before. *)
Theorem hook_setters_and_getters (ps : pstate) (sf : stackfile)
    (rest : list stackfile) (v e : list byte) :
  file (fs ps) = sf :: rest -> multi sf = multi_null ->
  low_hooks sf -> low_first v -> low_first e ->
  (exists ps' : pstate,
     mrb_mucgly_sethookbeg ps v = Ok ps'
     /\ mrb_mucgly_hookbeg ps' = Ok (cstr v)
     /\ mrb_mucgly_hookend ps' = mrb_mucgly_hookend ps
     /\ mrb_mucgly_hookesc ps' = mrb_mucgly_hookesc ps)
  /\ (exists ps' : pstate,
        mrb_mucgly_sethookend ps v = Ok ps'
        /\ mrb_mucgly_hookbeg ps' = mrb_mucgly_hookbeg ps
        /\ mrb_mucgly_hookend ps' = Ok (cstr v)
        /\ mrb_mucgly_hookesc ps' = mrb_mucgly_hookesc ps)
  /\ (exists ps' : pstate,
        mrb_mucgly_sethookesc ps v = Ok ps'
        /\ mrb_mucgly_hookbeg ps' = mrb_mucgly_hookbeg ps
        /\ mrb_mucgly_hookend ps' = mrb_mucgly_hookend ps
        /\ mrb_mucgly_hookesc ps' = Ok (cstr v))
  /\ (exists ps' : pstate,
        mrb_mucgly_sethook ps v e = Ok ps'
        /\ mrb_mucgly_hookbeg ps' = Ok (cstr v)
        /\ mrb_mucgly_hookend ps' = Ok (cstr e)
        /\ mrb_mucgly_hookesc ps' = mrb_mucgly_hookesc ps).
Proof.
  intros F M Lh Lv Le.
  split; [|split; [|split]].
  - destruct (getters_after_set_hook ps sf rest hook_beg v F M Lh Lv)
      as (sf' & E & _ & _ & G).
    exists (ps_set_top ps sf'). split; [exact E|exact G].
  - destruct (getters_after_set_hook ps sf rest hook_end v F M Lh Lv)
      as (sf' & E & _ & _ & G).
    exists (ps_set_top ps sf'). split; [exact E|exact G].
  - destruct (getters_after_set_hook ps sf rest hook_esc v F M Lh Lv)
      as (sf' & E & _ & _ & G).
    exists (ps_set_top ps sf'). split; [exact E|exact G].
  - destruct (getters_after_set_hook ps sf rest hook_beg v F M Lh Lv)
      as (sf1 & E1 & M1 & Lh1 & Gb1 & Ge1 & Gs1).
    destruct (getters_after_set_hook (ps_set_top ps sf1) sf1 rest hook_end e)
      as (sf2 & E2 & _ & _ & Gb2 & Ge2 & Gs2);
      [simpl; now rewrite F|exact M1|exact Lh1|exact Le|].
    exists (ps_set_top (ps_set_top ps sf1) sf2).
    unfold mrb_mucgly_sethook. rewrite E1. cbn [bind]. split; [exact E2|].
    split; [congruence|]. split; [exact Ge2|congruence].
Qed.
Lemma multihook_enters_the_entries_witness :
  exists sf' : stackfile,
    mrb_mucgly_multihook (ps_text [])
      [mrb_ary [mrb_str (bs "<"); mrb_str (bs ")")];
       mrb_ary [mrb_str (bs "[["); mrb_str (bs "]]")]]
    = Ok (ps_set_top (ps_text []) sf')
    /\ multi_pairs sf' = [pair_of (bs "<") (bs ")") None; pair_of (bs "[[") (bs "]]") None]
    /\ mrb_mucgly_multihook (ps_text [])
         [mrb_str (bs "<"); mrb_str (bs ")"); mrb_str (bs "[["); mrb_str (bs "]]")]
       = Ok (ps_set_top (ps_text []) sf')
    /\ mrb_mucgly_multihook (ps_text [])
         [mrb_ary [mrb_str (bs "<"); mrb_str (bs ")"); mrb_str (bs "[["); mrb_str (bs "]]")]]
       = Ok (ps_set_top (ps_text []) sf').
Proof.
  assert (Forall (differs_from_escape (sf_default (bs "in") [])) two_entries) as D
    by (repeat constructor).
  assert (two_entries <> []) as Ne by discriminate.
  assert (pairs_in_use (sf_default (bs "in") []) + Z.of_nat (length two_entries) <= 127) as L
    by (vm_compute; discriminate).
  destruct (multihook_enters_the_entries (ps_text []) (sf_default (bs "in") []) []
              two_entries eq_refl I Ne D ltac:(low_bytes) ltac:(low_bytes) L)
    as (sf' & E & _ & P & _ & Fl).
  destruct (Fl ltac:(repeat constructor)) as [E1 E2].
  exists sf'. split; [exact E|]. split; [exact P|]. split; [exact E1|exact E2].
Defined.

Lemma multihook_refuses_witness :
  mrb_mucgly_multihook (ps_text [])
    [mrb_str (bs "<"); mrb_str (bs ")"); mrb_str (bs "[[")]
  = Exit (stop_raise "error" (Some (bs "in", 1, 1)) msg_multihook_pairs (ps_text []))
  /\ exists sf' : stackfile,
       mrb_mucgly_multihook (ps_text [])
         [mrb_ary [mrb_str (bs "<"); mrb_str (bs ")")]; mrb_ary [mrb_str (bs "x")]]
       = Exit (stop_raise "error" (Some (bs "in", 1, 1)) msg_multihook_arrays
                          (ps_set_top (ps_text []) sf'))
       /\ multi_pairs sf' = [pair_of (bs "<") (bs ")") None].
Proof.
  destruct (multihook_refuses (ps_text []) (sf_default (bs "in") []) [] eq_refl) as [A B].
  split.
  - exact (A (bs "<") [mrb_str (bs ")"); mrb_str (bs "[[")] eq_refl).
  - assert (Forall (differs_from_escape (sf_default (bs "in") [])) [(bs "<", bs ")", None)])
      as D by (repeat constructor).
    assert ([(bs "<", bs ")", @None (list byte))] <> []) as Ne by discriminate.
    assert (pairs_in_use (sf_default (bs "in") []) + Z.of_nat 1 <= 127) as L
      by (vm_compute; discriminate).
    assert (length [mrb_str (bs "x")] <> 2%nat) as B2 by discriminate.
    assert (length [mrb_str (bs "x")] <> 3%nat) as B3 by discriminate.
    destruct (B [(bs "<", bs ")", None)] [mrb_str (bs "x")] [] I Ne D
                ltac:(low_bytes) ltac:(low_bytes) L B2 B3)
      as (sf' & E & P & _).
    exists sf'. split; [exact E|exact P].
Defined.

Lemma directives_are_the_methods_witness :
  demo_dispatch (ps_text []) (bs ":hook ( )")
  = (do ps' <- mrb_mucgly_sethook (ps_text []) (bs "(") (bs ")"); Ok (tt, ps', false))
  /\ demo_dispatch (ps_text []) (bs ":hookesc !")
     = (do ps' <- mrb_mucgly_sethookesc (ps_text []) (bs "!"); Ok (tt, ps', false)).
Proof.
  assert (one_word (bs "(")) as Wb by (repeat constructor; discriminate).
  assert (no_nul (bs ")")) as Ne by (repeat constructor; discriminate).
  split.
  - pose proof (directives_are_the_methods unit no_script no_script one_file [] None tt
                  (ps_text []) (bs ")")) as H.
    cbv zeta in H. destruct H as (_ & _ & _ & _ & _ & _ & _ & Hk & _).
    exact (Hk (bs "(") Wb Ne).
  - pose proof (directives_are_the_methods unit no_script no_script one_file [] None tt
                  (ps_text []) (bs "!")) as H.
    cbv zeta in H. destruct H as (_ & _ & He & _). exact He.
Defined.

Lemma puts_writes_a_line_witness :
  mrb_mucgly_puts inspect_nil (ps_text []) (mrb_str (bs "hi"))
  = Ok (set_output (ps_text [])
          [{| of_filename := bs "<STDOUT>"; of_fh := bs "hi" ++ [x0a];
              of_lineno := 1; of_blocked := false |}])
  /\ mrb_mucgly_olinenumber (ps_text []) = Ok 1
  /\ (do ps' <- mrb_mucgly_puts inspect_nil (ps_text []) (mrb_str (bs "hi"));
      mrb_mucgly_olinenumber ps') = Ok 2.
Proof.
  assert (0 <= of_lineno of_stdout) as L0 by (simpl; lia).
  assert (of_lineno of_stdout + newlines (cstr (bs "hi")) + 2 <= 2147483647) as L1
    by (vm_compute; discriminate).
  pose proof (puts_writes_a_line inspect_nil (ps_text []) of_stdout [] (mrb_str (bs "hi"))
                eq_refl L0 L1) as H.
  cbv zeta in H. destruct H as (E & _ & N0 & N).
  split; [exact E|]. split; [exact N0|exact N].
Defined.

Lemma hook_setters_and_getters_witness :
  exists ps' : pstate,
    mrb_mucgly_sethook (ps_text []) (bs "(") (bs ")") = Ok ps'
    /\ mrb_mucgly_hookbeg ps' = Ok (bs "(")
    /\ mrb_mucgly_hookend ps' = Ok (bs ")")
    /\ mrb_mucgly_hookesc ps' = Ok (bs "\").
Proof.
  destruct (hook_setters_and_getters (ps_text []) (sf_default (bs "in") []) []
              (bs "(") (bs ")") eq_refl eq_refl)
    as (_ & _ & _ & ps' & E & B & N & S); [low_bytes..|].
  exists ps'. split; [exact E|]. split; [exact B|]. split; [exact N|exact S].
Defined.

(** * Input files pushed and closed from a macro *)

Section DeferredInput.

Variable mrb_state : Type.
Variable mrb_load_string : list byte -> mrb_state -> pstate -> host_result mrb_state.
Variable mrb_load_file : list byte -> mrb_state -> pstate -> host_result mrb_state.
Variable g_fopen_r : list byte -> option (list byte).
Variable stdin_bytes : list byte.
Variable stack_default : option stackfile.

Local Abbreviation loop :=
  (ps_process_loop mrb_state mrb_load_string mrb_load_file g_fopen_r
                   stdin_bytes stack_default).
Local Abbreviation hook_end_seq :=
  (ps_process_hook_end_seq mrb_state mrb_load_string mrb_load_file g_fopen_r
                           stdin_bytes stack_default).
Local Abbreviation eval_cmd :=
  (ps_eval_cmd mrb_state mrb_load_string mrb_load_file g_fopen_r
               stdin_bytes stack_default).
Local Abbreviation dispatch :=
  (ps_dispatch mrb_state mrb_load_string mrb_load_file g_fopen_r
               stdin_bytes stack_default).

(** The hook-end sequence at macro level 1 when the macro asked for a
    parked file to be made the top. *)
Lemma hook_end_seq_level_1_push (m m1 : mrb_state) (ps ps6 : pstate) (brk : bool)
    (sf6 p : stackfile) (rest6 above : list stackfile) (hp : hookpair)
    (hooks : list hookpair) :
  in_macro ps = 1 ->
  eval_cmd m (set_in_macro ps 0) = Ok (m1, ps6, brk) ->
  file (fs ps6) = sf6 :: rest6 -> curhook sf6 = hp :: hooks ->
  file_prev (fs ps6) = p :: above ->
  post_push ps6 = true -> post_pop ps6 = false ->
  hook_end_seq m ps
  = Ok (m1, set_fs (set_post ps6 false false)
                   {| file := p :: set_curhook (sf_unmark_macro sf6) hooks :: rest6;
                      file_prev := above |}, brk).
Proof.
  intros M E F C Fp Pu Po. unfold ps_process_hook_end_seq. rewrite M.
  change (int_decr 1) with 0. cbn [in_macro set_in_macro Z.ltb Z.compare Z.eqb negb].
  rewrite E. cbn [bind]. unfold ps_topfile, fs_topfile. rewrite F. cbn [lift bind].
  unfold ps_pop_top_curhook, ps_topfile, fs_topfile, ps_pop_curhook.
  cbn [ps_set_top set_fs fs fs_set_top file lift bind curhook sf_unmark_macro set_macro].
  rewrite C. cbn [lift bind]. unfold ps_set_top, set_fs. cbn [post_push post_pop fs].
  rewrite Pu. cbn [bind]. unfold fs_move_prev, set_post.
  cbn [fs file file_prev fs_set_top post_push post_pop lift bind]. rewrite Fp.
  cbn [lift bind post_pop]. rewrite Po. cbn [bind]. unfold set_fs.
  cbn [fs file file_prev post_push post_pop check_buf macro_buf match_buf in_macro
       suspension output flush tl].
  rewrite F. reflexivity.
Qed.

(** The same when the macro asked for the top file to be closed. *)
Lemma hook_end_seq_level_1_pop (m m1 : mrb_state) (ps ps6 : pstate) (brk : bool)
    (sf6 : stackfile) (rest6 : list stackfile) (hp : hookpair) (hooks : list hookpair) :
  in_macro ps = 1 ->
  eval_cmd m (set_in_macro ps 0) = Ok (m1, ps6, brk) ->
  file (fs ps6) = sf6 :: rest6 -> curhook sf6 = hp :: hooks ->
  post_push ps6 = false -> post_pop ps6 = true ->
  hook_end_seq m ps
  = Ok (m1, set_fs (set_post ps6 false false)
                   {| file := rest6; file_prev := file_prev (fs ps6) |}, brk).
Proof.
  intros M E F C Pu Po. unfold ps_process_hook_end_seq. rewrite M.
  change (int_decr 1) with 0. cbn [in_macro set_in_macro Z.ltb Z.compare Z.eqb negb].
  rewrite E. cbn [bind]. unfold ps_topfile, fs_topfile. rewrite F. cbn [lift bind].
  unfold ps_pop_top_curhook, ps_topfile, fs_topfile, ps_pop_curhook.
  cbn [ps_set_top set_fs fs fs_set_top file lift bind curhook sf_unmark_macro set_macro].
  rewrite C. cbn [lift bind]. unfold ps_set_top, set_fs. cbn [post_push post_pop fs].
  rewrite Pu. cbn [bind post_pop]. rewrite Po. unfold fs_pop_file, set_post.
  cbn [fs file file_prev fs_set_top post_push post_pop lift bind]. unfold set_fs.
  cbn [fs file file_prev post_push post_pop check_buf macro_buf match_buf in_macro
       suspension output flush tl].
  rewrite F. reflexivity.
Qed.

(** [sf_new] looks at the hooks of the file it inherits from and at nothing
    else of it. *)
Lemma sf_init_of_settings (name stream : list byte) (inh cfg : stackfile) :
  hook inh = hook cfg -> hookesc inh = hookesc cfg ->
  multi inh = multi cfg -> multi_cnt inh = multi_cnt cfg ->
  sf_init name stream (Some inh) = sf_init name stream (Some cfg).
Proof. intros H E M C. unfold sf_init. rewrite H, E, M, C. reflexivity. Qed.

(** A hook that the text ahead starts with begins with a byte below
    0x80 when that text does. *)
Lemma low_first_of_text (s x : list byte) :
  cstr s <> [] -> seven_bit (cstr s ++ x) -> low_first (cstr s).
Proof.
  intros Ne S7. unfold low_first. destruct (cstr s) as [|c r]; [contradiction|].
  simpl in *. now apply seven_bit_tail in S7.
Qed.

(** X28: the macro [:include f], met in the setting of [reading],
    [macro_ahead] and [outside_macro] (the parser outside every macro with
    no push or pop pending; the file in single-hook mode without suspension
    string, hooks and escape not empty, the hooks in the first-byte table
    and no byte of the body in it, the escape matching at neither hook; the
    put-back buffer and the text ahead of bytes below 0x80 only), the file
    [f] being one that opens, the escape of the file starting with a byte
    below 0x80: after the turns over the macro the
    file [f] is the top of the input stack, above the file that held the
    macro; it is at its start and has the hooks and the escape of that
    file, as [sf_new] copies them.  The input that is read from here on is
    the content of [f], then what followed the macro, then the files
    below.  Nothing is written, and no push or pop is left pending. *)
Theorem include_macro_reads_the_file (m : mrb_state) (ps : pstate) (cfg : stackfile)
    (rest : list stackfile) (f tail content : list byte) :
  let body := bs ":include " ++ f in
  reading ps cfg rest (macro_text cfg body ++ tail) ->
  macro_ahead cfg body tail -> outside_macro ps ->
  low_first (hookesc cfg) ->
  g_fopen_r (cstr f) = Some content ->
  exists (ps' : pstate) (inc top : stackfile) (l c : Z),
    loop (S (S (length body))) m ps = Ok (m, ps', false)
    /\ file (fs ps') = inc :: top :: rest
    /\ sf_init (cstr f) content (Some cfg) = Ok inc
    /\ settings top = set_macro cfg false l c /\ incoming top = tail
    /\ fs_stream (file (fs ps')) = content ++ tail ++ fs_stream rest
    /\ output ps' = output ps /\ aside ps' = aside ps.
Proof.
  intros body R A Out Lx Op.
  destruct (macro_reaches_end_seq mrb_state mrb_load_string mrb_load_file g_fopen_r
              stdin_bytes stack_default m ps cfg rest body tail R A Out)
    as (ps5 & l & c & E & R5 & Mb & M5 & S5 & O5 & Fl5 & Pu5 & Po5 & Fp5).
  destruct (reading_file _ _ _ _ R5) as (sf5 & F5 & _ & _ & St5 & I5).
  assert (low_first (cstr (beg (hook cfg))) /\ low_first (cstr (end_ (hook cfg))))
    as [Lb Le].
  { destruct A as (_ & _ & Nb & Ne & _). pose proof (reading_seven_bit _ _ _ _ R) as S7.
    unfold macro_text in S7. rewrite <- !app_assoc in S7. split.
    - exact (low_first_of_text _ _ Nb S7).
    - apply seven_bit_app in S7 as [_ S7]. apply seven_bit_app in S7 as [_ S7].
      exact (low_first_of_text _ _ Ne S7). }
  destruct A as (Mc & _).
  (* the file the directive makes *)
  assert (sf_init (cstr f) content (Some sf5) = sf_init (cstr f) content (Some cfg)) as Ext.
  { apply sf_init_of_settings.
    - change (hook sf5) with (hook (settings sf5)). rewrite St5. reflexivity.
    - change (hookesc sf5) with (hookesc (settings sf5)). rewrite St5. reflexivity.
    - change (multi sf5) with (multi (settings sf5)). rewrite St5. reflexivity.
    - change (multi_cnt sf5) with (multi_cnt (settings sf5)). rewrite St5. reflexivity. }
  assert (exists inc : stackfile, sf_init (cstr f) content (Some cfg) = Ok inc)
    as (inc & Ini).
  { unfold sf_init.
    rewrite (sf_update_hook_cache_single
               (set_hooks (sf_zero (cstr f) content) (hookpair_cpy (hook cfg))
                          (g_strdup (hookesc cfg)) None) eq_refl);
      [|exact Lb|exact Le|exact (proj2 (low_first_cstr _) Lx)].
    cbn [bind]. rewrite Mc. eauto. }
  destruct (sf_init_stream _ _ _ _ Ini) as (_ & Fh & Bf & Et & _).
  set (p := set_in_macro ps5 0).
  assert (eval_cmd m p
          = Ok (m, set_post (set_fs p {| file := sf5 :: rest;
                                         file_prev := inc :: file_prev (fs p) |})
                            true (post_pop p), false)) as Ev.
  { unfold ps_eval_cmd, ps_get_macro. cbn [p macro_buf set_in_macro]. rewrite Mb.
    change (Byte.eqb (str0 body) "+") with false. cbv iota. cbn [bind].
    fold p. unfold body. rewrite dispatch_include.
    unfold fs_push_file_delayed, fs_push_file, sf_new.
    cbn [p fs set_in_macro]. rewrite F5, Op. unfold g_strdup. rewrite Ext, Ini.
    cbn [lift bind set_fs fs file file_prev]. reflexivity. }
  rewrite (hook_end_seq_level_1_push m m ps5 _ false sf5 inc rest (file_prev (fs ps5))
             (hookpair_cpy (hook cfg)) (curhook cfg) M5 Ev) in E;
    [|reflexivity
     |change (curhook sf5) with (curhook (settings sf5)); rewrite St5; reflexivity
     |reflexivity|reflexivity|exact Po5].
  eexists _, inc, (set_curhook (sf_unmark_macro sf5) (curhook cfg)), l, c.
  split; [exact E|]. split; [reflexivity|]. split; [exact Ini|].
  split; [apply (settings_after_macro sf5 cfg (hook cfg) l c St5)|].
  split; [exact I5|]. split.
  { cbn [fs set_fs file fs_stream flat_map].
    change (incoming (set_curhook (sf_unmark_macro sf5) (curhook cfg))) with (incoming sf5).
    rewrite I5. unfold incoming, pending. rewrite Et, Bf, Fh. reflexivity. }
  destruct Out as (M0 & S0 & Pu & Po).
  split; [exact O5|]. unfold aside. cbn. congruence.
Qed.

(** X29: a macro whose body is a script (it starts with none of [:], [/],
    [#], [+], [.]) that calls [Mucgly.closeinput] and does nothing else to
    the parser state: at the end of the macro the file that held it is
    closed and taken off the input stack, so that what followed the macro
    in it is never read and the input goes on with the files below.
    Nothing is written, and no push or pop is left pending. The setting is that of
    [reading], [macro_ahead] and [outside_macro]: the parser outside every
    macro with no push or pop pending; the file in single-hook mode without
    suspension string, hooks and escape not empty, the hooks in the
    first-byte table and no byte of the body in it, the escape matching
    neither at the begin nor at the end hook; the put-back buffer and the
    text ahead of bytes below 0x80 only. *)
Theorem closeinput_drops_the_rest_of_the_file (m m1 : mrb_state) (ps : pstate)
    (cfg : stackfile) (rest : list stackfile) (body tail v : list byte) :
  reading ps cfg rest (macro_text cfg body ++ tail) ->
  macro_ahead cfg body tail -> outside_macro ps ->
  Byte.eqb (str0 body) ":" || Byte.eqb (str0 body) "/" || Byte.eqb (str0 body) "#"
  || Byte.eqb (str0 body) "+" || Byte.eqb (str0 body) "." = false ->
  (forall p : pstate,
     exists p' : pstate,
       mrb_mucgly_closeinput p = Ok p'
       /\ mrb_load_string (cstr body) m p = host_value m1 p' v) ->
  exists ps' : pstate,
    loop (S (S (length body))) m ps = Ok (m1, ps', false)
    /\ file (fs ps') = rest
    /\ fs_stream (file (fs ps')) = fs_stream rest
    /\ output ps' = output ps /\ aside ps' = aside ps.
Proof.
  intros R A Out K Host.
  apply orb_false_iff in K as [K Kd]. apply orb_false_iff in K as [K Kp].
  apply orb_false_iff in K as [K Kh]. apply orb_false_iff in K as [Kc Ks].
  destruct (macro_reaches_end_seq mrb_state mrb_load_string mrb_load_file g_fopen_r
              stdin_bytes stack_default m ps cfg rest body tail R A Out)
    as (ps5 & l & c & E & R5 & Mb & M5 & S5 & O5 & Fl5 & Pu5 & Po5 & Fp5).
  destruct (reading_file _ _ _ _ R5) as (sf5 & F5 & _ & _ & St5 & I5).
  set (p := set_in_macro ps5 0).
  assert (eval_cmd m p = Ok (m1, set_post p (post_push p) true, false)) as Ev.
  { unfold ps_eval_cmd, ps_get_macro. cbn [p macro_buf set_in_macro]. rewrite Mb, Kp.
    cbn [bind]. fold p. unfold ps_dispatch. rewrite Kc, Kd, Ks, Kh.
    unfold ps_eval_ruby_str. destruct (Host p) as (p' & Cl & Run).
    rewrite Run. unfold mrb_mucgly_closeinput in Cl. inversion Cl. reflexivity. }
  rewrite (hook_end_seq_level_1_pop m m1 ps5 _ false sf5 rest
             (hookpair_cpy (hook cfg)) (curhook cfg) M5 Ev) in E;
    [|exact F5
     |change (curhook sf5) with (curhook (settings sf5)); rewrite St5; reflexivity
     |exact Pu5|reflexivity].
  eexists. split; [exact E|]. split; [reflexivity|]. split; [reflexivity|].
  destruct Out as (M0 & S0 & Pu & Po).
  split; [exact O5|]. unfold aside. cbn. congruence.
Qed.

End DeferredInput.
(** ** Mucgly.pushoutput and Mucgly.closeoutput *)

Section Redirection.

Variable g_fopen_w : list byte -> bool.
Variable mrb_inspect : mrb_value -> list byte.

Local Abbreviation pushoutput := (mrb_mucgly_pushoutput g_fopen_w).
Local Abbreviation puts := (mrb_mucgly_puts mrb_inspect).
Local Abbreviation text_of := (written_form mrb_inspect).

(** X30: [Mucgly.pushoutput] with an input file on the stack.  When the
    named file opens for writing, it becomes the top outfile, empty and
    unblocked: [Mucgly.ofilename] returns its name and [Mucgly.olinenumber]
    1; what [Mucgly.puts] writes then goes to it and to no outfile below,
    and [Mucgly.closeoutput] gives back the parser state as it was before
    the push.  When the file does not open, [mucgly_fatal] ends the
    process at the place of the top input file, and the name in its
    [Can't open] is the name of that input file. *)
Theorem pushoutput_redirects (ps : pstate) (f : list byte) (top : stackfile)
    (rest : list stackfile) (obj : mrb_value) :
  let s := cstr (text_of obj) in
  file (fs ps) = top :: rest ->
  newlines s + 2 <= 2147483647 ->
  if g_fopen_w (cstr f) then
    exists ps1 ps2 : pstate,
      pushoutput ps f = Ok ps1
      /\ mrb_mucgly_ofilename ps1 = Ok (cstr f)
      /\ mrb_mucgly_olinenumber ps1 = Ok 1
      /\ puts ps1 obj = Ok ps2
      /\ output ps2 = {| of_filename := cstr f; of_fh := s ++ [x0a];
                         of_lineno := newlines s + 1; of_blocked := false |} :: output ps
      /\ mrb_mucgly_closeoutput ps2 = Ok ps
  else
    pushoutput ps f
    = Exit (user_info "fatal error" (place_of (Some top)) (msg_cant_open (filename top)), ps).
Proof.
  intros s F L. unfold mrb_mucgly_pushoutput, ps_push_file, outfile_new.
  destruct (g_fopen_w (cstr f)).
  - cbn [bind]. unfold g_strdup.
    set (o := {| of_filename := cstr f; of_fh := []; of_lineno := 0; of_blocked := false |}).
    assert (0 <= of_lineno o) as L0 by (simpl; lia).
    pose proof (puts_appends mrb_inspect (set_output ps (o :: output ps)) o (output ps) obj
                  eq_refl L0 L) as E.
    eexists _, _. split; [reflexivity|].
    split; [cbn [mrb_mucgly_ofilename output set_output o of_filename];
            now rewrite cstr_idem|].
    split; [reflexivity|]. split; [exact E|].
    split; [reflexivity|].
    unfold mrb_mucgly_closeoutput, ps_pop_file. cbn [output set_output].
    destruct ps; reflexivity.
  - unfold ps_topfile, fs_topfile. rewrite F. reflexivity.
Qed.

End Redirection.

Lemma include_macro_reads_the_file_witness :
  exists (ps' : pstate) (inc top : stackfile) (l c : Z),
    demo_loop 14 (ps_on_base (bs "-<:include inc>-T")) = Ok (tt, ps', false)
    /\ file (fs ps') = [inc; top; sf_default (bs "base") (bs "B")]
    /\ filename inc = bs "inc" /\ hook inc = hook cfg_default
    /\ settings top = set_macro cfg_default false l c
    /\ fs_stream (file (fs ps')) = bs "includedTB".
Proof.
  assert (reading (ps_on_base (bs "-<:include inc>-T")) cfg_default
                  [sf_default (bs "base") (bs "B")] (bs "-<:include inc>-T")) as R
    by (reading_now).
  assert (macro_ahead cfg_default (bs ":include " ++ bs "inc") (bs "T")) as A
    by macro_ahead_by_evaluation.
  assert (outside_macro (ps_on_base (bs "-<:include inc>-T"))) as Out by (repeat split).
  destruct (include_macro_reads_the_file unit no_script no_script one_file [] None tt
              (ps_on_base (bs "-<:include inc>-T")) cfg_default
              [sf_default (bs "base") (bs "B")] (bs "inc") (bs "T") (bs "included")
              R A Out ltac:(low_bytes) eq_refl)
    as (ps' & inc & top & l & c & E & F & Ini & St & _ & Fs & _).
  exists ps', inc, top, l, c. split; [exact E|]. split; [exact F|].
  split; [injection Ini as <-; reflexivity|]. split; [injection Ini as <-; reflexivity|].
  split; [exact St|exact Fs].
Defined.

Lemma closeinput_drops_the_rest_of_the_file_witness :
  exists ps' : pstate,
    ps_process_loop unit closing_script no_script one_file [] None 7 tt
      (ps_on_base (bs "-<close>-T")) = Ok (tt, ps', false)
    /\ file (fs ps') = [sf_default (bs "base") (bs "B")]
    /\ fs_stream (file (fs ps')) = bs "B"
    /\ output ps' = [of_stdout].
Proof.
  assert (reading (ps_on_base (bs "-<close>-T")) cfg_default
                  [sf_default (bs "base") (bs "B")] (bs "-<close>-T")) as R
    by (reading_now).
  assert (macro_ahead cfg_default (bs "close") (bs "T")) as A by macro_ahead_by_evaluation.
  assert (outside_macro (ps_on_base (bs "-<close>-T"))) as Out by (repeat split).
  destruct (closeinput_drops_the_rest_of_the_file unit closing_script no_script one_file []
              None tt tt (ps_on_base (bs "-<close>-T")) cfg_default
              [sf_default (bs "base") (bs "B")] (bs "close") (bs "T") [] R A Out eq_refl
              (fun p => ex_intro _ _ (conj eq_refl eq_refl)))
    as (ps' & E & F & Fs & O & _).
  exists ps'. split; [exact E|]. split; [exact F|]. split; [exact Fs|exact O].
Defined.

Lemma pushoutput_redirects_witness :
  (exists ps1 ps2 : pstate,
     mrb_mucgly_pushoutput one_outfile (ps_text []) (bs "out") = Ok ps1
     /\ mrb_mucgly_ofilename ps1 = Ok (bs "out")
     /\ mrb_mucgly_puts inspect_nil ps1 (mrb_str (bs "hi")) = Ok ps2
     /\ output ps2 = [{| of_filename := bs "out"; of_fh := bs "hi" ++ [x0a];
                         of_lineno := 1; of_blocked := false |}; of_stdout]
     /\ mrb_mucgly_closeoutput ps2 = Ok (ps_text []))
  /\ mrb_mucgly_pushoutput one_outfile (ps_text []) (bs "nodir/out")
     = Exit (user_info "fatal error" (Some (bs "in", 1, 1)) (msg_cant_open (bs "in")),
             ps_text []).
Proof.
  assert (newlines (cstr (bs "hi")) + 2 <= 2147483647) as L by (vm_compute; discriminate).
  split.
  - pose proof (pushoutput_redirects one_outfile inspect_nil (ps_text []) (bs "out")
                  (sf_default (bs "in") []) [] (mrb_str (bs "hi")) eq_refl L) as H.
    cbv zeta in H. change (one_outfile (cstr (bs "out"))) with true in H. cbv iota in H.
    destruct H as (ps1 & ps2 & E1 & N & _ & E2 & O & C).
    exists ps1, ps2. split; [exact E1|]. split; [exact N|]. split; [exact E2|].
    split; [exact O|exact C].
  - exact (pushoutput_redirects one_outfile inspect_nil (ps_text []) (bs "nodir/out")
             (sf_default (bs "in") []) [] (mrb_str (bs "hi")) eq_refl L).
Defined.
